(* ===== verification/_CoqProject ===== *)
-Q . S2P
Prelude.v
Text.v
Net.v
IpText.v
Common.v
LbAlloc.v
Lease.v
Netlink.v
Bgp.v
Grpc.v
Routing.v
RoutingFacts.v
Proxy.v
ProxySync.v
SyncFacts.v
SyncTheorems.v
PlanTheorems.v
DrainFacts.v
ProxyExamples.v
SyncLoop.v
Genetlink.v
GenlFacts.v
GenlTheorems.v
Netpol.v
Synth.v
Filter.v
FilterFacts.v
SynthFacts.v
PlanChains.v
PolicySpec.v
NetpolFacts.v
TailFacts.v
NetpolTheorems.v
KubeSpec.v
Firewall.v
Netfilter.v
NetfilterFacts.v
PassFacts.v
PassTheorems.v
PolicyLoop.v
Agent.v
Observability.v
HttpTheorems.v
MetricsTheorems.v
Cni.v
CniTheorems.v
Clients.v
K8s.v
Wires.v
ServiceTheorems.v
Main.v
ProxyProcess.v
WireTheorems.v
PolicyProcess.v
GrpcTheorems.v
ProcessTheorems.v
LbCluster.v
Start.v
Loops.v
HealthTheorems.v
