(* ===== verification/Prelude.v ===== *)
(** * kube-router-rs: a verification library

    kube-router-rs is an agent that runs on every node of a Kubernetes cluster.
    It watches the API server and programs the kernel of its node: network
    policies as iptables rules and ipsets, services as IPVS virtual servers, pod
    routes, and BGP announcements of pods and service addresses; one elected
    agent also assigns addresses to load-balancer services.  This library
    translates the program's own logic into functions and step relations, and
    proves what the controllers guarantee.

    ** Files, from the source to the model

    Shared:
    - [Prelude] (this file): the effect monad, its triples, generic lemmas on
      lists, options and ordered maps;
    - [Text], [Net], [IpText]: the parts of Rust's standard library the program
      computes with (byte strings, [IpAddr], [FromStr] and [Display]), the crate
      [ipnet] as the interface [IpNetLib], and [common/src/ipfamily.rs];
      [IpText] proves that parsing undoes printing;
    - [Common]: [common/src/naming.rs], [common/src/sysctl.rs].

    Load-balancer addresses ([crates/lballoc], [lballoc_wire.rs]):
    - [LbAlloc]: [Pools] ([pools.rs]), [Allocate] ([allocate.rs]), [Controller]
      ([controller.rs]), [Election] ([election.rs]), with their theorems;
    - [Lease]: [KubeLease], and the race of the agents for the lease as a step
      relation;
    - [LbCluster]: [KubeStatusUpdater] over an API server that checks resource
      versions, and the agents and users of a cluster as a step relation.

    Routing ([crates/routing], [crates/bgp], [crates/netlink-sys]):
    - [Netlink]: [lib.rs], [system.rs], [retry.rs] of netlink-sys;
    - [Bgp]: [path.rs], [engine.rs], [policy.rs] of bgp; [Grpc]: [grpc.rs], the
      engine over gobgp's messages, and [server.rs], its process;
    - [Routing]: one module per file of [crates/routing/src]; [RoutingFacts]:
      their theorems.

    Service proxy ([crates/proxy]):
    - [Proxy]: [model.rs], [ipvs.rs] and the components of a pass, one module
      per file; [ProxySync]: [sync.rs], the pass and its loop;
    - [SyncFacts], [SyncTheorems], [PlanTheorems], [ProxyExamples]: the theorems
      about passes, and a small cluster on which they are instantiated;
      [DrainFacts]: a pass with graceful termination is simulated by one without;
      [SyncLoop]: the loop, whose passes may fail at any step;
    - [Genetlink]: [genetlink.rs] and [SystemIpvs] of [ipvs.rs]; [GenlFacts],
      [GenlTheorems]: the kernel's reader of the messages, and the conversation.

    Network policies ([crates/netpol]):
    - [Netpol]: [model.rs], [naming.rs], [translate.rs], [ipset.rs],
      [iptables.rs]; [Synth]: [synth.rs] and [controller.rs];
    - [Filter]: the specification, that is, what a filter document and sets do
      to a packet; [FilterFacts], [SynthFacts], [PlanChains], [PolicySpec],
      [NetpolFacts], [TailFacts], [NetpolTheorems]: from the lines of a plan to
      what policies permit, blocks as the sets hold them; [KubeSpec]: the meaning
      of policies as the API documents it, without the program's functions, and
      the policies for which the two agree; [Firewall]: the theorems on plans;
    - [Netfilter]: the specification of the commands of a pass, that is, what
      ipset, iptables-restore and iptables do to the sets and tables of a node;
      [NetfilterFacts], [PassFacts], [PassTheorems]: a whole pass of the
      controller on such a node; [PolicyLoop]: the controller over time, with
      passes that fail half-way and stores that change.

    The process ([crates/kube-router-rs], [crates/config],
    [crates/observability], [crates/kube-client]):
    - [Agent]: [Config], [Health], [Orchestrate], [NodeDiscovery], [Cleanup];
    - [Observability]: [http.rs] and [metrics.rs]; [HttpTheorems],
      [MetricsTheorems]: what a client reads back, what is published;
    - [Clients]: [client.rs], [cache.rs] and [informers.rs] of kube-client, and
      [crates/cri];
    - [K8s]: records for the API objects; [Wires]: [netpol_wire.rs],
      [proxy_wire.rs], [svc_vip_wire.rs], [lballoc_wire.rs] and
      [routing_wire.rs], from those objects to the inputs of the controllers;
    - [Cni]: [crates/cni], the CNI configuration; [CniTheorems];
    - [Main]: what [main.rs] and [routing_wire.rs] build from the flags and the
      stores, and the loops of [main.rs]; [WireTheorems]: the projections;
      [ServiceTheorems]: from the services of the stores to the kernel, and
      [ProxyProcess]: from the flags on, with the handlers of the system;
      [PolicyProcess]: the policy controller from the flags and the objects of the
      API server to the packets;
      [GrpcTheorems]: two nodes, from the advertiser of one to the kernel of the
      other; [ProcessTheorems]: the allocator task, the choice of the BGP engine
      and the announcer of service addresses;
    - [Start]: [main] up to the controllers it spawns, what each of them starts
      from, the start and end of the routing controller; [Loops]: the loops of
      the process with their periods and heartbeats; [HealthTheorems]: the
      health of the whole process over time.

    ** How the parts interact

    The informers fill stores of API objects.  [Wires] projects a store to the
    input of a controller: [policy_snapshot] feeds
    [PolicyController.policy_reconcile], [map_services] feeds
    [ProxySync.make_plan], [map_svc_vips] feeds
    [ServiceVips.advertised_service_vips], [lb_services] the allocator,
    [bgp_nodes] and [node_routes] the routing controllers.  The controllers call
    the kernel through classes ([NetlinkOps], [IpvsOps], [BgpEngine],
    [CommandRunner], ...), the program's traits, whose instances are the
    program's implementations of them.  A method that changes state or fails is
    a function in the monad [M] below: an error keeps the state reached so far.

    ** What the theorems show

    - Firewall: the forward chain decides the packets of new connections as the
      meaning of the policies to Kubernetes ([KubeSpec.kube_verdict]) demands, for
      policies that are [policy_plain] and packets that have no pod at both ends
      and whose ends no policy of both types shares.  Where these conditions fail
      the code can differ: blocks of one rule that interact ([interacting_blocks]),
      two named ports of a rule ([named_ports_share_set]), policies of both types
      ([both_types_ingress_opens_egress]).  A pass carried out by commands that do
      what their manuals say succeeds and leaves a kernel that decides packets in
      this way; two inputs with which no pass succeeds.  So does every tick of the
      controller whose plans can be carried out, whatever earlier ticks left
      behind; and no tick removes the chains and sets of policies and pods that
      are gone.
    - Proxy: failed passes are harmless and from the first successful one on the
      loop keeps the table at the desired services, apart from destinations that
      drain in the queue; the table is that of the calls that report success.  The
      plan is what the services ask for ([exposed], [usable], [serving] and
      [dsr_jobs] of [PlanTheorems], stated apart from the planning code); a pass
      on what is recorded already programs nothing; the state stays
      well-formed; the queue of draining destinations drains; from the flags and
      the stores of services and endpoint slices, the table gets exactly the
      exposed addresses with exactly the sockets of ready endpoints, when no two
      services expose the same address, protocol and port; services of
      the kernel that the process did not program stay for good.
    - Generic netlink: requests decode to what they mean, every command reaches
      the kernel once, and what the kernel answers is not seen.
    - Allocator: addresses are unique, in range and exhausted only when all are
      taken; of two agents that claim the lease one claimed it a lease duration
      ago, in the whole seconds the program counts in; over the whole cluster no
      address is held twice, whatever objects users write, as long as these ask
      for no address of the pools, passes do not overlap and begin from a store
      that has caught up with the server.
    - Routing: pod routes, announcements and peers converge; the derived iBGP
      topology is the specified one; injected routes are those by the last
      event of each prefix; what one node announces through gobgp, another installs.
    - Process: validation, health and the projections, and what they let
      through; the allocator over its whole life; the addresses of services from
      the stores to the speaker; the CNI configuration keeps what it does not
      understand; the probe of [/healthz] from bytes to bytes; the metrics after a
      pass; when the probe of a whole process answers 200, and when it cannot.
    - Theorems of kind error state precisely what the code does where that is
      not what it means to do; each has a run that shows it.

    ** Bounds and fuel

    - [Filter] runs a packet with [JUMP_DEPTH] = 3 nested jumps: top chain, pod
      chain, policy chain; the theorems compute the outcome, so it is enough.
    - [Pools.next_free_ip] has fuel for one turn of the cursor around all
      ranges; [next_free_ip_returns] shows that it is enough.
    - [scan_family] has fuel one more than the bytes of the reply;
      [scan_family_correct] shows that it is enough.
    - [wait_port_ready] probes every 20 milliseconds, at most 502 times for its
      ten seconds; [wait_port_ready_ends] shows that it is enough.
    - [watch_loop] has fuel for the messages of the stream, which may never end;
      the theorems take the messages as they come.
    - Other recursion is structural, on lists of work or of outcomes.  Loops
      that wait for events ([sync_run], [receive_side_inject], the ticks of
      the election) are folds over the sequence of what wakes them.
    - Machine integers are [Z] with the program's conversions ([to_u16],
      [mod 2 ^ 32], ...) written out.

    ** Assumptions

    Third-party crates and the system outside the program are parameters:
    [IpNetLib] with [IpNetLaws] (ipnet; [ref_net_lib] is an instance), [HashLib]
    with [HashLaws] (SHA-256 and Base32), the YAML readers, [FilterLib] with
    [FilterLaws] and [FilterNetLaws] (set membership and masked address tests of
    netfilter; a set of networks decides by the smallest one that contains the
    address),
    [IpsetEntries] and [NetfilterLaws] (the entries a set takes, and what the
    commands of the firewall do, failing scripts included; [Host] is an instance),
    [NetlinkSockets] with [NetlinkLaws] (netlink(7)), [RoutingKernel] (the kernel
    takes routes by a gateway of their family), [FilterTable] (what
    iptables -F and -X do), [GoBgpServiceClient] and [ProcessOps] with
    [ClockLaws] (the gobgp client, processes and time), [JsonText] (serde_json),
    [Gauges] with [GaugeLaws] (the crate prometheus), [Connection] and
    [TcpListeners] (sockets), [KubeConfigs] and [Informers] (the crate kube),
    [RuntimeServiceClient] (the generated CRI client), [StatusApi] (services of
    the API server) and the API server's [serve].  Every theorem with a
    hypothesis has a run where it holds.  The convergence of the proxy is proved
    for IPVS operations that report their failures; [SystemIpvs] over netlink
    does not ([kernel_refusals_unseen]).  The agents of [Lease] share one clock.
    The chains of a plan are taken to have distinct names, that is, truncated
    hashes do not collide on the policies and pods at hand; over time, the name of
    a set is taken to determine its type and family ([kinded]).  In [SyncLoop] the
    commands of iptables and ipset leave the IPVS table alone ([quiet_handlers]).

    ** Not modelled

    Logging ([observability/src/logging.rs] sets up the crate tracing), the
    parsing of the command line (the crate clap), signals, and the tasks of the
    runtime: threads, signals and timers appear only as the order of steps.  The
    constructors of structs whose only work is to store their arguments are the
    constructors of the records, and the recording mocks that only tests read
    are modelled where a theorem uses one. *)

From stdpp Require Import gmap sets list strings sorting pretty.

(** ** The effect monad

    A Rust method that takes [&mut self] (or performs operating-system calls)
    and returns [Result<A, E>] is a function from the state to an error or a
    value, together with the state reached.  An error keeps the state reached so
    far: nothing is rolled back when [?] leaves a method early. *)

Definition M (S E A : Type) : Type := S → (E + A) * S.

#[export] Instance M_ret S E : MRet (M S E) := λ A a s, (inr a, s).
#[export] Instance M_bind S E : MBind (M S E) := λ A B k m s,
  match m s with
  | (inr a, s') => k a s'
  | (inl e, s') => (inl e, s')
  end.
#[export] Instance M_fmap S E : FMap (M S E) := λ A B f m s,
  match m s with
  | (inr a, s') => (inr (f a), s')
  | (inl e, s') => (inl e, s')
  end.

Definition mfail {S E A} (e : E) : M S E A := λ s, (inl e, s).
Definition mget {S E} : M S E S := λ s, (inr s, s).
Definition mput {S E} (s : S) : M S E unit := λ _, (inr tt, s).
Definition mmodify {S E} (f : S → S) : M S E unit := λ s, (inr tt, f s).

(** [for x in l { body(x)?; }] *)
Fixpoint mfor {S E A} (l : list A) (body : A → M S E unit) : M S E unit :=
  match l with
  | [] => mret tt
  | x :: l' => body x ;; mfor l' body
  end.

(** [if c { m?; }] *)
Definition mwhen {S E} (c : bool) (m : M S E unit) : M S E unit :=
  if c then m else mret tt.

(** [m.map_err(f)] *)
Definition mmap_err {S E E' A} (f : E → E') (m : M S E A) : M S E' A := λ s,
  match m s with
  | (inr a, s') => (inr a, s')
  | (inl e, s') => (inl (f e), s')
  end.

(** Running a method of a component inside a larger state. *)
Definition mzoom {S T E A} (get : T → S) (set : S → T → T) (m : M S E A) : M T E A := λ t,
  match m (get t) with
  | (r, s') => (r, set s' t)
  end.

(** Run a call beside a note [G]; when it succeeds, update the note.  Theorems
    about what a component has told its environment are stated on such notes, and
    so hold for every environment, failing ones included. *)
Definition noting {W G E A} (f : G → G) (m : M W E A) : M (W * G) E A := λ s,
  match m s.1 with
  | (inr a, w) => (inr a, (w, f s.2))
  | (inl e, w) => (inl e, (w, s.2))
  end.

(** ** Hoare triples with an error postcondition *)

Definition triple {S E A} (P : S → Prop) (m : M S E A)
    (Q : A → S → Prop) (R : E → S → Prop) : Prop :=
  ∀ s, P s →
    match m s with
    | (inr a, s') => Q a s'
    | (inl e, s') => R e s'
    end.

Create HintDb triples.
Create Rewrite HintDb text.

Section triple_rules.
Context {S E : Type}.
Implicit Types (P : S → Prop) (R : E → S → Prop).

Lemma triple_ret {A} (a : A) P (Q : A → S → Prop) R :
  (∀ s, P s → Q a s) → triple P (mret a : M S E A) Q R.
Proof. intros H s Hs. exact (H s Hs). Qed.

Lemma triple_bind {A B} P (m : M S E A) (k : A → M S E B)
    (Q : A → S → Prop) (Q' : B → S → Prop) R :
  triple P m Q R → (∀ a, triple (Q a) (k a) Q' R) → triple P (m ≫= k) Q' R.
Proof.
  intros Hm Hk s Hs. unfold mbind, M_bind. specialize (Hm s Hs).
  destruct (m s) as [[e|a] s']; [done|]. exact (Hk a s' Hm).
Qed.

Lemma triple_conseq {A} P P' (m : M S E A) (Q Q' : A → S → Prop) R R' :
  triple P m Q R → (∀ s, P' s → P s) → (∀ a s, Q a s → Q' a s) →
  (∀ e s, R e s → R' e s) → triple P' m Q' R'.
Proof.
  intros Hm HP HQ HR s Hs. specialize (Hm s (HP s Hs)).
  destruct (m s) as [[e|a] s']; eauto.
Qed.

(** The loop rule: the invariant speaks of the prefix already processed. *)
Lemma triple_for {A} (l : list A) (body : A → M S E unit) (I : list A → S → Prop) R :
  (∀ done x rest, l = done ++ x :: rest →
     triple (I done) (body x) (λ _, I (done ++ [x])) R) →
  triple (I []) (mfor l body) (λ _, I l) R.
Proof.
  assert (∀ done rest, l = done ++ rest →
      (∀ done x rest, l = done ++ x :: rest →
         triple (I done) (body x) (λ _, I (done ++ [x])) R) →
      triple (I done) (mfor rest body) (λ _, I l) R) as Hgen.
  { intros done rest; revert done; induction rest as [|x rest IH]; intros done Hl Hb.
    - rewrite app_nil_r in Hl; subst done. intros s Hs; exact Hs.
    - cbn [mfor]. eapply triple_bind; [exact (Hb done x rest Hl)|].
      intros []. apply IH; [|exact Hb]. by rewrite Hl, <- app_assoc. }
  intros Hb. exact (Hgen [] l eq_refl Hb).
Qed.

Lemma triple_modify (f : S → S) P (Q : unit → S → Prop) R :
  (∀ s, P s → Q tt (f s)) → triple P (mmodify f : M S E unit) Q R.
Proof. intros H s Hs. exact (H s Hs). Qed.
End triple_rules.

#[export] Hint Resolve triple_ret triple_modify : triples.

(** A loop of noted calls: the note has the effects of the calls that succeeded,
    in order, which are all of them when the loop succeeds. *)
Lemma mfor_noting {W G E A} (op : A → M W E unit) (f : A → G → G) (l : list A)
    (s s' : W * G) r :
  mfor l (λ x, noting (f x) (op x)) s = (r, s') →
  ∃ done rest, l = done ++ rest ∧ s'.2 = foldl (λ g x, f x g) s.2 done ∧
               (r = inr tt → rest = []).
Proof.
  revert s. induction l as [|x l IH]; intros s; cbn [mfor].
  { intros [= <- <-]. exists [], []. done. }
  unfold mbind, M_bind. unfold noting at 1. destruct (op x s.1) as [[e|[]] w].
  { intros [= <- <-]. exists [], (x :: l). done. }
  intros (done & rest & -> & Hs & Hr)%IH. by exists (x :: done), rest.
Qed.

(** ** Maps built by a loop *)

Section fold_map.
Context {K V A : Type} `{Countable K} (key : A → K) (val : A → V).

Definition insert_all (m : gmap K V) (l : list A) : gmap K V :=
  foldl (λ m x, <[key x := val x]> m) m l.
Definition delete_all (m : gmap K V) (l : list A) : gmap K V :=
  foldl (λ m x, delete (key x) m) m l.

Lemma insert_all_notin m l k : k ∉ key <$> l → insert_all m l !! k = m !! k.
Proof.
  revert m. induction l as [|x l IH]; intros m Hk; [done|]. cbn.
  rewrite fmap_cons, not_elem_of_cons in Hk. destruct Hk as [Hx Hk].
  unfold insert_all in IH. rewrite IH by done. by rewrite lookup_insert_ne.
Qed.

Lemma insert_all_in m l x :
  NoDup (key <$> l) → x ∈ l → insert_all m l !! key x = Some (val x).
Proof.
  revert m. induction l as [|y l IH]; intros m Hnd Hx; [by apply elem_of_nil in Hx|].
  rewrite fmap_cons, NoDup_cons in Hnd. destruct Hnd as [Hy Hnd].
  apply elem_of_cons in Hx as [->|Hx].
  - cbn. fold (insert_all (<[key y := val y]> m) l).
    rewrite insert_all_notin by done. apply lookup_insert_eq.
  - exact (IH _ Hnd Hx).
Qed.

(** Without the assumption on the keys: some element with that key is there. *)
Lemma insert_all_inv m l k v :
  insert_all m l !! k = Some v →
  (∃ x, x ∈ l ∧ key x = k ∧ val x = v) ∨ ((k ∉ key <$> l) ∧ m !! k = Some v).
Proof.
  revert m. induction l as [|x l IH]; intros m Hl.
  { right. split; [apply not_elem_of_nil|done]. }
  destruct (IH (<[key x := val x]> m) Hl) as [(y & Hy & Hk & Hv)|[Hn Hl']].
  { left. exists y. split; [by apply elem_of_cons; right|done]. }
  destruct (decide (key x = k)) as [<-|Hne].
  - rewrite lookup_insert_eq in Hl'. simplify_eq. left. exists x.
    split; [by apply elem_of_cons; left|done].
  - rewrite lookup_insert_ne in Hl' by done. right. split; [|done].
    rewrite fmap_cons, not_elem_of_cons. done.
Qed.

Lemma insert_all_is_Some m l k :
  (k ∈ key <$> l) ∨ is_Some (m !! k) → is_Some (insert_all m l !! k).
Proof.
  revert m. induction l as [|x l IH]; intros m Hk.
  { destruct Hk as [Hk|Hk]; [by apply elem_of_nil in Hk|done]. }
  cbn. apply IH. destruct (decide (key x = k)) as [<-|Hne].
  - right. by rewrite lookup_insert_eq.
  - rewrite lookup_insert_ne by done. destruct Hk as [Hk|Hk]; [|by right].
    rewrite fmap_cons in Hk. apply elem_of_cons in Hk as [->|Hk]; [done|by left].
Qed.

Lemma delete_all_in m l k : k ∈ key <$> l → delete_all m l !! k = None.
Proof.
  revert m. induction l as [|x l IH]; intros m Hk; [by apply elem_of_nil in Hk|].
  destruct (decide (k ∈ key <$> l)) as [Hin|Hin]; [by apply (IH (delete (key x) m))|].
  rewrite fmap_cons in Hk. apply elem_of_cons in Hk as [->|Hk]; [|done]. clear IH. cbn.
  assert (∀ m' : gmap K V, m' !! key x = None → delete_all m' l !! key x = None) as Hgen.
  { clear. induction l as [|y l IH]; intros m' Hm'; [done|]. cbn. apply IH.
    destruct (decide (key y = key x)) as [->|]; [apply lookup_delete_eq|].
    by rewrite lookup_delete_ne. }
  apply Hgen, lookup_delete_eq.
Qed.

Lemma delete_all_notin m l k : k ∉ key <$> l → delete_all m l !! k = m !! k.
Proof.
  revert m. induction l as [|x l IH]; intros m Hk; [done|]. cbn.
  rewrite fmap_cons, not_elem_of_cons in Hk. destruct Hk as [Hx Hk].
  unfold delete_all in IH. rewrite IH by done. by rewrite lookup_delete_ne.
Qed.
End fold_map.

(** ** Ordered maps and sets

    Rust's [BTreeMap] and [BTreeSet] are finite maps and sets that are iterated
    in key order.  The map is a [gmap]; [btree_iter] is the iteration order. *)

Class KeyOrder (K : Type) `{EqDecision K} := {
  key_le : relation K;
  key_le_dec :: RelDecision key_le;
  key_le_po :: PartialOrder key_le;
  key_le_total :: Total key_le;
}.

#[export] Instance string_key_order : KeyOrder string := {| key_le := String.le |}.

#[export] Program Instance Z_key_order : KeyOrder Z := {| key_le := Z.le |}.

Section btree.
Context {K : Type} `{Countable K} `{!KeyOrder K}.

Definition entry_le {V} : relation (K * V) := λ a b, key_le a.1 b.1.
#[export] Instance entry_le_dec {V} : RelDecision (@entry_le V).
Proof. intros a b. unfold entry_le. apply _. Defined.
#[export] Instance entry_le_total {V} : Total (@entry_le V).
Proof. intros a b. apply (total key_le). Qed.
#[export] Instance entry_le_trans {V} : Transitive (@entry_le V).
Proof. intros a b c. unfold entry_le. apply transitivity. Qed.

(** [m.iter()] and [m.values()] of a [BTreeMap]. *)
Definition btree_iter {V} (m : gmap K V) : list (K * V) :=
  merge_sort entry_le (map_to_list m).
Definition btree_values {V} (m : gmap K V) : list V := (btree_iter m).*2.
Definition btree_keys {V} (m : gmap K V) : list K := (btree_iter m).*1.

(** [s.iter()] of a [BTreeSet]. *)
Definition bset_iter (X : gset K) : list K := merge_sort key_le (elements X).

Lemma btree_iter_perm {V} (m : gmap K V) : btree_iter m ≡ₚ map_to_list m.
Proof. apply merge_sort_Permutation. Qed.

Lemma elem_of_btree_iter {V} (m : gmap K V) k v :
  (k, v) ∈ btree_iter m ↔ m !! k = Some v.
Proof. by rewrite btree_iter_perm, elem_of_map_to_list. Qed.

Lemma btree_iter_NoDup_keys {V} (m : gmap K V) : NoDup (btree_iter m).*1.
Proof. rewrite btree_iter_perm. apply NoDup_fst_map_to_list. Qed.

Lemma btree_iter_sorted {V} (m : gmap K V) : StronglySorted entry_le (btree_iter m).
Proof. apply StronglySorted_merge_sort; apply _. Qed.

Lemma elem_of_bset_iter (X : gset K) k : k ∈ bset_iter X ↔ k ∈ X.
Proof. unfold bset_iter. by rewrite merge_sort_Permutation, elem_of_elements. Qed.

Lemma bset_iter_NoDup (X : gset K) : NoDup (bset_iter X).
Proof. unfold bset_iter. rewrite merge_sort_Permutation. apply NoDup_elements. Qed.
End btree.

(** ** Lists *)

(** [l.iter().filter_map(f).collect()] *)
Definition filter_map {A B} (f : A → option B) (l : list A) : list B :=
  omap f l.

(** [l.contains(x)] *)
Definition list_contains {A} `{EqDecision A} (l : list A) (x : A) : bool :=
  bool_decide (x ∈ l).

Lemma list_contains_true {A} `{EqDecision A} (l : list A) x :
  list_contains l x = true ↔ x ∈ l.
Proof. unfold list_contains. by rewrite bool_decide_eq_true. Qed.

Lemma list_contains_false {A} `{EqDecision A} (l : list A) x :
  list_contains l x = false ↔ x ∉ l.
Proof. unfold list_contains. by rewrite bool_decide_eq_false. Qed.

(** Pigeonhole: a duplicate-free list inside another one is not longer. *)
Lemma NoDup_subseteq_length {A} (l k : list A) :
  NoDup l → (∀ x, x ∈ l → x ∈ k) → length l ≤ length k.
Proof.
  intros Hl Hsub. apply NoDup_submseteq in Hsub; [|done].
  by apply submseteq_length.
Qed.

Lemma NoDup_fmap_filter {A B} (f : A → B) (P : A → Prop) `{!∀ x, Decision (P x)} (l : list A) :
  NoDup (f <$> l) → NoDup (f <$> filter P l).
Proof. intros Hnd. eapply sublist_NoDup; [exact Hnd|]. apply fmap_sublist, sublist_filter. Qed.

Lemma NoDup_fmap_elem_inj {A B} (f : A → B) (l : list A) x y :
  NoDup (f <$> l) → x ∈ l → y ∈ l → f x = f y → x = y.
Proof.
  induction l as [|z l IH]; [intros _ Hx; by apply elem_of_nil in Hx|].
  rewrite fmap_cons, NoDup_cons. intros [Hz Hnd] Hx Hy Hf.
  apply elem_of_cons in Hx as [->|Hx], Hy as [->|Hy]; [done| | |by apply IH].
  - destruct Hz. rewrite Hf. by apply list_elem_of_fmap_2.
  - destruct Hz. rewrite <-Hf. by apply list_elem_of_fmap_2.
Qed.

Lemma bind_singletons {A B} (f : A → B) (l : list A) : (l ≫= λ x, [f x]) = f <$> l.
Proof. induction l as [|x l IH]; [done|]. by rewrite bind_cons, IH. Qed.

Lemma bind_assoc {A B C} (f : A → list B) (g : B → list C) (l : list A) :
  (l ≫= f) ≫= g = l ≫= λ x, f x ≫= g.
Proof. induction l as [|x l IH]; [done|]. by rewrite !bind_cons, bind_app, IH. Qed.

Lemma existsb_bind {A B} (f : B → bool) (g : A → list B) l :
  existsb f (l ≫= g) = existsb (λ x, existsb f (g x)) l.
Proof. induction l as [|x l IH]; [done|]. rewrite bind_cons, existsb_app. cbn. by rewrite IH. Qed.

Lemma existsb_fmap {A B} (f : B → bool) (g : A → B) l : existsb f (g <$> l) = existsb (λ x, f (g x)) l.
Proof. induction l as [|x l IH]; [done|]. rewrite fmap_cons. cbn. by rewrite IH. Qed.

Lemma existsb_andb_r {A} (f : A → bool) b l : existsb (λ x, f x && b) l = existsb f l && b.
Proof. induction l as [|x l IH]; [done|]. cbn. rewrite IH. by destruct (f x), b, (existsb f l). Qed.

Lemma existsb_ext_in {A} (f g : A → bool) l :
  (∀ x, x ∈ l → f x = g x) → existsb f l = existsb g l.
Proof.
  induction l as [|x l IH]; intros Hfg; [done|]. cbn. rewrite (Hfg x), IH; [done|..].
  - intros y Hy. apply Hfg, elem_of_cons. by right.
  - apply elem_of_cons. by left.
Qed.

(** Existence over two lists, in either order. *)
Lemma existsb_swap {A B} (f : A → B → bool) l k :
  existsb (λ x, existsb (f x) k) l = existsb (λ y, existsb (λ x, f x y) l) k.
Proof.
  induction l as [|x l IH]; cbn; [by induction k|]. rewrite IH. clear IH.
  induction k as [|y k IH]; [done|]. cbn. rewrite <-IH.
  by destruct (f x y), (existsb (f x) k), (existsb (λ x0, f x0 y) l).
Qed.

Lemma existsb_orb {A} (f g : A → bool) l :
  existsb (λ x, f x || g x) l = existsb f l || existsb g l.
Proof. induction l as [|x l IH]; [done|]. cbn. rewrite IH. by destruct (f x), (g x), (existsb f l). Qed.

Lemma existsb_andb_l {A} (f : A → bool) b l : existsb (λ x, b && f x) l = b && existsb f l.
Proof. induction l as [|x l IH]; cbn; [by rewrite andb_false_r|]. rewrite IH. by destruct b. Qed.

Lemma omap_fmap_some {A B C} (f : A → B) (g : B → option C) (h : A → C) (l : list A) :
  (∀ x, g (f x) = Some (h x)) → omap g (f <$> l) = h <$> l.
Proof. intros Hg. induction l as [|x l IH]; [done|]. rewrite !fmap_cons. cbn. by rewrite Hg, IH. Qed.
Lemma omap_fmap_none {A B C} (f : A → B) (g : B → option C) (l : list A) :
  (∀ x, g (f x) = None) → omap g (f <$> l) = [].
Proof. intros Hg. induction l as [|x l IH]; [done|]. rewrite fmap_cons. cbn. by rewrite Hg, IH. Qed.
Lemma forallb_existsb {A} (f : A → bool) l : forallb f l = negb (existsb (λ x, negb (f x)) l).
Proof. induction l as [|x l IH]; [done|]. cbn. rewrite IH. by destruct (f x). Qed.

Lemma bind_ext_in {A B} (f g : A → list B) l : (∀ x, x ∈ l → f x = g x) → l ≫= f = l ≫= g.
Proof.
  induction l as [|x l IH]; intros Hfg; [done|]. rewrite !bind_cons, IH.
  - f_equal. apply Hfg, list_elem_of_here.
  - intros y Hy. by apply Hfg, list_elem_of_further.
Qed.

Lemma bind_none {A B} (f : A → list B) (l : list A) : (∀ x, x ∈ l → f x = []) → l ≫= f = [].
Proof.
  induction l as [|x l IH]; intros Hl; [done|]. rewrite bind_cons, (Hl x), IH; [done|..].
  - intros y Hy. apply Hl, elem_of_cons. by right.
  - apply elem_of_cons. by left.
Qed.

(** Only one element of a list contributes. *)
Lemma bind_unique {A B K} (key : A → K) (f : A → list B) (l : list A) x :
  NoDup (key <$> l) → x ∈ l → (∀ y, y ∈ l → key y ≠ key x → f y = []) → l ≫= f = f x.
Proof.
  induction l as [|y l IH]; [intros _ Hx; by apply elem_of_nil in Hx|].
  rewrite fmap_cons, NoDup_cons, bind_cons. intros [Hy Hnd] Hx Hf.
  apply elem_of_cons in Hx as [->|Hx].
  - rewrite bind_none; [by rewrite app_nil_r|]. intros z Hz. apply Hf.
    + apply elem_of_cons. by right.
    + intros Heq. destruct Hy. rewrite <-Heq. by apply list_elem_of_fmap_2.
  - rewrite (Hf y); [cbn; apply IH; [done|done|]|..].
    + intros z Hz. apply Hf, elem_of_cons. by right.
    + apply elem_of_cons. by left.
    + intros Heq. destruct Hy. rewrite Heq. by apply list_elem_of_fmap_2.
Qed.

Lemma filter_all {A} (P : A → Prop) `{!∀ x, Decision (P x)} (l : list A) :
  (∀ x, x ∈ l → P x) → filter P l = l.
Proof.
  induction l as [|x l IH]; intros Hl; [done|].
  rewrite filter_cons_True by (apply Hl; by left). f_equal. apply IH. intros y Hy. apply Hl.
  by right.
Qed.

Lemma filter_none {A} (P : A → Prop) `{!∀ x, Decision (P x)} (l : list A) :
  (∀ x, x ∈ l → ¬ P x) → filter P l = [].
Proof.
  induction l as [|x l IH]; intros Hl; [done|]. rewrite filter_cons, decide_False.
  - apply IH. intros y Hy. apply Hl. apply elem_of_cons. by right.
  - apply Hl, elem_of_cons. by left.
Qed.

(** Case analysis on every [match] and [if] of the goal and hypotheses. *)
Ltac destruct_cases :=
  repeat (case_match; simplify_eq/=; try done).

(** Split boolean conjunctions of hypotheses into propositions. *)
Ltac bool_hyps :=
  repeat match goal with
  | H : (_ && _) = true |- _ => apply andb_true_iff in H as [? ?]
  | H : (_ || _) = false |- _ => apply orb_false_iff in H as [? ?]
  | H : negb _ = true |- _ => apply negb_true_iff in H
  | H : negb _ = false |- _ => apply negb_false_iff in H
  | H : bool_decide _ = true |- _ => apply bool_decide_eq_true in H
  | H : bool_decide _ = false |- _ => apply bool_decide_eq_false in H
  end.

(** Run the monadic combinators of the goal. *)
Ltac munfold :=
  unfold mbind, M_bind, mret, M_ret, fmap, M_fmap, mget, mput, mmodify, mfail, mwhen,
    mzoom, mmap_err; cbn beta iota.
