(* ===== verification/Text.v ===== *)
(** * Text: the string and number functions of Rust's standard library

    A Rust [str] is the string of its bytes.  The functions below are the ones
    the program calls; on the bytes of ASCII text (annotation values, addresses,
    flag values, names) they agree with the standard library.  Numbers are
    printed by [pretty] of stdpp, which writes decimal notation without leading
    zeros, as [Display] does. *)

From stdpp Require Import gmap strings list pretty.
From Stdlib Require Import Ascii ZArith Lia.
From S2P Require Import Prelude.

Local Open Scope Z_scope.

(** ** Characters *)

Definition byte_of (c : ascii) : Z := Z.of_N (N_of_ascii c).

Definition is_digit (c : ascii) : bool := (48 <=? byte_of c) && (byte_of c <=? 57).

Definition digit_val (c : ascii) : Z := byte_of c - 48.

(** [char::to_ascii_uppercase] / [to_ascii_lowercase] *)
Definition upper_ascii (c : ascii) : ascii :=
  if (97 <=? byte_of c) && (byte_of c <=? 122)
  then ascii_of_N (N_of_ascii c - 32) else c.
Definition lower_ascii (c : ascii) : ascii :=
  if (65 <=? byte_of c) && (byte_of c <=? 90)
  then ascii_of_N (N_of_ascii c + 32) else c.

(** ** Strings *)

Fixpoint str_map (f : ascii → ascii) (s : string) : string :=
  match s with
  | EmptyString => EmptyString
  | String c s => String (f c) (str_map f s)
  end.

Definition to_ascii_uppercase : string → string := str_map upper_ascii.
Definition to_ascii_lowercase : string → string := str_map lower_ascii.

Definition str_is_empty (s : string) : bool :=
  match s with EmptyString => true | _ => false end.

Fixpoint str_contains_char (c : ascii) (s : string) : bool :=
  match s with
  | EmptyString => false
  | String d s => bool_decide (c = d) || str_contains_char c s
  end.

(** [s.starts_with(p)] and [s.strip_prefix(p)] *)
Fixpoint strip_prefix (p s : string) : option string :=
  match p, s with
  | EmptyString, _ => Some s
  | String c p, String d s => if decide (c = d) then strip_prefix p s else None
  | String _ _, EmptyString => None
  end.
Definition starts_with (p s : string) : bool := bool_decide (is_Some (strip_prefix p s)).

(** [s.contains(sub)] for a string pattern. *)
Fixpoint str_contains (sub s : string) : bool :=
  starts_with sub s ||
  match s with
  | EmptyString => false
  | String _ s => str_contains sub s
  end.

(** [s.trim()] on ASCII white space. *)
Fixpoint trim_start (s : string) : string :=
  match s with
  | String c s' => if Ascii.is_space c then trim_start s' else s
  | EmptyString => EmptyString
  end.
Definition trim (s : string) : string :=
  String.rev (trim_start (String.rev (trim_start s))).

(** [s.split(p)] for a predicate on characters: the pieces between separators,
    empty ones included. *)
Fixpoint split_go (p : ascii → bool) (cur : string) (s : string) : list string :=
  match s with
  | EmptyString => [String.rev cur]
  | String c s => if p c then String.rev cur :: split_go p "" s
                  else split_go p (String c cur) s
  end.
Definition split_by (p : ascii → bool) (s : string) : list string := split_go p "" s.
Definition split_char (c : ascii) : string → list string :=
  split_by (λ d, bool_decide (c = d)).

(** [s.split_once(p)]: the text before and after the first separator. *)
Fixpoint split_once_go (p : ascii → bool) (cur : string) (s : string)
    : option (string * string) :=
  match s with
  | EmptyString => None
  | String c s => if p c then Some (String.rev cur, s)
                  else split_once_go p (String c cur) s
  end.
Definition split_once_by (p : ascii → bool) (s : string) : option (string * string) :=
  split_once_go p "" s.
Definition split_once (c : ascii) : string → option (string * string) :=
  split_once_by (λ d, bool_decide (c = d)).

(** [s.rsplit_once(c)]: the text before and after the last separator. *)
Definition rsplit_once (c : ascii) (s : string) : option (string * string) :=
  match split_once c (String.rev s) with
  | Some (b, a) => Some (String.rev a, String.rev b)
  | None => None
  end.

(** [s.split_whitespace()]: the non-empty runs between white space. *)
Definition split_whitespace : string → list string := String.words.

Definition newline : string := String "010"%char EmptyString.

(** [l.join(sep)] *)
Fixpoint str_join (sep : string) (l : list string) : string :=
  match l with
  | [] => ""
  | [s] => s
  | s :: l => s +:+ sep +:+ str_join sep l
  end.

Lemma append_cons c s t : String c s +:+ t = String c (s +:+ t).
Proof. reflexivity. Qed.
Lemma append_nil_l t : "" +:+ t = t.
Proof. reflexivity. Qed.
#[export] Hint Rewrite append_cons append_nil_l : text.

(** [out.push_str(x)] for each [x] of a list. *)
Definition str_concat (l : list string) : string := foldr String.append "" l.

(** ** Unsigned integers *)

(** Decimal digits to a number; [None] on any other character. *)
Fixpoint parse_digits (acc : Z) (s : string) : option Z :=
  match s with
  | EmptyString => Some acc
  | String c s => if is_digit c then parse_digits (10 * acc + digit_val c) s else None
  end.

Definition digits_nonempty (s : string) : option Z :=
  if str_is_empty s then None else parse_digits 0 s.

(** [s.parse::<uN>()] with [max] the largest value of the type: an optional
    plus sign, at least one digit, nothing else, no overflow. *)
Definition parse_uint (max : Z) (s : string) : option Z :=
  let digits := match s with
                | String "+" s' => s'
                | _ => s
                end%char in
  match digits_nonempty digits with
  | Some n => if n <=? max then Some n else None
  | None => None
  end.

Definition u8_max : Z := 255.
Definition u16_max : Z := 65535.
Definition u32_max : Z := 4294967295.
Definition u64_max : Z := 18446744073709551615.

Definition parse_u8 := parse_uint u8_max.
Definition parse_u16 := parse_uint u16_max.
Definition parse_u32 := parse_uint u32_max.
Definition parse_u64 := parse_uint u64_max.

(** [u16::try_from(n)] and [u32::try_from(n)] *)
Definition try_u16 (n : Z) : option Z := if (0 <=? n) && (n <=? u16_max) then Some n else None.
Definition try_u32 (n : Z) : option Z := if (0 <=? n) && (n <=? u32_max) then Some n else None.

(** ** Round trip of decimal notation *)

Lemma pretty_N_char_digit (x : N) : (x < 10)%N →
  is_digit (pretty_N_char x) = true ∧ digit_val (pretty_N_char x) = Z.of_N x.
Proof.
  intros Hx.
  assert (x = 0 ∨ x = 1 ∨ x = 2 ∨ x = 3 ∨ x = 4 ∨ x = 5 ∨ x = 6 ∨ x = 7 ∨ x = 8 ∨ x = 9)%N
    as Hc by lia.
  by destruct Hc as [->|[->|[->|[->|[->|[->|[->|[->|[->| ->]]]]]]]]].
Qed.

Lemma parse_digits_pretty_go (x : N) (s : string) :
  parse_digits 0 (pretty_N_go x s) = parse_digits (Z.of_N x) s.
Proof.
  revert s. induction (N.lt_wf_0 x) as [x _ IH]; intros s.
  destruct (decide (0 < x)%N) as [Hx|Hx]; cycle 1.
  { replace x with 0%N by lia. by rewrite pretty_N_go_0. }
  rewrite pretty_N_go_step by done. rewrite IH by (apply N.div_lt; lia).
  cbn [parse_digits].
  destruct (pretty_N_char_digit (x `mod` 10)) as [-> ->]; [by apply N.mod_lt|].
  f_equal. pose proof (N.div_mod x 10 ltac:(done)). lia.
Qed.

Lemma pretty_N_go_nonempty (x : N) (s : string) :
  str_is_empty s = false → str_is_empty (pretty_N_go x s) = false.
Proof.
  revert s. induction (N.lt_wf_0 x) as [x _ IH]; intros s Hs.
  destruct (decide (0 < x)%N) as [Hx|Hx]; cycle 1.
  { replace x with 0%N by lia. by rewrite pretty_N_go_0. }
  rewrite pretty_N_go_step by done. apply IH; [apply N.div_lt; lia | done].
Qed.

Lemma digits_nonempty_pretty (z : Z) :
  0 ≤ z → digits_nonempty (pretty z) = Some z.
Proof.
  intros Hz. unfold digits_nonempty.
  destruct z as [|p|p]; [done| |lia].
  change (pretty (Z.pos p)) with (pretty (N.pos p)).
  unfold pretty, pretty_N. rewrite decide_False by done.
  rewrite parse_digits_pretty_go.
  enough (str_is_empty (pretty_N_go (N.pos p) "") = false) as -> by done.
  rewrite pretty_N_go_step by done. by apply pretty_N_go_nonempty.
Qed.

(** The first character of a printed number is a digit. *)
Definition starts_digit (s : string) : bool :=
  match s with String c _ => is_digit c | EmptyString => false end.

Lemma pretty_N_go_starts_digit (x : N) (s : string) :
  (0 < x)%N ∨ starts_digit s = true → starts_digit (pretty_N_go x s) = true.
Proof.
  revert s. induction (N.lt_wf_0 x) as [x _ IH]; intros s Hs.
  destruct (decide (0 < x)%N) as [Hx|Hx]; cycle 1.
  { replace x with 0%N by lia. rewrite pretty_N_go_0. destruct Hs; [lia|done]. }
  rewrite pretty_N_go_step by done. apply IH; [apply N.div_lt; lia|right].
  cbn. apply pretty_N_char_digit. by apply N.mod_lt.
Qed.

Lemma pretty_starts_digit (z : Z) : 0 ≤ z → starts_digit (pretty z) = true.
Proof.
  intros Hz. destruct z as [|p|p]; [done| |lia].
  change (pretty (Z.pos p)) with (pretty (N.pos p)).
  unfold pretty, pretty_N. rewrite decide_False by done.
  apply pretty_N_go_starts_digit. lia.
Qed.

(** Printing and parsing an unsigned integer are inverse. *)
Lemma parse_uint_pretty (max z : Z) :
  0 ≤ z ≤ max → parse_uint max (pretty z) = Some z.
Proof.
  intros [H0 Hm]. unfold parse_uint.
  assert ((match pretty z with
           | String "+" s' => s'
           | _ => pretty z
           end%char) = pretty z) as ->.
  { pose proof (pretty_starts_digit z H0) as Hd. destruct (pretty z) as [|c s]; [done|].
    destruct c as [[] [] [] [] [] [] [] []]; done. }
  rewrite digits_nonempty_pretty by done.
  by rewrite (proj2 (Z.leb_le z max)).
Qed.

Lemma parse_digits_nonneg acc s n : 0 ≤ acc → parse_digits acc s = Some n → 0 ≤ n.
Proof.
  revert acc. induction s as [|c s IH]; intros acc Ha; cbn; [by intros [= <-]|].
  destruct (is_digit c) eqn:Hc; [|done]. apply IH.
  unfold is_digit in Hc. bool_hyps. unfold digit_val. lia.
Qed.

(** A parsed unsigned integer is in the range of its type. *)
Lemma parse_uint_range (max : Z) s n : parse_uint max s = Some n → 0 ≤ n ≤ max.
Proof.
  unfold parse_uint. intros H.
  destruct (digits_nonempty _) as [m|] eqn:Hd; [|done].
  destruct (Z.leb_spec m max); simplify_eq. split; [|done].
  unfold digits_nonempty in Hd. destruct (str_is_empty _); [done|].
  by eapply parse_digits_nonneg in Hd.
Qed.

(** ** Algebra of strings *)

Lemma str_app_nil_r s : s +:+ "" = s.
Proof. induction s as [|c s IH]; [done|]. by rewrite append_cons, IH. Qed.

Lemma str_app_assoc s t u : (s +:+ t) +:+ u = s +:+ t +:+ u.
Proof. induction s as [|c s IH]; [done|]. by rewrite !append_cons, IH. Qed.

Lemma rev_app_spec s t : String.rev_app s t = String.rev s +:+ t.
Proof.
  unfold String.rev. revert t. induction s as [|c s IH]; intros t; [done|]. cbn [String.rev_app].
  rewrite (IH (String c t)), (IH (String c "")), str_app_assoc. done.
Qed.

Lemma rev_cons c s : String.rev (String c s) = String.rev s +:+ String c "".
Proof. unfold String.rev at 1. cbn [String.rev_app]. apply rev_app_spec. Qed.

Lemma rev_append s t : String.rev (s +:+ t) = String.rev t +:+ String.rev s.
Proof.
  induction s as [|c s IH]; [by rewrite append_nil_l, str_app_nil_r|].
  rewrite append_cons, !rev_cons, IH. by rewrite str_app_assoc.
Qed.

Lemma rev_involutive s : String.rev (String.rev s) = s.
Proof. induction s as [|c s IH]; [done|]. rewrite rev_cons, rev_append, IH. done. Qed.

(** [s.chars().all(p)] *)
Fixpoint str_all (p : ascii → bool) (s : string) : bool :=
  match s with
  | EmptyString => true
  | String c s => p c && str_all p s
  end.

Lemma str_all_app p s t : str_all p (s +:+ t) = str_all p s && str_all p t.
Proof.
  induction s as [|c s IH]; [done|]. rewrite append_cons. cbn. by rewrite IH, andb_assoc.
Qed.

Lemma str_all_rev p s : str_all p (String.rev s) = str_all p s.
Proof.
  induction s as [|c s IH]; [done|]. rewrite rev_cons, str_all_app, IH. cbn.
  rewrite andb_true_r. apply andb_comm.
Qed.

Lemma str_all_impl (p q : ascii → bool) s :
  (∀ c, p c = true → q c = true) → str_all p s = true → str_all q s = true.
Proof.
  intros Hpq. induction s as [|c s IH]; [done|]. cbn. rewrite !andb_true_iff.
  intros [? ?]. auto.
Qed.

Definition not_space (c : ascii) : bool := negb (Ascii.is_space c).

Lemma trim_start_nospace s : str_all not_space s = true → trim_start s = s.
Proof.
  destruct s as [|c s]; [done|]. cbn. unfold not_space at 1. intros [Hc _]%andb_true_iff.
  by destruct (Ascii.is_space c).
Qed.

Lemma trim_nospace s : str_all not_space s = true → trim s = s.
Proof.
  intros Hs. unfold trim. rewrite (trim_start_nospace s) by done.
  rewrite trim_start_nospace by by rewrite str_all_rev. apply rev_involutive.
Qed.

Lemma split_once_spec c a b :
  str_all (λ d, negb (bool_decide (c = d))) a = true →
  split_once c (a +:+ String c b) = Some (a, b).
Proof.
  unfold split_once, split_once_by. intros Ha.
  enough (∀ cur, split_once_go (λ d, bool_decide (c = d)) cur (a +:+ String c b)
                 = Some (String.rev cur +:+ a, b)) as Hgen by apply Hgen.
  induction a as [|d a IH]; intros cur.
  - rewrite append_nil_l. cbn. rewrite bool_decide_eq_true_2 by done. by rewrite str_app_nil_r.
  - rewrite append_cons. cbn. cbn in Ha. apply andb_true_iff in Ha as [Hd Ha].
    apply negb_true_iff in Hd. rewrite Hd, IH by done. by rewrite rev_cons, str_app_assoc.
Qed.

Lemma split_once_none c s :
  str_all (λ d, negb (bool_decide (c = d))) s = true → split_once c s = None.
Proof.
  unfold split_once, split_once_by. generalize "" as cur.
  induction s as [|d s IH]; intros cur; [done|]. cbn. intros [Hd Hs]%andb_true_iff.
  apply negb_true_iff in Hd. rewrite Hd. by apply IH.
Qed.

Lemma split_once_sound c s a b : split_once c s = Some (a, b) → s = a +:+ String c b.
Proof.
  unfold split_once, split_once_by.
  enough (∀ cur, split_once_go (λ d, bool_decide (c = d)) cur s = Some (a, b) →
                 String.rev cur +:+ s = a +:+ String c b) as Hgen by apply (Hgen "").
  induction s as [|d s IH]; intros cur; cbn; [done|].
  case_bool_decide as Hd; [by intros [= <- <-]; subst|].
  intros Hs%IH. by rewrite <-Hs, rev_cons, str_app_assoc.
Qed.

(** A printed number consists of digits. *)
Lemma pretty_N_go_digits (x : N) (s : string) :
  str_all is_digit s = true → str_all is_digit (pretty_N_go x s) = true.
Proof.
  revert s. induction (N.lt_wf_0 x) as [x _ IH]; intros s Hs.
  destruct (decide (0 < x)%N) as [Hx|Hx]; cycle 1.
  { replace x with 0%N by lia. by rewrite pretty_N_go_0. }
  rewrite pretty_N_go_step by done. apply IH; [apply N.div_lt; lia|]. cbn.
  destruct (pretty_N_char_digit (x `mod` 10)) as [-> _]; [by apply N.mod_lt|done].
Qed.

Lemma pretty_digits (z : Z) : 0 ≤ z → str_all is_digit (pretty z) = true.
Proof.
  intros Hz. destruct z as [|p|p]; [done| |lia].
  change (pretty (Z.pos p)) with (pretty (N.pos p)).
  unfold pretty, pretty_N. rewrite decide_False by done. by apply pretty_N_go_digits.
Qed.

Lemma digit_not_space c : is_digit c = true → not_space c = true.
Proof. destruct c as [[] [] [] [] [] [] [] []]; done. Qed.

Lemma digit_not_colon c : is_digit c = true → negb (bool_decide (":"%char = c)) = true.
Proof. destruct c as [[] [] [] [] [] [] [] []]; done. Qed.

(** ** Lines and string patterns *)

(** [s.split_once(pat)] for a string pattern. *)
Fixpoint split_once_str_go (pat cur s : string) : option (string * string) :=
  match strip_prefix pat s with
  | Some rest => Some (String.rev cur, rest)
  | None =>
      match s with
      | EmptyString => None
      | String c s' => split_once_str_go pat (String c cur) s'
      end
  end.
Definition split_once_str (pat s : string) : option (string * string) :=
  split_once_str_go pat "" s.

(** A line without its carriage return. *)
Definition strip_cr (line : string) : string :=
  match String.rev line with
  | String "013"%char r => String.rev r
  | _ => line
  end.

(** [s.lines()]: the pieces ended by a newline, without it and a carriage return
    before it, and the text after the last newline if there is any. *)
Definition str_lines (s : string) : list string :=
  let pieces := split_char "010" s in
  (strip_cr <$> removelast pieces) ++
  match last pieces with
  | None | Some EmptyString => []
  | Some rest => [rest]
  end.

(** [x.parse().unwrap_or(0)] for a [u64]. *)
Definition parse_u64_or_0 (s : string) : Z := default 0 (parse_u64 s).
