(* ===== verification/Net.v ===== *)
(** * Net: addresses, networks and IP families

    [IpAddr] and its printing and parsing are those of Rust's [std::net].
    [IpNet] comes from the third-party crate [ipnet]: its operations are the
    fields of [IpNetLib], its documented behaviour those of [IpNetLaws], and
    [ref_net_lib] is a concrete instance.  [IpFamily], [EnabledFamilies] and the
    parsers are [crates/common/src/ipfamily.rs]. *)

From stdpp Require Import gmap sets list strings pretty numbers.
From Stdlib Require Import Ascii ZArith Lia.
From S2P Require Import Prelude Text.

Local Open Scope Z_scope.

(** ** Big-endian digits *)

Fixpoint le_digits (base : Z) (n : nat) (a : Z) : list Z :=
  match n with
  | O => []
  | S n => a `mod` base :: le_digits base n (a `div` base)
  end.

Fixpoint le_value (base : Z) (l : list Z) : Z :=
  match l with
  | [] => 0
  | d :: l => d + base * le_value base l
  end.

Definition be_digits (base : Z) (n : nat) (a : Z) : list Z := reverse (le_digits base n a).
Definition be_value (base : Z) (l : list Z) : Z := le_value base (reverse l).

Lemma length_le_digits base n a : length (le_digits base n a) = n.
Proof. revert a; induction n; intros; cbn; auto. Qed.

Lemma length_be_digits base n a : length (be_digits base n a) = n.
Proof. unfold be_digits. by rewrite length_reverse, length_le_digits. Qed.

Lemma le_value_digits base n a :
  0 < base → le_value base (le_digits base n a) = a `mod` base ^ Z.of_nat n.
Proof.
  intros Hb. revert a. induction n as [|n IH]; intros a; cbn [le_value le_digits].
  { by rewrite Z.pow_0_r, Z.mod_1_r. }
  rewrite IH, Nat2Z.inj_succ, Z.pow_succ_r by lia.
  rewrite Z.rem_mul_r by lia. lia.
Qed.

Lemma le_digits_range base n a :
  0 < base → Forall (λ d, 0 ≤ d < base) (le_digits base n a).
Proof.
  intros Hb. revert a; induction n; intros a; cbn; constructor; [|done].
  by apply Z.mod_pos_bound.
Qed.

Lemma be_value_digits base n a :
  0 < base → 0 ≤ a < base ^ Z.of_nat n → be_value base (be_digits base n a) = a.
Proof.
  intros Hb Ha. unfold be_value, be_digits. rewrite reverse_involutive.
  rewrite le_value_digits by done. by apply Z.mod_small.
Qed.

Lemma be_digits_range base n a :
  0 < base → Forall (λ d, 0 ≤ d < base) (be_digits base n a).
Proof. intros Hb. unfold be_digits. apply Forall_reverse. by apply le_digits_range. Qed.

Lemma le_value_range base l :
  0 < base → Forall (λ d, 0 ≤ d < base) l → 0 ≤ le_value base l < base ^ Z.of_nat (length l).
Proof.
  intros Hb. induction 1 as [|d l Hd _ IH]; cbn [le_value length].
  { by rewrite Z.pow_0_r. }
  rewrite Nat2Z.inj_succ, Z.pow_succ_r by lia. nia.
Qed.

Lemma be_value_cons_zero base l : be_value base (0 :: l) = be_value base l.
Proof.
  unfold be_value. rewrite reverse_cons. generalize (reverse l) as k; clear l.
  induction k as [|d k IH]; cbn; lia.
Qed.

(** ** [std::net::IpAddr] *)

(** An address is its 32-bit or 128-bit value, most significant octet first. *)
Inductive IpAddr :=
| V4 (bits : Z)
| V6 (bits : Z).

#[export] Instance IpAddr_eq_dec : EqDecision IpAddr.
Proof. solve_decision. Defined.

#[export] Instance IpAddr_countable : Countable IpAddr.
Proof.
  refine (inj_countable' (λ a, match a with V4 b => inl b | V6 b => inr b end)
            (λ s, match s with inl b => V4 b | inr b => V6 b end) _).
  by intros [].
Defined.

Definition ip_bits (a : IpAddr) : Z := match a with V4 b | V6 b => b end.
Definition is_ipv6 (a : IpAddr) : bool := match a with V4 _ => false | V6 _ => true end.
Definition is_ipv4 (a : IpAddr) : bool := negb (is_ipv6 a).

(** The number of addresses of a family. *)
Definition ip_space (v6 : bool) : Z := if v6 then 2 ^ 128 else 2 ^ 32.

(** Every [IpAddr] of Rust is in range. *)
Definition ip_wf (a : IpAddr) : Prop := 0 ≤ ip_bits a < ip_space (is_ipv6 a).

Definition mk_ip (v6 : bool) (bits : Z) : IpAddr := if v6 then V6 bits else V4 bits.

Lemma mk_ip_bits a : mk_ip (is_ipv6 a) (ip_bits a) = a.
Proof. by destruct a. Qed.

(** [Ord for IpAddr]: V4 before V6, then octet by octet. *)
Definition ip_le (a b : IpAddr) : Prop :=
  match a, b with
  | V4 x, V4 y | V6 x, V6 y => x ≤ y
  | V4 _, V6 _ => True
  | V6 _, V4 _ => False
  end.

#[export] Program Instance ip_key_order : KeyOrder IpAddr := {| key_le := ip_le |}.
Next Obligation. intros [] []; cbn; apply _. Defined.
Next Obligation.
  split; [split|].
  - intros []; cbn; lia.
  - intros [] [] []; cbn; lia.
  - intros [] []; cbn; intros; try done; f_equal; lia.
Qed.
Next Obligation. intros [x|x] [y|y]; cbn; auto; lia. Qed.

(** [Ipv4Addr::octets], [Ipv6Addr::octets] and the conversions back. *)
Definition octets (a : IpAddr) : list Z :=
  match a with V4 b => be_digits 256 4 b | V6 b => be_digits 256 16 b end.
Definition segments (b : Z) : list Z := be_digits 65536 8 b.

(** ** Display *)

Definition hex_char (d : Z) : ascii :=
  ascii_of_N (Z.to_N (if d <? 10 then 48 + d else 87 + d)).

Fixpoint drop_zeros (l : list Z) : list Z :=
  match l with
  | [] => []
  | d :: l' =>
      match l' with
      | [] => [d]
      | _ :: _ => if d =? 0 then drop_zeros l' else l
      end
  end.

Definition string_of_chars (l : list ascii) : string := foldr String "" l.

(** [{:x}] of a 16-bit group. *)
Definition hex_group (g : Z) : string :=
  string_of_chars (hex_char <$> drop_zeros (be_digits 16 4 g)).

Definition ipv4_to_string (b : Z) : string := str_join "." (pretty <$> be_digits 256 4 b).

(** The first longest run of zero groups, as (start, length). *)
Fixpoint longest_zeros (l : list Z) (i cur_start cur_len best_start best_len : nat)
    : nat * nat :=
  match l with
  | [] => (best_start, best_len)
  | d :: l =>
      if d =? 0 then
        let cur_start := if decide (cur_len = 0%nat) then i else cur_start in
        let cur_len := S cur_len in
        if (best_len <? cur_len)%nat
        then longest_zeros l (S i) cur_start cur_len cur_start cur_len
        else longest_zeros l (S i) cur_start cur_len best_start best_len
      else longest_zeros l (S i) 0 0 best_start best_len
  end.

Definition fmt_subslice (l : list Z) : string := str_join ":" (hex_group <$> l).

Definition ipv6_to_string (b : Z) : string :=
  let segs := segments b in
  if bool_decide (take 6 segs = [0; 0; 0; 0; 0; 65535])
  then "::ffff:" +:+ ipv4_to_string (b `mod` 2 ^ 32)
  else
    let '(start, len) := longest_zeros segs 0 0 0 0 0 in
    if (1 <? len)%nat
    then fmt_subslice (take start segs) +:+ "::" +:+ fmt_subslice (drop (start + len) segs)
    else fmt_subslice segs.

Definition ip_to_string (a : IpAddr) : string :=
  match a with V4 b => ipv4_to_string b | V6 b => ipv6_to_string b end.

(** ** FromStr: the recursive-descent parser of [core::net::parser] *)

(** [char::to_digit(16)] *)
Definition hex_val (c : ascii) : option Z :=
  let b := byte_of c in
  if (48 <=? b) && (b <=? 57) then Some (b - 48)
  else if (97 <=? b) && (b <=? 102) then Some (b - 87)
  else if (65 <=? b) && (b <=? 70) then Some (b - 55)
  else None.

Definition radix_val (radix : Z) (c : ascii) : option Z :=
  match hex_val c with
  | Some d => if d <? radix then Some d else None
  | None => None
  end.

(** The longest run of digits, and what follows it. *)
Fixpoint span_digits (radix : Z) (s : string) : list Z * string :=
  match s with
  | EmptyString => ([], "")
  | String c s' =>
      match radix_val radix c with
      | Some d => let '(ds, rest) := span_digits radix s' in (d :: ds, rest)
      | None => ([], s)
      end
  end.

(** [read_number(radix, Some(max_digits), allow_zero_prefix)] at a type whose
    largest value is [max]. *)
Definition read_number (radix max : Z) (max_digits : nat) (allow_zero_prefix : bool)
    (s : string) : option (Z * string) :=
  let '(ds, rest) := span_digits radix s in
  let v := be_value radix ds in
  match ds with
  | [] => None
  | d :: _ =>
      if (length ds <=? max_digits)%nat && (v <=? max) &&
         (allow_zero_prefix || negb ((d =? 0) && (1 <? length ds)%nat))
      then Some (v, rest) else None
  end.

Definition read_char (c : ascii) (s : string) : option string :=
  match s with
  | String d s' => if decide (c = d) then Some s' else None
  | EmptyString => None
  end.

Definition read_octet (s : string) : option (Z * string) := read_number 10 255 3 false s.

Definition read_ipv4 (s : string) : option (Z * string) :=
  '(a, s) ← read_octet s; s ← read_char "." s;
  '(b, s) ← read_octet s; s ← read_char "." s;
  '(c, s) ← read_octet s; s ← read_char "." s;
  '(d, s) ← read_octet s;
  Some (be_value 256 [a; b; c; d], s).

(** [read_separator(':', i, inner)] *)
Definition read_sep {A} (i : nat) (inner : string → option (A * string)) (s : string)
    : option (A * string) :=
  match i with
  | O => inner s
  | S _ => s ← read_char ":" s; inner s
  end.

(** [read_groups]: [n] slots are left, [i] have been filled.  Returns the
    groups, whether an embedded IPv4 address ended them, and the rest. *)
Fixpoint read_groups (n i : nat) (s : string) : list Z * bool * string :=
  match n with
  | O => ([], false, s)
  | S n' =>
      match (if (1 <? n)%nat then read_sep i read_ipv4 s else None) with
      | Some (v4, s') => ([v4 `div` 65536; v4 `mod` 65536], true, s')
      | None =>
          match read_sep i (read_number 16 65535 4 true) s with
          | Some (g, s') =>
              let '(gs, v4, s'') := read_groups n' (S i) s' in (g :: gs, v4, s'')
          | None => ([], false, s)
          end
      end
  end.

Definition read_ipv6 (s : string) : option (Z * string) :=
  let '(head, head_ipv4, s) := read_groups 8 0 s in
  if (length head =? 8)%nat then Some (be_value 65536 head, s)
  else if head_ipv4 then None
  else
    s ← read_char ":" s; s ← read_char ":" s;
    let '(tl, _, s) := read_groups (7 - length head) 0 s in
    Some (be_value 65536 (head ++ replicate (8 - length head - length tl) 0 ++ tl), s).

(** [s.parse::<IpAddr>()] *)
Definition parse_ipaddr (s : string) : option IpAddr :=
  let r := match read_ipv4 s with
           | Some (b, s) => Some (V4 b, s)
           | None => match read_ipv6 s with
                     | Some (b, s) => Some (V6 b, s)
                     | None => None
                     end
           end in
  match r with
  | Some (a, EmptyString) => Some a
  | _ => None
  end.

(** [IpAddr::is_loopback]: 127.0.0.0/8 and ::1. *)
Definition is_loopback (a : IpAddr) : bool :=
  match a with
  | V4 b => b `div` 2 ^ 24 =? 127
  | V6 b => b =? 1
  end.

(** ** IP families ([crates/common/src/ipfamily.rs]) *)

(** The variants [IpFamily::V4] and [IpFamily::V6]. *)
Inductive IpFamily := FamV4 | FamV6.

#[export] Instance IpFamily_eq_dec : EqDecision IpFamily.
Proof. solve_decision. Defined.

Definition of_addr (addr : IpAddr) : IpFamily :=
  match addr with V4 _ => FamV4 | V6 _ => FamV6 end.

Definition is_v6 (self : IpFamily) : bool :=
  match self with FamV6 => true | FamV4 => false end.

Record EnabledFamilies := { ef_v4 : bool; ef_v6 : bool }.

Definition is_dual_stack (self : EnabledFamilies) : bool := ef_v4 self && ef_v6 self.
Definition is_v6_only (self : EnabledFamilies) : bool := ef_v6 self && negb (ef_v4 self).
Definition families_any (self : EnabledFamilies) : bool := ef_v4 self || ef_v6 self.
Definition families_contains (self : EnabledFamilies) (family : IpFamily) : bool :=
  match family with FamV4 => ef_v4 self | FamV6 => ef_v6 self end.

(** ** Networks: the crate [ipnet] *)

Class IpNetLib := {
  IpNet : Type;
  net_eq_dec :: EqDecision IpNet;
  net_countable :: Countable IpNet;
  net_order :: KeyOrder IpNet;
  net_is_v6 : IpNet → bool;               (* the enum variant *)
  net_addr : IpNet → IpAddr;              (* IpNet::addr *)
  net_prefix_len : IpNet → Z;             (* IpNet::prefix_len *)
  net_network : IpNet → IpAddr;           (* IpNet::network *)
  net_contains : IpNet → IpAddr → bool;   (* IpNet::contains(&IpAddr) *)
  net_new : IpAddr → Z → option IpNet;    (* Ipv4Net::new / Ipv6Net::new *)
  net_to_string : IpNet → string;         (* Display *)
  net_parse : string → option IpNet;      (* FromStr *)
}.

Definition ip_width (v6 : bool) : Z := if v6 then 128 else 32.

(** The number of addresses of a network. *)
Definition net_size `{IpNetLib} (n : IpNet) : Z :=
  2 ^ (ip_width (net_is_v6 n) - net_prefix_len n).

(** The documented behaviour of [ipnet]: a network is the block of
    [2^(w - prefix_len)] addresses that starts at [network()], whose host bits are
    zero. *)
Class IpNetLaws `{IpNetLib} : Prop := {
  net_prefix_len_range n : 0 ≤ net_prefix_len n ≤ ip_width (net_is_v6 n);
  net_addr_family n : is_ipv6 (net_addr n) = net_is_v6 n;
  net_addr_wf n : ip_wf (net_addr n);
  net_network_family n : is_ipv6 (net_network n) = net_is_v6 n;
  net_network_start n : 0 ≤ ip_bits (net_network n);
  net_network_end n : ip_bits (net_network n) + net_size n ≤ ip_space (net_is_v6 n);
  net_network_aligned n : ip_bits (net_network n) `mod` net_size n = 0;
  net_contains_spec n a :
    ip_wf a →
    net_contains n a = true ↔
      is_ipv6 a = net_is_v6 n ∧
      ip_bits (net_network n) ≤ ip_bits a < ip_bits (net_network n) + net_size n;
  net_new_some a p :
    0 ≤ p ≤ ip_width (is_ipv6 a) → ip_wf a →
    ∃ n, net_new a p = Some n ∧ net_addr n = a ∧ net_prefix_len n = p;
  net_ext n m : net_addr n = net_addr m → net_prefix_len n = net_prefix_len m → n = m;
}.

(** [IpFamily::of_net] *)
Definition of_net `{IpNetLib} (net : IpNet) : IpFamily :=
  if net_is_v6 net then FamV6 else FamV4.

Section net_lemmas.
Context `{IpNetLaws}.

Lemma net_size_pos n : 0 < net_size n.
Proof. pose proof (net_prefix_len_range n). unfold net_size. apply Z.pow_pos_nonneg; lia. Qed.

Lemma net_network_wf n : ip_wf (net_network n).
Proof.
  pose proof (net_network_start n). pose proof (net_network_end n).
  pose proof (net_size_pos n). unfold ip_wf. rewrite net_network_family. lia.
Qed.

Lemma net_contains_network n : net_contains n (net_network n) = true.
Proof.
  apply net_contains_spec; [apply net_network_wf|]. pose proof (net_size_pos n).
  split; [apply net_network_family|lia].
Qed.

(** The last address of a network. *)
Definition net_last (n : IpNet) : IpAddr := mk_ip (net_is_v6 n) (ip_bits (net_network n) + net_size n - 1).

Lemma net_last_in n : ip_wf (net_last n) ∧ net_contains n (net_last n) = true.
Proof.
  pose proof (net_network_start n). pose proof (net_network_end n). pose proof (net_size_pos n).
  assert (ip_bits (net_last n) = ip_bits (net_network n) + net_size n - 1 ∧ is_ipv6 (net_last n) = net_is_v6 n)
    as [Hb Hf] by (unfold net_last, mk_ip; by destruct (net_is_v6 n)).
  assert (ip_wf (net_last n)) as Hwf by (unfold ip_wf; rewrite Hf, Hb; lia).
  split; [done|]. apply net_contains_spec; [done|]. rewrite Hf, Hb. split; [done|lia].
Qed.

(** Blocks of one family are nested as the addresses they contain. *)
Lemma net_inside n m :
  net_contains m (net_network n) = true ∧ net_prefix_len m ≤ net_prefix_len n ↔
  ∀ a, ip_wf a → net_contains n a = true → net_contains m a = true.
Proof.
  split.
  - intros [Hc Hlen] a Ha Hin. apply net_contains_spec in Hc as [Hfam Hc]; [|apply net_network_wf].
    apply net_contains_spec in Hin as [Hf Hin]; [|done]. rewrite net_network_family in Hfam.
    apply net_contains_spec; [done|]. split; [congruence|].
    pose proof (net_network_aligned n) as Hn. pose proof (net_network_aligned m) as Hm.
    pose proof (net_size_pos n). pose proof (net_prefix_len_range n) as Hrn. pose proof (net_prefix_len_range m).
    rewrite Hfam in Hrn. apply Z.mod_divide in Hn as [k Hk]; [|lia]. apply Z.mod_divide in Hm as [j Hj]; [|pose proof (net_size_pos m); lia].
    assert (net_size m = 2 ^ (net_prefix_len n - net_prefix_len m) * net_size n) as Hsize.
    { unfold net_size. rewrite Hfam, <-Z.pow_add_r by lia. f_equal. lia. }
    set (d := 2 ^ (net_prefix_len n - net_prefix_len m)) in *. set (S := net_size n) in *.
    assert (k * S < (j + 1) * d * S) as Hlt by lia. apply Z.mul_lt_mono_pos_r in Hlt; [|done].
    assert ((k + 1) * S ≤ (j + 1) * d * S) by (apply Z.mul_le_mono_nonneg_r; lia). lia.
  - intros Hall. pose proof (Hall _ (net_network_wf n) (net_contains_network n)) as Hfirst.
    split; [done|]. destruct (net_last_in n) as [Hwf Hlast]. pose proof (Hall _ Hwf Hlast) as Hend.
    apply net_contains_spec in Hfirst as [Hfam Hfirst]; [|apply net_network_wf].
    apply net_contains_spec in Hend as [_ Hend]; [|done]. rewrite net_network_family in Hfam.
    assert (ip_bits (net_last n) = ip_bits (net_network n) + net_size n - 1) as Hb
      by (unfold net_last, mk_ip; by destruct (net_is_v6 n)).
    assert (net_size n ≤ net_size m) as Hle by lia. unfold net_size in Hle. rewrite Hfam in Hle.
    pose proof (net_prefix_len_range n) as Hrn. pose proof (net_prefix_len_range m). rewrite Hfam in Hrn.
    apply Z.pow_le_mono_r_iff in Hle; lia.
Qed.
End net_lemmas.

(** ** Parsing with a precise error *)

(** [Error::InvalidIp]: the input, and the reason given by the parser. *)
Record InvalidIp := { ii_input : string }.

Definition parse_cidr `{IpNetLib} (s : string) : InvalidIp + IpNet :=
  match net_parse (trim s) with
  | Some n => inr n
  | None => inl {| ii_input := s |}
  end.

Definition parse_ip (s : string) : InvalidIp + IpAddr :=
  match parse_ipaddr (trim s) with
  | Some a => inr a
  | None => inl {| ii_input := s |}
  end.

(** ** A concrete network library

    Networks are an address and a prefix length in range, as in [ipnet].  It
    shows that [IpNetLaws] can hold, and witnesses evaluate with it. *)

Definition ref_ok (x : IpAddr * Z) : bool :=
  let w := ip_width (is_ipv6 x.1) in
  (0 <=? x.2) && (x.2 <=? w) && (0 <=? ip_bits x.1) && (ip_bits x.1 <? 2 ^ w).

Definition RefNet : Type := { x : IpAddr * Z | Is_true (ref_ok x) }.

Definition ref_size (n : RefNet) : Z := 2 ^ (ip_width (is_ipv6 (`n).1) - (`n).2).
Definition ref_network (n : RefNet) : IpAddr :=
  let a := (`n).1 in
  mk_ip (is_ipv6 a) (ip_bits a - ip_bits a `mod` ref_size n).

Definition ref_new (a : IpAddr) (p : Z) : option RefNet :=
  match decide (Is_true (ref_ok (a, p))) with
  | left h => Some (exist _ (a, p) h)
  | right _ => None
  end.

Definition ref_le (n m : RefNet) : Prop :=
  (ip_le (`n).1 (`m).1 ∧ (`n).1 ≠ (`m).1) ∨ ((`n).1 = (`m).1 ∧ (`n).2 ≤ (`m).2).

#[export] Program Instance ref_order : KeyOrder RefNet := {| key_le := ref_le |}.
Next Obligation.
  intros n m. unfold ref_le.
  pose proof (_ : Decision (key_le (proj1_sig n).1 (proj1_sig m).1)) as Hd. cbn in Hd. apply _.
Defined.
Next Obligation.
  assert (PartialOrder ip_le) as Hpo by exact (key_le_po (K := IpAddr)).
  split; [split|].
  - intros n. right. split; [done|lia].
  - intros n m k [[Ha Hb]|[Ha Hb]] [[Hc Hd]|[Hc Hd]]; unfold ref_le.
    + left. split; [by etransitivity|]. intros He. rewrite <-He in Hc. apply Hb.
      by apply (anti_symm ip_le).
    + left. by rewrite <-Hc.
    + left. by rewrite Ha.
    + right. split; [by rewrite Ha|lia].
  - intros n m [[Ha Hb]|[Ha Hb]] [[Hc Hd]|[Hc Hd]].
    + destruct Hb. by apply (anti_symm ip_le).
    + by destruct Hb.
    + by destruct Hd.
    + apply (sig_eq_pi _). destruct n as [[a p] hn], m as [[b q] hm]; cbn in *.
      f_equal; [done|lia].
Qed.
Next Obligation.
  intros n m. unfold ref_le.
  destruct (decide ((proj1_sig n).1 = (proj1_sig m).1)) as [He|He].
  - destruct (Z.le_ge_cases (proj1_sig n).2 (proj1_sig m).2); [left|right]; right; auto.
  - destruct (total (key_le (K := IpAddr)) (proj1_sig n).1 (proj1_sig m).1); [left|right];
      left; auto.
Qed.

(** [addr/prefix] with a decimal prefix length without leading zeros. *)
Definition ref_parse (s : string) : option RefNet :=
  '(a, p) ← split_once "/" s;
  a ← parse_ipaddr a;
  '(p, rest) ← read_number 10 128 3 false p;
  if str_is_empty rest then ref_new a p else None.

#[export] Instance ref_net_lib : IpNetLib := {|
  IpNet := RefNet;
  net_is_v6 n := is_ipv6 (`n).1;
  net_addr n := (`n).1;
  net_prefix_len n := (`n).2;
  net_network := ref_network;
  net_contains n a :=
    Bool.eqb (is_ipv6 a) (is_ipv6 (`n).1) &&
    (ip_bits (ref_network n) <=? ip_bits a) &&
    (ip_bits a <? ip_bits (ref_network n) + ref_size n);
  net_new := ref_new;
  net_to_string n := ip_to_string (`n).1 +:+ "/" +:+ pretty (`n).2;
  net_parse := ref_parse;
|}.

(** A block that starts at a multiple of its size inside a multiple of the
    size ends inside it. *)
Lemma aligned_block_end b s S : 0 < s → S `mod` s = 0 → b < S → b - b `mod` s + s ≤ S.
Proof.
  intros Hs HS Hb. pose proof (Z.div_mod b s ltac:(lia)).
  pose proof (Z.div_mod S s ltac:(lia)). pose proof (Z.mod_pos_bound b s Hs).
  assert (b `div` s < S `div` s) by (apply Z.div_lt_upper_bound; lia).
  nia.
Qed.

Lemma ref_ok_spec x :
  Is_true (ref_ok x) ↔
  0 ≤ x.2 ≤ ip_width (is_ipv6 x.1) ∧ ip_wf x.1.
Proof.
  unfold ref_ok, ip_wf, ip_space. destruct x as [a p]; cbn.
  rewrite !andb_True, !Is_true_true, !Z.leb_le, Z.ltb_lt.
  destruct (is_ipv6 a); unfold ip_width; lia.
Qed.

Lemma ref_network_bits (n : RefNet) :
  ip_bits (ref_network n) = ip_bits (`n).1 - ip_bits (`n).1 `mod` ref_size n ∧
  is_ipv6 (ref_network n) = is_ipv6 (`n).1.
Proof. unfold ref_network, mk_ip. destruct (`n) as [[] p]; by cbn. Qed.

#[export] Instance ref_net_laws : @IpNetLaws ref_net_lib.
Proof.
  assert (∀ n : RefNet, 0 < ref_size n) as Hpos.
  { intros [[a p] Hok]. pose proof (proj1 (ref_ok_spec _) Hok). unfold ref_size; cbn in *.
    apply Z.pow_pos_nonneg; lia. }
  assert (∀ n : RefNet, ip_space (is_ipv6 (`n).1) `mod` ref_size n = 0) as Hdiv.
  { intros [[a p] Hok]. pose proof (proj1 (ref_ok_spec _) Hok) as [Hp _]. unfold ref_size; cbn in *.
    apply Z.mod_divide; [apply Z.pow_nonzero; lia|]. exists (2 ^ p).
    rewrite <-Z.pow_add_r by lia. unfold ip_space, ip_width. destruct (is_ipv6 a); f_equal; lia. }
  split.
  - intros n. apply (ref_ok_spec (`n)), (proj2_sig n).
  - done.
  - intros n. apply (ref_ok_spec (`n)), (proj2_sig n).
  - intros n. apply ref_network_bits.
  - intros n. cbn. rewrite (proj1 (ref_network_bits n)).
    pose proof (proj1 (ref_ok_spec _) (proj2_sig n)) as [_ [H0 _]].
    pose proof (Z.mod_le (ip_bits (`n).1) (ref_size n) H0 (Hpos n)). lia.
  - intros n. cbn. rewrite (proj1 (ref_network_bits n)).
    change (net_size n) with (ref_size n).
    pose proof (proj1 (ref_ok_spec _) (proj2_sig n)) as [_ [H0 H1]].
    specialize (Hpos n); specialize (Hdiv n).
    apply aligned_block_end; [done|done|lia].
  - intros n. cbn. rewrite (proj1 (ref_network_bits n)). change (net_size n) with (ref_size n).
    by rewrite Zminus_mod_idemp_r, Z.sub_diag, Zmod_0_l.
  - intros n a Ha. cbn. change (net_size n) with (ref_size n).
    rewrite !andb_true_iff, Z.leb_le, Z.ltb_lt, eqb_true_iff. tauto.
  - intros a p Hp Ha. cbn. unfold ref_new.
    destruct (decide _) as [h|h]; [by eexists|]. destruct h. by apply ref_ok_spec.
  - intros n m Ha Hp. apply (sig_eq_pi _). cbn in *.
    destruct (`n), (`m); cbn in *; congruence.
Qed.

(** Networks of examples: the text of a network, or 0.0.0.0/0. *)
Lemma any_v4_ok : Is_true (ref_ok (V4 0, 0)).
Proof. exact I. Qed.
Definition net_of (s : string) : RefNet :=
  match ref_parse s with Some n => n | None => exist _ (V4 0, 0) any_v4_ok end.
Definition ip_of (s : string) : IpAddr :=
  match parse_ipaddr s with Some a => a | None => V4 0 end.
