(* ===== verification/IpText.v ===== *)
(** * IpText: the text of an address determines it

    Printing an address with [Display] and parsing it with [FromStr] is the
    identity, for both families; so the keys the program builds from printed
    addresses do not collide. *)

From stdpp Require Import gmap sets list strings pretty numbers.
From Stdlib Require Import Ascii ZArith Lia.
From S2P Require Import Prelude Text Net.

Local Open Scope Z_scope.

(** ** Runs of digits *)

(** [s] does not start with a digit of the radix. *)
Definition stops (radix : Z) (s : string) : bool :=
  match s with
  | EmptyString => true
  | String c _ => match radix_val radix c with Some _ => false | None => true end
  end.

Lemma span_digits_app radix s ds rest :
  span_digits radix s = (ds, "") → stops radix rest = true →
  span_digits radix (s +:+ rest) = (ds, rest).
Proof.
  revert ds. induction s as [|c s IH]; intros ds Hs Hr.
  - rewrite append_nil_l. cbn in Hs. injection Hs as <-. destruct rest as [|c rest]; [done|].
    cbn in Hr |- *. by destruct (radix_val radix c).
  - rewrite append_cons. cbn in Hs |- *. destruct (radix_val radix c) as [d|]; [|done].
    destruct (span_digits radix s) as [ds' rest'] eqn:Hs'. injection Hs as <- ->.
    by rewrite (IH ds' eq_refl Hr).
Qed.

(** What [read_number] needs to know of a printed number. *)
Definition prints (radix max : Z) (width : nat) (zeros : bool) (s : string) (x : Z) : bool :=
  let '(ds, rest) := span_digits radix s in
  str_is_empty rest && (be_value radix ds =? x) && (x <=? max) &&
  match ds with
  | [] => false
  | d :: _ => (length ds <=? width)%nat && (zeros || negb ((d =? 0) && (1 <? length ds)%nat))
  end.

Lemma read_number_prints radix max width zeros s x rest :
  prints radix max width zeros s x = true → stops radix rest = true →
  read_number radix max width zeros (s +:+ rest) = Some (x, rest).
Proof.
  unfold prints. intros Hp Hr. destruct (span_digits radix s) as [ds r] eqn:Hs.
  rewrite !andb_true_iff in Hp. destruct Hp as [[[Hr0 Hv] Hm] Hd].
  destruct r; [|done]. unfold read_number. rewrite (span_digits_app _ _ _ _ Hs Hr).
  apply Z.eqb_eq in Hv. rewrite Hv, Hm. destruct ds as [|d ds]; [done|].
  apply andb_true_iff in Hd as [-> ->]. done.
Qed.

Lemma octet_prints x : 0 ≤ x < 256 → prints 10 255 3 false (pretty x) x = true.
Proof.
  assert (forallb (λ x, prints 10 255 3 false (pretty x) x) (seqZ 0 256) = true) as Hall
    by (vm_compute; reflexivity).
  intros Hx. rewrite forallb_forall in Hall. apply Hall, list_elem_of_In, elem_of_seqZ. lia.
Qed.

(** ** Hexadecimal groups *)

Lemma hex_digit_char d : 0 ≤ d < 16 → radix_val 16 (hex_char d) = Some d.
Proof.
  assert (forallb (λ d, bool_decide (radix_val 16 (hex_char d) = Some d)) (seqZ 0 16) = true)
    as Hall by (vm_compute; reflexivity).
  intros Hd. rewrite forallb_forall in Hall.
  apply (bool_decide_eq_true_1 _), Hall, list_elem_of_In, elem_of_seqZ. lia.
Qed.

Lemma span_hex l :
  Forall (λ d, 0 ≤ d < 16) l → span_digits 16 (string_of_chars (hex_char <$> l)) = (l, "").
Proof.
  induction 1 as [|d l Hd _ IH]; [done|]. cbn [fmap list_fmap string_of_chars foldr].
  change (foldr String "" (hex_char <$> l)) with (string_of_chars (hex_char <$> l)).
  cbn [span_digits]. by rewrite hex_digit_char, IH.
Qed.

Lemma drop_zeros_spec l :
  Forall (λ d, 0 ≤ d < 16) l → l ≠ [] →
  Forall (λ d, 0 ≤ d < 16) (drop_zeros l) ∧ be_value 16 (drop_zeros l) = be_value 16 l ∧
  (0 < length (drop_zeros l) ≤ length l)%nat.
Proof.
  induction 1 as [|d l Hd Hl IH]; [done|]. intros _. cbn [drop_zeros].
  destruct l as [|e l]; [split_and!; [by constructor|done|cbn; lia|cbn; lia]|].
  destruct (Z.eqb_spec d 0) as [->|]; cycle 1.
  { split_and!; [by constructor|done|cbn; lia|cbn; lia]. }
  destruct (IH ltac:(done)) as (? & Hv & ?). rewrite be_value_cons_zero.
  split_and!; [done|done|lia|cbn [length] in *; lia].
Qed.

Lemma group_prints g : 0 ≤ g < 65536 → prints 16 65535 4 true (hex_group g) g = true.
Proof.
  intros Hg. unfold prints, hex_group.
  pose proof (be_digits_range 16 4 g ltac:(lia)) as Hr.
  destruct (drop_zeros_spec (be_digits 16 4 g) Hr ltac:(done)) as (Hd & Hv & Hl).
  rewrite span_hex by done. rewrite Hv, be_value_digits by (cbn; lia).
  rewrite Z.eqb_refl. cbn [str_is_empty andb]. rewrite (proj2 (Z.leb_le _ _)) by lia. cbn [andb].
  rewrite length_be_digits in Hl. destruct (drop_zeros _) as [|d ds]; [cbn in Hl; lia|].
  rewrite (proj2 (Nat.leb_le _ _)) by lia. done.
Qed.

(** ** Characters of printed addresses *)

Definition no_char (c : ascii) : string → bool := str_all (λ d, negb (bool_decide (c = d))).

Lemma no_char_app c s t : no_char c (s +:+ t) = no_char c s && no_char c t.
Proof. apply str_all_app. Qed.

Lemma digits_no_char c s : is_digit c = false → str_all is_digit s = true → no_char c s = true.
Proof.
  intros Hc. apply str_all_impl. intros d Hd. apply negb_true_iff, bool_decide_eq_false_2.
  intros ->. congruence.
Qed.

Lemma hex_group_no_char c g :
  hex_val c = None → 0 ≤ g < 65536 → no_char c (hex_group g) = true.
Proof.
  intros Hc Hg. unfold hex_group.
  pose proof (be_digits_range 16 4 g ltac:(lia)) as Hr.
  destruct (drop_zeros_spec (be_digits 16 4 g) Hr ltac:(done)) as (Hd & _).
  induction Hd as [|d l Hd _ IH]; [done|]. cbn [fmap list_fmap string_of_chars foldr].
  unfold no_char. cbn [str_all]. apply andb_true_iff. split; [|exact IH].
  apply negb_true_iff, bool_decide_eq_false_2. intros ->.
  pose proof (hex_digit_char d Hd) as Hv. unfold radix_val in Hv. by rewrite Hc in Hv.
Qed.

Lemma join_no_char c sep l :
  no_char c sep = true → Forall (λ s, no_char c s = true) l → no_char c (str_join sep l) = true.
Proof.
  intros Hsep. induction 1 as [|s l Hs Hl IH]; [done|].
  destruct l as [|t l]; [done|].
  change (str_join sep (s :: t :: l)) with (s +:+ sep +:+ str_join sep (t :: l)).
  by rewrite !no_char_app, Hs, Hsep, IH.
Qed.

(** Without a dot there is no IPv4 address. *)
Lemma span_digits_rest radix s ds rest :
  span_digits radix s = (ds, rest) → no_char "." s = true → no_char "." rest = true.
Proof.
  revert ds. induction s as [|c s IH]; intros ds; cbn; [by intros [= <- <-]|].
  destruct (radix_val radix c); [|by intros [= <- <-]].
  destruct (span_digits radix s) as [ds' rest'] eqn:Hs. intros [= <- <-] Hc.
  apply (IH ds' eq_refl). unfold no_char in *. cbn in Hc. by apply andb_true_iff in Hc as [_ ?].
Qed.

Lemma read_ipv4_no_dot s : no_char "." s = true → read_ipv4 s = None.
Proof.
  intros Hs. unfold read_ipv4. destruct (read_octet s) as [[a r]|] eqn:Ha; [|done]. cbn.
  unfold read_octet, read_number in Ha. destruct (span_digits 10 s) as [ds rest] eqn:Hd.
  apply span_digits_rest in Hd; [|done].
  destruct ds; [done|]. case_match; [|done]. simplify_eq.
  destruct r as [|c r]; [done|]. cbn. destruct (decide ("."%char = c)) as [<-|]; [|done].
  unfold no_char in Hd. cbn in Hd. done.
Qed.

(** ** IPv4 *)

Lemma read_ipv4_print b rest :
  0 ≤ b < 2 ^ 32 → stops 10 rest = true → read_ipv4 (ipv4_to_string b +:+ rest) = Some (b, rest).
Proof.
  intros Hb Hrest. unfold ipv4_to_string.
  pose proof (be_digits_range 256 4 b ltac:(lia)) as Hr.
  pose proof (length_be_digits 256 4 b) as Hl.
  pose proof (be_value_digits 256 4 b ltac:(lia) Hb) as Hv.
  destruct (be_digits 256 4 b) as [|w [|x [|y [|z [|]]]]]; try done.
  rewrite !Forall_cons_iff in Hr. destruct Hr as (Hw & Hx & Hy & Hz & _).
  cbn [fmap list_fmap str_join]. rewrite !str_app_assoc. unfold read_ipv4, read_octet.
  rewrite (read_number_prints _ _ _ _ _ w) by (by apply octet_prints || done).
  cbn [mbind option_bind]. rewrite append_cons, append_nil_l. cbn [read_char].
  rewrite decide_True by done. cbn [mbind option_bind].
  rewrite (read_number_prints _ _ _ _ _ x) by (by apply octet_prints || done).
  cbn [mbind option_bind]. rewrite append_cons, append_nil_l. cbn [read_char].
  rewrite decide_True by done. cbn [mbind option_bind].
  rewrite (read_number_prints _ _ _ _ _ y) by (by apply octet_prints || done).
  cbn [mbind option_bind]. rewrite append_cons, append_nil_l. cbn [read_char].
  rewrite decide_True by done. cbn [mbind option_bind].
  rewrite (read_number_prints _ _ _ _ _ z) by (by apply octet_prints || done).
  cbn [mbind option_bind]. by rewrite Hv.
Qed.

Lemma parse_ipv4_print b : 0 ≤ b < 2 ^ 32 → parse_ipaddr (ipv4_to_string b) = Some (V4 b).
Proof.
  intros Hb. unfold parse_ipaddr. rewrite <-(str_app_nil_r (ipv4_to_string b)).
  by rewrite read_ipv4_print.
Qed.

(** ** Longest run of zero groups *)

(** Positions [start .. start + len) of [l] hold zeros. *)
Definition zeros_at (l : list Z) (start len : nat) : Prop :=
  ∀ j, (start ≤ j < start + len)%nat → l !! j = Some 0.

Lemma longest_zeros_spec whole rest i cs cl bs bl :
  (∀ j, rest !! j = whole !! (i + j)%nat) →
  zeros_at whole cs cl → (cl = 0 ∨ cs + cl = i)%nat → zeros_at whole bs bl →
  let '(s, n) := longest_zeros rest i cs cl bs bl in zeros_at whole s n.
Proof.
  revert i cs cl bs bl. induction rest as [|d rest IH]; intros i cs cl bs bl Hw Hc Hi Hb; [done|].
  assert (∀ j, rest !! j = whole !! (S i + j)%nat) as Hw'.
  { intros j. pose proof (Hw (S j)) as Hj. rewrite Nat.add_succ_r in Hj. exact Hj. }
  assert (whole !! i = Some d) as Hd by (rewrite <-(Nat.add_0_r i), <-Hw; done).
  cbn [longest_zeros]. destruct (Z.eqb_spec d 0) as [->|Hne]; cycle 1.
  { apply IH; [done| |by left|done]. intros j Hj. lia. }
  set (cs' := if decide (cl = 0%nat) then i else cs).
  assert (zeros_at whole cs' (S cl) ∧ (cs' + S cl = S i)%nat) as [Hc' Hi'].
  { subst cs'. destruct (decide (cl = 0%nat)) as [->|Hcl].
    - split; [|lia]. intros j Hj. by replace j with i by lia.
    - destruct Hi as [|Hi]; [done|]. split; [|lia]. intros j Hj.
      destruct (decide (j = i)) as [->|]; [done|]. apply Hc. lia. }
  destruct (bl <? S cl)%nat; apply IH; auto.
Qed.

Lemma zeros_at_split l start len :
  zeros_at l start len → (start + len ≤ length l)%nat →
  l = take start l ++ replicate len 0 ++ drop (start + len) l.
Proof.
  intros Hz Hl. apply list_eq. intros j.
  destruct (decide (j < start)%nat) as [Hj|Hj].
  { rewrite lookup_app_l by (rewrite length_take; lia). by rewrite lookup_take_lt. }
  rewrite lookup_app_r by (rewrite length_take; lia). rewrite length_take.
  rewrite Nat.min_l by lia. destruct (decide (j < start + len)%nat) as [Hj'|Hj'].
  { rewrite lookup_app_l by (rewrite length_replicate; lia).
    rewrite lookup_replicate_2 by lia. apply Hz. lia. }
  rewrite lookup_app_r by (rewrite length_replicate; lia). rewrite length_replicate, lookup_drop.
  f_equal. lia.
Qed.

Lemma zeros_at_bound l start len : zeros_at l start len → (0 < len)%nat → (start + len ≤ length l)%nat.
Proof.
  intros Hz Hlen. pose proof (Hz (start + len - 1)%nat ltac:(lia)) as Hlast.
  apply lookup_lt_Some in Hlast. lia.
Qed.

(** ** Groups *)

(** The text of groups after [i] others: each has a separator before it. *)
Fixpoint groups_text (i : nat) (gs : list Z) : string :=
  match gs with
  | [] => ""
  | g :: gs => (if decide (i = 0%nat) then "" else ":") +:+ hex_group g +:+ groups_text (S i) gs
  end.

Lemma groups_text_succ i gs :
  (0 < i)%nat → groups_text i gs = match gs with [] => "" | _ => ":" +:+ fmt_subslice gs end.
Proof.
  revert i. induction gs as [|g gs IH]; intros i Hi; [done|]. cbn [groups_text].
  rewrite decide_False by lia. f_equal. rewrite IH by lia. unfold fmt_subslice.
  destruct gs as [|g' gs]; [apply str_app_nil_r|]. done.
Qed.

Lemma fmt_groups gs : fmt_subslice gs = groups_text 0 gs.
Proof.
  destruct gs as [|g gs]; [done|]. cbn [groups_text]. rewrite decide_True, append_nil_l by done.
  rewrite groups_text_succ by lia. unfold fmt_subslice. destruct gs; [|done].
  by rewrite str_app_nil_r.
Qed.

Lemma groups_text_no_dot i gs :
  Forall (λ g, 0 ≤ g < 65536) gs → no_char "." (groups_text i gs) = true.
Proof.
  intros Hg. revert i. induction Hg as [|g gs Hg _ IH]; intros i; [done|]. cbn [groups_text].
  rewrite !no_char_app, IH, hex_group_no_char by done. by destruct (decide (i = 0%nat)).
Qed.

(** No more groups can be read: no digit follows where one must, and no
    embedded IPv4 address either. *)
Definition groups_end (i : nat) (rest : string) : bool :=
  match i with
  | O => stops 16 rest
  | S _ => match rest with
           | String c rest' => if decide (":"%char = c) then stops 16 rest' else stops 16 rest
           | EmptyString => true
           end
  end.

Lemma read_number_stops radix max width zeros rest :
  stops radix rest = true → read_number radix max width zeros rest = None.
Proof.
  intros Hs. unfold read_number. destruct rest as [|c rest]; [done|]. cbn in *.
  by destruct (radix_val radix c).
Qed.

Lemma read_sep_no_dot i s : no_char "." s = true → read_sep i read_ipv4 s = None.
Proof.
  intros Hs. destruct i as [|i]; cbn; [by apply read_ipv4_no_dot|].
  destruct s as [|c s]; [done|]. cbn. destruct (decide (":"%char = c)); [|done]. cbn.
  apply read_ipv4_no_dot. unfold no_char in *. cbn in Hs. by apply andb_true_iff in Hs as [_ ?].
Qed.

Lemma read_sep_end i rest :
  groups_end i rest = true → read_sep i (read_number 16 65535 4 true) rest = None.
Proof.
  destruct i as [|i]; cbn; [apply read_number_stops|].
  destruct rest as [|c rest]; [done|]. cbn. destruct (decide (":"%char = c)) as [<-|]; [|done].
  intros Hs. cbn. by apply read_number_stops.
Qed.

Lemma read_groups_text n i gs rest :
  Forall (λ g, 0 ≤ g < 65536) gs → (length gs ≤ n)%nat →
  no_char "." rest = true → stops 16 rest = true →
  (length gs = n ∨ groups_end (i + length gs) rest = true) →
  read_groups n i (groups_text i gs +:+ rest) = (gs, false, rest).
Proof.
  intros Hg. revert n i. induction Hg as [|g gs Hg Hgs IH]; intros n i Hn Hdot Hst Hend.
  - cbn [groups_text]. rewrite append_nil_l. destruct n as [|n]; [done|]. cbn [read_groups].
    destruct Hend as [|Hend]; [done|]. cbn in Hend. rewrite Nat.add_0_r in Hend.
    rewrite read_sep_no_dot, read_sep_end by done. by destruct (1 <? S n)%nat.
  - destruct n as [|n]; [cbn in Hn; lia|]. cbn [read_groups groups_text].
    assert (read_sep i read_ipv4
      (((if decide (i = 0%nat) then "" else ":") +:+ hex_group g +:+ groups_text (S i) gs) +:+ rest)
      = None) as ->.
    { apply read_sep_no_dot. rewrite !no_char_app, hex_group_no_char, groups_text_no_dot, Hdot
        by done. by destruct (decide (i = 0%nat)). }
    assert (stops 16 (groups_text (S i) gs +:+ rest) = true) as Hst'.
    { destruct gs as [|g' gs]; [exact Hst|]. cbn [groups_text]. by rewrite decide_False by lia. }
    assert (read_sep i (read_number 16 65535 4 true)
      (((if decide (i = 0%nat) then "" else ":") +:+ hex_group g +:+ groups_text (S i) gs) +:+ rest)
      = Some (g, groups_text (S i) gs +:+ rest)) as ->.
    { rewrite !str_app_assoc. destruct i as [|i]; cbn [read_sep].
      - rewrite decide_True, append_nil_l by done.
        by rewrite (read_number_prints _ _ _ _ _ g) by (by apply group_prints || done).
      - rewrite decide_False by lia. rewrite append_cons, append_nil_l. cbn [read_char].
        rewrite decide_True by done. cbn [mbind option_bind].
        by rewrite (read_number_prints _ _ _ _ _ g) by (by apply group_prints || done). }
    destruct (1 <? S n)%nat; cbn [length] in *;
      rewrite (IH n (S i)) by (done || lia || (destruct Hend; [left; lia|right];
        by rewrite Nat.add_succ_comm)); done.
Qed.

(** ** IPv6 *)

Lemma segments_facts b :
  0 ≤ b < 2 ^ 128 →
  Forall (λ g, 0 ≤ g < 65536) (segments b) ∧ length (segments b) = 8%nat ∧
  be_value 65536 (segments b) = b.
Proof.
  intros Hb. split_and!.
  - apply be_digits_range. lia.
  - apply length_be_digits.
  - apply be_value_digits; [lia|exact Hb].
Qed.

(** An IPv4-mapped address: [::ffff:a.b.c.d]. *)
Lemma read_ipv6_mapped v :
  0 ≤ v < 2 ^ 32 →
  read_ipv6 ("::ffff:" +:+ ipv4_to_string v) = Some (65535 * 2 ^ 32 + v, "").
Proof.
  intros Hv. unfold read_ipv6.
  change (read_groups 8 0 ("::ffff:" +:+ ipv4_to_string v))
    with (@nil Z, false, "::ffff:" +:+ ipv4_to_string v).
  change ((length (@nil Z) =? 8)%nat) with false. cbn iota.
  change (read_char ":" ("::ffff:" +:+ ipv4_to_string v))
    with (Some (":ffff:" +:+ ipv4_to_string v)). cbn [mbind option_bind].
  change (read_char ":" (":ffff:" +:+ ipv4_to_string v))
    with (Some ("ffff:" +:+ ipv4_to_string v)). cbn [mbind option_bind].
  assert (read_groups (7 - length (@nil Z)) 0 ("ffff:" +:+ ipv4_to_string v)
          = ([65535; v `div` 65536; v `mod` 65536], true, "")) as ->.
  { change (7 - length (@nil Z))%nat with 7%nat.
    change (read_groups 7 0 ("ffff:" +:+ ipv4_to_string v)) with
      (let '(gs, v4, s'') := read_groups 6 1 (":" +:+ ipv4_to_string v) in (65535 :: gs, v4, s'')).
    cbn [read_groups]. change ((1 <? 6)%nat) with true. cbn iota. cbn [read_sep].
    rewrite append_cons, append_nil_l. cbn [read_char]. rewrite decide_True by done.
    cbn [mbind option_bind]. rewrite <-(str_app_nil_r (ipv4_to_string v)).
    by rewrite read_ipv4_print. }
  do 2 f_equal. pose proof (Z.div_mod v 65536 ltac:(lia)) as Hdm.
  change (v `mod` 65536 + 65536 * (v `div` 65536 + 65536 * (65535 + 65536 * 0))
    = 65535 * 2 ^ 32 + v).
  change (2 ^ 32) with (65536 * 65536). lia.
Qed.

(** Groups with the run of zeros at [start] left out. *)
Lemma read_ipv6_compressed segs start len :
  Forall (λ g, 0 ≤ g < 65536) segs → length segs = 8%nat →
  zeros_at segs start len → (1 < len)%nat →
  read_ipv6 (fmt_subslice (take start segs) +:+ "::" +:+ fmt_subslice (drop (start + len) segs))
    = Some (be_value 65536 segs, "").
Proof.
  intros Hg Hl Hz Hlen. pose proof (zeros_at_bound _ _ _ Hz ltac:(lia)) as Hb.
  set (hd := take start segs). set (tl := drop (start + len) segs).
  assert (length hd = start) as Hhd by (subst hd; rewrite length_take; lia).
  assert (length tl = 8 - start - len)%nat as Htl by (subst tl; rewrite length_drop; lia).
  assert (Forall (λ g, 0 ≤ g < 65536) hd) as Hghd by by apply Forall_take.
  assert (Forall (λ g, 0 ≤ g < 65536) tl) as Hgtl by by apply Forall_drop.
  rewrite !fmt_groups. unfold read_ipv6.
  assert (no_char "." ("::" +:+ groups_text 0 tl) = true) as Hdot.
  { rewrite no_char_app, groups_text_no_dot by done. done. }
  rewrite (read_groups_text 8 0 hd); [|done|lia|exact Hdot|done|].
  2:{ right. rewrite Hhd. by destruct (0 + start)%nat. }
  rewrite Hhd. destruct (Nat.eqb_spec start 8); [lia|].
  change (read_char ":" ("::" +:+ groups_text 0 tl)) with (Some (":" +:+ groups_text 0 tl)).
  cbn [mbind option_bind].
  change (read_char ":" (":" +:+ groups_text 0 tl)) with (Some (groups_text 0 tl)).
  cbn [mbind option_bind]. rewrite <-(str_app_nil_r (groups_text 0 tl)).
  rewrite (read_groups_text (7 - start) 0 tl); [|done|lia|done|done|].
  2:{ right. by destruct (0 + length tl)%nat. }
  do 3 f_equal. rewrite Htl. replace (8 - start - (8 - start - len))%nat with len by lia.
  symmetry. apply zeros_at_split; [done|lia].
Qed.

Lemma parse_ipv6_print b : 0 ≤ b < 2 ^ 128 → parse_ipaddr (ipv6_to_string b) = Some (V6 b).
Proof.
  intros Hb. destruct (segments_facts b Hb) as (Hg & Hl & Hv). unfold ipv6_to_string.
  case_bool_decide as Hm.
  - assert (b = 65535 * 2 ^ 32 + b `mod` 2 ^ 32) as Hb'.
    { clear Hb. destruct (segments b) as [|g0 [|g1 [|g2 [|g3 [|g4 [|g5 [|x [|y [|]]]]]]]]]; try done.
      cbn in Hm. simplify_eq. rewrite !Forall_cons_iff in Hg.
      destruct Hg as (_ & _ & _ & _ & _ & _ & Hx & Hy & _).
      change (be_value 65536 [0; 0; 0; 0; 0; 65535; x; y]) with
        (y + 65536 * (x + 65536 * (65535 + 65536 * 0))).
      replace (y + 65536 * (x + 65536 * (65535 + 65536 * 0)))
        with (65536 * x + y + 65535 * 2 ^ 32) by lia.
      rewrite Z.mod_add by lia. rewrite Z.mod_small by lia. lia. }
    pose proof (Z.mod_pos_bound b (2 ^ 32) ltac:(lia)) as Hv32.
    unfold parse_ipaddr. change (read_ipv4 ("::ffff:" +:+ ipv4_to_string (b `mod` 2 ^ 32)))
      with (@None (Z * string)).
    by rewrite read_ipv6_mapped, <-Hb' by done.
  - destruct (longest_zeros (segments b) 0 0 0 0 0) as [start len] eqn:Hz.
    assert (zeros_at (segments b) start len) as Hat.
    { pose proof (longest_zeros_spec (segments b) (segments b) 0 0 0 0 0) as Hs.
      rewrite Hz in Hs. apply Hs; [done|..]; try (intros j Hj; lia). by left. }
    destruct (Nat.ltb_spec 1 len) as [Hlen|Hlen]; unfold parse_ipaddr.
    + rewrite read_ipv4_no_dot.
      { by rewrite read_ipv6_compressed, Hv by done. }
      rewrite !fmt_groups, !no_char_app.
      rewrite !groups_text_no_dot by (by apply Forall_take || by apply Forall_drop). done.
    + rewrite fmt_groups, read_ipv4_no_dot by by apply groups_text_no_dot.
      unfold read_ipv6. rewrite <-(str_app_nil_r (groups_text 0 (segments b))).
      rewrite (read_groups_text 8 0 (segments b)) by (done || lia || by left).
      by rewrite Hl, Hv.
Qed.

(** ** Printing is injective *)

Lemma parse_ip_to_string a : ip_wf a → parse_ipaddr (ip_to_string a) = Some a.
Proof. destruct a as [b|b]; intros Hb; [by apply parse_ipv4_print|by apply parse_ipv6_print]. Qed.

Lemma ip_to_string_inj a b : ip_wf a → ip_wf b → ip_to_string a = ip_to_string b → a = b.
Proof.
  intros Ha Hb Heq. pose proof (parse_ip_to_string a Ha) as Hpa.
  rewrite Heq, (parse_ip_to_string b Hb) in Hpa. by injection Hpa.
Qed.

(** Printed addresses have none of the characters [c] that is no hexadecimal
    digit, colon or dot. *)
Lemma ip_no_char c a :
  ip_wf a → hex_val c = None → c ≠ ":"%char → c ≠ "."%char → no_char c (ip_to_string a) = true.
Proof.
  intros Ha Hx Hcolon Hdot.
  assert (no_char c ":" = true ∧ no_char c "." = true ∧ no_char c "::" = true ∧
          no_char c "::ffff:" = true) as (Hc & Hd & Hcc & Hm).
  { unfold no_char. cbn. rewrite !bool_decide_eq_false_2 by done.
    assert (c ≠ "f"%char) by (intros ->; done). by rewrite !bool_decide_eq_false_2. }
  assert (∀ v, no_char c (ipv4_to_string v) = true) as H4.
  { intros v. unfold ipv4_to_string. apply join_no_char; [done|]. apply Forall_fmap.
    eapply Forall_impl; [|exact (be_digits_range 256 4 v ltac:(lia))]. intros x Hxr. cbn.
    apply digits_no_char; [|apply pretty_digits; apply Hxr].
    destruct (is_digit c) eqn:Hdig; [|done]. unfold is_digit in Hdig. unfold hex_val in Hx.
    by rewrite Hdig in Hx. }
  assert (∀ l, Forall (λ g, 0 ≤ g < 65536) l → no_char c (fmt_subslice l) = true) as H6.
  { intros l Hl. unfold fmt_subslice. apply join_no_char; [done|]. apply Forall_fmap.
    eapply Forall_impl; [|exact Hl]. intros g Hg. by apply hex_group_no_char. }
  destruct a as [b|b]; [apply H4|]. destruct (segments_facts b Ha) as (Hg & _).
  cbn [ip_to_string]. unfold ipv6_to_string.
  case_bool_decide; [by rewrite no_char_app, Hm, H4|].
  destruct (longest_zeros _ _ _ _ _ _) as [start len]. destruct (1 <? len)%nat; [|by apply H6].
  rewrite !no_char_app, Hcc, !H6 by (by apply Forall_take || by apply Forall_drop). done.
Qed.
