(* ===== verification/Common.v ===== *)
(** * Common: derived names and kernel parameters ([crates/common])

    [Naming] is [naming.rs]: chain and set names from a hash, whose SHA-256 and
    Base32 implementations are third-party crates and so an operation of
    [HashLib].  [Sysctl] is the path translation of [sysctl.rs]. *)

From stdpp Require Import gmap strings list pretty.
From Stdlib Require Import Ascii ZArith Lia.
From S2P Require Import Prelude Text Net.

Module Naming.

(** [BASE32.encode(&Sha256::digest(input))]. *)
Class HashLib := { base32_sha256 : string → string }.

(** The Base32 text of 32 bytes has 56 characters, 52 of them from the Base32
    alphabet and the rest padding. *)
Definition base32_char (c : ascii) : bool :=
  let b := byte_of c in
  ((65 <=? b) && (b <=? 90) || (50 <=? b) && (b <=? 55))%Z.

Class HashLaws `{HashLib} : Prop := {
  base32_length s : String.length (base32_sha256 s) = 56;
  base32_alphabet s :
    forallb base32_char (String.list_ascii_of_string (String.substring 0 52 (base32_sha256 s))) = true;
}.

Definition HASH_LEN : nat := 16.
Definition POD_FW_PREFIX : string := "KUBE-POD-FW-".
Definition NWPLCY_PREFIX : string := "KUBE-NWPLCY-".
Definition SRC_PREFIX : string := "KUBE-SRC-".
Definition DST_PREFIX : string := "KUBE-DST-".

Section naming.
Context `{HashLib}.

Definition hash16 (input : string) : string := String.substring 0 HASH_LEN (base32_sha256 input).

Definition family_tag (family : IpFamily) : string :=
  match family with FamV4 => "IPv4" | FamV6 => "IPv6" end.

Definition pod_firewall_chain (namespace pod sync_version : string) : string :=
  POD_FW_PREFIX +:+ hash16 (namespace +:+ pod +:+ sync_version).

Definition network_policy_chain (namespace policy sync_version : string)
    (family : IpFamily) : string :=
  NWPLCY_PREFIX +:+ hash16 (namespace +:+ policy +:+ sync_version +:+ family_tag family).
End naming.

(** ** Lengths *)

Lemma length_substring_0 n s :
  n ≤ String.length s → String.length (String.substring 0 n s) = n.
Proof.
  revert s. induction n as [|n IH]; intros s Hn; [by destruct s|].
  destruct s as [|c s]; cbn in *; [lia|]. f_equal. apply IH. lia.
Qed.

Lemma length_append s t : String.length (s +:+ t) = String.length s + String.length t.
Proof. induction s as [|c s IH]; [done|]. rewrite append_cons. cbn. by rewrite IH. Qed.

Lemma length_hash16 `{HashLaws} s : String.length (hash16 s) = HASH_LEN.
Proof. unfold hash16. apply length_substring_0. rewrite base32_length. unfold HASH_LEN. lia. Qed.

(** A concrete digest for examples: a polynomial hash of the bytes, written with
    56 letters. *)
Fixpoint toy_hash (acc : N) (s : string) : N :=
  match s with
  | EmptyString => acc
  | String c s => toy_hash ((acc * 257 + N_of_ascii c + 1) mod 2 ^ 256)%N s
  end.
Fixpoint toy_letters (n : nat) (h : N) : string :=
  match n with
  | O => EmptyString
  | S n => String (ascii_of_N (65 + h mod 26)) (toy_letters n (h / 26))
  end.
#[export] Instance toy_hash_lib : HashLib := {|
  base32_sha256 s := toy_letters 52 (toy_hash 7 s) +:+ "===="
|}.

Lemma toy_letters_ok n h :
  String.length (toy_letters n h) = n ∧
  forallb base32_char (String.list_ascii_of_string (toy_letters n h)) = true.
Proof.
  revert h. induction n as [|n IH]; intros h; cbn [toy_letters]; [done|]. cbn.
  destruct (IH (h / 26)%N) as [-> ->]. split; [done|].
  pose proof (N.mod_lt h 26 ltac:(done)) as Hlt.
  generalize dependent (h mod 26)%N. intros d Hlt.
  rewrite andb_true_r. unfold base32_char, byte_of. rewrite N_ascii_embedding by lia.
  apply orb_true_iff. left. apply andb_true_iff. split; apply Z.leb_le; lia.
Qed.

Lemma substring_0_app s t : String.substring 0 (String.length s) (s +:+ t) = s.
Proof. induction s as [|c s IH]; [by destruct t|]. rewrite append_cons. cbn. by rewrite IH. Qed.

#[export] Instance toy_hash_laws : HashLaws.
Proof.
  split; intros s; unfold base32_sha256; cbn [toy_hash_lib];
    destruct (toy_letters_ok 52 (toy_hash 7 s)) as [Hl Ha].
  - by rewrite length_append, Hl.
  - rewrite <-Hl at 1. by rewrite substring_0_app.
Qed.

End Naming.

Module Sysctl.

(** [PathBuf::push] on a path that is not empty. *)
Definition path_push (p seg : string) : string :=
  if starts_with "/" seg then seg
  else if starts_with "/" (String.rev p) then p +:+ seg
  else p +:+ "/" +:+ seg.

Definition key_to_path (key : string) : string :=
  foldl path_push "/proc/sys" (split_char "." key).

Example key_to_path_forward :
  key_to_path "net.ipv4.ip_forward" = "/proc/sys/net/ipv4/ip_forward".
Proof. reflexivity. Qed.

End Sysctl.
