(* ===== verification/LbAlloc.v ===== *)
(** * LbAlloc: the LoadBalancer address allocator ([crates/lballoc])

    [Pools] is [pools.rs] (the cursor over the configured ranges), [Allocate] is
    [allocate.rs] (service-class filtering and the plan for one service),
    [Controller] is [controller.rs] (one allocation pass over all services) and
    [Election] is [election.rs] (leadership). *)

From stdpp Require Import gmap sets list strings.
From Stdlib Require Import ZArith Lia.
From S2P Require Import Prelude Text Net.

Local Open Scope Z_scope.

(** ** Projected services ([model.rs]) *)

Definition LOAD_BALANCER_CLASS : string := "kube-router".

Record LbService := {
  lb_namespace : string;
  lb_name : string;
  is_loadbalancer : bool;
  loadbalancer_class : option string;
  want_v4 : bool;
  want_v6 : bool;
  require_dual : bool;
  lb_external_ips : list IpAddr;
  lb_ingress_ips : list IpAddr;
}.

Definition have_families (self : LbService) : bool * bool :=
  (existsb is_ipv4 (lb_ingress_ips self), existsb is_ipv6 (lb_ingress_ips self)).

Module Pools.
Section pools.
Context `{IpNetLib}.

(** [current_ip] is [None] exactly when there are no ranges. *)
Record IpRanges := {
ranges : list IpNet;
range_index : nat;
current_ip : option IpAddr;
}.

(** [bump], on the octets in reverse order: the loop stops at the first octet
  that does not wrap to zero. *)
Fixpoint bump (rev_octets : list Z) : list Z :=
match rev_octets with
| [] => []
| b :: rest =>
    let b' := (b + 1) `mod` 256 in
    if b' =? 0 then b' :: bump rest else b' :: rest
end.

Definition inc_ip (ip : IpAddr) : IpAddr :=
mk_ip (is_ipv6 ip) (le_value 256 (bump (reverse (octets ip)))).

Definition new (ranges : list IpNet) : IpRanges :=
{| ranges := ranges; range_index := 0; current_ip := net_network <$> head ranges |}.

Definition is_empty (self : IpRanges) : bool :=
match ranges self with [] => true | _ => false end.

Definition contains (self : IpRanges) (ip : IpAddr) : bool :=
existsb (λ r, net_contains r ip) (ranges self).

(** [inc]; [None] is the panic of an index out of bounds. *)
Definition inc (self : IpRanges) : option IpRanges :=
match current_ip self with
| None => Some self
| Some cur =>
    let next := inc_ip cur in
    range ← ranges self !! range_index self;
    if net_contains range next
    then Some {| ranges := ranges self; range_index := range_index self;
                 current_ip := Some next |}
    else
      let index := if (length (ranges self) <=? range_index self + 1)%nat
                   then 0%nat else (range_index self + 1)%nat in
      range' ← ranges self !! index;
      Some {| ranges := ranges self; range_index := index;
              current_ip := Some (net_network range') |}
end.

(** [n] calls of [inc]. *)
Fixpoint inc_n (n : nat) (self : IpRanges) : option IpRanges :=
match n with
| O => Some self
| S n => self ← inc self; inc_n n self
end.

(** The scan of [next_free_ip]: [None] is a panic or an exhausted fuel. *)
Fixpoint next_free_loop (fuel : nat) (allocated : list IpAddr) (start ip : IpAddr)
  (self : IpRanges) : option (option IpAddr * IpRanges) :=
match fuel with
| O => None
| S fuel =>
    if negb (list_contains allocated ip) then Some (Some ip, self)
    else
      self ← inc self;
      match current_ip self with
      | None => Some (None, self)
      | Some ip => if decide (ip = start) then Some (None, self)
                   else next_free_loop fuel allocated start ip self
      end
end.

(** Each allocated address is met at most once per range. *)
Definition scan_fuel (allocated : list IpAddr) (self : IpRanges) : nat :=
S (length (ranges self) * length allocated).

Definition next_free_ip (allocated : list IpAddr) (self : IpRanges)
  : option (option IpAddr * IpRanges) :=
match current_ip self with
| None => Some (None, self)
| Some start => next_free_loop (scan_fuel allocated self) allocated start start self
end.

End pools.
End Pools.

Module Allocate.
Section allocate.
Context `{IpNetLib}.
Import Pools.

Inductive AllocError :=
| NoRanges (why : string)
| DualStackUnavailable
| Exhausted.

Definition check_class (class : option string) (is_default : bool) : bool :=
match class with
| None => is_default
| Some c => if decide (c = LOAD_BALANCER_CLASS) then true
            else if decide (c = "default") then is_default else false
end.

Definition needs_ingress (svc : LbService) : bool :=
let '(have4, have6) := have_families svc in
negb (Bool.eqb (want_v4 svc) have4) || negb (Bool.eqb (want_v6 svc) have6).

Definition should_allocate (svc : LbService) (is_default : bool) : bool :=
is_loadbalancer svc && check_class (loadbalancer_class svc) is_default && needs_ingress svc.

Record AllocationPlan := { plan_v4 : option IpAddr; plan_v6 : option IpAddr }.

Definition plan_ips (self : AllocationPlan) : list IpAddr :=
option_list (plan_v4 self) ++ option_list (plan_v6 self).

Definition plan_is_empty (self : AllocationPlan) : bool :=
match plan_v4 self, plan_v6 self with None, None => true | _, _ => false end.

(** One family of the plan: [if want && !have && can { ranges.next_free_ip(..) }].
  The inner option says whether an address was found; [None] is a panic. *)
Definition plan_family (want have can : bool) (allocated : list IpAddr) (r : IpRanges)
  : option (option IpAddr * option AllocError * IpRanges) :=
if want && negb have && can then
  '(res, r) ← next_free_ip allocated r;
  match res with
  | Some ip => Some (Some ip, None, r)
  | None => Some (None, Some Exhausted, r)
  end
else Some (None, None, r).

Definition plan_allocation (svc : LbService) (v4_ranges v6_ranges : IpRanges)
  (allocated4 allocated6 : list IpAddr)
  : option ((AllocError + AllocationPlan) * IpRanges * IpRanges) :=
let can_v4 := negb (is_empty v4_ranges) in
let can_v6 := negb (is_empty v6_ranges) in
if require_dual svc && negb can_v4 then
  Some (inl (NoRanges "IPv4 required"), v4_ranges, v6_ranges)
else if require_dual svc && negb can_v6 then
  Some (inl (NoRanges "IPv6 required"), v4_ranges, v6_ranges)
else if want_v4 svc && negb can_v4 && negb (want_v6 svc) then
  Some (inl (NoRanges "no IPv4 ranges"), v4_ranges, v6_ranges)
else if want_v6 svc && negb can_v6 && negb (want_v4 svc) then
  Some (inl (NoRanges "no IPv6 ranges"), v4_ranges, v6_ranges)
else
  let '(have4, have6) := have_families svc in
  '(p4, err4, v4_ranges) ← plan_family (want_v4 svc) have4 can_v4 allocated4 v4_ranges;
  '(p6, err6, v6_ranges) ← plan_family (want_v6 svc) have6 can_v6 allocated6 v6_ranges;
  let plan := {| plan_v4 := p4; plan_v6 := p6 |} in
  let result :=
    if plan_is_empty plan then
      match err4, err6 with
      | None, None => inr plan
      | Some e, _ | None, Some e => inl e
      end
    else if require_dual svc && (bool_decide (p4 = None) || bool_decide (p6 = None))
    then inl DualStackUnavailable
    else inr plan in
  Some (result, v4_ranges, v6_ranges).

End allocate.
End Allocate.

Module Controller.
Import Pools Allocate.

(** [StatusUpdater::append_ingress]; the error is [StatusError]. *)
Class StatusUpdater (W : Type) := {
  append_ingress : string → string → list IpAddr → M W string unit;
}.

Inductive LbErr := StatusError (e : string) | Panic.

Section controller.
Context `{IpNetLib}.

(** [match ip { V4(_) if v4_ranges.contains(ip) => .., .. }] *)
Definition allocated_of (v6 : bool) (r : IpRanges) (svc : LbService) : list IpAddr :=
filter (λ ip, is_ipv6 ip = v6 ∧ contains r ip = true)
  (lb_external_ips svc ++ lb_ingress_ips svc).

Definition allocated_ips (services : list LbService) (v4_ranges v6_ranges : IpRanges)
  : list IpAddr * list IpAddr :=
(services ≫= allocated_of false v4_ranges, services ≫= allocated_of true v6_ranges).

(** The fields of [LbAllocator] and the locals of [reconcile]. *)
Record Pass W := {
v4_ranges : IpRanges;
v6_ranges : IpRanges;
a4 : list IpAddr;
a6 : list IpAddr;
updated : nat;
world : W;
}.
#[global] Arguments v4_ranges {_} _.
#[global] Arguments v6_ranges {_} _.
#[global] Arguments a4 {_} _.
#[global] Arguments a6 {_} _.
#[global] Arguments updated {_} _.
#[global] Arguments world {_} _.
#[global] Arguments Build_Pass {_} _ _ _ _ _ _.

Context {W : Type} `{!StatusUpdater W}.

(** [a4.push] or [a6.push] for every planned address. *)
Definition track (ips : list IpAddr) (s : Pass W) : Pass W :=
{| v4_ranges := v4_ranges s; v6_ranges := v6_ranges s;
   a4 := a4 s ++ filter (λ ip, is_ipv6 ip = false) ips;
   a6 := a6 s ++ filter (λ ip, is_ipv6 ip = true) ips;
   updated := updated s; world := world s |}.

Definition set_world (w : W) (s : Pass W) : Pass W :=
{| v4_ranges := v4_ranges s; v6_ranges := v6_ranges s; a4 := a4 s; a6 := a6 s;
   updated := updated s; world := w |}.
Definition set_ranges (r4 r6 : IpRanges) (s : Pass W) : Pass W :=
{| v4_ranges := r4; v6_ranges := r6; a4 := a4 s; a6 := a6 s;
   updated := updated s; world := world s |}.
Definition count_update (s : Pass W) : Pass W :=
{| v4_ranges := v4_ranges s; v6_ranges := v6_ranges s; a4 := a4 s; a6 := a6 s;
   updated := S (updated s); world := world s |}.

(** The body of the loop of [reconcile]. *)
Definition reconcile_one (is_default : bool) (svc : LbService) : M (Pass W) LbErr unit :=
if negb (should_allocate svc is_default) then mret tt
else
  s ← mget;
  match plan_allocation svc (v4_ranges s) (v6_ranges s) (a4 s) (a6 s) with
  | None => mfail Panic
  | Some (inl _, r4, r6) => mmodify (set_ranges r4 r6)
  | Some (inr p, r4, r6) =>
      mmodify (set_ranges r4 r6);;
      let ips := plan_ips p in
      match ips with
      | [] => mret tt
      | _ =>
          mmodify (track ips);;
          mzoom world set_world
            (mmap_err StatusError (append_ingress (lb_namespace svc) (lb_name svc) ips));;
          mmodify count_update
      end
  end.

(** [LbAllocator::reconcile] on the snapshot [services] of the provider. *)
Definition reconcile (is_default : bool) (services : list LbService)
  (r4 r6 : IpRanges) (w : W) : (LbErr + unit) * Pass W :=
let '(al4, al6) := allocated_ips services r4 r6 in
mfor services (reconcile_one is_default)
  {| v4_ranges := r4; v6_ranges := r6; a4 := al4; a6 := al6; updated := 0; world := w |}.

End controller.

(** An updater that also records its calls, around any other updater. *)
Definition IngressCall : Type := string * string * list IpAddr.

#[export] Instance recording_updater W `{StatusUpdater W} : StatusUpdater (W * list IngressCall) := {|
  append_ingress ns name ips := λ s,
    let '(r, w) := append_ingress ns name ips s.1 in
    (r, (w, s.2 ++ [(ns, name, ips)]));
|}.
End Controller.

Module Election.

(** Seconds. *)
Definition LEASE_NAME : string := "kube-router-lballoc".
Definition LEASE_DURATION : Z := 15.
Definition RENEW_DEADLINE : Z := 10.
Definition RETRY_PERIOD : Z := 2.

(** [LeaseBackend::acquire_or_renew]: the error is [LeaseError]. *)
Class LeaseBackend (W : Type) := { acquire_or_renew : M W string bool }.

Definition can_acquire (current_holder : option string) (expired : bool) (me : string) : bool :=
  match current_holder with
  | None => true
  | Some h => if decide (h = me) then true else expired
  end.

(** [LeaderElector::tick] on the field [is_leader]. *)
Definition tick `{LeaseBackend W} (is_leader : bool) (w : W) : option bool * bool * W :=
  let '(r, w) := acquire_or_renew w in
  let held := match r with inr b => b | inl _ => false end in
  if negb (Bool.eqb held is_leader) then (Some held, held, w) else (None, is_leader, w).

End Election.

(** ** Facts about the pools *)

Module PoolsFacts.
Import Pools.

Lemma bump_value l :
  Forall (λ d, 0 ≤ d < 256) l →
  le_value 256 (bump l) = (le_value 256 l + 1) `mod` 256 ^ Z.of_nat (length l) ∧
  Forall (λ d, 0 ≤ d < 256) (bump l) ∧ length (bump l) = length l.
Proof.
  induction 1 as [|d l Hd Hl (IHv & IHr & IHl)]; [done|].
  cbn [bump le_value length]. rewrite Nat2Z.inj_succ, Z.pow_succ_r by lia.
  pose proof (le_value_range 256 l ltac:(lia) Hl) as Hb.
  set (P := 256 ^ Z.of_nat (length l)) in *.
  destruct (Z.eqb_spec ((d + 1) `mod` 256) 0) as [Hz|Hz]; cbn [le_value length].
  - assert (d = 255) as -> by (apply Z.mod_divide in Hz as [q Hq]; lia).
    rewrite Hz, IHv, IHl. split_and!; [|by constructor|done].
    replace (255 + 256 * le_value 256 l + 1) with (256 * (le_value 256 l + 1)) by lia.
    rewrite Z.mul_mod_distr_l by lia. lia.
  - assert (d + 1 < 256) as Hd'.
    { destruct (Z.eq_dec (d + 1) 256) as [He|]; [rewrite He in Hz; done|lia]. }
    rewrite (Z.mod_small (d + 1)), (Z.mod_small (d + _ + 1)) by lia.
    split_and!; [lia|constructor; [lia|done]|done].
Qed.

Lemma octets_range a : Forall (λ d, 0 ≤ d < 256) (octets a).
Proof. destruct a; apply be_digits_range; lia. Qed.

Lemma octets_value a : ip_wf a → be_value 256 (octets a) = ip_bits a.
Proof. destruct a; intros Ha; apply be_value_digits; done || exact Ha. Qed.

Lemma ip_space_octets a : ip_space (is_ipv6 a) = 256 ^ Z.of_nat (length (octets a)).
Proof. destruct a; unfold octets; by rewrite length_be_digits. Qed.

Lemma inc_ip_bits a :
  ip_wf a → ip_bits (inc_ip a) = (ip_bits a + 1) `mod` ip_space (is_ipv6 a).
Proof.
  intros Ha. unfold inc_ip.
  assert (∀ v6 b, ip_bits (mk_ip v6 b) = b) as -> by by intros [].
  destruct (bump_value (reverse (octets a))) as [-> _].
  { apply Forall_reverse, octets_range. }
  fold (be_value 256 (octets a)). by rewrite octets_value, length_reverse, ip_space_octets.
Qed.

Lemma inc_ip_family a : is_ipv6 (inc_ip a) = is_ipv6 a.
Proof. by destruct a. Qed.

Lemma inc_ip_next a :
  ip_wf a → ip_bits a + 1 < ip_space (is_ipv6 a) →
  inc_ip a = mk_ip (is_ipv6 a) (ip_bits a + 1).
Proof.
  intros Ha Hlt. pose proof (inc_ip_bits a Ha) as Hb. destruct Ha.
  rewrite Z.mod_small in Hb by lia.
  rewrite <-(mk_ip_bits (inc_ip a)), inc_ip_family, Hb. done.
Qed.

Section facts.
Context `{IpNetLaws}.

(** Ranges the increment can leave: no range is a whole address space. *)
Definition proper (rs : list IpNet) : Prop := Forall (λ n, 0 < net_prefix_len n) rs.

(** The cursor is on an address of the range its index names. *)
Definition cursor_ok (r : IpRanges) : Prop :=
  match current_ip r with
  | None => ranges r = []
  | Some ip => ip_wf ip ∧ ∃ n, ranges r !! range_index r = Some n ∧ net_contains n ip = true
  end.

Definition ranges_ok (r : IpRanges) : Prop := proper (ranges r) ∧ cursor_ok r.

Fixpoint total_size (rs : list IpNet) : Z :=
  match rs with [] => 0 | n :: rs => net_size n + total_size rs end.

(** The [p]-th address of the ranges: its range's index and the address. *)
Fixpoint locate (rs : list IpNet) (p : Z) : option (nat * IpAddr) :=
  match rs with
  | [] => None
  | n :: rs =>
      if p <? net_size n
      then Some (0%nat, mk_ip (net_is_v6 n) (ip_bits (net_network n) + p))
      else prod_map S id <$> locate rs (p - net_size n)
  end.

Lemma total_size_nonneg rs : 0 ≤ total_size rs.
Proof. induction rs as [|n rs IH]; cbn; [lia|]. pose proof (net_size_pos n). lia. Qed.

Lemma locate_block n p :
  0 ≤ p < net_size n →
  let a := mk_ip (net_is_v6 n) (ip_bits (net_network n) + p) in
  ip_wf a ∧ net_contains n a = true.
Proof.
  intros Hp a. pose proof (net_network_start n). pose proof (net_network_end n).
  assert (is_ipv6 a = net_is_v6 n ∧ ip_bits a = ip_bits (net_network n) + p) as [Hf Hb]
    by (subst a; unfold mk_ip; by destruct (net_is_v6 n)).
  assert (ip_wf a) by (unfold ip_wf; rewrite Hf, Hb; lia).
  split; [done|]. apply net_contains_spec; [done|]. rewrite Hf, Hb. split; [done|lia].
Qed.

Lemma locate_in rs p i a :
  0 ≤ p → locate rs p = Some (i, a) →
  ip_wf a ∧ ∃ n, rs !! i = Some n ∧ net_contains n a = true.
Proof.
  revert p i. induction rs as [|n rs IH]; intros p i Hp; [done|].
  cbn [locate]. destruct (Z.ltb_spec p (net_size n)); intros Hl.
  - simplify_eq. destruct (locate_block n p ltac:(lia)) as [Hw Hc].
    split; [done|]. exists n. done.
  - destruct (locate rs _) as [[j b]|] eqn:Hl'; simplify_eq/=.
    apply IH in Hl'; [|lia]. done.
Qed.

(** Every address of a range has a position. *)
Lemma locate_complete rs i n a :
  rs !! i = Some n → ip_wf a → net_contains n a = true →
  ∃ p, 0 ≤ p < total_size rs ∧ locate rs p = Some (i, a).
Proof.
  revert i. induction rs as [|m rs IH]; intros [|i] Hi Hw Hc; simplify_eq/=.
  - apply net_contains_spec in Hc as [Hf Hb]; [|done].
    pose proof (total_size_nonneg rs).
    exists (ip_bits a - ip_bits (net_network n)). split; [lia|].
    rewrite (proj2 (Z.ltb_lt _ _)) by lia. do 2 f_equal.
    etransitivity; [|apply mk_ip_bits]. rewrite Hf. f_equal. lia.
  - destruct (IH i Hi Hw Hc) as (p & Hp & Hl). pose proof (net_size_pos m).
    exists (net_size m + p). split; [lia|].
    rewrite (proj2 (Z.ltb_ge _ _)) by lia.
    replace (net_size m + p - net_size m) with p by lia. by rewrite Hl.
Qed.

(** One step further is the next address of the range, or the first of the
    next range. *)
Lemma locate_succ rs p i a n :
  0 ≤ p → locate rs p = Some (i, a) → rs !! i = Some n →
  let last := ip_bits (net_network n) + net_size n in
  (ip_bits a + 1 < last ∧ p + 1 < total_size rs ∧
     locate rs (p + 1) = Some (i, mk_ip (net_is_v6 n) (ip_bits a + 1))) ∨
  (ip_bits a + 1 = last ∧
     match rs !! S i with
     | Some n' => p + 1 < total_size rs ∧ locate rs (p + 1) = Some (S i, net_network n')
     | None => p + 1 = total_size rs
     end).
Proof.
  revert p i. induction rs as [|m rs IH]; intros p i Hp Hl Hi; [done|].
  cbn [locate total_size] in *.
  pose proof (total_size_nonneg rs).
  destruct (Z.ltb_spec p (net_size m)) as [Hlt|Hge].
  - simplify_eq/=. assert (ip_bits (mk_ip (net_is_v6 n) (ip_bits (net_network n) + p))
      = ip_bits (net_network n) + p) as -> by by destruct (net_is_v6 n).
    destruct (Z.ltb_spec (p + 1) (net_size n)) as [Hlt'|Hge'].
    { left. split_and!; [lia|lia|]. do 3 f_equal. lia. }
    right. split; [lia|]. destruct rs as [|n' rs]; cbn in *; [lia|].
    pose proof (net_size_pos n'). replace (p + 1 - net_size n) with 0 by lia.
    rewrite (proj2 (Z.ltb_lt _ _)) by done. cbn.
    split; [pose proof (total_size_nonneg rs); lia|].
    rewrite Z.add_0_r. do 2 f_equal.
    etransitivity; [|apply mk_ip_bits]. by rewrite net_network_family.
  - destruct (locate rs (p - net_size m)) as [[j b]|] eqn:Hl'; simplify_eq/=.
    rewrite (proj2 (Z.ltb_ge (p + 1) _)) by lia.
    replace (p + 1 - net_size m) with (p - net_size m + 1) by lia.
    destruct (IH (p - net_size m) j ltac:(lia) Hl' Hi) as [(? & ? & ->)|(? & Hm)].
    + left. split_and!; [done|lia|done].
    + right. split; [done|]. cbn. destruct (rs !! S j); [|lia].
      destruct Hm as [? ->]. split; [lia|done].
Qed.

Lemma locate_inj rs p q i a :
  0 ≤ p → 0 ≤ q → locate rs p = Some (i, a) → locate rs q = Some (i, a) → p = q.
Proof.
  revert p q i. induction rs as [|n rs IH]; intros p q i Hp Hq; [done|]. cbn [locate].
  assert (∀ x j b, prod_map S id <$> locate rs x = Some (j, b) →
    ∃ k, j = S k ∧ locate rs x = Some (k, b)) as Hinv.
  { intros x j b Hx. destruct (locate rs x) as [[k c]|]; simplify_eq/=. by eexists. }
  destruct (Z.ltb_spec p (net_size n)), (Z.ltb_spec q (net_size n)); intros Hx Hy.
  - simplify_eq. unfold mk_ip in *. destruct (net_is_v6 n); simplify_eq; lia.
  - apply Hinv in Hy as (k & -> & ?). by simplify_eq.
  - apply Hinv in Hx as (k & -> & ?). by simplify_eq.
  - apply Hinv in Hx as (k & -> & ?). apply Hinv in Hy as (k' & ? & ?). simplify_eq.
    assert (p - net_size n = q - net_size n); [|lia].
    by eapply IH; [..|done|done]; lia.
Qed.

(** The cursor is on the [p]-th address. *)
Definition at_pos (r : IpRanges) (p : Z) : Prop :=
  0 ≤ p < total_size (ranges r) ∧
  ∃ ip, current_ip r = Some ip ∧ locate (ranges r) p = Some (range_index r, ip).

Lemma cursor_at_pos r ip :
  ranges_ok r → current_ip r = Some ip → ∃ p, at_pos r p.
Proof.
  intros [_ Hc] Hip. unfold cursor_ok in Hc. rewrite Hip in Hc.
  destruct Hc as (Hw & n & Hn & Hin).
  destruct (locate_complete _ _ _ _ Hn Hw Hin) as (p & Hp & Hl).
  exists p. split; [done|]. by exists ip.
Qed.

Lemma at_pos_ok r p : proper (ranges r) → at_pos r p → ranges_ok r.
Proof.
  intros Hp [Hr (ip & Hip & Hl)]. split; [done|]. unfold cursor_ok. rewrite Hip.
  by apply locate_in in Hl; [|lia].
Qed.

(** At the end of a range the incremented address leaves it. *)
Lemma inc_ip_leaves n a :
  0 < net_prefix_len n → ip_wf a → net_contains n a = true →
  ip_bits a + 1 = ip_bits (net_network n) + net_size n →
  net_contains n (inc_ip a) = false.
Proof.
  intros Hp Hw Hc Hlast. apply not_true_iff_false. intros Hc'.
  pose proof Hc as Hc0. apply net_contains_spec in Hc0 as [Hf _]; [|done].
  pose proof (net_network_end n). pose proof (net_network_start n).
  pose proof (inc_ip_bits a Hw) as Hb. destruct Hw as [Hw1 Hw2].
  apply net_contains_spec in Hc' as [_ Hc']; cycle 1.
  { unfold ip_wf. rewrite inc_ip_family, Hb. apply Z.mod_pos_bound. lia. }
  rewrite Hb, Hf, Hlast in Hc'.
  destruct (decide (ip_bits (net_network n) + net_size n = ip_space (net_is_v6 n))) as [He|He].
  - rewrite He, Z.mod_same in Hc' by (rewrite Hf in Hw2; lia).
    assert (net_size n = ip_space (net_is_v6 n)) as Hs by lia.
    assert (net_size n < ip_space (net_is_v6 n)); [|lia].
    pose proof (net_prefix_len_range n). unfold net_size, ip_space, ip_width in *.
    destruct (net_is_v6 n); apply Z.pow_lt_mono_r; lia.
  - rewrite Z.mod_small in Hc' by (pose proof (net_size_pos n); lia). lia.
Qed.

Lemma inc_at_pos r p :
  proper (ranges r) → at_pos r p →
  ∃ r', inc r = Some r' ∧ ranges r' = ranges r ∧
        at_pos r' ((p + 1) `mod` total_size (ranges r)).
Proof.
  intros Hprop [Hp (ip & Hip & Hl)].
  destruct (locate_in _ _ _ _ (proj1 Hp) Hl) as (Hw & n & Hn & Hc).
  unfold inc. rewrite Hip, Hn. cbn.
  pose proof (proj1 (net_contains_spec n ip Hw) Hc) as [Hf Hb].
  destruct (locate_succ _ _ _ _ _ (proj1 Hp) Hl Hn) as [(Hlt & Hp' & Hl')|(Hlast & Hnext)].
  - destruct (locate_in _ (p + 1) _ _ ltac:(lia) Hl') as (_ & n' & Hn' & Hc').
    rewrite Hn in Hn'. injection Hn' as <-.
    pose proof (net_network_end n). rewrite <-Hf in Hc', Hl'.
    rewrite <-inc_ip_next in Hc', Hl' by (done || rewrite Hf; lia).
    rewrite Hc'. eexists. split; [done|]. split; [done|].
    rewrite Z.mod_small by lia. split; [cbn; lia|]. by eexists.
  - rewrite inc_ip_leaves by (done || by eapply Forall_lookup_1 in Hprop).
    destruct (ranges r !! S (range_index r)) as [n'|] eqn:Hn'.
    + pose proof (lookup_lt_Some _ _ _ Hn').
      rewrite (proj2 (Nat.leb_gt _ _)) by lia. rewrite Nat.add_1_r, Hn'. cbn.
      destruct Hnext as [Hlt Hl']. eexists. split; [done|]. split; [done|].
      rewrite Z.mod_small by lia. split; [cbn; lia|]. by eexists.
    + apply lookup_ge_None in Hn'. rewrite (proj2 (Nat.leb_le _ _)) by lia.
      destruct (ranges r) as [|n0 rs]; [done|]. cbn [lookup list_lookup mbind option_bind].
      eexists. split; [done|]. split; [done|]. rewrite Hnext, Z.mod_same by lia.
      split; [cbn [ranges]; lia|]. exists (net_network n0). split; [done|]. cbn.
      pose proof (net_size_pos n0). rewrite (proj2 (Z.ltb_lt _ _)) by lia.
      do 2 f_equal. rewrite Z.add_0_r. rewrite <-net_network_family. apply mk_ip_bits.
Qed.

(** The addresses at [k] consecutive positions from [p0] are all allocated. *)
Definition visited (rs : list IpNet) (allocated : list IpAddr) (p0 k : Z) : Prop :=
  ∀ j, 0 ≤ j < k → ∃ i a, locate rs ((p0 + j) `mod` total_size rs) = Some (i, a) ∧
                          a ∈ allocated.

Lemma mod_shift_inj p0 T i j :
  0 ≤ i < T → 0 ≤ j < T → (p0 + i) `mod` T = (p0 + j) `mod` T → i = j.
Proof.
  intros Hi Hj He.
  assert ((i - j) `mod` T = 0) as Hz.
  { replace (i - j) with ((p0 + i) - (p0 + j)) by lia.
    rewrite Zminus_mod, He, Z.sub_diag. apply Z.mod_0_l. lia. }
  apply Z.mod_divide in Hz as [q Hq]; [|lia].
  assert (q < 1) by nia. assert (-1 < q) by nia. assert (q = 0) as -> by lia. lia.
Qed.

(** Pigeonhole: an allocated address is met at most once per range. *)
Lemma visited_bound rs allocated p0 k :
  k ≤ total_size rs → visited rs allocated p0 k →
  k ≤ Z.of_nat (length rs * length allocated).
Proof.
  intros Hk Hv. destruct (Z.le_gt_cases k 0) as [|Hk0]; [lia|].
  set (f j := default (0%nat, V4 0) (locate rs ((p0 + j) `mod` total_size rs))).
  assert (NoDup (f <$> seqZ 0 k)) as Hnd.
  { apply NoDup_fmap_2_strong; [|apply NoDup_seqZ]. intros i j Hi Hj He.
    rewrite elem_of_seqZ in Hi, Hj. subst f; cbn in He.
    destruct (Hv i ltac:(lia)) as (x & a & Hx & _), (Hv j ltac:(lia)) as (y & b & Hy & _).
    rewrite Hx, Hy in He. simplify_eq/=.
    apply (mod_shift_inj p0 (total_size rs)); [lia|lia|].
    eapply locate_inj; [| |done|done]; apply Z.mod_pos_bound; lia. }
  apply (NoDup_subseteq_length _ (list_prod (seq 0 (length rs)) allocated)) in Hnd.
  - rewrite length_fmap, length_seqZ, length_prod, length_seq in Hnd. lia.
  - intros x (j & -> & Hj)%list_elem_of_fmap. rewrite elem_of_seqZ in Hj.
    destruct (Hv j ltac:(lia)) as (i & a & Hl & Ha). subst f; cbn. rewrite Hl. cbn.
    apply list_elem_of_In, in_prod; [|by apply list_elem_of_In].
    destruct (locate_in _ _ _ _ (proj1 (Z.mod_pos_bound (p0 + j) (total_size rs) ltac:(lia))) Hl)
      as (_ & n & Hn & _).
    apply in_seq. apply lookup_lt_Some in Hn. lia.
Qed.

Lemma next_free_loop_spec allocated p0 i0 start fuel :
  ∀ self k ip,
  let rs := ranges self in
  proper rs → 0 ≤ p0 < total_size rs → locate rs p0 = Some (i0, start) →
  0 ≤ k < total_size rs → at_pos self ((p0 + k) `mod` total_size rs) →
  current_ip self = Some ip → visited rs allocated p0 k →
  Z.of_nat (length rs * length allocated) < Z.of_nat fuel + k →
  ∃ res self', next_free_loop fuel allocated start ip self = Some (res, self') ∧
    ranges self' = rs ∧ (∃ p', at_pos self' p') ∧
    match res with
    | Some a => (a ∉ allocated) ∧ current_ip self' = Some a
    | None => ∃ k' i, 0 < k' ≤ total_size rs ∧ visited rs allocated p0 k' ∧
                locate rs ((p0 + k') `mod` total_size rs) = Some (i, start)
    end.
Proof.
  induction fuel as [|fuel IH]; intros self k ip rs Hprop Hp0 Hstart Hk Hat Hip Hv Hfuel.
  { pose proof (visited_bound rs allocated p0 k ltac:(lia) Hv). lia. }
  cbn [next_free_loop]. destruct (list_contains allocated ip) eqn:Hin; cbn [negb]; cycle 1.
  { apply list_contains_false in Hin. exists (Some ip), self. eauto 6. }
  apply list_contains_true in Hin.
  assert (visited rs allocated p0 (k + 1)) as Hv'.
  { intros j Hj. destruct (decide (j = k)) as [->|]; [|apply Hv; lia].
    destruct Hat as (_ & a & Ha & Hl). rewrite Hip in Ha. simplify_eq. eauto. }
  destruct (inc_at_pos _ _ Hprop Hat) as (self' & -> & Hrs & Hat'). cbn.
  fold rs in Hrs, Hat'. rewrite Zplus_mod_idemp_l, <-Z.add_assoc in Hat'.
  pose proof Hat' as (_ & ip' & Hip' & Hl'). rewrite Hip'. rewrite Hrs in Hl'.
  destruct (decide (ip' = start)) as [->|Hne].
  { exists None, self'. split_and!; eauto. exists (k + 1). eexists.
    split; [lia|]. split; [done|exact Hl']. }
  assert (k + 1 ≠ total_size rs) as Hk'.
  { intros He. apply Hne. rewrite He in Hl'.
    replace (p0 + total_size rs) with (p0 + 1 * total_size rs) in Hl' by lia.
    rewrite Z.mod_add, Z.mod_small, Hstart in Hl' by lia. by simplify_eq. }
  rewrite <-Hrs. apply (IH self' (k + 1) ip'); rewrite ?Hrs; done || lia.
Qed.

(** Distinct ranges share no address. *)
Definition disjoint_ranges (rs : list IpNet) : Prop :=
  ∀ i j n m a, rs !! i = Some n → rs !! j = Some m → ip_wf a →
    net_contains n a = true → net_contains m a = true → i = j.

Lemma contains_lookup r a :
  contains r a = true ↔ ∃ i n, ranges r !! i = Some n ∧ net_contains n a = true.
Proof.
  unfold contains. rewrite existsb_exists. split.
  - intros (n & Hn & Hc). apply list_elem_of_In, list_elem_of_lookup in Hn as [i Hi]. eauto.
  - intros (i & n & Hi & Hc). exists n. split; [|done].
    by eapply list_elem_of_In, list_elem_of_lookup_2.
Qed.

Lemma at_pos_contains r p ip :
  at_pos r p → current_ip r = Some ip → ip_wf ip ∧ contains r ip = true.
Proof.
  intros (Hp & a & Ha & Hl) Hip. rewrite Hip in Ha. injection Ha as <-.
  destruct (locate_in _ _ _ _ (proj1 Hp) Hl) as (Hw & n & Hn & Hc).
  split; [done|]. apply contains_lookup. eauto.
Qed.

(** What one call of [next_free_ip] does. *)
Lemma next_free_ip_spec r allocated :
  ranges_ok r →
  ∃ res r', next_free_ip allocated r = Some (res, r') ∧
    ranges r' = ranges r ∧ ranges_ok r' ∧
    match res with
    | Some ip => (ip ∉ allocated) ∧ ip_wf ip ∧ contains r ip = true ∧ current_ip r' = Some ip
    | None => disjoint_ranges (ranges r) →
              ∀ ip, ip_wf ip → contains r ip = true → ip ∈ allocated
    end.
Proof.
  intros Hok. unfold next_free_ip. destruct (current_ip r) as [start|] eqn:Hstart; cycle 1.
  { exists None, r. split_and!; try done. intros _ ip _ Hc.
    destruct Hok as [_ Hok]. unfold cursor_ok in Hok. rewrite Hstart in Hok.
    unfold contains in Hc. by rewrite Hok in Hc. }
  destruct (cursor_at_pos r start Hok Hstart) as [p0 Hat]. pose proof Hok as [Hprop _].
  pose proof Hat as (Hp0 & ? & Hs & Hl). rewrite Hstart in Hs. injection Hs as <-.
  destruct (next_free_loop_spec allocated p0 _ _ (scan_fuel allocated r) r 0 start Hprop Hp0 Hl)
    as (res & r' & -> & Hrs & (p' & Hat') & Hres);
    [lia|by rewrite Z.add_0_r, Z.mod_small by lia|done|intros j Hj; lia|
     unfold scan_fuel; lia|].
  exists res, r'. rewrite Hrs. split_and!; try done.
  { eapply at_pos_ok; [by rewrite Hrs|done]. }
  destruct res as [a|].
  - destruct Hres as [Hna Ha]. destruct (at_pos_contains _ _ _ Hat' Ha) as [Hw Hc].
    unfold contains in *. rewrite Hrs in Hc. done.
  - destruct Hres as (k & i & Hk & Hv & Hlk). intros Hdis ip Hw Hc.
    destruct (locate_in _ _ _ _ (proj1 Hp0) Hl) as (Hws & n & Hn & Hcn).
    pose proof (Z.mod_pos_bound (p0 + k) (total_size (ranges r)) ltac:(lia)).
    destruct (locate_in (ranges r) ((p0 + k) `mod` total_size (ranges r)) i start ltac:(lia) Hlk) as (_ & m & Hm & Hcm).
    assert (i = range_index r) as -> by by eapply Hdis.
    assert ((p0 + k) `mod` total_size (ranges r) = p0) as Hcyc
      by (eapply locate_inj; [..|exact Hlk|exact Hl]; lia).
    assert (k = total_size (ranges r)) as ->.
    { destruct (decide (k = total_size (ranges r))) as [|]; [done|].
      assert (k = 0); [|lia]. apply (mod_shift_inj p0 (total_size (ranges r))); [lia|lia|].
      by rewrite Hcyc, Z.add_0_r, Z.mod_small. }
    apply contains_lookup in Hc as (j & nj & Hj & Hcj).
    destruct (locate_complete _ _ _ _ Hj Hw Hcj) as (q & Hq & Hlq).
    destruct (Hv ((q - p0) `mod` total_size (ranges r))) as (x & a & Hx & Ha).
    { apply Z.mod_pos_bound. lia. }
    rewrite Zplus_mod_idemp_r in Hx. replace (p0 + (q - p0)) with q in Hx by lia.
    rewrite Z.mod_small, Hlq in Hx by lia. by simplify_eq.
Qed.
End facts.
End PoolsFacts.

(** ** The pools are correct *)

Module PoolsTheorems.
Import Pools PoolsFacts.

Section theorems.
Context `{IpNetLaws}.

(** The increment with carry over octets is addition of one modulo the size
    of the address space. *)
Theorem inc_ip_correct (a : IpAddr) :
  ip_wf a →
  is_ipv6 (inc_ip a) = is_ipv6 a ∧
  ip_bits (inc_ip a) = (ip_bits a + 1) `mod` ip_space (is_ipv6 a).
Proof. intros Ha. split; [apply inc_ip_family|by apply inc_ip_bits]. Qed.

(** C21: [next_free_ip] always returns: with the fuel of [scan_fuel] the scan ends,
    without an index out of bounds, and keeps the cursor valid.  An address it
    returns is free, lies in a range and is where the cursor stays. *)
Theorem next_free_ip_returns (r : IpRanges) (allocated : list IpAddr) :
  ranges_ok r →
  ∃ res r', next_free_ip allocated r = Some (res, r') ∧
    ranges r' = ranges r ∧ ranges_ok r' ∧
    (∀ ip, res = Some ip →
       (ip ∉ allocated) ∧ contains r ip = true ∧ current_ip r' = Some ip).
Proof.
  intros Hok. destruct (next_free_ip_spec r allocated Hok) as (res & r' & Heq & Hr & Hok' & Hres).
  exists res, r'. split_and!; try done. intros ip ->. tauto.
Qed.

(** C22: With pairwise disjoint ranges the scan gives up exactly when every address
    of every range is allocated. *)
Theorem next_free_ip_exhausted (r : IpRanges) (allocated : list IpAddr) :
  ranges_ok r → disjoint_ranges (ranges r) →
  (∃ r', next_free_ip allocated r = Some (None, r')) ↔
  (∀ ip, ip_wf ip → contains r ip = true → ip ∈ allocated).
Proof.
  intros Hok Hdis. destruct (next_free_ip_spec r allocated Hok) as (res & r' & -> & _ & _ & Hres).
  split.
  - intros [r'' Heq]. simplify_eq. by apply Hres.
  - intros Hall. destruct res as [ip|]; [|by eexists].
    destruct Hres as (Hn & Hw & Hc & _). destruct Hn. by apply Hall.
Qed.

(** The increments walk the positions of the ranges in a cycle: [n] of them
    move the cursor from position [p] to [p + n] modulo the number of
    addresses. *)
Theorem inc_cycle (r : IpRanges) (p : Z) (n : nat) :
  proper (ranges r) → at_pos r p →
  ∃ r', inc_n n r = Some r' ∧ ranges r' = ranges r ∧
    at_pos r' ((p + Z.of_nat n) `mod` total_size (ranges r)).
Proof.
  revert r p. induction n as [|n IH]; intros r p Hprop Hat; cbn [inc_n].
  - exists r. split_and!; try done. by rewrite Z.add_0_r, Z.mod_small by apply Hat.
  - destruct (inc_at_pos r _ Hprop Hat) as (r1 & -> & Hr1 & Hat1). cbn.
    destruct (IH r1 _ ltac:(by rewrite Hr1) Hat1) as (r2 & -> & Hr2 & Hat2).
    exists r2. split_and!; [done|by rewrite Hr2|].
    rewrite Hr1, Zplus_mod_idemp_l in Hat2.
    replace (p + Z.of_nat (S n)) with (p + 1 + Z.of_nat n) by lia. done.
Qed.
End theorems.
End PoolsTheorems.

(** ** Plans and passes are correct *)

Module AllocateFacts.
Import Pools PoolsFacts Allocate.

Section facts.
Context `{IpNetLaws}.

(** A valid pool of one family. *)
Definition pool_ok (v6 : bool) (r : IpRanges) : Prop :=
  ranges_ok r ∧ Forall (λ n, net_is_v6 n = v6) (ranges r).

Lemma pool_family v6 r ip :
  pool_ok v6 r → ip_wf ip → contains r ip = true → is_ipv6 ip = v6.
Proof.
  intros [_ Hf] Hw (i & n & Hi & Hc)%contains_lookup.
  apply net_contains_spec in Hc as [-> _]; [|done]. by eapply Forall_lookup_1 in Hf.
Qed.

Lemma contains_ranges r r' ip : ranges r' = ranges r → contains r' ip = contains r ip.
Proof. unfold contains. by intros ->. Qed.

Lemma plan_family_spec v6 want have can allocated r :
  pool_ok v6 r →
  ∃ p err r', plan_family want have can allocated r = Some (p, err, r') ∧
    pool_ok v6 r' ∧ ranges r' = ranges r ∧
    match p with
    | Some ip => want = true ∧ have = false ∧ can = true ∧ err = None ∧
                 ip_wf ip ∧ is_ipv6 ip = v6 ∧ contains r ip = true ∧ (ip ∉ allocated)
    | None => if want && negb have && can
              then err = Some Exhausted ∧
                   (disjoint_ranges (ranges r) →
                    ∀ ip, ip_wf ip → contains r ip = true → ip ∈ allocated)
              else err = None
    end.
Proof.
  intros Hok. unfold plan_family.
  destruct (want && negb have && can) eqn:Hc; cycle 1.
  { exists None, None, r. done. }
  destruct (next_free_ip_spec r allocated (proj1 Hok)) as (res & r' & -> & Hr & Hok' & Hres).
  assert (pool_ok v6 r') by (split; [done|rewrite Hr; apply Hok]).
  bool_hyps. subst. destruct res as [ip|]; cbn.
  - destruct Hres as (Hn & Hw & Hin & _). exists (Some ip), None, r'.
    split_and!; try done.
    exact (pool_family _ r _ Hok Hw Hin).
  - exists None, (Some Exhausted), r'. done.
Qed.
Lemma plan_allocation_spec svc r4 r6 al4 al6 :
  pool_ok false r4 → pool_ok true r6 →
  ∃ res r4' r6', plan_allocation svc r4 r6 al4 al6 = Some (res, r4', r6') ∧
    pool_ok false r4' ∧ pool_ok true r6' ∧ ranges r4' = ranges r4 ∧ ranges r6' = ranges r6 ∧
    ∀ p, res = inr p →
      (∀ ip, plan_v4 p = Some ip →
         want_v4 svc = true ∧ (have_families svc).1 = false ∧
         is_ipv6 ip = false ∧ contains r4 ip = true ∧ (ip ∉ al4)) ∧
      (∀ ip, plan_v6 p = Some ip →
         want_v6 svc = true ∧ (have_families svc).2 = false ∧
         is_ipv6 ip = true ∧ contains r6 ip = true ∧ (ip ∉ al6)) ∧
      (require_dual svc = true → plan_v4 p = None ↔ plan_v6 p = None).
Proof.
  intros Hok4 Hok6. unfold plan_allocation, have_families.
  repeat match goal with
  | |- context [if ?c then Some (inl _, _, _) else _] =>
      destruct c; [by (do 3 eexists; split_and!; eauto; intros; discriminate)|]
  end.
  destruct (plan_family_spec false (want_v4 svc) (existsb is_ipv4 (lb_ingress_ips svc))
         (negb (is_empty r4)) al4 r4 Hok4) as (p4 & e4 & r4' & -> & Hk4 & Hr4 & H4); cbn.
  destruct (plan_family_spec true (want_v6 svc) (existsb is_ipv6 (lb_ingress_ips svc))
         (negb (is_empty r6)) al6 r6 Hok6) as (p6 & e6 & r6' & -> & Hk6 & Hr6 & H6); cbn.
  do 3 eexists; split; [reflexivity|]; split_and!; try done.
  intros p Hp.
  assert (p = {| plan_v4 := p4; plan_v6 := p6 |}) as ->
    by (destruct p4, p6, e4, e6; cbn in Hp; repeat case_match; simplify_eq; done).
  cbn; split_and!; [by intros ip ->; destruct H4 as (?&?&?&?&?&?&?&?)
    |by intros ip ->; destruct H6 as (?&?&?&?&?&?&?&?)|].
  intros Hd; destruct p4, p6; try done; rewrite Hd in Hp; cbn in Hp; done.
Qed.
End facts.
End AllocateFacts.

Module AllocateTheorems.
Import Pools PoolsFacts Allocate AllocateFacts.

Section theorems.
Context `{IpNetLaws}.

(** Planning never panics and keeps both pools valid.  A planned address was
    asked for, is of a family the service has no ingress address of, comes
    from that family's pool and was not allocated; a service that requires
    dual stack gets both addresses or none. *)
Theorem plan_allocation_correct svc r4 r6 al4 al6 :
  pool_ok false r4 → pool_ok true r6 →
  ∃ res r4' r6', plan_allocation svc r4 r6 al4 al6 = Some (res, r4', r6') ∧
    pool_ok false r4' ∧ pool_ok true r6' ∧ ranges r4' = ranges r4 ∧ ranges r6' = ranges r6 ∧
    ∀ p, res = inr p →
      (∀ ip, plan_v4 p = Some ip →
         want_v4 svc = true ∧ (have_families svc).1 = false ∧
         is_ipv6 ip = false ∧ contains r4 ip = true ∧ (ip ∉ al4)) ∧
      (∀ ip, plan_v6 p = Some ip →
         want_v6 svc = true ∧ (have_families svc).2 = false ∧
         is_ipv6 ip = true ∧ contains r6 ip = true ∧ (ip ∉ al6)) ∧
      (require_dual svc = true → plan_v4 p = None ↔ plan_v6 p = None).
Proof. apply plan_allocation_spec. Qed.

(** A single-family service without an ingress address gets one whenever its
    pool has a free address, and [Exhausted] otherwise. *)
Theorem plan_allocation_single_family svc r4 r6 al4 al6 :
  pool_ok false r4 → pool_ok true r6 → disjoint_ranges (ranges r4) →
  ranges r4 ≠ [] →
  want_v4 svc = true → want_v6 svc = false → require_dual svc = false →
  lb_ingress_ips svc = [] →
  ((∃ ip, ip_wf ip ∧ contains r4 ip = true ∧ (ip ∉ al4)) →
     ∃ ip r4', plan_allocation svc r4 r6 al4 al6 =
               Some (inr {| plan_v4 := Some ip; plan_v6 := None |}, r4', r6)) ∧
  ((∀ ip, ip_wf ip → contains r4 ip = true → ip ∈ al4) →
     ∃ r4', plan_allocation svc r4 r6 al4 al6 = Some (inl Exhausted, r4', r6)).
Proof.
  intros Hok4 Hok6 Hdis Hne Hw4 Hw6 Hd Hing. unfold plan_allocation, have_families.
  assert (is_empty r4 = false) as He by (unfold is_empty; by destruct (ranges r4)).
  rewrite Hd, Hw4, Hw6, Hing, He. cbn [andb negb existsb].
  destruct (plan_family_spec false true false true al4 r4 Hok4)
    as (p4 & e4 & r4' & -> & _ & _ & Hp). cbn.
  split.
  - intros (ip & Hw & Hc & Hn). destruct p4 as [x|]; cbn in Hp.
    + destruct Hp as (_ & _ & _ & -> & _). by do 2 eexists.
    + destruct Hp as [_ Hall]. destruct Hn. by apply Hall.
  - intros Hall. destruct p4 as [x|]; cbn in Hp.
    + destruct Hp as (_ & _ & _ & _ & Hw & _ & Hc & Hn). destruct Hn. by apply Hall.
    + destruct Hp as [-> _]. by eexists.
Qed.

(** A service that requires dual stack and already holds an address of exactly
    one of its families is never given the other: every plan for it is empty
    or an error. *)
Theorem plan_dual_partial_stuck svc r4 r6 al4 al6 p r4' r6' :
  pool_ok false r4 → pool_ok true r6 →
  require_dual svc = true →
  (have_families svc).1 ≠ (have_families svc).2 →
  plan_allocation svc r4 r6 al4 al6 = Some (inr p, r4', r6') →
  plan_ips p = [].
Proof.
  intros Hok4 Hok6 Hd Hne Hplan.
  destruct (plan_allocation_spec svc r4 r6 al4 al6 Hok4 Hok6)
    as (res & ? & ? & Heq & _ & _ & _ & _ & Hp).
  rewrite Heq in Hplan. injection Hplan as -> -> ->.
  destruct (Hp p eq_refl) as (H4 & H6 & Hboth). specialize (Hboth Hd).
  unfold plan_ips. destruct (plan_v4 p) as [x|], (plan_v6 p) as [y|]; try done.
  - destruct (H4 x eq_refl) as (_ & ? & _), (H6 y eq_refl) as (_ & ? & _). congruence.
  - by pose proof (proj2 Hboth eq_refl).
  - by pose proof (proj1 Hboth eq_refl).
Qed.
End theorems.
End AllocateTheorems.

Module ControllerFacts.
Import Pools PoolsFacts Allocate AllocateFacts Controller.

Section facts.
Context `{IpNetLaws} {W : Type} `{!StatusUpdater W}.

(** Planned addresses are well-formed. *)
Lemma plan_allocation_wf svc r4 r6 al4 al6 p r4' r6' :
  pool_ok false r4 → pool_ok true r6 →
  plan_allocation svc r4 r6 al4 al6 = Some (inr p, r4', r6') → Forall ip_wf (plan_ips p).
Proof.
  intros Hok4 Hok6. unfold plan_allocation, have_families.
  repeat match goal with
  | |- context [if ?c then Some (inl _, _, _) else _] => destruct c; [done|]
  end.
  destruct (plan_family_spec false (want_v4 svc) (existsb is_ipv4 (lb_ingress_ips svc))
         (negb (is_empty r4)) al4 r4 Hok4) as (p4 & e4 & x4 & -> & _ & _ & H4).
  destruct (plan_family_spec true (want_v6 svc) (existsb is_ipv6 (lb_ingress_ips svc))
         (negb (is_empty r6)) al6 r6 Hok6) as (p6 & e6 & x6 & -> & _ & _ & H6).
  cbn. intros Hp. assert (p = {| plan_v4 := p4; plan_v6 := p6 |}) as ->
    by (destruct p4, p6, e4, e6; cbn in Hp; repeat case_match; simplify_eq; done).
  unfold plan_ips. cbn. apply Forall_app.
  split; [destruct p4|destruct p6]; cbn; first [apply Forall_singleton; tauto|apply Forall_nil_2].
Qed.

(** The addresses handed out so far, in order. *)
Definition handed (s : Pass (W * list IngressCall)) : list IpAddr :=
  concat ((world s).2.*2).

Definition v4_of (ips : list IpAddr) : list IpAddr := filter (λ ip, is_ipv6 ip = false) ips.
Definition v6_of (ips : list IpAddr) : list IpAddr := filter (λ ip, is_ipv6 ip = true) ips.

(** The invariant of the loop of [reconcile] started with pools [r4] and [r6]
    and already allocated addresses [al4] and [al6]. *)
Record pass_inv (r4 r6 : IpRanges) (al4 al6 : list IpAddr)
    (s : Pass (W * list IngressCall)) : Prop := {
  pi_pool4 : pool_ok false (v4_ranges s);
  pi_pool6 : pool_ok true (v6_ranges s);
  pi_ranges4 : ranges (v4_ranges s) = ranges r4;
  pi_ranges6 : ranges (v6_ranges s) = ranges r6;
  pi_a4 : a4 s = al4 ++ v4_of (handed s);
  pi_a6 : a6 s = al6 ++ v6_of (handed s);
  pi_nodup : NoDup (handed s);
  pi_fresh : ∀ ip, ip ∈ handed s →
    (ip ∉ (if is_ipv6 ip then al6 else al4)) ∧
    contains (if is_ipv6 ip then r6 else r4) ip = true;
}.

Lemma elem_of_v4_of ip (l : list IpAddr) : ip ∈ v4_of l ↔ is_ipv6 ip = false ∧ ip ∈ l.
Proof. unfold v4_of, v6_of. by rewrite list_elem_of_filter. Qed.
Lemma elem_of_v6_of ip l : ip ∈ v6_of l ↔ is_ipv6 ip = true ∧ ip ∈ l.
Proof. unfold v4_of, v6_of. by rewrite list_elem_of_filter. Qed.

(** The addresses of a plan, given what [plan_allocation] guarantees. *)
Lemma plan_ips_fresh r4 r6 (a b : list IpAddr) p :
  (∀ ip, plan_v4 p = Some ip → is_ipv6 ip = false ∧ contains r4 ip = true ∧ (ip ∉ a)) →
  (∀ ip, plan_v6 p = Some ip → is_ipv6 ip = true ∧ contains r6 ip = true ∧ (ip ∉ b)) →
  NoDup (plan_ips p) ∧
  ∀ ip, ip ∈ plan_ips p →
    (ip ∉ (if is_ipv6 ip then b else a)) ∧ contains (if is_ipv6 ip then r6 else r4) ip = true.
Proof.
  unfold plan_ips. intros H4 H6. split.
  - destruct (plan_v4 p) as [x|], (plan_v6 p) as [y|]; cbn; repeat constructor;
      try apply not_elem_of_nil.
    rewrite list_elem_of_singleton. intros ->.
    destruct (H4 y eq_refl) as [? _], (H6 y eq_refl) as [? _]. congruence.
  - intros ip [Hip|Hip]%elem_of_app.
    + destruct (plan_v4 p) as [x|]; [|by apply elem_of_nil in Hip].
      apply list_elem_of_singleton in Hip as ->. by destruct (H4 x eq_refl) as (-> & ? & ?).
    + destruct (plan_v6 p) as [x|]; [|by apply elem_of_nil in Hip].
      apply list_elem_of_singleton in Hip as ->. by destruct (H6 x eq_refl) as (-> & ? & ?).
Qed.

(** What one turn of the loop does: nothing but move the cursors, or one call of
    the updater with well-formed, fresh addresses of the pools, which are
    tracked whether or not the call succeeds.  It never panics. *)
Lemma reconcile_one_effect is_default svc (s : Pass W) :
  pool_ok false (v4_ranges s) → pool_ok true (v6_ranges s) →
  ∃ r s', reconcile_one is_default svc s = (r, s') ∧
    pool_ok false (v4_ranges s') ∧ pool_ok true (v6_ranges s') ∧
    ranges (v4_ranges s') = ranges (v4_ranges s) ∧ ranges (v6_ranges s') = ranges (v6_ranges s) ∧
    ((r = inr tt ∧ a4 s' = a4 s ∧ a6 s' = a6 s ∧ world s' = world s) ∨
     ∃ ips, NoDup ips ∧ Forall ip_wf ips ∧
       (∀ ip, ip ∈ ips → (ip ∉ (if is_ipv6 ip then a6 s else a4 s)) ∧
          contains (if is_ipv6 ip then v6_ranges s else v4_ranges s) ip = true) ∧
       a4 s' = a4 s ++ v4_of ips ∧ a6 s' = a6 s ++ v6_of ips ∧
       let '(res, w) := append_ingress (lb_namespace svc) (lb_name svc) ips (world s) in
       world s' = w ∧ r = match res with inl e => inl (StatusError e) | inr _ => inr tt end).
Proof.
  intros P4 P6. unfold reconcile_one.
  destruct (should_allocate svc is_default); cbn [negb].
  2: { exists (inr tt), s. split_and!; try done. by left. }
  munfold.
  destruct (plan_allocation_spec svc (v4_ranges s) (v6_ranges s) (a4 s) (a6 s) P4 P6)
    as (res & r4' & r6' & Hplan & K4 & K6 & S4 & S6 & Hp).
  rewrite Hplan. destruct res as [e|p]; cbn beta iota.
  { eexists _, _. split; [reflexivity|]. split_and!; try done. by left. }
  destruct (Hp p eq_refl) as (H4 & H6 & _).
  pose proof (plan_allocation_wf _ _ _ _ _ _ _ _ P4 P6 Hplan) as Hwf.
  destruct (plan_ips_fresh (v4_ranges s) (v6_ranges s) (a4 s) (a6 s) p) as [Hnd Hfresh].
  { intros ip ?. by destruct (H4 ip) as (? & ? & ? & ? & ?). }
  { intros ip ?. by destruct (H6 ip) as (? & ? & ? & ? & ?). }
  destruct (plan_ips p) as [|ip ips] eqn:Hips.
  { eexists _, _. split; [reflexivity|]. split_and!; try done. by left. }
  cbn. destruct (append_ingress _ _ (ip :: ips) _) as [[e|[]] w'] eqn:Ha; cbn;
    (eexists _, _; split; [reflexivity|]; split_and!; try done; right; exists (ip :: ips);
     rewrite Ha; by split_and!).
Qed.

Lemma pass_inv_init r4 r6 al4 al6 (w : W) :
  pool_ok false r4 → pool_ok true r6 →
  pass_inv r4 r6 al4 al6
    {| v4_ranges := r4; v6_ranges := r6; a4 := al4; a6 := al6; updated := 0;
       world := (w, []) |}.
Proof.
  intros H4 H6. split; cbn; rewrite ?app_nil_r; try done; [constructor|].
  intros ip Hip. by apply elem_of_nil in Hip.
Qed.

Lemma pass_inv_call r4 r6 al4 al6 s s' ips ns name :
  pass_inv r4 r6 al4 al6 s →
  (world s').2 = (world s).2 ++ [(ns, name, ips)] →
  a4 s' = a4 s ++ v4_of ips → a6 s' = a6 s ++ v6_of ips →
  pool_ok false (v4_ranges s') → pool_ok true (v6_ranges s') →
  ranges (v4_ranges s') = ranges r4 → ranges (v6_ranges s') = ranges r6 →
  NoDup ips →
  (∀ ip, ip ∈ ips → (ip ∉ (if is_ipv6 ip then a6 s else a4 s)) ∧
     contains (if is_ipv6 ip then v6_ranges s else v4_ranges s) ip = true) →
  pass_inv r4 r6 al4 al6 s'.
Proof.
  intros [P4 P6 R4 R6 A4 A6 ND FR] Hw H4 H6 Hk4 Hk6 Hr4 Hr6 Hnd Hips.
  assert (handed s' = handed s ++ ips) as Hh.
  { unfold handed. rewrite Hw, fmap_app, concat_app. cbn. by rewrite app_nil_r. }
  split; try done.
  - unfold v4_of in *. by rewrite H4, Hh, filter_app, A4, app_assoc.
  - unfold v6_of in *. by rewrite H6, Hh, filter_app, A6, app_assoc.
  - rewrite Hh. apply NoDup_app. split_and!; try done. intros ip Hin Hin'.
    destruct (Hips ip Hin') as [Hn _]. destruct (is_ipv6 ip) eqn:Hf.
    + rewrite A6 in Hn. apply Hn, elem_of_app. right. by apply elem_of_v6_of.
    + rewrite A4 in Hn. apply Hn, elem_of_app. right. by apply elem_of_v4_of.
  - rewrite Hh. intros ip [Hin|Hin]%elem_of_app; [by apply FR|].
    destruct (Hips ip Hin) as [Hn Hc]. rewrite A4, A6 in Hn.
    rewrite (contains_ranges (if is_ipv6 ip then r6 else r4)
      (if is_ipv6 ip then v6_ranges s else v4_ranges s)) in Hc by by destruct (is_ipv6 ip).
    split; [|done]. destruct (is_ipv6 ip); intros Hin'; apply Hn, elem_of_app; by left.
Qed.
End facts.
End ControllerFacts.

Module ControllerTheorems.
Import Pools PoolsFacts Allocate AllocateFacts Controller ControllerFacts.

Section theorems.
Context `{IpNetLaws} {W : Type} `{!StatusUpdater W}.

Lemma reconcile_one_inv r4 r6 al4 al6 is_default svc :
  triple (pass_inv r4 r6 al4 al6) (reconcile_one (W := W * list IngressCall) is_default svc)
    (λ _, pass_inv r4 r6 al4 al6) (λ e s, e ≠ Panic ∧ pass_inv r4 r6 al4 al6 s).
Proof.
  intros s Hs. pose proof Hs as [P4 P6 R4 R6 A4 A6 ND FR].
  destruct (reconcile_one_effect is_default svc s P4 P6)
    as (r & s' & -> & K4 & K6 & S4 & S6 & [(-> & Ha4 & Ha6 & Hw)|(ips & Hnd & _ & Hips & Ha4 & Ha6 & Hr)]).
  - split; rewrite ?Ha4, ?Ha6, ?S4, ?S6; unfold handed; rewrite ?Hw; done.
  - cbn in Hr. destruct (append_ingress _ _ ips _) as [res w]. destruct Hr as [Hw ->].
    assert (pass_inv r4 r6 al4 al6 s').
    { apply (pass_inv_call r4 r6 al4 al6 s s' ips (lb_namespace svc) (lb_name svc)); try done;
        [by rewrite Hw|congruence|congruence]. }
    by destruct res.
Qed.

(** C5: One pass never panics, and never hands out an address twice: the addresses
    passed to the status updater are pairwise distinct, lie in their family's
    pool, and none of them is an external or ingress address of any service of
    the snapshot.  This holds for every behaviour of the updater, also when
    the pass is cut short by its error. *)
Theorem reconcile_unique is_default services r4 r6 (w : W) :
  pool_ok false r4 → pool_ok true r6 →
  let '(res, s) := reconcile is_default services r4 r6 (w, [] : list IngressCall) in
  res ≠ inl Panic ∧ NoDup (handed s) ∧
  ∀ ip, ip ∈ handed s →
    contains (if is_ipv6 ip then r6 else r4) ip = true ∧
    ∀ svc, svc ∈ services → (ip ∉ lb_external_ips svc ++ lb_ingress_ips svc).
Proof.
  intros Hok4 Hok6. unfold reconcile, allocated_ips.
  set (al4 := services ≫= allocated_of false r4). set (al6 := services ≫= allocated_of true r6).
  cbn beta iota. pose proof (pass_inv_init r4 r6 al4 al6 w Hok4 Hok6) as Hinit.
  apply (triple_for services (reconcile_one (W := W * list IngressCall) is_default)
    (λ _, pass_inv r4 r6 al4 al6) (λ e s, e ≠ Panic ∧ pass_inv r4 r6 al4 al6 s)
    (λ done x rest _, reconcile_one_inv r4 r6 al4 al6 is_default x)) in Hinit.
  assert (∀ s : Pass (W * list IngressCall), pass_inv r4 r6 al4 al6 s → NoDup (handed s) ∧
    ∀ ip, ip ∈ handed s → contains (if is_ipv6 ip then r6 else r4) ip = true ∧
      ∀ svc, svc ∈ services → (ip ∉ lb_external_ips svc ++ lb_ingress_ips svc)) as Hfin.
  { intros s [P4 P6 R4 R6 A4 A6 ND FR]. split; [done|]. intros ip Hip.
    destruct (FR ip Hip) as [Hn Hc]. split; [done|]. intros svc Hsvc Hin.
    destruct Hn. subst al4 al6.
    destruct (is_ipv6 ip) eqn:Hf; apply list_elem_of_bind; exists svc; (split; [|done]);
      unfold allocated_of; by apply list_elem_of_filter. }
  destruct (mfor _ _ _) as [[e|[]] s']; [destruct Hinit as [? ?]|];
    (split; [congruence|by apply Hfin]).
Qed.
End theorems.
End ControllerTheorems.

Module ElectionTheorems.
Import Election.

(** [n] attempts; the transitions reported, in order, and the final belief. *)
Fixpoint ticks `{LeaseBackend W} (n : nat) (is_leader : bool) (w : W) : list bool * bool * W :=
  match n with
  | O => ([], is_leader, w)
  | S n =>
      let '(t, l, w) := tick is_leader w in
      let '(ts, l, w) := ticks n l w in
      (option_list t ++ ts, l, w)
  end.

(** A sequence of transitions that starts away from [b] and alternates. *)
Fixpoint alternates (b : bool) (ts : list bool) : Prop :=
  match ts with
  | [] => True
  | t :: ts => t = negb b ∧ alternates t ts
  end.

(** For every backend, the transitions an elector reports alternate between
    gaining and losing leadership, and the last one is what the elector believes. *)
Theorem ticks_alternate `{LeaseBackend W} (n : nat) (is_leader : bool) (w : W) :
  let '(ts, l, _) := ticks n is_leader w in
  alternates is_leader ts ∧ l = foldl (λ _ t, t) is_leader ts.
Proof.
  revert is_leader w. induction n as [|n IH]; intros b w; cbn; [done|].
  unfold tick. destruct (acquire_or_renew w) as [r w'].
  set (held := match r with inr x => x | inl _ => false end).
  destruct (Bool.eqb held b) eqn:He; cbn.
  - specialize (IH b w'). destruct (ticks n b w') as [[ts l] w'']. done.
  - specialize (IH held w'). destruct (ticks n held w') as [[ts l] w'']. cbn.
    destruct IH as [Ha Hl]. split; [split; [|done]; by destruct held, b|done].
Qed.
End ElectionTheorems.

(** ** Concrete inputs *)

Module LbAllocWitnesses.
Import Pools PoolsFacts PoolsTheorems Allocate AllocateFacts AllocateTheorems
  Controller ControllerFacts ControllerTheorems.

Definition pool4 : IpRanges := new [net_of "10.0.0.0/30"; net_of "10.1.0.0/31"].
Definition pool6 : IpRanges := new [net_of "fd00::/126"].
Definition taken : list IpAddr := ip_of <$> ["10.0.0.0"; "10.0.0.1"].

Definition svc_demo (dual : bool) (have : list string) : LbService :=
  {| lb_namespace := "ns"; lb_name := "web"; is_loadbalancer := true;
     loadbalancer_class := Some "kube-router"; want_v4 := true; want_v6 := dual;
     require_dual := dual; lb_external_ips := []; lb_ingress_ips := ip_of <$> have |}.

Lemma pool4_ok : pool_ok false pool4.
Proof.
  split; [split|]; [repeat constructor| |repeat constructor].
  split; [split; by vm_compute|]. exists (net_of "10.0.0.0/30"). split; [reflexivity|by vm_compute].
Qed.

Lemma pool6_ok : pool_ok true pool6.
Proof.
  split; [split|]; [repeat constructor| |repeat constructor].
  split; [split; by vm_compute|]. exists (net_of "fd00::/126"). split; [reflexivity|by vm_compute].
Qed.

Lemma pool6_disjoint : disjoint_ranges (ranges pool6).
Proof. intros [|i] [|j] n m a Hi Hj; cbn in Hi, Hj; done. Qed.

Lemma inc_ip_correct_witness :
  inc_ip (ip_of "10.0.255.255") = ip_of "10.1.0.0" ∧
  ip_bits (inc_ip (ip_of "10.0.255.255")) =
    (ip_bits (ip_of "10.0.255.255") + 1) `mod` ip_space false.
Proof. split; [reflexivity|]. apply (inc_ip_correct (ip_of "10.0.255.255")). split; done. Defined.

Lemma next_free_ip_returns_witness :
  ∃ res r', next_free_ip taken pool4 = Some (res, r') ∧
    ranges r' = ranges pool4 ∧ ranges_ok r' ∧
    (∀ ip, res = Some ip →
       (ip ∉ taken) ∧ contains pool4 ip = true ∧ current_ip r' = Some ip).
Proof. apply (next_free_ip_returns pool4 taken). apply pool4_ok. Defined.

Lemma next_free_ip_exhausted_witness :
  (∃ r', next_free_ip taken pool6 = Some (None, r')) ↔
  (∀ ip, ip_wf ip → contains pool6 ip = true → ip ∈ taken).
Proof.
  apply (next_free_ip_exhausted pool6 taken); [apply pool6_ok|apply pool6_disjoint].
Defined.

Lemma inc_cycle_witness :
  ∃ r', inc_n 6 pool4 = Some r' ∧ ranges r' = ranges pool4 ∧
    at_pos r' ((0 + 6) `mod` total_size (ranges pool4)).
Proof.
  apply (inc_cycle pool4 0 6); [apply pool4_ok|]. split; [by vm_compute|].
  exists (ip_of "10.0.0.0"). split; by vm_compute.
Defined.

Lemma plan_allocation_correct_witness :
  ∃ res r4' r6', plan_allocation (svc_demo true []) pool4 pool6 taken [] = Some (res, r4', r6') ∧
    pool_ok false r4' ∧ pool_ok true r6' ∧ ranges r4' = ranges pool4 ∧
    ranges r6' = ranges pool6 ∧
    ∀ p, res = inr p →
      (∀ ip, plan_v4 p = Some ip →
         want_v4 (svc_demo true []) = true ∧ (have_families (svc_demo true [])).1 = false ∧
         is_ipv6 ip = false ∧ contains pool4 ip = true ∧ (ip ∉ taken)) ∧
      (∀ ip, plan_v6 p = Some ip →
         want_v6 (svc_demo true []) = true ∧ (have_families (svc_demo true [])).2 = false ∧
         is_ipv6 ip = true ∧ contains pool6 ip = true ∧ (ip ∉ [])) ∧
      (require_dual (svc_demo true []) = true → plan_v4 p = None ↔ plan_v6 p = None).
Proof.
  apply (plan_allocation_correct (svc_demo true []) pool4 pool6 taken []);
    [apply pool4_ok|apply pool6_ok].
Defined.

Lemma plan_dual_partial_stuck_witness :
  option_map (λ x, x.1.1) (plan_allocation (svc_demo true ["10.0.0.1"]) pool4 pool6 taken []) =
    Some (inl DualStackUnavailable) ∧
  ∀ p r4' r6',
    plan_allocation (svc_demo true ["10.0.0.1"]) pool4 pool6 taken [] = Some (inr p, r4', r6') →
    plan_ips p = [].
Proof.
  split; [vm_compute; reflexivity|]. intros p r4' r6'.
  apply (plan_dual_partial_stuck (svc_demo true ["10.0.0.1"]) pool4 pool6 taken []);
    [apply pool4_ok|apply pool6_ok|reflexivity|discriminate].
Defined.

(** An updater that accepts every call. *)
#[local] Instance unit_updater : StatusUpdater unit := {| append_ingress _ _ _ := mret tt |}.

Lemma reconcile_unique_witness :
  let services := [svc_demo true []; svc_demo false []; svc_demo false ["10.1.0.0"]] in
  let '(res, s) := reconcile true services pool4 pool6 (tt, [] : list IngressCall) in
  res ≠ inl Panic ∧ NoDup (handed s) ∧
  ∀ ip, ip ∈ handed s →
    contains (if is_ipv6 ip then pool6 else pool4) ip = true ∧
    ∀ svc, svc ∈ services → (ip ∉ lb_external_ips svc ++ lb_ingress_ips svc).
Proof.
  apply (reconcile_unique true
    [svc_demo true []; svc_demo false []; svc_demo false ["10.1.0.0"]] pool4 pool6 tt);
    [apply pool4_ok|apply pool6_ok].
Defined.

(** The disjointness hypothesis of [next_free_ip_exhausted] is needed: in the
    second of two overlapping ranges the scan meets the start address again
    before it has seen every address. *)
Example overlapping_ranges_give_up :
  let r := {| ranges := [net_of "10.0.0.0/31"; net_of "10.0.0.0/30"]; range_index := 0;
              current_ip := Some (ip_of "10.0.0.0") |} in
  contains r (ip_of "10.0.0.2") = true ∧
  option_map fst (next_free_ip taken r) = Some None.
Proof. split; vm_compute; reflexivity. Qed.

Example reconcile_example :
  let '(res, s) := reconcile true [svc_demo true []; svc_demo false []] pool4 pool6
                     (tt, [] : list IngressCall) in
  res = inr tt ∧ (world s).2 =
    [("ns", "web", ip_of <$> ["10.0.0.0"; "fd00::"]); ("ns", "web", ip_of <$> ["10.0.0.1"])].
Proof. vm_compute. split; reflexivity. Qed.
End LbAllocWitnesses.
