(* ===== verification/Lease.v ===== *)
(** * Lease: one allocator at a time

    [KubeLease] of [crates/kube-router-rs/src/lballoc_wire.rs]: the lease behind
    the leader election of [LbAlloc.Election].  The agents of a cluster race for
    it through the Kubernetes API, whose optimistic concurrency control (an
    update with an old resource version is refused) is [serve].  Timestamps are
    in microseconds. *)

From stdpp Require Import gmap sets list strings pretty functions relations.
From Stdlib Require Import ZArith Lia FunctionalExtensionality.
From S2P Require Import Prelude Text Net LbAlloc.
Import Election.

Local Open Scope Z_scope.

(** ** The lease object and the backend *)

Record LeaseSpec := {
  holder_identity : option string;
  lease_duration_seconds : option Z;
  renew_time : option Z;
  acquire_time : option Z;
}.

Record Lease := { resource_version : Z; lease_spec : option LeaseSpec }.

(** [Timestamp::as_second] *)
Definition as_second (t : Z) : Z := t ÷ 1000000.

Definition held_by_other_and_fresh (identity : string) (now : Z) (existing : option Lease) : bool :=
  match existing with
  | None => false
  | Some l =>
      match lease_spec l ≫= holder_identity with
      | None => false
      | Some h =>
          if decide (h = identity) then false
          else
            match lease_spec l ≫= renew_time with
            | None => false
            | Some rt =>
                let dur := default LEASE_DURATION (lease_spec l ≫= lease_duration_seconds) in
                as_second now - as_second rt <? dur
            end
      end
  end.

Definition claim (identity : string) (now : Z) : LeaseSpec :=
  {| holder_identity := Some identity; lease_duration_seconds := Some LEASE_DURATION;
     renew_time := Some now; acquire_time := Some now |}.

(** The write that follows the read: a replacement of the object as it was read,
    or a creation. *)
Inductive LeaseRequest := Replace (l : Lease) | Create (spec : LeaseSpec).

Definition acquire_request (identity : string) (now : Z) (existing : option Lease)
    : option LeaseRequest :=
  if held_by_other_and_fresh identity now existing then None
  else Some match existing with
            | Some l => Replace {| resource_version := resource_version l;
                                   lease_spec := Some (claim identity now) |}
            | None => Create (claim identity now)
            end.

(** The clock and the API calls on the lease. *)
Class LeaseApi (W : Type) := {
  timestamp_now : W → Z;
  lease_get : M W string (option Lease);
  lease_write : LeaseRequest → M W string unit;
}.

Definition kube_acquire_or_renew `{LeaseApi W} (identity : string) : M W string bool := λ w,
  let now := timestamp_now w in
  (existing ← lease_get;
   match acquire_request identity now existing with
   | None => mret false
   | Some r => lease_write r;; mret true
   end) w.

Definition kube_lease `{LeaseApi W} (identity : string) : LeaseBackend W :=
  {| acquire_or_renew := kube_acquire_or_renew identity |}.

(** ** Agents that race *)

(** The API server: [None] is a conflict. *)
Definition serve (store : option Lease) (r : LeaseRequest) : option Lease :=
  match r, store with
  | Replace l, Some l0 =>
      if decide (resource_version l = resource_version l0)
      then Some {| resource_version := resource_version l0 + 1; lease_spec := lease_spec l |}
      else None
  | Create spec, None => Some {| resource_version := 1; lease_spec := Some spec |}
  | _, _ => None
  end.

(** Where an agent is in an attempt: [acquire_or_renew] reads the clock, then the
    lease, then writes. *)
Inductive Phase := Idle | Timed (now : Z) | Fetched (now : Z) (existing : option Lease).

(** [leads] is [is_leader] of the elector, with the time of the claim. *)
Record Agent := { phase : Phase; leads : option Z }.

Record Cluster := { clock : Z; store : option Lease; agents : string → Agent }.

Definition with_agent (s : Cluster) (a : string) (x : Agent) : Cluster :=
  {| clock := clock s; store := store s; agents := <[a := x]> (agents s) |}.

Inductive step : Cluster → Cluster → Prop :=
  | step_clock s d : 0 ≤ d →
      step s {| clock := clock s + d; store := store s; agents := agents s |}
  | step_time s a : phase (agents s a) = Idle →
      step s (with_agent s a {| phase := Timed (clock s); leads := leads (agents s a) |})
  | step_get s a now : phase (agents s a) = Timed now →
      step s (with_agent s a {| phase := Fetched now (store s); leads := leads (agents s a) |})
  | step_held s a now existing : phase (agents s a) = Fetched now existing →
      acquire_request a now existing = None →
      step s (with_agent s a {| phase := Idle; leads := None |})
  | step_write s a now existing r l : phase (agents s a) = Fetched now existing →
      acquire_request a now existing = Some r → serve (store s) r = Some l →
      step s {| clock := clock s; store := Some l;
                agents := <[a := {| phase := Idle; leads := Some now |}]> (agents s) |}
  | step_lost_answer s a now existing r l : phase (agents s a) = Fetched now existing →
      acquire_request a now existing = Some r → serve (store s) r = Some l →
      step s {| clock := clock s; store := Some l;
                agents := <[a := {| phase := Idle; leads := None |}]> (agents s) |}
  | step_error s a :
      step s (with_agent s a {| phase := Idle; leads := None |}).

Definition initial (t : Z) : Cluster :=
  {| clock := t; store := None; agents := λ _, {| phase := Idle; leads := None |} |}.

Definition reachable (t : Z) (s : Cluster) : Prop := rtc step (initial t) s.

(** ** The invariant *)

(** The claim a stored lease makes. *)
Definition claimed (l : Lease) (h : string) (t : Z) : Prop := lease_spec l = Some (claim h t).

(** What an agent's belief means: the lease is its own, or it was taken over
    after the belief had expired. *)
Definition belief_ok (l : Lease) (a : string) (t : Z) : Prop :=
  ∃ h renew, claimed l h renew ∧
    if decide (h = a) then t ≤ renew else as_second t + LEASE_DURATION ≤ as_second renew.

Definition attempt_time (p : Phase) : option Z :=
  match p with Idle => None | Timed now => Some now | Fetched now _ => Some now end.

Record inv (s : Cluster) : Prop := {
  inv_clock : 0 ≤ clock s;
  inv_store l : store s = Some l → ∃ h t, claimed l h t ∧ 0 ≤ t ≤ clock s;
  inv_belief a t : leads (agents s a) = Some t →
    0 ≤ t ≤ clock s ∧ ∃ l, store s = Some l ∧ belief_ok l a t;
  inv_attempt a now : attempt_time (phase (agents s a)) = Some now →
    0 ≤ now ≤ clock s ∧
    ∀ l t, store s = Some l → claimed l a t → t ≤ now;
  inv_fetched a now existing : phase (agents s a) = Fetched now existing →
    match existing, store s with
    | Some l, Some l0 => resource_version l ≤ resource_version l0 ∧
                         (resource_version l = resource_version l0 → l = l0)
    | Some _, None => False
    | None, _ => True
    end;
}.

Lemma as_second_mono t u : 0 ≤ t ≤ u → as_second t ≤ as_second u.
Proof. intros. unfold as_second. apply Z.quot_le_mono; lia. Qed.

Lemma claimed_inj l h t h' t' : claimed l h t → claimed l h' t' → h = h' ∧ t = t'.
Proof. unfold claimed. intros H1 H2. rewrite H1 in H2. by injection H2. Qed.

Lemma initial_inv t : 0 ≤ t → inv (initial t).
Proof. intros Ht. split; cbn; naive_solver. Qed.

Lemma held_claimed a now l h t :
  claimed l h t →
  held_by_other_and_fresh a now (Some l) =
  if decide (h = a) then false else as_second now - as_second t <? LEASE_DURATION.
Proof. destruct l as [rv sp]. intros Hc. cbn in Hc. by rewrite Hc. Qed.

Lemma fresh_guard a now l h t :
  claimed l h t → h ≠ a → acquire_request a now (Some l) ≠ None →
  as_second t + LEASE_DURATION ≤ as_second now.
Proof.
  intros Hc Hne Ha. unfold acquire_request in Ha.
  rewrite (held_claimed a now l h t Hc), decide_False in Ha by done.
  destruct (Z.ltb_spec (as_second now - as_second t) LEASE_DURATION); [done|lia].
Qed.

(** The write that the server accepts: the lease it makes, and what was there. *)
Lemma serve_claim a now existing r st l :
  acquire_request a now existing = Some r → serve st r = Some l →
  match existing, st with
  | Some e, Some l0 => resource_version e ≤ resource_version l0 ∧
                       (resource_version e = resource_version l0 → e = l0)
  | Some _, None => False
  | None, _ => True
  end →
  claimed l a now ∧
  match st with
  | Some l0 => existing = Some l0 ∧ resource_version l = resource_version l0 + 1
  | None => existing = None
  end.
Proof.
  unfold acquire_request. intros Ha Hs He.
  destruct (held_by_other_and_fresh a now existing); [done|]. injection Ha as <-.
  destruct existing as [e|], st as [l0|]; cbn in Hs; try done.
  - destruct (decide _) as [Hr|]; [|done]. injection Hs as <-. destruct He as [_ He].
    by rewrite (He Hr).
  - by injection Hs as <-.
Qed.

(** Beliefs of the others survive a claim. *)
Lemma belief_survives s a now existing r l b t :
  inv s → phase (agents s a) = Fetched now existing →
  acquire_request a now existing = Some r → serve (store s) r = Some l →
  leads (agents s b) = Some t → b ≠ a → belief_ok l b t.
Proof.
  intros HI Hp Ha Hs Hb Hne.
  pose proof (inv_fetched s HI a now existing Hp) as Hf.
  destruct (serve_claim _ _ _ _ _ _ Ha Hs Hf) as [Hc Hst].
  exists a, now. split; [done|]. rewrite decide_False by done.
  destruct (inv_belief s HI b t Hb) as [Ht (l0 & Hl0 & h & renew & Hc0 & Hok)].
  rewrite Hl0 in Hst. destruct Hst as [He _]. rewrite He in Ha.
  destruct (inv_attempt s HI a now) as [Hnow Hself]; [by rewrite Hp|].
  destruct (inv_store s HI l0 Hl0) as (h' & t' & Hc' & Ht').
  destruct (claimed_inj _ _ _ _ _ Hc0 Hc') as [<- <-].
  destruct (decide (h = b)) as [->|Hhb].
  - pose proof (fresh_guard a now l0 b renew Hc0 Hne ltac:(by rewrite Ha)).
    pose proof (as_second_mono t renew ltac:(lia)). lia.
  - destruct (decide (h = a)) as [->|Hha].
    + pose proof (Hself l0 renew Hl0 Hc0). pose proof (as_second_mono renew now ltac:(lia)). lia.
    + pose proof (fresh_guard a now l0 h renew Hc0 Hha ltac:(by rewrite Ha)).
      unfold LEASE_DURATION in *. lia.
Qed.

(** A successful write, whatever the writer then believes. *)
Lemma write_inv s a now existing r l believes :
  inv s → phase (agents s a) = Fetched now existing →
  acquire_request a now existing = Some r → serve (store s) r = Some l →
  believes = None ∨ believes = Some now →
  inv {| clock := clock s; store := Some l;
         agents := <[a := {| phase := Idle; leads := believes |}]> (agents s) |}.
Proof.
  intros HI Hp Ha Hs Hbel.
  pose proof (inv_fetched s HI a now existing Hp) as Hf.
  destruct (serve_claim _ _ _ _ _ _ Ha Hs Hf) as [Hc Hst].
  destruct (inv_attempt s HI a now) as [Hnow Hself]; [by rewrite Hp|].
  split; cbn [clock store agents].
  - apply HI.
  - intros l' [= <-]. exists a, now. split; [done|lia].
  - intros b t Hb. destruct (decide (b = a)) as [->|Hne].
    + rewrite fn_lookup_insert in Hb. cbn in Hb. destruct Hbel as [->| ->]; [done|].
      injection Hb as <-. split; [lia|]. exists l. split; [done|]. exists a, now.
      split; [done|]. by rewrite decide_True.
    + rewrite fn_lookup_insert_ne in Hb by done.
      split; [exact (proj1 (inv_belief s HI b t Hb))|]. exists l. split; [done|].
      by eapply belief_survives.
  - intros b n Hb. destruct (decide (b = a)) as [->|Hne].
    + by rewrite fn_lookup_insert in Hb.
    + rewrite fn_lookup_insert_ne in Hb by done.
      split; [exact (proj1 (inv_attempt s HI b n Hb))|].
      intros l' t [= <-] Hcl. by destruct (claimed_inj _ _ _ _ _ Hcl Hc) as [-> _].
  - intros b n ex Hb. destruct (decide (b = a)) as [->|Hne].
    + by rewrite fn_lookup_insert in Hb.
    + rewrite fn_lookup_insert_ne in Hb by done.
      pose proof (inv_fetched s HI b n ex Hb) as Hfb. destruct ex as [e|]; [|done].
      destruct (store s) as [l0|]; [|done]. destruct Hst as [_ Hrv]. lia.
Qed.

(** A step that only moves one agent, to no new belief. *)
Lemma agent_inv s a x :
  inv s →
  (leads x = None ∨ leads x = leads (agents s a)) →
  (∀ now, attempt_time (phase x) = Some now →
     attempt_time (phase (agents s a)) = Some now ∨ now = clock s) →
  (∀ now existing, phase x = Fetched now existing → existing = store s) →
  inv (with_agent s a x).
Proof.
  intros HI Hl Hp Hf. split; cbn [clock store agents with_agent].
  - apply HI.
  - apply HI.
  - intros b t Hb. destruct (decide (b = a)) as [->|Hne].
    + rewrite fn_lookup_insert in Hb. destruct Hl as [Hl|Hl]; rewrite Hl in Hb; [done|].
      by apply HI.
    + rewrite fn_lookup_insert_ne in Hb by done. by apply HI.
  - intros b n Hb. destruct (decide (b = a)) as [->|Hne].
    + rewrite fn_lookup_insert in Hb. destruct (Hp n Hb) as [Hn| ->]; [by apply HI|].
      split; [pose proof (inv_clock s HI); lia|]. intros l t Hst Hc.
      destruct (inv_store s HI l Hst) as (h & t' & Hc' & Ht).
      destruct (claimed_inj _ _ _ _ _ Hc Hc') as [_ ->]. lia.
    + rewrite fn_lookup_insert_ne in Hb by done. by apply HI.
  - intros b n ex Hb. destruct (decide (b = a)) as [->|Hne].
    + rewrite fn_lookup_insert in Hb. rewrite (Hf n ex Hb). destruct (store s); [split; [lia|done]|done].
    + rewrite fn_lookup_insert_ne in Hb by done. by apply (inv_fetched s HI b n ex).
Qed.

Lemma step_inv s s' : inv s → step s s' → inv s'.
Proof.
  intros HI Hs. destruct Hs as [s d Hd|s a Hp|s a now Hp|s a now e Hp Ha|s a now e r l Hp Ha Hv
                               |s a now e r l Hp Ha Hv|s a].
  - split; cbn [clock store agents].
    + pose proof (inv_clock s HI). lia.
    + intros l Hl. destruct (inv_store s HI l Hl) as (h & t & Hc & Ht). exists h, t. split; [done|lia].
    + intros a t Ha. destruct (inv_belief s HI a t Ha) as [Ht Hb]. split; [lia|done].
    + intros a n Ha. destruct (inv_attempt s HI a n Ha) as [Hn Hb]. split; [lia|done].
    + intros a n ex Ha. by apply (inv_fetched s HI a n ex).
  - apply agent_inv; [done|by right| |done]. intros n [= <-]. by right.
  - apply agent_inv; [done|by right| |by intros n ex [= _ <-]]. intros n [= <-]. left. by rewrite Hp.
  - apply agent_inv; [done|by left|done|done].
  - eapply write_inv; [done..|by right].
  - eapply write_inv; [done..|by left].
  - apply agent_inv; [done|by left|done|done].
Qed.

Lemma reachable_inv t s : 0 ≤ t → reachable t s → inv s.
Proof.
  intros Ht Hr. assert (inv (initial t)) as HI by by apply initial_inv.
  unfold reachable in Hr. induction Hr as [|s1 s2 s3 Hs _ IH]; [done|].
  apply IH. by eapply step_inv.
Qed.

(** Instants a number of whole seconds apart, as the lease counts them, are really
    apart by more than one second less. *)
Lemma seconds_apart t d now :
  0 ≤ t → 0 ≤ now → as_second t + d ≤ as_second now → t + (d - 1) * 1000000 < now.
Proof. unfold as_second. intros Ht Hn. rewrite !Z.quot_div_nonneg by lia. Z.div_mod_to_equations. lia. Qed.

(** C6: Whatever the interleaving of the agents' attempts, failures and lost answers:
    of two agents that believe to lead, one claimed the lease at least the lease
    duration of 15 seconds ago in whole seconds, as the program counts them, which is
    more than 14 seconds ago on the clock that all agents read. *)
Theorem lease_exclusive t0 s a b ta tb :
  0 ≤ t0 → reachable t0 s → a ≠ b →
  leads (agents s a) = Some ta → leads (agents s b) = Some tb →
  ∃ t, (t = ta ∨ t = tb) ∧
    as_second t + LEASE_DURATION ≤ as_second (clock s) ∧
    t + (LEASE_DURATION - 1) * 1000000 < clock s.
Proof.
  intros Ht0 Hr Hne Ha Hb. pose proof (reachable_inv t0 s Ht0 Hr) as HI.
  destruct (inv_belief s HI a ta Ha) as [Hta (l & Hl & h & renew & Hc & Hok)].
  destruct (inv_belief s HI b tb Hb) as [Htb (l' & Hl' & h' & renew' & Hc' & Hok')].
  rewrite Hl in Hl'. injection Hl' as <-.
  destruct (claimed_inj _ _ _ _ _ Hc Hc') as [<- <-].
  destruct (inv_store s HI l Hl) as (h0 & t1 & Hc0 & Ht1).
  destruct (claimed_inj _ _ _ _ _ Hc Hc0) as [<- <-].
  pose proof (as_second_mono renew (clock s) ltac:(lia)).
  destruct (decide (h = a)) as [->|].
  - rewrite decide_False in Hok' by done. exists tb. split; [by right|].
    split; [lia|apply seconds_apart; lia].
  - exists ta. split; [by left|]. split; [lia|apply seconds_apart; lia].
Qed.

(** ** An undisturbed attempt *)

(** The API of a cluster in which nothing else happens during the attempt. *)
Definition cluster_api : LeaseApi Cluster := {|
  timestamp_now := clock;
  lease_get s := (inr (store s), s);
  lease_write r s :=
    match serve (store s) r with
    | Some l => (inr tt, {| clock := clock s; store := Some l; agents := agents s |})
    | None => (inl "conflict", s)
    end;
|}.

(** What the elector of [a] then believes. *)
Definition after_attempt (a : string) (s : Cluster) (r : string + bool) : Cluster :=
  with_agent s a {| phase := Idle;
                    leads := match r with inr true => Some (clock s) | _ => None end |}.

Lemma insert_twice (f : string → Agent) a x y : <[a := y]> (<[a := x]> f) = <[a := y]> f.
Proof.
  unfold insert, fn_insert. apply functional_extensionality. intros b. by destruct (decide (a = b)).
Qed.

(** [acquire_or_renew] followed by the elector's update is a run of the steps. *)
Lemma attempt_steps a s :
  phase (agents s a) = Idle →
  let '(r, s') := @kube_acquire_or_renew _ cluster_api a s in
  rtc step s (after_attempt a s' r).
Proof.
  intros Hp. unfold kube_acquire_or_renew, mbind, M_bind. cbn [lease_get timestamp_now cluster_api].
  set (s1 := with_agent s a {| phase := Timed (clock s); leads := leads (agents s a) |}).
  set (s2 := with_agent s1 a {| phase := Fetched (clock s) (store s); leads := leads (agents s a) |}).
  assert (rtc step s s2) as Hs2.
  { eapply rtc_l; [by apply (step_time s a)|]. eapply rtc_l; [|done].
    assert (phase (agents s1 a) = Timed (clock s)) as H1
      by (subst s1; cbn; by rewrite fn_lookup_insert).
    pose proof (step_get s1 a (clock s) H1) as Hg. subst s2.
    replace (leads (agents s1 a)) with (leads (agents s a)) in Hg
      by (subst s1; cbn; by rewrite fn_lookup_insert). exact Hg. }
  assert (phase (agents s2 a) = Fetched (clock s) (store s)) as H2
    by (subst s2; cbn; by rewrite fn_lookup_insert).
  assert (∀ x, with_agent s2 a x = with_agent s a x) as Hback.
  { intros x. subst s2 s1. unfold with_agent. cbn. by rewrite !insert_twice. }
  destruct (acquire_request a (clock s) (store s)) as [r|] eqn:Ha; cbn [lease_write cluster_api].
  - destruct (serve (store s) r) as [l|] eqn:Hv; cbn [mret M_ret].
    + eapply rtc_r; [exact Hs2|].
      pose proof (step_write s2 a (clock s) (store s) r l H2 Ha Hv) as Hw.
      unfold after_attempt, with_agent. cbn. cbn in Hw. by rewrite !insert_twice in Hw.
    + eapply rtc_r; [exact Hs2|]. unfold after_attempt. rewrite <- Hback. apply step_error.
  - cbn [mret M_ret]. eapply rtc_r; [exact Hs2|]. unfold after_attempt. rewrite <- Hback.
    by apply (step_held s2 a (clock s) (store s)).
Qed.

Lemma overlap_run a b :
  a ≠ b →
  ∃ s, reachable 0 s ∧ clock s = 15000000 ∧
       leads (agents s a) = Some 0 ∧ leads (agents s b) = Some 15000000.
Proof.
  intros Hne.
  set (s1 := after_attempt a {| clock := 0; store := Some {| resource_version := 1;
               lease_spec := Some (claim a 0) |}; agents := agents (initial 0) |} (inr true)).
  assert (reachable 0 s1) as H1 by exact (attempt_steps a (initial 0) eq_refl).
  set (s2 := {| clock := 0 + 15000000; store := store s1; agents := agents s1 |}).
  assert (reachable 0 s2) as H2 by (eapply rtc_r; [exact H1|by apply step_clock]).
  assert (agents s2 b = {| phase := Idle; leads := None |}) as Hb.
  { subst s2 s1. cbn. by rewrite fn_lookup_insert_ne. }
  pose proof (attempt_steps b s2 ltac:(by rewrite Hb)) as H3.
  unfold kube_acquire_or_renew, mbind, M_bind in H3.
  cbn [lease_get timestamp_now cluster_api] in H3.
  assert (acquire_request b (clock s2) (store s2) =
          Some (Replace {| resource_version := 1; lease_spec := Some (claim b 15000000) |})) as Hr.
  { unfold acquire_request. subst s2 s1. cbn [store after_attempt with_agent clock].
    rewrite (held_claimed b _ _ a 0) by done. by rewrite decide_False. }
  rewrite Hr in H3. cbn in H3.
  eexists. split; [unfold reachable; etransitivity; [exact H2|exact H3]|]. cbn.
  split; [done|]. split; [|by rewrite fn_lookup_insert].
  rewrite fn_lookup_insert_ne by done. by rewrite fn_lookup_insert.
Qed.

(** Nothing revokes a belief but the agent's own next attempt: an agent that makes
    none for the lease duration still believes to lead when another has taken the
    lease over. *)
Theorem stalled_leader_overlaps a b :
  a ≠ b →
  ∃ s ta tb, reachable 0 s ∧ leads (agents s a) = Some ta ∧ leads (agents s b) = Some tb.
Proof. intros (s & Hr & _ & Ha & Hb)%overlap_run. by exists s, 0, 15000000. Qed.

Lemma lease_exclusive_witness :
  ∃ s, reachable 0 s ∧ leads (agents s "agent-a") = Some 0 ∧
       leads (agents s "agent-b") = Some 15000000 ∧
       ∃ t, (t = 0 ∨ t = 15000000) ∧
         as_second t + LEASE_DURATION ≤ as_second (clock s) ∧
         t + (LEASE_DURATION - 1) * 1000000 < clock s.
Proof.
  destruct (overlap_run "agent-a" "agent-b" ltac:(done)) as (s & Hr & Hc & Ha & Hb).
  exists s. split; [exact Hr|]. split; [exact Ha|]. split; [exact Hb|].
  apply (lease_exclusive 0 s "agent-a" "agent-b" 0 15000000); [lia|exact Hr|done|exact Ha|exact Hb].
Defined.

Lemma stalled_leader_overlaps_witness :
  "agent-a" ≠ "agent-b" ∧
  ∃ s ta tb, reachable 0 s ∧ leads (agents s "agent-a") = Some ta ∧
             leads (agents s "agent-b") = Some tb.
Proof. split; [done|]. apply (stalled_leader_overlaps "agent-a" "agent-b"). done. Defined.
