(* ===== verification/Netlink.v ===== *)
(** * Netlink: routes, links and addresses ([crates/netlink-sys])

    [NetlinkOps] is the trait of [lib.rs]; [MockNetlink] the in-memory instance
    of the same file; [SystemNetlink] the instance of [system.rs] that runs the
    [ip] command; [Retry] the policy of [retry.rs]. *)

From stdpp Require Import gmap sets list strings pretty.
From Stdlib Require Import Ascii ZArith Lia.
From S2P Require Import Prelude Text Net.

Local Open Scope Z_scope.

(** [NetlinkError::Op] *)
Record NetlinkError := NetlinkOp { nl_why : string }.

(** [Display for NetlinkError] *)
Definition netlink_error_to_string (e : NetlinkError) : string :=
  "netlink operation failed: " +:+ nl_why e.

Section route.
Context `{IpNetLib}.

Record Route := { dst : IpNet; gateway : option IpAddr; table : Z }.

#[export] Instance Route_eq_dec : EqDecision Route.
Proof. solve_decision. Defined.

(** The trait [NetlinkOps] over a world [W]. *)
Class NetlinkOps (W : Type) := {
  ensure_dummy_link : string → M W NetlinkError unit;
  addr_add : string → IpAddr → Z → M W NetlinkError unit;
  addr_del : string → IpAddr → Z → M W NetlinkError unit;
  route_replace : Route → M W NetlinkError unit;
  route_del : Route → M W NetlinkError unit;
  route_list : Z → M W NetlinkError (list Route);
}.

(** The key a kernel route is replaced or deleted by. *)
Definition route_key (r : Route) : IpNet * Z := (dst r, table r).

Record MockNetlink := {
  dummy_links : gset string;
  addrs : gset (string * IpAddr * Z);
  routes : list Route;
}.

Definition mock_netlink_empty : MockNetlink :=
  {| dummy_links := ∅; addrs := ∅; routes := [] |}.

Definition set_routes (f : list Route → list Route) (w : MockNetlink) : MockNetlink :=
  {| dummy_links := dummy_links w; addrs := addrs w; routes := f (routes w) |}.
Definition set_addrs (f : gset (string * IpAddr * Z) → gset (string * IpAddr * Z))
    (w : MockNetlink) : MockNetlink :=
  {| dummy_links := dummy_links w; addrs := f (addrs w); routes := routes w |}.

(** [routes.retain(|e| !(e.dst == route.dst && e.table == route.table))] *)
Definition retain_other (r : Route) (l : list Route) : list Route :=
  filter (λ e, route_key e ≠ route_key r) l.

#[export] Instance mock_netlink_ops : NetlinkOps MockNetlink := {|
  ensure_dummy_link name := mmodify (λ w,
    {| dummy_links := {[name]} ∪ dummy_links w; addrs := addrs w; routes := routes w |});
  addr_add link addr plen := mmodify (set_addrs (λ s, {[(link, addr, plen)]} ∪ s));
  addr_del link addr plen := mmodify (set_addrs (λ s, s ∖ {[(link, addr, plen)]}));
  route_replace r := mmodify (set_routes (λ l, retain_other r l ++ [r]));
  route_del r := mmodify (set_routes (retain_other r));
  route_list t := λ w, (inr (filter (λ r, table r = t) (routes w)), w);
|}.
End route.

(** ** The routes of the kernel

    What has been installed through any netlink implementation: a kernel route
    is identified by its destination and table. *)

Abbreviation Ktable := (gmap (IpNet * Z) Route).

Section kernel.
Context `{IpNetLib}.

#[export] Instance kernel_netlink W `{!NetlinkOps W} : NetlinkOps (W * Ktable) := {|
  ensure_dummy_link n := noting id (ensure_dummy_link n);
  addr_add l a p := noting id (addr_add l a p);
  addr_del l a p := noting id (addr_del l a p);
  route_replace r := noting <[route_key r := r]> (route_replace r);
  route_del r := noting (delete (route_key r)) (route_del r);
  route_list t := noting id (route_list t);
|}.

(** Installing or deleting a list of routes: what was done before an error. *)
Lemma replace_all_run W `{!NetlinkOps W} (l : list Route) (s s' : W * Ktable) r :
  mfor l route_replace s = (r, s') →
  ∃ done rest, l = done ++ rest ∧ s'.2 = insert_all route_key id s.2 done ∧
               (r = inr tt → rest = []).
Proof. exact (mfor_noting (λ r, route_replace r) (λ r, <[route_key r := r]>) l s s' r). Qed.

Lemma delete_all_run W `{!NetlinkOps W} (l : list Route) (s s' : W * Ktable) r :
  mfor l route_del s = (r, s') →
  ∃ done rest, l = done ++ rest ∧ s'.2 = delete_all route_key s.2 done ∧
               (r = inr tt → rest = []).
Proof. exact (mfor_noting (λ r, route_del r) (λ r, delete (route_key r)) l s s' r). Qed.
End kernel.

(** ** Running a command *)

(** [tokio::process::Command]: the program, its arguments and what is written to
    its standard input; a failure to start, or whether it succeeded, with its
    standard output and error. *)
Class CommandRunner (W : Type) := {
  run_command : string → list string → option string → W → (string + bool * string * string) * W;
}.

Definition debug_char (c : ascii) : string :=
  if decide (byte_of c = 34) then "\" +:+ String c ""
  else if decide (byte_of c = 92) then "\\"
  else if decide (byte_of c = 10) then "\n"
  else if decide (byte_of c = 9) then "\t"
  else if decide (byte_of c = 13) then "\r"
  else String c "".

Definition dquote : string := String (ascii_of_N 34) "".

(** [{:?}] of a string and of a list of strings. *)
Definition debug_string (s : string) : string :=
  dquote +:+ str_concat (debug_char <$> String.list_ascii_of_string s) +:+ dquote.
Definition debug_strings (l : list string) : string :=
  "[" +:+ str_join ", " (debug_string <$> l) +:+ "]".

Module SystemNetlink.

Definition MAIN_TABLE : Z := 254.

Section args.
Context `{IpNetLib}.

Definition table_args (r : Route) : list string :=
  if decide (table r = MAIN_TABLE) then [] else ["table"; pretty (table r)].

Definition route_replace_args (route : Route) : list string :=
  ["route"; "replace"; net_to_string (dst route)] ++
  match gateway route with Some gw => ["via"; ip_to_string gw] | None => [] end ++
  table_args route.

Definition route_del_args (route : Route) : list string :=
  ["route"; "del"; net_to_string (dst route)] ++ table_args route.

Definition addr_args (op link addr : string) (prefix_len : Z) : list string :=
  ["addr"; op; addr +:+ "/" +:+ pretty prefix_len; "dev"; link].
End args.

Section system.
Context `{IpNetLib} {W : Type} `{!CommandRunner W}.

Definition run_ip (args : list string) : M W NetlinkError string := λ w,
  match run_command "ip" args None w with
  | (inl e, w) => (inl (NetlinkOp ("spawn ip " +:+ debug_strings args +:+ ": " +:+ e)), w)
  | (inr (false, _, stderr), w) =>
      (inl (NetlinkOp ("ip " +:+ debug_strings args +:+ " failed: " +:+ trim stderr)), w)
  | (inr (true, stdout, _), w) => (inr stdout, w)
  end.

(** [match r { Ok(_) => Ok(()), Err(e) if tolerated(e) => Ok(()), Err(e) => Err(e) }] *)
Definition tolerate (subs : list string) (m : M W NetlinkError string)
    : M W NetlinkError unit := λ w,
  match m w with
  | (inr _, w) => (inr tt, w)
  | (inl e, w) =>
      if existsb (λ s, str_contains s (netlink_error_to_string e)) subs
      then (inr tt, w) else (inl e, w)
  end.

(** The marker type [SystemNetlink] is left out: the instance is for the world. *)
Definition system_netlink_ops : NetlinkOps W := {|
  ensure_dummy_link name :=
    tolerate ["File exists"] (run_ip ["link"; "add"; name; "type"; "dummy"]);;
    (λ _, tt) <$> run_ip ["link"; "set"; name; "up"];
  addr_add link addr plen :=
    tolerate ["File exists"; "already assigned"]
      (run_ip (addr_args "add" link (ip_to_string addr) plen));
  addr_del link addr plen :=
    tolerate ["Cannot assign"] (run_ip (addr_args "del" link (ip_to_string addr) plen));
  route_replace r := tolerate [] (run_ip (route_replace_args r));
  route_del r := tolerate ["No such process"] (run_ip (route_del_args r));
  route_list _ := mret [];
|}.
End system.
End SystemNetlink.

(** ** Retries *)

Module Retry.

(** Durations in milliseconds. *)
Record RetryConfig := { base : Z; max_delay : Z; attempts : Z }.

Definition default_config : RetryConfig := {| base := 1; max_delay := 100; attempts := 30 |}.

(** [tokio::time::sleep] *)
Class Sleep (W : Type) := { sleep : Z → W → W }.

Section retry.
Context {W T E : Type} `{!Sleep W} (cfg : RetryConfig) (retryable : E → bool) (op : M W E T).

(** [budget] attempts remain; [last_err] is what the last one failed with.
    [None] is the panic of [expect]. *)
Fixpoint retry_loop (budget : nat) (delay : Z) (last_err : option E) (w : W)
    : option (E + T) * W :=
  match budget with
  | O => (inl <$> last_err, w)
  | S budget =>
      match op w with
      | (inr v, w) => (Some (inr v), w)
      | (inl e, w) =>
          if negb (retryable e) then (Some (inl e), w)
          else
            match budget with
            | O => retry_loop budget delay (Some e) w
            | S _ =>
                let w := if delay =? 0 then w else sleep delay w in
                retry_loop budget (Z.min (delay * 2) (max_delay cfg)) (Some e) w
            end
      end
  end.

Definition retry (w : W) : option (E + T) * W :=
  retry_loop (Z.to_nat (Z.max (attempts cfg) 1)) (base cfg) None w.
End retry.

(** ** The policy *)

(** An operation whose results come from a list, in a world that records the
    calls made and the delays slept. *)
Record Script (T E : Type) := { results : list (E + T); calls : nat; slept : list Z }.
Arguments results {T E} _.
Arguments calls {T E} _.
Arguments slept {T E} _.
Arguments Build_Script {T E} _ _ _.

#[export] Instance script_sleep T E : Sleep (Script T E) := {|
  sleep d w := {| results := results w; calls := calls w; slept := slept w ++ [d] |}
|}.

Definition script_op {T E} (dflt : E + T) : M (Script T E) E T := λ w,
  (match results w with r :: _ => r | [] => dflt end,
   {| results := tail (results w); calls := S (calls w); slept := slept w |}).

Section policy.
Context {T E : Type} (cfg : RetryConfig) (retryable : E → bool) (dflt : E + T).

Lemma script_op_step (w : Script T E) :
  calls (script_op dflt w).2 = S (calls w) ∧ slept (script_op dflt w).2 = slept w.
Proof. done. Qed.

(** The loop after the first call: every further delay is capped, and there is none
    when the first is zero. *)
Lemma retry_loop_spec budget delay last w :
  0 ≤ delay ≤ max_delay cfg → (budget = 0%nat → is_Some last) →
  let '(r, w') := retry_loop cfg retryable (script_op dflt) budget delay last w in
  is_Some r ∧ (calls w ≤ calls w' ≤ calls w + budget)%nat ∧
  (∃ ds, slept w' = slept w ++ ds ∧ Forall (λ d, 0 < d ≤ max_delay cfg) ds ∧ (delay = 0 → ds = [])) ∧
  (∀ e, r = Some (inl e) → retryable e = false ∨ calls w' = (calls w + budget)%nat).
Proof.
  revert delay last w. induction budget as [|budget IH]; intros delay last w Hd Hl; cbn [retry_loop].
  { destruct (Hl eq_refl) as [e ->]. split_and!; [by eexists|lia|lia|exists []; by rewrite app_nil_r|].
    intros e0 _. right. lia. }
  destruct (script_op_step w) as [Hc1 Hs1].
  destruct (script_op dflt w) as [[e|v] w1]; cbn [snd] in Hc1, Hs1; cycle 1.
  { split_and!; [by eexists|lia|lia|exists []; by rewrite app_nil_r|done]. }
  destruct (retryable e) eqn:Hr; cbn [negb]; cycle 1.
  { split_and!; [by eexists|lia|lia|exists []; by rewrite app_nil_r|]. intros ? [= <-]. by left. }
  destruct budget as [|budget].
  { cbn. split_and!; [by eexists|lia|lia|exists []; by rewrite app_nil_r|]. intros ? _. right. lia. }
  set (w2 := if delay =? 0 then w1 else sleep delay w1).
  specialize (IH (Z.min (delay * 2) (max_delay cfg)) (Some e) w2 ltac:(lia) ltac:(done)).
  assert (calls w2 = S (calls w) ∧ slept w2 = slept w ++ (if delay =? 0 then [] else [delay])) as [Hc Hs2]
    by (subst w2; destruct (Z.eqb_spec delay 0); cbn; rewrite Hs1, ?app_nil_r; done).
  destruct (retry_loop _ _ _ _ _ _ w2) as [r w']. rewrite Hc, Hs2 in IH.
  destruct IH as (? & ? & (ds & Hds & Hall & Hzero) & He). split_and!; [done|lia|lia| |].
  - exists ((if delay =? 0 then [] else [delay]) ++ ds). rewrite app_assoc. split; [done|].
    destruct (Z.eqb_spec delay 0) as [->|]; [rewrite Hzero by lia; done|].
    split; [|done]. constructor; [lia|done].
  - intros e' Hr'. destruct (He e' Hr'); [by left|right; lia].
Qed.

End policy.


End Retry.
