(* ===== verification/Bgp.v ===== *)
(** * Bgp: the BGP engine boundary ([crates/bgp])

    Paths and their attributes ([path.rs]), the trait [BgpEngine] with its
    logging and recording instances ([engine.rs]) and the defined sets of
    [policy.rs].  The engine over gRPC and the daemon are in [Grpc]. *)

From stdpp Require Import gmap sets list strings pretty.
From Stdlib Require Import ZArith Lia.
From S2P Require Import Prelude Text Net.

Local Open Scope Z_scope.

Inductive Afi := AfiIp | AfiIp6.
Inductive Safi := SafiUnicast.

Record GracefulRestart := { restart_time_secs : Z; deferral_time_secs : Z }.

Record GlobalConfig := {
  gc_asn : Z;
  gc_router_id : option string;
  gc_listen_port : Z;
  gc_listen_addresses : list IpAddr;
}.

Record PeerConfig := {
  pc_neighbor : IpAddr;
  pc_peer_asn : Z;
  pc_is_external : bool;
  pc_rr_client : bool;
  pc_rr_cluster_id : option string;
  pc_local_address : option IpAddr;
  pc_password : option string;
  pc_port : option Z;
  pc_multihop_ttl : option Z;
  pc_graceful_restart : option GracefulRestart;
}.

(** [BgpError::Engine] *)
Record BgpError := BgpEngineError { bgp_why : string }.

Section bgp.
Context `{IpNetLib}.

Inductive Attr :=
| Origin (code : Z)
| NextHop (addr : IpAddr)
| MpReachNlri (next_hop : IpAddr) (nlri : IpNet)
| Communities (values : list Z)
| AsPathPrepend (asn repeat : Z).

Record Path := {
  path_afi : Afi;
  path_safi : Safi;
  path_prefix : IpNet;
  path_next_hop : IpAddr;
  path_attrs : list Attr;
  path_withdrawal : bool;
}.

Record PathBuilder := {
  pb_prefix : IpNet;
  pb_next_hop : IpAddr;
  pb_withdrawal : bool;
  pb_communities : list Z;
  pb_as_prepend : option (Z * Z);
}.

Definition path_builder_new (prefix : IpNet) (next_hop : IpAddr) : PathBuilder :=
  {| pb_prefix := prefix; pb_next_hop := next_hop; pb_withdrawal := false;
     pb_communities := []; pb_as_prepend := None |}.

Definition with_withdrawal (w : bool) (self : PathBuilder) : PathBuilder :=
  {| pb_prefix := pb_prefix self; pb_next_hop := pb_next_hop self; pb_withdrawal := w;
     pb_communities := pb_communities self; pb_as_prepend := pb_as_prepend self |}.

Definition with_communities (communities : list Z) (self : PathBuilder) : PathBuilder :=
  {| pb_prefix := pb_prefix self; pb_next_hop := pb_next_hop self;
     pb_withdrawal := pb_withdrawal self;
     pb_communities := communities; pb_as_prepend := pb_as_prepend self |}.

Definition as_path_prepend (asn repeat : Z) (self : PathBuilder) : PathBuilder :=
  if 0 <? repeat then
    {| pb_prefix := pb_prefix self; pb_next_hop := pb_next_hop self;
       pb_withdrawal := pb_withdrawal self;
       pb_communities := pb_communities self; pb_as_prepend := Some (asn, repeat) |}
  else self.

Definition path_build (self : PathBuilder) : Path :=
  let '(afi, attrs) :=
    match of_net (pb_prefix self) with
    | FamV4 => (AfiIp, [Origin 0; NextHop (pb_next_hop self)])
    | FamV6 => (AfiIp6, [Origin 0; MpReachNlri (pb_next_hop self) (pb_prefix self)])
    end in
  let attrs := match pb_communities self with
               | [] => attrs
               | cs => attrs ++ [Communities cs]
               end in
  let attrs := match pb_as_prepend self with
               | Some (asn, repeat) => attrs ++ [AsPathPrepend asn repeat]
               | None => attrs
               end in
  {| path_afi := afi; path_safi := SafiUnicast; path_prefix := pb_prefix self;
     path_next_hop := pb_next_hop self; path_attrs := attrs;
     path_withdrawal := pb_withdrawal self |}.

(** The trait [BgpEngine] over a world [W]. *)
Class BgpEngine (W : Type) := {
  bgp_start : GlobalConfig → M W BgpError unit;
  bgp_stop : M W BgpError unit;
  add_peer : PeerConfig → M W BgpError unit;
  delete_peer : IpAddr → M W BgpError unit;
  add_path : Path → M W BgpError unit;
  delete_path : Path → M W BgpError unit;
}.

(** [LoggingEngine]: every call succeeds and changes nothing. *)
Definition logging_engine (W : Type) : BgpEngine W := {|
  bgp_start _ := mret tt;
  bgp_stop := mret tt;
  add_peer _ := mret tt;
  delete_peer _ := mret tt;
  add_path _ := mret tt;
  delete_path _ := mret tt;
|}.

(** [MockBgpEngine] *)
Record MockBgpEngine := {
  started : list GlobalConfig;
  stopped : bool;
  added_peers : list PeerConfig;
  deleted_peers : list IpAddr;
  added_paths : list Path;
  deleted_paths : list Path;
}.

Definition mock_bgp_new : MockBgpEngine :=
  {| started := []; stopped := false; added_peers := []; deleted_peers := [];
     added_paths := []; deleted_paths := [] |}.

#[export] Instance mock_bgp_engine : BgpEngine MockBgpEngine := {|
  bgp_start g := mmodify (λ w,
    {| started := started w ++ [g]; stopped := stopped w; added_peers := added_peers w;
       deleted_peers := deleted_peers w; added_paths := added_paths w;
       deleted_paths := deleted_paths w |});
  bgp_stop := mmodify (λ w,
    {| started := started w; stopped := true; added_peers := added_peers w;
       deleted_peers := deleted_peers w; added_paths := added_paths w;
       deleted_paths := deleted_paths w |});
  add_peer p := mmodify (λ w,
    {| started := started w; stopped := stopped w; added_peers := added_peers w ++ [p];
       deleted_peers := deleted_peers w; added_paths := added_paths w;
       deleted_paths := deleted_paths w |});
  delete_peer a := mmodify (λ w,
    {| started := started w; stopped := stopped w; added_peers := added_peers w;
       deleted_peers := deleted_peers w ++ [a]; added_paths := added_paths w;
       deleted_paths := deleted_paths w |});
  add_path p := mmodify (λ w,
    {| started := started w; stopped := stopped w; added_peers := added_peers w;
       deleted_peers := deleted_peers w; added_paths := added_paths w ++ [p];
       deleted_paths := deleted_paths w |});
  delete_path p := mmodify (λ w,
    {| started := started w; stopped := stopped w; added_peers := added_peers w;
       deleted_peers := deleted_peers w; added_paths := added_paths w;
       deleted_paths := deleted_paths w ++ [p] |});
|}.

(** ** Defined sets ([policy.rs]) *)

Inductive DefinedSetKind := PodCidr | ServiceVip | CustomImportReject | DefaultRoute.

Record DefinedSet := { ds_name : string; ds_kind : DefinedSetKind; ds_prefixes : list IpNet }.

Definition defined_set_new (kind : DefinedSetKind) (v6 : bool) (prefixes : list IpNet)
    : DefinedSet :=
  let base := match kind with
              | PodCidr => "podcidrdefinedset"
              | ServiceVip => "servicevipsdefinedset"
              | CustomImportReject => "customimportrejectdefinedset"
              | DefaultRoute => "defaultroutedefinedset"
              end in
  {| ds_name := if v6 then base +:+ "v6" else base; ds_kind := kind; ds_prefixes := prefixes |}.

(** ** The state of a speaker

    What an engine has been told, kept beside any engine: the peers it was
    given and the prefixes it announces, updated by the calls that succeed. *)

Record Speaker := { sp_peers : gmap IpAddr PeerConfig; sp_rib : gmap IpNet Path }.

Definition note_peers (f : gmap IpAddr PeerConfig → gmap IpAddr PeerConfig) (s : Speaker)
    : Speaker := {| sp_peers := f (sp_peers s); sp_rib := sp_rib s |}.
Definition note_rib (f : gmap IpNet Path → gmap IpNet Path) (s : Speaker) : Speaker :=
  {| sp_peers := sp_peers s; sp_rib := f (sp_rib s) |}.

#[export] Instance speaker_engine W `{!BgpEngine W} : BgpEngine (W * Speaker) := {|
  bgp_start g := noting id (bgp_start g);
  bgp_stop := noting id bgp_stop;
  add_peer p := noting (note_peers <[pc_neighbor p := p]>) (add_peer p);
  delete_peer a := noting (note_peers (delete a)) (delete_peer a);
  add_path p := noting (note_rib <[path_prefix p := p]>) (add_path p);
  delete_path p := noting (note_rib (delete (path_prefix p))) (delete_path p);
|}.

(** Runs of calls against a speaker: what was done before an error. *)
Section runs.
Context {W A : Type} `{!BgpEngine W}.

Lemma add_peers_run (g : A → PeerConfig) l (s s' : W * Speaker) r :
  mfor l (λ x, add_peer (g x)) s = (r, s') →
  ∃ done rest, l = done ++ rest ∧ (r = inr tt → rest = []) ∧
    sp_peers s'.2 = insert_all (λ x, pc_neighbor (g x)) g (sp_peers s.2) done ∧
    sp_rib s'.2 = sp_rib s.2.
Proof.
  intros (done & rest & -> & -> & Hr)%(mfor_noting (λ x, add_peer (g x))
    (λ x, note_peers <[pc_neighbor (g x) := g x]>)).
  exists done, rest. split; [done|]. split; [done|]. clear. generalize (s.2) as n.
  induction done as [|x done IH]; intros n; [done|]. cbn.
  destruct (IH (note_peers <[pc_neighbor (g x) := g x]> n)) as [-> ->]. done.
Qed.

Lemma delete_peers_run (l : list IpAddr) (s s' : W * Speaker) r :
  mfor l delete_peer s = (r, s') →
  ∃ done rest, l = done ++ rest ∧ (r = inr tt → rest = []) ∧
    sp_peers s'.2 = delete_all id (sp_peers s.2) done ∧ sp_rib s'.2 = sp_rib s.2.
Proof.
  intros (done & rest & -> & -> & Hr)%(mfor_noting (λ x, delete_peer x)
    (λ x, note_peers (delete x))).
  exists done, rest. split; [done|]. split; [done|]. clear. generalize (s.2) as n.
  induction done as [|x done IH]; intros n; [done|]. cbn.
  destruct (IH (note_peers (delete x) n)) as [-> ->]. done.
Qed.

Lemma add_paths_run (g : A → Path) l (s s' : W * Speaker) r :
  mfor l (λ x, add_path (g x)) s = (r, s') →
  ∃ done rest, l = done ++ rest ∧ (r = inr tt → rest = []) ∧
    sp_rib s'.2 = insert_all (λ x, path_prefix (g x)) g (sp_rib s.2) done ∧
    sp_peers s'.2 = sp_peers s.2.
Proof.
  intros (done & rest & -> & -> & Hr)%(mfor_noting (λ x, add_path (g x))
    (λ x, note_rib <[path_prefix (g x) := g x]>)).
  exists done, rest. split; [done|]. split; [done|]. clear. generalize (s.2) as n.
  induction done as [|x done IH]; intros n; [done|]. cbn.
  destruct (IH (note_rib <[path_prefix (g x) := g x]> n)) as [-> ->]. done.
Qed.

Lemma delete_paths_run (g : A → Path) l (s s' : W * Speaker) r :
  mfor l (λ x, delete_path (g x)) s = (r, s') →
  ∃ done rest, l = done ++ rest ∧ (r = inr tt → rest = []) ∧
    sp_rib s'.2 = delete_all (λ x, path_prefix (g x)) (sp_rib s.2) done ∧
    sp_peers s'.2 = sp_peers s.2.
Proof.
  intros (done & rest & -> & -> & Hr)%(mfor_noting (λ x, delete_path (g x))
    (λ x, note_rib (delete (path_prefix (g x))))).
  exists done, rest. split; [done|]. split; [done|]. clear. generalize (s.2) as n.
  induction done as [|x done IH]; intros n; [done|]. cbn.
  destruct (IH (note_rib (delete (path_prefix (g x))) n)) as [-> ->]. done.
Qed.
End runs.

(** ** Paths carry the attributes of their family *)

Definition is_communities (a : Attr) : bool :=
  match a with Communities _ => true | _ => false end.
Definition is_prepend (a : Attr) : bool :=
  match a with AsPathPrepend _ _ => true | _ => false end.

(** A built path names its prefix, carries ORIGIN first, NEXT_HOP exactly for
    IPv4 and MP_REACH_NLRI exactly for IPv6, COMMUNITIES exactly when there are
    some, and an AS_PATH prepend exactly when the repeat count is positive. *)
Theorem path_build_attrs prefix next_hop w cs asn repeat :
  let p := path_build (as_path_prepend asn repeat
             (with_communities cs (with_withdrawal w (path_builder_new prefix next_hop)))) in
  path_prefix p = prefix ∧ path_withdrawal p = w ∧
  head (path_attrs p) = Some (Origin 0) ∧
  (NextHop next_hop ∈ path_attrs p ↔ of_net prefix = FamV4) ∧
  (MpReachNlri next_hop prefix ∈ path_attrs p ↔ of_net prefix = FamV6) ∧
  (∀ l, Communities l ∈ path_attrs p ↔ l = cs ∧ cs ≠ []) ∧
  (∀ a n, AsPathPrepend a n ∈ path_attrs p ↔ a = asn ∧ n = repeat ∧ 0 < repeat).
Proof.
  unfold as_path_prepend, path_build. destruct (Z.ltb_spec 0 repeat) as [Hr|Hr]; cbn;
    destruct (of_net prefix) eqn:Hf, cs as [|c cs]; cbn;
    (split_and!; [done|done|done|..]); try split; intros;
    repeat match goal with
    | H : _ ∈ _ :: _ |- _ => apply elem_of_cons in H as [H|H]
    | H : _ ∈ [] |- _ => by apply elem_of_nil in H
    | H : _ ∧ _ |- _ => destruct H
    end; simplify_eq; rewrite ?elem_of_cons; try split_and?; auto 10; try done; try lia.
Qed.
End bgp.
