(* ===== verification/Grpc.v ===== *)
(** * Grpc: the BGP engine over gobgp's gRPC API ([crates/bgp])

    [Api] holds the messages of [proto/api/*.proto] with the fields the program
    writes or reads; the others keep the default of protobuf.  [Gobgp] is
    [grpc.rs]: paths to messages and back, the engine over the generated client
    (whose calls are the interface [GoBgpServiceClient]) and the watch of best
    paths.  [Server] is [server.rs], the supervision of the gobgpd process. *)

From stdpp Require Import gmap sets list strings pretty.
From Stdlib Require Import ZArith Lia.
From S2P Require Import Prelude Text Net Bgp.

Local Open Scope Z_scope.

(** ** Messages *)

Module Api.

Record Family := { afi : Z; safi : Z }.
Record IpAddressPrefix := { prefix_len : Z; prefix : string }.

(** A [oneof] that is not set is [None]; the variants the program never looks
    into are one. *)
Inductive NlriKind := Prefix (p : IpAddressPrefix) | OtherNlri.
Record Nlri := { nlri_kind : option NlriKind }.

Record AsSegment := { segment_type : Z; numbers : list Z }.

Inductive AttrKind :=
| OriginAttribute (origin : Z)
| NextHopAttribute (next_hop : string)
| MpReachNlriAttribute (family : option Family) (next_hops : list string) (nlris : list Nlri)
| CommunitiesAttribute (communities : list Z)
| AsPathAttribute (segments : list AsSegment)
| OtherAttribute.
Record Attribute := { attr_kind : option AttrKind }.

Record ApiPath := {
  nlri : option Nlri;
  pattrs : list Attribute;
  is_withdraw : bool;
  path_family : option Family;
}.

Record Global := {
  g_asn : Z;
  g_router_id : string;
  g_listen_port : Z;
  g_listen_addresses : list string;
}.

Record PeerConf := { neighbor_address : string; conf_peer_asn : Z; auth_password : string }.
Record Transport := { transport_local_address : string; remote_port : Z }.
Record EbgpMultihop := { multihop_enabled : bool; multihop_ttl : Z }.
Record RouteReflector := { route_reflector_client : bool; route_reflector_cluster_id : string }.
Record ApiGracefulRestart := { gr_enabled : bool; gr_restart_time : Z; gr_deferral_time : Z }.
Record AfiSafi := {
  as_family : option Family;
  as_enabled : bool;
  mp_graceful_restart : option bool;   (* config.enabled *)
}.

Record Peer := {
  conf : option PeerConf;
  transport : option Transport;
  ebgp_multihop : option EbgpMultihop;
  route_reflector : option RouteReflector;
  peer_graceful_restart : option ApiGracefulRestart;
  afi_safis : list AfiSafi;
}.

(** [TableType::Global], [as_segment::Type::AsSequence], [filter::Type::Best] *)
Definition TABLE_TYPE_GLOBAL : Z := 1.
Definition AS_SEQUENCE : Z := 2.
Definition FILTER_BEST : Z := 1.

Record AddPathRequest := { ap_table_type : Z; ap_vrf_id : string; ap_path : option ApiPath }.
Record DeletePathRequest := {
  dp_table_type : Z;
  dp_vrf_id : string;
  dp_family : option Family;
  dp_path : option ApiPath;
  dp_uuid : list Z;
}.

(** A filter of the watch: its type and [init]. *)
Record WatchEventRequest := { watch_filters : list (Z * bool) }.
Inductive WatchEvent := TableEvent (paths : list ApiPath) | PeerEvent.
Record WatchEventResponse := { watch_event : option WatchEvent }.

End Api.

(** ** The engine ([grpc.rs]) *)

Module Gobgp.
Import Api.

Definition AFI_IP : Z := 1.
Definition AFI_IP6 : Z := 2.
Definition SAFI_UNICAST : Z := 1.
Definition DEFAULT_BGP_PORT : Z := 179.

Definition family (afi : Z) : Family := {| afi := afi; safi := SAFI_UNICAST |}.

Section paths.
Context `{IpNetLib}.

Definition prefix_nlri (p : Path) : Nlri :=
  {| nlri_kind := Some (Prefix {| prefix_len := net_prefix_len (path_prefix p);
                                  prefix := ip_to_string (net_addr (path_prefix p)) |}) |}.

Definition origin_attr : Attribute := {| attr_kind := Some (OriginAttribute 0) |}.

(** What a further attribute of the path adds to the message. *)
Definition policy_attr (attr : Attr) : list Attribute :=
  match attr with
  | Communities [] => []
  | Communities comms => [{| attr_kind := Some (CommunitiesAttribute comms) |}]
  | AsPathPrepend asn repeat =>
      if 0 <? repeat then
        [{| attr_kind := Some (AsPathAttribute
              [{| segment_type := AS_SEQUENCE; numbers := replicate (Z.to_nat repeat) asn |}]) |}]
      else []
  | _ => []
  end.

Definition build_path (p : Path) : ApiPath :=
  let '(afi, pattrs) :=
    match path_afi p with
    | AfiIp => (AFI_IP, [origin_attr;
        {| attr_kind := Some (NextHopAttribute (ip_to_string (path_next_hop p))) |}])
    | AfiIp6 => (AFI_IP6, [origin_attr;
        {| attr_kind := Some (MpReachNlriAttribute (Some (family AFI_IP6))
             [ip_to_string (path_next_hop p)] [prefix_nlri p]) |}])
    end in
  {| nlri := Some (prefix_nlri p);
     pattrs := pattrs ++ (path_attrs p ≫= policy_attr);
     is_withdraw := path_withdrawal p;
     path_family := Some (family afi) |}.

Record PathEvent := { ev_prefix : IpNet; ev_next_hop : IpAddr; ev_withdrawal : bool }.

(** The body of the loop over the attributes. *)
Definition next_hop_step (next_hop : option IpAddr) (a : Attribute) : option IpAddr :=
  match attr_kind a with
  | Some (NextHopAttribute nh) => parse_ipaddr nh
  | Some (MpReachNlriAttribute _ next_hops _) => head next_hops ≫= parse_ipaddr
  | _ => next_hop
  end.

Definition parse_path_event (p : ApiPath) : option PathEvent :=
  n ← nlri p;
  k ← nlri_kind n;
  pfx ← match k with Prefix ip => Some ip | OtherNlri => None end;
  net ← net_parse (prefix pfx +:+ "/" +:+ pretty (prefix_len pfx));
  next_hop ← foldl next_hop_step None (pattrs p);
  Some {| ev_prefix := net; ev_next_hop := next_hop; ev_withdrawal := is_withdraw p |}.

End paths.

Definition dual_afi_safis (gr : bool) : list AfiSafi :=
  (λ afi, {| as_family := Some (family afi); as_enabled := true;
             mp_graceful_restart := if gr then Some true else None |}) <$> [AFI_IP; AFI_IP6].

(** [Endpoint::from_shared]: the error of a URI that it does not take. *)
Class Endpoints := { from_shared : string → option string }.

Definition connect_lazy `{!Endpoints} (admin_addr : string) (admin_port : Z) : BgpError + unit :=
  match from_shared ("http://" +:+ admin_addr +:+ ":" +:+ pretty admin_port) with
  | Some e => inl (BgpEngineError e)
  | None => inr tt
  end.

(** The calls of the generated client; an error is the text of the status. *)
Class GoBgpServiceClient (W : Type) := {
  start_bgp : Global → M W string unit;
  stop_bgp : bool → M W string unit;              (* allow_graceful_restart *)
  rpc_add_peer : Peer → M W string unit;
  rpc_delete_peer : string * string → M W string unit;   (* address, interface *)
  rpc_add_path : AddPathRequest → M W string unit;
  rpc_delete_path : DeletePathRequest → M W string unit;
}.

Section engine.
Context `{IpNetLib} {W : Type} `{!GoBgpServiceClient W}.

Definition map_err {A} : M W string A → M W BgpError A := mmap_err BgpEngineError.

(** [listen_port as i32] of a [u16] *)
Definition global_message (global : GlobalConfig) : Global :=
  {| g_asn := gc_asn global; g_router_id := default "" (gc_router_id global);
     g_listen_port := gc_listen_port global;
     g_listen_addresses := ip_to_string <$> gc_listen_addresses global |}.

Definition peer_message (peer : PeerConfig) : Peer :=
  {| conf := Some {| neighbor_address := ip_to_string (pc_neighbor peer);
                     conf_peer_asn := pc_peer_asn peer;
                     auth_password := default "" (pc_password peer) |};
     transport := Some {| transport_local_address :=
                            default "" (ip_to_string <$> pc_local_address peer);
                          remote_port := default DEFAULT_BGP_PORT (pc_port peer) |};
     ebgp_multihop := (λ ttl, {| multihop_enabled := true; multihop_ttl := ttl |})
                        <$> pc_multihop_ttl peer;
     route_reflector := if pc_rr_client peer
                        then Some {| route_reflector_client := true;
                                     route_reflector_cluster_id :=
                                       default "" (pc_rr_cluster_id peer) |}
                        else None;
     peer_graceful_restart :=
       (λ gr, {| gr_enabled := true; gr_restart_time := restart_time_secs gr;
                 gr_deferral_time := deferral_time_secs gr |}) <$> pc_graceful_restart peer;
     afi_safis := dual_afi_safis (bool_decide (is_Some (pc_graceful_restart peer))) |}.

Definition add_path_request (path : Path) : AddPathRequest :=
  {| ap_table_type := TABLE_TYPE_GLOBAL; ap_vrf_id := ""; ap_path := Some (build_path path) |}.

Definition delete_path_request (path : Path) : DeletePathRequest :=
  let p := build_path path in
  let p := {| nlri := nlri p; pattrs := pattrs p; is_withdraw := true;
              path_family := path_family p |} in
  {| dp_table_type := TABLE_TYPE_GLOBAL; dp_vrf_id := ""; dp_family := path_family p;
     dp_path := Some p; dp_uuid := [] |}.

(** [BgpEngine for GobgpGrpcEngine] *)
Definition grpc_engine : BgpEngine W := {|
  bgp_start global := map_err (start_bgp (global_message global));
  bgp_stop := map_err (stop_bgp false);
  add_peer peer := map_err (rpc_add_peer (peer_message peer));
  delete_peer neighbor := map_err (rpc_delete_peer (ip_to_string neighbor, ""));
  add_path path := map_err (rpc_add_path (add_path_request path));
  delete_path path := map_err (rpc_delete_path (delete_path_request path));
|}.
End engine.

(** ** The watch of best paths *)

(** The server stream and the channel to the injector; [tx_send] tells whether
    the receiver is still there, and [stream_message] is [None] at the end. *)
Class BestPathWatch `{IpNetLib} (W : Type) := {
  rpc_watch_event : WatchEventRequest → M W string unit;
  stream_message : M W string (option WatchEventResponse);
  tx_send : PathEvent → W → bool * W;
}.

Section watch.
Context `{IpNetLib} {W : Type} `{!BestPathWatch W}.

(** The events of a response, sent in order until the receiver is gone. *)
Fixpoint send_paths (paths : list ApiPath) (w : W) : bool * W :=
  match paths with
  | [] => (true, w)
  | p :: paths =>
      match parse_path_event p with
      | Some ev =>
          match tx_send ev w with
          | (true, w) => send_paths paths w
          | (false, w) => (false, w)
          end
      | None => send_paths paths w
      end
  end.

Definition send_response (resp : WatchEventResponse) (w : W) : bool * W :=
  match watch_event resp with
  | Some (TableEvent paths) => send_paths paths w
  | _ => (true, w)
  end.

(** The [while] loop; [None] when [fuel] messages have not ended the stream. *)
Fixpoint watch_loop (fuel : nat) (w : W) : option ((BgpError + unit) * W) :=
  match fuel with
  | O => None
  | S fuel =>
      match stream_message w with
      | (inl e, w) => Some (inl (BgpEngineError e), w)
      | (inr None, w) => Some (inr tt, w)
      | (inr (Some resp), w) =>
          match send_response resp w with
          | (true, w) => watch_loop fuel w
          | (false, w) => Some (inr tt, w)
          end
      end
  end.

Definition watch_best_paths (fuel : nat) (w : W) : option ((BgpError + unit) * W) :=
  match map_err (rpc_watch_event {| watch_filters := [(FILTER_BEST, true)] |}) w with
  | (inl e, w) => Some (inl e, w)
  | (inr _, w) => watch_loop fuel w
  end.
End watch.

End Gobgp.

(** ** The supervision of gobgpd ([server.rs]) *)

Module Server.

(** Processes and the network: a spawned child is named by a number. *)
Class ProcessOps (W : Type) := {
  proc_spawn : string → list string → M W string Z;
  proc_start_kill : Z → M W string unit;
  proc_wait : Z → M W string unit;
  tcp_connect : string → W → bool * W;
  instant_now : W → Z;                 (* milliseconds *)
  sleep_ms : Z → W → W;
}.

Record GobgpSupervisor := { program : string; args : list string; child : option Z }.

Definition gobgpd_args (admin_addr : string) (admin_port : Z) : list string :=
  ["--api-hosts"; admin_addr +:+ ":" +:+ pretty admin_port].

Definition supervisor_new (program : string) (args : list string) : GobgpSupervisor :=
  {| program := program; args := args; child := None |}.

Definition supervisor_gobgpd (binary admin_addr : string) (admin_port : Z) : GobgpSupervisor :=
  supervisor_new binary (gobgpd_args admin_addr admin_port).

Definition is_running (self : GobgpSupervisor) : bool := bool_decide (is_Some (child self)).

Section supervise.
Context {W : Type} `{!ProcessOps W}.

Definition set_child (c : option Z) (self : GobgpSupervisor) : GobgpSupervisor :=
  {| program := program self; args := args self; child := c |}.

Definition spawn : M (GobgpSupervisor * W) string unit :=
  '(self, _) ← mget;
  pid ← mzoom snd (λ w s, (s.1, w)) (proc_spawn (program self) (args self));
  mmodify (λ s, (set_child (Some pid) s.1, s.2)).

(** The child is taken before it is killed. *)
Definition terminate : M (GobgpSupervisor * W) string unit :=
  '(self, _) ← mget;
  match child self with
  | Some pid =>
      mmodify (λ s, (set_child None s.1, s.2));;
      mzoom snd (λ w s, (s.1, w)) (proc_start_kill pid);;
      mzoom snd (λ w s, (s.1, w)) (proc_wait pid)
  | None => mret tt
  end.

Definition port_ready (addr : string) (w : W) : bool * W := tcp_connect addr w.

(** The loop; [None] when [fuel] probes have not decided. *)
Fixpoint wait_loop (fuel : nat) (addr : string) (deadline : Z) (w : W) : option (bool * W) :=
  match fuel with
  | O => None
  | S fuel =>
      match port_ready addr w with
      | (true, w) => Some (true, w)
      | (false, w) =>
          if deadline <=? instant_now w then Some (false, w)
          else wait_loop fuel addr deadline (sleep_ms 20 w)
      end
  end.

Definition wait_port_ready (fuel : nat) (addr : string) (timeout : Z) (w : W)
    : option (bool * W) :=
  wait_loop fuel addr (instant_now w + timeout) w.

(** What a clock does: it never goes back, and a sleep takes its time. *)
Class ClockLaws : Prop := {
  connect_takes_time addr w : instant_now w ≤ instant_now (tcp_connect addr w).2;
  sleep_takes_time d w : instant_now w + d ≤ instant_now (sleep_ms d w);
}.

Lemma wait_loop_ends `{!ClockLaws} fuel addr deadline w :
  deadline - instant_now w ≤ 20 * Z.of_nat fuel → is_Some (wait_loop (S fuel) addr deadline w).
Proof.
  revert w. induction fuel as [|fuel IH]; intros w Hf; cbn [wait_loop];
    unfold port_ready; pose proof (connect_takes_time addr w) as Hc;
    (destruct (tcp_connect addr w) as [[] w1]; [by eexists|]); cbn [snd] in Hc;
    (destruct (Z.leb_spec deadline (instant_now w1)); [by eexists|]); [lia|].
  pose proof (sleep_takes_time 20 w1). apply IH. lia.
Qed.

(** The wait ends: after a probe every 20 milliseconds until the deadline has
    passed. *)
Theorem wait_port_ready_ends `{!ClockLaws} addr timeout w :
  0 ≤ timeout → is_Some (wait_port_ready (S (S (Z.to_nat (timeout / 20)))) addr timeout w).
Proof.
  intros Ht. apply wait_loop_ends.
  pose proof (Z.mod_pos_bound timeout 20 ltac:(lia)).
  pose proof (Z.div_mod timeout 20 ltac:(lia)).
  assert (0 ≤ timeout / 20) by (apply Z.div_pos; lia). lia.
Qed.
End supervise.

End Server.
