(* ===== verification/Routing.v ===== *)
(** * Routing: the network routes controller ([crates/routing])

    One module per source file: [Peers], [PodNet], [Overlay], [Inject],
    [Advertise], [Routes] ([controller.rs]), [ServiceVips], [Annotations],
    [BgpPolicy], [ExternalPeers] and [PodEgress].  Theorems about them are in
    [RoutingFacts.v]. *)

From stdpp Require Import gmap sets list strings pretty.
From Stdlib Require Import Ascii ZArith Lia.
From S2P Require Import Prelude Text Net Common Netlink Bgp.

Local Open Scope Z_scope.

Module Peers.

Record NodeBgp := {
  nb_name : string;
  nb_ip : IpAddr;
  nb_asn : Z;
  nb_rr_server : option Z;
  nb_rr_client : option Z;
}.

Record BgpPeer := {
  neighbor : IpAddr;
  peer_asn : Z;
  is_external : bool;
  rr_client : bool;
  rr_cluster_id : option Z;
}.

#[export] Instance BgpPeer_eq_dec : EqDecision BgpPeer.
Proof. solve_decision. Defined.

Definition is_some {A} (o : option A) : bool := match o with Some _ => true | None => false end.

(** The body of the loop of [derive_ibgp_peers]; [None] is [continue] or no peer. *)
Definition ibgp_peer (local : NodeBgp) (full_mesh : bool) (o : NodeBgp) : option BgpPeer :=
  if decide (nb_name o = nb_name local) then None
  else
    let '(should_peer, client, cluster) :=
      if is_some (nb_rr_server local) then
        if is_some (nb_rr_server o) then (true, false, None)
        else (true, true, nb_rr_server local)
      else if is_some (nb_rr_client local) then (is_some (nb_rr_server o), false, None)
      else if full_mesh then (true, false, None)
      else (bool_decide (nb_asn o = nb_asn local), false, None) in
    if should_peer : bool then
      Some {| neighbor := nb_ip o; peer_asn := nb_asn o; is_external := false;
              rr_client := client; rr_cluster_id := cluster |}
    else None.

Definition derive_ibgp_peers (local : NodeBgp) (others : list NodeBgp)
    (full_mesh enable_ibgp : bool) : list BgpPeer :=
  if negb enable_ibgp then [] else filter_map (ibgp_peer local full_mesh) others.

Definition peer_diff (current desired : list BgpPeer) : list BgpPeer * list IpAddr :=
  (filter (λ d, d ∉ current) desired,
   neighbor <$> filter (λ c, neighbor c ∉ (neighbor <$> desired)) current).

End Peers.

Module PodNet.
Section podnet.
Context `{IpNetLib}.

Definition MAIN_TABLE : Z := 254.

Record NodeRoute := { nr_name : string; nr_ip : IpAddr; nr_pod_cidrs : list IpNet }.

Definition desired_pod_routes (local : string) (nodes : list NodeRoute) : list Route :=
  n ← filter (λ n, nr_name n ≠ local) nodes;
  cidr ← nr_pod_cidrs n;
  [{| dst := cidr; gateway := Some (nr_ip n); table := MAIN_TABLE |}].

(** [PodNetController::reconcile]: the state is the field [applied]. *)
Definition podnet_reconcile {W} `{!NetlinkOps W} (local_name : string)
    (nodes : list NodeRoute) : M (list Route * W) NetlinkError (nat * nat) :=
  let desired := desired_pod_routes local_name nodes in
  '(applied, _) ← mget;
  let to_add := filter (λ r, r ∉ applied) desired in
  let to_del := filter (λ r, r ∉ desired) applied in
  let nl {A} : M W NetlinkError A → M (list Route * W) NetlinkError A :=
    mzoom snd (λ w s, (s.1, w)) in
  nl (mfor to_add route_replace);;
  nl (mfor to_del route_del);;
  mmodify (λ s, (desired, s.2));;
  mret (length to_add, length to_del).
End podnet.
End PodNet.

Module Overlay.
Import Naming.

Inductive OverlayType := OverlaySubnet | OverlayFull.
Inductive Encap := Ipip | Fou.

Definition CUSTOM_TABLE_ID : Z := 77.
Definition CUSTOM_TABLE_NAME : string := "kube-router".

Definition link_type (ipv6 : bool) : string := if ipv6 then "ip6tnl" else "ipip".

Definition fou_add_args (port : Z) : list string := ["fou"; "add"; "port"; pretty port; "gue"].

Definition tunnel_add_args (name : string) (next_hop local : IpAddr) (encap : Encap)
    (encap_port : Z) : list string :=
  let ipv6 := is_ipv6 next_hop in
  ["link"; "add"; "name"; name; "type"; link_type ipv6;
   "remote"; ip_to_string next_hop; "local"; ip_to_string local] ++
  match encap with
  | Ipip => []
  | Fou => ["ttl"; "225"; "encap"; "gue"; "encap-sport"; "auto"; "encap-dport";
            pretty encap_port; "mode"; if ipv6 then "ip6ip6" else "ipip"]
  end.

Definition tunnel_up_args (name : string) : list string := ["link"; "set"; name; "up"].

Definition tunnel_route_args (next_hop : IpAddr) (name : string) : list string :=
  let host := match next_hop with
              | V4 _ => ip_to_string next_hop +:+ "/32"
              | V6 _ => ip_to_string next_hop +:+ "/128"
              end in
  ["route"; "replace"; host; "dev"; name; "table"; pretty CUSTOM_TABLE_ID].

Definition tunnel_name `{HashLib} (next_hop : IpAddr) : string :=
  "kube-tun-" +:+ String.substring 0 6 (hash16 (ip_to_string next_hop)).

Definition needs_tunnel `{IpNetLib} (next_hop : IpAddr) (local_subnets : list IpNet)
    (overlay : OverlayType) : bool :=
  match overlay with
  | OverlayFull => true
  | OverlaySubnet => negb (existsb (λ n, net_contains n next_hop) local_subnets)
  end.

End Overlay.

Module Inject.
Import Overlay.
Section inject.
Context `{IpNetLib}.

Record BestPath := { bp_prefix : IpNet; bp_next_hop : IpAddr; bp_withdrawal : bool }.

Record InjectedRoute := { ir_route : Route; ir_via_tunnel : bool }.

(** The configuration fields of [RouteInjector]. *)
Record InjectorConfig := {
  ic_local_subnets : list IpNet;
  ic_overlay : OverlayType;
  ic_table : Z;
  ic_import_reject : list IpNet;
}.

Definition is_rejected (cfg : InjectorConfig) (prefix : IpNet) : bool :=
  existsb (λ r, net_contains r (net_network prefix) &&
                (net_prefix_len r <=? net_prefix_len prefix)) (ic_import_reject cfg).

Context {W : Type} `{!NetlinkOps W}.

(** The state: the field [routes], and the kernel. *)
Definition InjectState : Type := gmap IpNet InjectedRoute * W.

Definition inject_nl {A} : M W NetlinkError A → M InjectState NetlinkError A :=
  mzoom snd (λ w s, (s.1, w)).

(** [if let Some(ir) = self.routes.remove(..) { self.nl.route_del(..)?; }] *)
Definition remove_route (prefix : IpNet) : M InjectState NetlinkError unit :=
  '(routes, _) ← mget;
  match routes !! prefix with
  | Some ir =>
      mmodify (λ s, (delete prefix s.1, s.2));;
      inject_nl (route_del (ir_route ir))
  | None => mret tt
  end.

Definition on_event (cfg : InjectorConfig) (ev : BestPath) : M InjectState NetlinkError unit :=
  if bp_withdrawal ev then remove_route (bp_prefix ev)
  else if is_rejected cfg (bp_prefix ev) then remove_route (bp_prefix ev)
  else
    let via_tunnel := needs_tunnel (bp_next_hop ev) (ic_local_subnets cfg) (ic_overlay cfg) in
    let route := {| dst := bp_prefix ev; gateway := Some (bp_next_hop ev);
                    table := ic_table cfg |} in
    inject_nl (route_replace route);;
    mmodify (λ s, (<[bp_prefix ev := {| ir_route := route; ir_via_tunnel := via_tunnel |}]> s.1,
                   s.2)).

(** [RouteInjector::sync]: in the order of the [BTreeMap]. *)
Definition injector_sync : M InjectState NetlinkError unit :=
  '(routes, _) ← mget;
  inject_nl (mfor (btree_values routes) (λ ir, route_replace (ir_route ir))).
End inject.
End Inject.

Module Advertise.
Section advertise.
Context `{IpNetLib} {W : Type} `{!BgpEngine W}.

(** The attributes of an [Advertiser]; its field [advertised] is the state. *)
Record Attributes := { adv_communities : list Z; adv_as_prepend : option (Z * Z) }.

Definition AdvState : Type := gset IpNet * W.

Definition adv_engine {A} : M W BgpError A → M AdvState BgpError A :=
  mzoom snd (λ w s, (s.1, w)).

Definition announce_path (attrs : Attributes) (next_hop : IpAddr) (prefix : IpNet) : Path :=
  let b := with_communities (adv_communities attrs) (path_builder_new prefix next_hop) in
  let b := match adv_as_prepend attrs with
           | Some (asn, repeat) => as_path_prepend asn repeat b
           | None => b
           end in
  path_build b.

Definition withdraw_path (next_hop : IpAddr) (prefix : IpNet) : Path :=
  path_build (with_withdrawal true (path_builder_new prefix next_hop)).

Definition advertiser_sync (attrs : Attributes) (desired : list IpNet) (next_hop : IpAddr)
    (enabled : bool) : M AdvState BgpError (nat * nat) :=
  let desired_set : gset IpNet := if enabled then list_to_set desired else ∅ in
  '(advertised, _) ← mget;
  let to_add := bset_iter (desired_set ∖ advertised) in
  let to_withdraw := bset_iter (advertised ∖ desired_set) in
  adv_engine (mfor to_add (λ p, add_path (announce_path attrs next_hop p)));;
  adv_engine (mfor to_withdraw (λ p, delete_path (withdraw_path next_hop p)));;
  mmodify (λ s, (desired_set, s.2));;
  mret (length to_add, length to_withdraw).
End advertise.
End Advertise.

Module Routes.
Import Peers.

Definition to_peer_config (p : BgpPeer) (graceful_restart : option GracefulRestart)
    : PeerConfig :=
  {| pc_neighbor := neighbor p; pc_peer_asn := peer_asn p; pc_is_external := is_external p;
     pc_rr_client := rr_client p; pc_rr_cluster_id := pretty <$> rr_cluster_id p;
     pc_local_address := None; pc_password := None; pc_port := None;
     pc_multihop_ttl := None; pc_graceful_restart := graceful_restart |}.

Record RoutesControllerConfig := {
  rc_local : NodeBgp;
  rc_full_mesh : bool;
  rc_enable_ibgp : bool;
  rc_graceful_restart : option GracefulRestart;
}.

(** The mutable fields of [NetworkRoutesController], and the engine's world. *)
Record NrcState (W : Type) := {
  current_peers : list BgpPeer;
  external_peers : list PeerConfig;
  external_applied : bool;
  nrc_engine : W;
}.
Arguments current_peers {_} _.
Arguments external_peers {_} _.
Arguments external_applied {_} _.
Arguments nrc_engine {_} _.
Arguments Build_NrcState {_} _ _ _ _.

Section routes.
Context `{IpNetLib} {W : Type} `{!BgpEngine W}.

Definition set_engine (w : W) (s : NrcState W) : NrcState W :=
  {| current_peers := current_peers s; external_peers := external_peers s;
     external_applied := external_applied s; nrc_engine := w |}.
Definition set_current (l : list BgpPeer) (s : NrcState W) : NrcState W :=
  {| current_peers := l; external_peers := external_peers s;
     external_applied := external_applied s; nrc_engine := nrc_engine s |}.
Definition set_external_applied (s : NrcState W) : NrcState W :=
  {| current_peers := current_peers s; external_peers := external_peers s;
     external_applied := true; nrc_engine := nrc_engine s |}.

Definition engine {A} : M W BgpError A → M (NrcState W) BgpError A :=
  mzoom nrc_engine set_engine.

Definition apply_external_peers : M (NrcState W) BgpError nat :=
  s ← mget;
  if external_applied s then mret 0%nat
  else
    engine (mfor (external_peers s) add_peer);;
    mmodify set_external_applied;;
    mret (length (external_peers s)).

Definition nrc_reconcile (cfg : RoutesControllerConfig) (nodes : list NodeBgp)
    : M (NrcState W) BgpError (list BgpPeer * list IpAddr) :=
  s ← mget;
  let desired := derive_ibgp_peers (rc_local cfg) nodes (rc_full_mesh cfg) (rc_enable_ibgp cfg) in
  mmodify (set_current desired);;
  mret (peer_diff (current_peers s) desired).

Definition reconcile_and_apply (cfg : RoutesControllerConfig) (nodes : list NodeBgp)
    : M (NrcState W) BgpError (nat * nat) :=
  '(add, remove) ← nrc_reconcile cfg nodes;
  engine (mfor add (λ p, add_peer (to_peer_config p (rc_graceful_restart cfg))));;
  engine (mfor remove delete_peer);;
  mret (length add, length remove).
End routes.
End Routes.

Module ServiceVips.

Record AdvertiseDefaults := { ad_cluster : bool; ad_external : bool; ad_loadbalancer : bool }.

Record SvcVip := {
  sv_cluster_ips : list IpAddr;
  sv_external_ips : list IpAddr;
  sv_lb_ips : list IpAddr;
  sv_internal_traffic_local : bool;
  sv_external_traffic_local : bool;
  sv_has_local_endpoints : bool;
  sv_adv_cluster : option bool;
  sv_adv_external : option bool;
  sv_adv_lb : option bool;
  sv_skip_lb_ips : bool;
}.

Section vips.
Context `{IpNetLib}.

(** [None] is the panic of [unwrap]. *)
Definition host_route (ip : IpAddr) : option IpNet :=
  match ip with V4 _ => net_new ip 32 | V6 _ => net_new ip 128 end.

Definition should_advertise (default_on : bool) (annotation : option bool)
    (is_cluster_ip : bool) (svc : SvcVip) : bool :=
  if negb (default default_on annotation) then false
  else if is_cluster_ip && sv_internal_traffic_local svc && negb (sv_has_local_endpoints svc)
  then false
  else if negb is_cluster_ip && sv_external_traffic_local svc &&
          negb (sv_has_local_endpoints svc)
  then false
  else true.

(** The addresses of one service whose host routes are announced, in order. *)
Definition service_vip_ips (d : AdvertiseDefaults) (svc : SvcVip) : list IpAddr :=
  (if should_advertise (ad_cluster d) (sv_adv_cluster svc) true svc
   then sv_cluster_ips svc else []) ++
  (if should_advertise (ad_external d) (sv_adv_external svc) false svc
   then sv_external_ips svc else []) ++
  (if negb (sv_skip_lb_ips svc) && should_advertise (ad_loadbalancer d) (sv_adv_lb svc) false svc
   then sv_lb_ips svc else []).

Definition advertised_service_vips (services : list SvcVip) (d : AdvertiseDefaults)
    : option (gset IpNet) :=
  list_to_set <$> mapM host_route (services ≫= service_vip_ips d).
End vips.
End ServiceVips.

Module Annotations.

(** [keys] *)
Definition ASN : string := "kube-router.io/node.asn".
Definition COMMUNITIES : string := "kube-router.io/node.bgp.communities".
Definition CUSTOM_IMPORT_REJECT : string := "kube-router.io/node.bgp.customimportreject".
Definition PATH_PREPEND_AS : string := "kube-router.io/path-prepend.as".
Definition PATH_PREPEND_REPEAT : string := "kube-router.io/path-prepend.repeat-n".
Definition RR_SERVER : string := "kube-router.io/rr.server".
Definition RR_CLIENT : string := "kube-router.io/rr.client".
Definition PEERS : string := "kube-router.io/peers".
Definition BGP_LOCAL_ADDRESSES : string := "kube-router.io/bgp-local-addresses".
Definition PEER_IPS : string := "kube-router.io/peer.ips".
Definition PEER_ASNS : string := "kube-router.io/peer.asns".
Definition PEER_LOCALIPS : string := "kube-router.io/peer.localips".
Definition PEER_PASSWORDS : string := "kube-router.io/peer.passwords".
Definition PEER_PORTS : string := "kube-router.io/peer.ports".

Definition MAX_PATH_PREPEND_REPEAT : Z := 8.

Record ExternalPeer := {
  ep_remote_ip : IpAddr;
  ep_remote_asn : Z;
  ep_local_ip : option IpAddr;
  ep_password : option string;
  ep_port : option Z;
}.

(** [serde_yaml_ng::from_str::<Vec<ExternalPeer>>]; [None] is an error. *)
Class PeersYaml := { yaml_external_peers : string → option (list ExternalPeer) }.

Definition WELL_KNOWN_COMMUNITIES : list string :=
  ["no-export"; "no-advertise"; "no-peer"; "internet"; "blackhole"; "graceful-shutdown"].

Definition validate_community (token : string) : bool :=
  let t := trim token in
  if list_contains WELL_KNOWN_COMMUNITIES t then true
  else if Peers.is_some (parse_u32 t) then true
  else match split_once ":" t with
       | Some (a, b) => Peers.is_some (parse_u16 a) && Peers.is_some (parse_u16 b)
       | None => false
       end.

Definition split_list (s : string) : list string :=
  filter (λ x, str_is_empty x = false)
    (trim <$> split_by (λ c, bool_decide (c = ",") || bool_decide (c = " "))%char s).

Definition ok {E A} (r : E + A) : option A := match r with inr a => Some a | inl _ => None end.

Section annotations.
Context `{IpNetLib} `{!PeersYaml}.

Record NodeBgpConfig := {
  nc_asn : option Z;
  nc_communities : list string;
  nc_custom_import_reject : list IpNet;
  nc_path_prepend : option (Z * Z);
  nc_rr_server : option string;
  nc_rr_client : option string;
  nc_bgp_local_addresses : list IpAddr;
  nc_external_peers : list ExternalPeer;
}.

(** [annotations.get(key).map(split_list).unwrap_or_default()] *)
Definition annotation_list (annotations : gmap string string) (key : string) : list string :=
  default [] (split_list <$> annotations !! key).

Definition deprecated_peer (local_ips passwords ports : list string)
    (i : nat) (x : string * string) : option ExternalPeer :=
  match parse_ip x.1, parse_u32 x.2 with
  | inr remote_ip, Some remote_asn =>
      Some {| ep_remote_ip := remote_ip; ep_remote_asn := remote_asn;
              ep_local_ip := s ← local_ips !! i; ok (parse_ip s);
              ep_password := passwords !! i;
              ep_port := s ← ports !! i; parse_u16 s |}
  | _, _ => None
  end.

Definition parse_deprecated_peers (annotations : gmap string string) : list ExternalPeer :=
  match annotations !! PEER_IPS, annotations !! PEER_ASNS with
  | Some ips, Some asns =>
      let ips := split_list ips in
      let asns := split_list asns in
      if bool_decide (ips = []) || negb (bool_decide (length ips = length asns)) then []
      else
        let local_ips := annotation_list annotations PEER_LOCALIPS in
        let passwords := annotation_list annotations PEER_PASSWORDS in
        let ports := annotation_list annotations PEER_PORTS in
        omap id (imap (deprecated_peer local_ips passwords ports) (zip ips asns))
  | _, _ => []
  end.

Definition parse_external_peers (annotations : gmap string string) : list ExternalPeer :=
  match annotations !! PEERS with
  | Some yaml =>
      match yaml_external_peers yaml with
      | Some peers => peers
      | None => parse_deprecated_peers annotations
      end
  | None => parse_deprecated_peers annotations
  end.

Definition parse_node_bgp (annotations : gmap string string) : NodeBgpConfig := {|
  nc_asn := v ← annotations !! ASN; parse_u32 (trim v);
  nc_communities := filter (λ c, validate_community c = true)
    (annotation_list annotations COMMUNITIES);
  nc_custom_import_reject :=
    filter_map (λ c, ok (parse_cidr c)) (annotation_list annotations CUSTOM_IMPORT_REJECT);
  nc_path_prepend :=
    asn ← annotations !! PATH_PREPEND_AS; rep ← annotations !! PATH_PREPEND_REPEAT;
    asn ← parse_u32 (trim asn); rep ← parse_u8 (trim rep);
    (if rep <=? MAX_PATH_PREPEND_REPEAT then Some (asn, rep) else None);
  nc_rr_server := trim <$> annotations !! RR_SERVER;
  nc_rr_client := trim <$> annotations !! RR_CLIENT;
  nc_bgp_local_addresses :=
    filter_map (λ a, ok (parse_ip a)) (annotation_list annotations BGP_LOCAL_ADDRESSES);
  nc_external_peers := parse_external_peers annotations;
|}.
End annotations.
End Annotations.

Module BgpPolicy.

(** [PolicyParseError] *)
Record PolicyParseError := PolicyError { policy_why : string }.

Definition parse_community (s : string) : PolicyParseError + Z :=
  let s := trim s in
  match split_once ":" s with
  | Some (hi, lo) =>
      match parse_u16 hi with
      | None => inl (PolicyError ("community high part: " +:+ hi))
      | Some hi =>
          match parse_u16 lo with
          | None => inl (PolicyError ("community low part: " +:+ lo))
          | Some lo => inr (Z.lor (Z.shiftl hi 16) lo)
          end
      end
  | None =>
      match parse_u32 s with
      | Some n => inr n
      | None => inl (PolicyError ("community: " +:+ s))
      end
  end.

(** [collect::<Result<Vec<_>, _>>()]: the first error, or all the values. *)
Fixpoint collect_results {A E B} (f : A → E + B) (l : list A) : E + list B :=
  match l with
  | [] => inr []
  | x :: l =>
      match f x with
      | inl e => inl e
      | inr b => match collect_results f l with inl e => inl e | inr bs => inr (b :: bs) end
      end
  end.

Definition comma_list (s : string) : list string :=
  filter (λ p, str_is_empty p = false) (trim <$> split_char "," s).

Definition parse_communities (s : string) : PolicyParseError + list Z :=
  collect_results parse_community (comma_list s).

Section policy.
Context `{IpNetLib}.

Definition parse_import_reject (s : string) : list IpNet := filter_map net_parse (comma_list s).

Record BgpPolicyConfig := {
  bpc_communities : list Z;
  bpc_path_prepend : option (Z * Z);
  bpc_import_reject : list IpNet;
}.

Definition parse_prepend (prepend_as prepend_repeat : option string)
    : PolicyParseError + option (Z * Z) :=
  match prepend_as with
  | None => inr None
  | Some asn_text =>
      match parse_u32 (trim asn_text) with
      | None => inl (PolicyError ("path-prepend.as: " +:+ asn_text))
      | Some asn =>
          match prepend_repeat with
          | None => inr (Some (asn, 1))
          | Some r =>
              match parse_u8 (trim r) with
              | None => inl (PolicyError "path-prepend.repeat-n")
              | Some repeat => inr (if 0 <? repeat then Some (asn, repeat) else None)
              end
          end
      end
  end.

Definition from_annotations (communities prepend_as prepend_repeat import_reject : option string)
    : PolicyParseError + BgpPolicyConfig :=
  match match communities with Some c => parse_communities c | None => inr [] end with
  | inl e => inl e
  | inr communities =>
      let import_reject := default [] (parse_import_reject <$> import_reject) in
      match parse_prepend prepend_as prepend_repeat with
      | inl e => inl e
      | inr path_prepend =>
          inr {| bpc_communities := communities; bpc_path_prepend := path_prepend;
                 bpc_import_reject := import_reject |}
      end
  end.
End policy.
End BgpPolicy.

Module ExternalPeers.
Import BgpPolicy.

Inductive PeerParseError :=
| CountMismatch (ips asns : nat)
| OptionalCountMismatch (field : string) (got want : nat)
| Yaml (why : string).

Record PeerEntry := {
  pe_remoteip : string;
  pe_remoteasn : Z;
  pe_localip : option string;
  pe_password : option string;
  pe_port : option Z;
}.

(** [serde_yaml_ng::from_str::<Vec<PeerEntry>>]; the error is its message. *)
Class PeerEntriesYaml := { yaml_peer_entries : string → string + list PeerEntry }.

(** [Option::filter] *)
Definition option_filter {A} (p : A → bool) (o : option A) : option A :=
  x ← o; if p x then Some x else None.

Definition external_peer (neighbor : IpAddr) (asn : Z) (local_address : option IpAddr)
    (password : option string) (port multihop_ttl : option Z)
    (graceful_restart : option GracefulRestart) : PeerConfig :=
  {| pc_neighbor := neighbor; pc_peer_asn := asn; pc_is_external := true;
     pc_rr_client := false; pc_rr_cluster_id := None; pc_local_address := local_address;
     pc_password := option_filter (λ p, negb (str_is_empty p)) password;
     pc_port := option_filter (λ p, negb (p =? 0)) port;
     pc_multihop_ttl := multihop_ttl; pc_graceful_restart := graceful_restart |}.

Definition parse_peers_annotation `{PeerEntriesYaml} (yaml : string)
    (multihop_ttl : option Z) (graceful_restart : option GracefulRestart)
    : PeerParseError + list PeerConfig :=
  match yaml_peer_entries yaml with
  | inl e => inl (Yaml e)
  | inr entries =>
      collect_results (λ e,
        match parse_ipaddr (pe_remoteip e) with
        | None => inl (Yaml ("bad remoteip: " +:+ pe_remoteip e))
        | Some neighbor =>
            inr (external_peer neighbor (pe_remoteasn e) (s ← pe_localip e; parse_ipaddr s)
                   (pe_password e) (p ← pe_port e; try_u16 p) multihop_ttl graceful_restart)
        end) entries
  end.

Definition zip_peers (ips : list IpAddr) (asns ports : list Z) (passwords : list string)
    (multihop_ttl : option Z) (local_address : option IpAddr)
    (graceful_restart : option GracefulRestart) : PeerParseError + list PeerConfig :=
  if negb (length ips =? length asns)%nat then inl (CountMismatch (length ips) (length asns))
  else if negb (length ports =? 0)%nat && negb (length ports =? length ips)%nat
  then inl (OptionalCountMismatch "ports" (length ports) (length ips))
  else if negb (length passwords =? 0)%nat && negb (length passwords =? length ips)%nat
  then inl (OptionalCountMismatch "passwords" (length passwords) (length ips))
  else inr (imap (λ i x, external_peer x.1 x.2 local_address (passwords !! i) (ports !! i)
                    multihop_ttl graceful_restart) (zip ips asns)).

End ExternalPeers.

Module PodEgress.

Definition POD_SUBNETS_V4 : string := "kube-router-pod-subnets".
Definition NODE_IPS_V4 : string := "kube-router-node-ips".

Definition set_names (family : IpFamily) : string * string :=
  match family with
  | FamV4 => (POD_SUBNETS_V4, NODE_IPS_V4)
  | FamV6 => ("inet6:" +:+ POD_SUBNETS_V4, "inet6:" +:+ NODE_IPS_V4)
  end.

Definition ipset_restore_payload `{IpNetLib} (pod_subnets : list IpNet)
    (node_ips : list IpAddr) (family : IpFamily) : string :=
  let '(subnets_set, nodes_set) := set_names family in
  let fam := match family with FamV4 => "inet" | FamV6 => "inet6" end in
  let want_v6 := is_v6 family in
  "create " +:+ subnets_set +:+ " hash:net family " +:+ fam +:+ " -exist" +:+ newline +:+
  "flush " +:+ subnets_set +:+ newline +:+
  "create " +:+ nodes_set +:+ " hash:ip family " +:+ fam +:+ " -exist" +:+ newline +:+
  "flush " +:+ nodes_set +:+ newline +:+
  str_concat ((λ n, "add " +:+ subnets_set +:+ " " +:+ net_to_string n +:+ newline) <$>
    filter (λ n, is_ipv6 (net_addr n) = want_v6) pod_subnets) +:+
  str_concat ((λ i, "add " +:+ nodes_set +:+ " " +:+ ip_to_string i +:+ newline) <$>
    filter (λ i, is_ipv6 i = want_v6) node_ips).

Definition snat_rule (family : IpFamily) (random_fully : bool) : list string :=
  let '(pod_subnets, node_ips) := set_names family in
  ["-m"; "set"; "--match-set"; pod_subnets; "src";
   "-m"; "set"; "!"; "--match-set"; pod_subnets; "dst";
   "-m"; "set"; "!"; "--match-set"; node_ips; "dst";
   "-j"; "MASQUERADE"] ++
  (if random_fully then ["--random-fully"] else []).

End PodEgress.
