(* ===== verification/RoutingFacts.v ===== *)
(** * RoutingFacts: what the network routes controller guarantees

    The theorems run each component against an arbitrary environment, whose
    calls may fail at any point, beside a note of the calls that succeeded: the
    kernel table ([Ktable]) or the state of the BGP speaker ([Speaker]). *)

From stdpp Require Import gmap sets list strings pretty.
From Stdlib Require Import Ascii ZArith Lia.
From S2P Require Import Prelude Text Net Common Netlink Bgp Routing.

Local Open Scope Z_scope.

(** ** Peers *)

Module PeersTheorems.
Import Peers.

Definition has_role (n : NodeBgp) : bool := is_some (nb_rr_server n) || is_some (nb_rr_client n).

(** C27: The peers are exactly those of the other nodes that the topology selects,
    in the order of the nodes: a route-reflector server takes every node, and
    marks the ones that are not servers as its clients in its cluster; a client
    takes the servers; any other node takes all nodes in a full mesh and the
    nodes of its own ASN otherwise. *)
Theorem derive_ibgp_peers_spec local others full_mesh p :
  p ∈ derive_ibgp_peers local others full_mesh true ↔
  ∃ o, o ∈ others ∧ nb_name o ≠ nb_name local ∧
    neighbor p = nb_ip o ∧ peer_asn p = nb_asn o ∧ is_external p = false ∧
    (if is_some (nb_rr_server local) then
       rr_client p = negb (is_some (nb_rr_server o)) ∧
       rr_cluster_id p = (if rr_client p then nb_rr_server local else None)
     else
       rr_client p = false ∧ rr_cluster_id p = None ∧
       (if is_some (nb_rr_client local) then is_some (nb_rr_server o) = true
        else full_mesh = true ∨ nb_asn o = nb_asn local)).
Proof.
  unfold derive_ibgp_peers, filter_map. cbn [negb]. rewrite list_elem_of_omap.
  split; intros (o & Ho & Hp); exists o; (split; [done|]); unfold ibgp_peer in *.
  - destruct (decide (nb_name o = nb_name local)); [done|]. split; [done|].
    destruct (is_some (nb_rr_server local)), (is_some (nb_rr_server o)),
      (is_some (nb_rr_client local)), full_mesh; simplify_eq/=; auto 10;
      case_bool_decide; simplify_eq/=; auto 10.
  - destruct Hp as (Hn & H1 & H2 & H3 & Hp). rewrite decide_False by done.
    destruct p as [pn pa pe prc pcl]; cbn in *. subst pn pa pe.
    destruct (is_some (nb_rr_server local)).
    + destruct Hp as [-> ->]. by destruct (is_some (nb_rr_server o)).
    + destruct Hp as (-> & -> & Hsel). destruct (is_some (nb_rr_client local)).
      * by rewrite Hsel.
      * destruct full_mesh; [done|]. destruct Hsel as [|Hasn]; [done|].
        by rewrite bool_decide_eq_true_2.
Qed.

(** Sessions agree: when both nodes have a route-reflector role or neither has
    one, one derives the other as a peer exactly when the other derives it. *)
Theorem ibgp_peers_symmetric a b full_mesh :
  has_role a = has_role b →
  is_some (ibgp_peer a full_mesh b) = is_some (ibgp_peer b full_mesh a).
Proof.
  unfold has_role, ibgp_peer. intros Hr.
  destruct (decide (nb_name b = nb_name a)) as [He|He].
  { by rewrite decide_True. }
  rewrite decide_False by done.
  destruct (is_some (nb_rr_server a)), (is_some (nb_rr_server b)),
    (is_some (nb_rr_client a)), (is_some (nb_rr_client b)), full_mesh; try done; cbn.
  destruct (decide (nb_asn b = nb_asn a)) as [Ha|Ha].
  - by rewrite !bool_decide_eq_true_2.
  - by rewrite !bool_decide_eq_false_2.
Qed.

Definition node_demo (name : string) (ip asn : Z) (server client : option Z) : NodeBgp :=
  {| nb_name := name; nb_ip := V4 ip; nb_asn := asn; nb_rr_server := server;
     nb_rr_client := client |}.

Lemma ibgp_peers_symmetric_witness :
  let a := node_demo "a" 1 64512 (Some 7) None in
  let b := node_demo "b" 2 64513 None (Some 7) in
  has_role a = has_role b ∧
  is_some (ibgp_peer a false b) = is_some (ibgp_peer b false a).
Proof.
  split; [reflexivity|].
  apply (ibgp_peers_symmetric (node_demo "a" 1 64512 (Some 7) None)
           (node_demo "b" 2 64513 None (Some 7)) false). reflexivity.
Defined.
End PeersTheorems.

(** ** Pod routes *)

Module PodNetTheorems.
Import PodNet.

Section podnet.
Context `{IpNetLib} {W : Type} `{!NetlinkOps W}.

(** The kernel holds exactly the routes of [l]. *)
Definition installed (kt : Ktable) (l : list Route) : Prop :=
  ∀ k r, kt !! k = Some r ↔ r ∈ l ∧ route_key r = k.

(** After any number of failed passes towards [desired] from [applied]. *)
Definition in_between (kt : Ktable) (applied desired : list Route) : Prop :=
  (∀ k r, kt !! k = Some r → route_key r = k ∧ (r ∈ applied ∨ r ∈ desired)) ∧
  (∀ r, r ∈ applied → r ∈ desired → kt !! route_key r = Some r).

(** No destination changes its gateway between the two. *)
Definition compatible (applied desired : list Route) : Prop :=
  ∀ r r', r ∈ applied → r' ∈ desired → route_key r = route_key r' → r = r'.

Lemma installed_in_between (kt : Ktable) (applied desired : list Route) :
  installed kt applied → in_between kt applied desired.
Proof.
  intros Hi. split.
  - intros k r Hk. apply Hi in Hk as [? ?]. auto.
  - intros r Hr _. by apply Hi.
Qed.

(** The steps of one pass. *)
Definition to_add (applied desired : list Route) := filter (λ r, r ∉ applied) desired.
Definition to_del (applied desired : list Route) := filter (λ r, r ∉ desired) applied.

Lemma podnet_reconcile_run (local : string) (nodes : list NodeRoute) (applied : list Route) (w : W) (kt : Ktable) :
  let desired := desired_pod_routes local nodes in
  let '(r, (applied', (w', kt'))) := podnet_reconcile local nodes (applied, (w, kt)) in
  ∃ adds dels rest rest', to_add applied desired = adds ++ rest ∧
    to_del applied desired = dels ++ rest' ∧
    kt' = delete_all route_key (insert_all route_key id kt adds) dels ∧
    (rest ≠ [] → dels = []) ∧
    match r with
    | inr n => applied' = desired ∧ rest = [] ∧ rest' = [] ∧
               n = (length (to_add applied desired), length (to_del applied desired))
    | inl _ => applied' = applied
    end.
Proof.
  intros desired. unfold podnet_reconcile. fold desired. munfold. cbn [fst snd].
  fold (to_add applied desired) (to_del applied desired).
  destruct (mfor (to_add applied desired) _ _) as [[e|[]] [w1 kt1]] eqn:Hrun;
    apply replace_all_run in Hrun as (adds & rest & Hl & Hkt & Hrest);
    cbn [fst snd] in *; subst kt1.
  { exists adds, [], rest, (to_del applied desired). done. }
  rewrite (Hrest eq_refl), app_nil_r in Hl. subst adds.
  destruct (mfor (to_del applied desired) _ _) as [[e|[]] [w2 kt2]] eqn:Hrun;
    apply delete_all_run in Hrun as (dels & rest' & Hl' & Hkt' & Hrest');
    cbn [fst snd] in *; subst kt2.
  - exists (to_add applied desired), dels, [], rest'. by rewrite app_nil_r.
  - rewrite (Hrest' eq_refl), app_nil_r in Hl'. subst dels.
    exists (to_add applied desired), (to_del applied desired), [], [].
    by rewrite !app_nil_r.
Qed.

Lemma elem_of_to_add (applied desired : list Route) r : r ∈ to_add applied desired ↔ (r ∉ applied) ∧ r ∈ desired.
Proof. unfold to_add. by rewrite list_elem_of_filter. Qed.
Lemma elem_of_to_del (applied desired : list Route) r : r ∈ to_del applied desired ↔ (r ∉ desired) ∧ r ∈ applied.
Proof. unfold to_del. by rewrite list_elem_of_filter. Qed.

(** A part of a pass stays in between, when no gateway changes. *)
Lemma in_between_step (kt : Ktable) (applied desired adds dels rest rest' : list Route) :
  in_between kt applied desired → compatible applied desired →
  to_add applied desired = adds ++ rest → to_del applied desired = dels ++ rest' →
  in_between (delete_all route_key (insert_all route_key id kt adds) dels) applied desired.
Proof.
  intros [Hsub Hboth] Hc Hadds Hdels.
  assert (∀ x, x ∈ adds → (x ∉ applied) ∧ x ∈ desired) as Ha.
  { intros x Hx. apply elem_of_to_add. rewrite Hadds. apply elem_of_app. by left. }
  assert (∀ x, x ∈ dels → (x ∉ desired) ∧ x ∈ applied) as Hd.
  { intros x Hx. apply elem_of_to_del. rewrite Hdels. apply elem_of_app. by left. }
  split.
  - intros k r Hk. destruct (decide (k ∈ route_key <$> dels)) as [Hin|Hin].
    { by rewrite delete_all_in in Hk. }
    rewrite delete_all_notin in Hk by done.
    apply insert_all_inv in Hk as [(x & Hx & <- & <-)|[_ Hk]]; [|by apply Hsub].
    split; [done|]. right. by apply Ha.
  - intros r Hr Hr'. rewrite delete_all_notin, insert_all_notin; [by apply Hboth|..];
      intros (x & Hx & Hin)%list_elem_of_fmap.
    + destruct (Ha x Hin) as [Hn ?]. assert (r = x) as -> by by apply Hc. done.
    + destruct (Hd x Hin) as [Hn ?]. assert (x = r) as -> by by apply Hc. done.
Qed.

(** The routes a node is to have: one for each pod network of another node, by that
    node, in the main table. *)
Definition pod_route (local : string) (nodes : list NodeRoute) (r : Route) : Prop :=
  ∃ n cidr, n ∈ nodes ∧ nr_name n ≠ local ∧ cidr ∈ nr_pod_cidrs n ∧
    r = {| dst := cidr; gateway := Some (nr_ip n); table := 254 |}.

Lemma elem_of_desired local nodes r : r ∈ desired_pod_routes local nodes ↔ pod_route local nodes r.
Proof.
  unfold desired_pod_routes, pod_route. rewrite list_elem_of_bind. split.
  - intros (n & (cidr & Hr%list_elem_of_singleton & Hc)%list_elem_of_bind & [Hn Hin]%list_elem_of_filter). eauto 10.
  - intros (n & cidr & Hin & Hn & Hc & ->). exists n. split; [|by apply list_elem_of_filter].
    apply list_elem_of_bind. exists cidr. split; [by apply list_elem_of_singleton|done].
Qed.

(** C19: Towards a fixed set of nodes, failed passes do no harm, and the first pass
    that succeeds leaves exactly the routes to the pod networks of the other nodes
    in the kernel: when no destination changes its gateway between what is recorded
    and what is desired, the desired destinations are distinct, and the kernel has
    what is between the two, as it has at the start and after failed passes. *)
Theorem podnet_reconcile_converges (local : string) (nodes : list NodeRoute) (applied : list Route) (w : W) (kt : Ktable) :
  let desired := desired_pod_routes local nodes in
  in_between kt applied desired → compatible applied desired →
  NoDup (route_key <$> desired) →
  let '(r, (applied', (_, kt'))) := podnet_reconcile local nodes (applied, (w, kt)) in
  match r with
  | inr _ => applied' = desired ∧ ∀ k r, kt' !! k = Some r ↔ pod_route local nodes r ∧ route_key r = k
  | inl _ => applied' = applied ∧ in_between kt' applied desired
  end.
Proof.
  intros desired Hb Hc Hnd. pose proof (podnet_reconcile_run local nodes applied w kt) as Hrun.
  destruct (podnet_reconcile _ _ _) as [r [applied' [w' kt']]].
  destruct Hrun as (adds & dels & rest & rest' & Hadds & Hdels & -> & _ & Hr).
  fold desired in Hadds, Hdels, Hr.
  pose proof (in_between_step _ _ _ _ _ _ _ Hb Hc Hadds Hdels) as [Hsub Hboth].
  destruct r as [e|n]; [done|]. destruct Hr as (-> & -> & -> & _). split; [done|].
  rewrite app_nil_r in Hadds, Hdels. subst adds dels. intros k r. rewrite <-elem_of_desired. fold desired. split.
  - intros Hk. destruct (Hsub k r Hk) as [<- [Hr|Hr]]; [|done]. split; [|done].
    destruct (decide (r ∈ desired)) as [|Hn]; [done|].
    rewrite delete_all_in in Hk; [done|]. apply list_elem_of_fmap. exists r.
    split; [done|]. by apply elem_of_to_del.
  - intros [Hr <-]. destruct (decide (r ∈ applied)) as [Ha|Ha]; [by apply Hboth|].
    rewrite delete_all_notin.
    + rewrite (insert_all_in route_key id _ _ r); [done| |by apply elem_of_to_add].
      by apply NoDup_fmap_filter.
    + intros (x & Hx & [Hn Hx']%elem_of_to_del)%list_elem_of_fmap.
      assert (x = r) as -> by by apply Hc. done.
Qed.

(** C32: A destination that moves to another gateway loses its route: the pass that
    reports success installs the new route and then deletes it, because the
    kernel deletes by destination and table. *)
Theorem podnet_gateway_change_loses_route (local : string) (nodes : list NodeRoute) (applied : list Route) (w : W) (kt : Ktable) (r_old r_new : Route) :
  let desired := desired_pod_routes local nodes in
  r_old ∈ applied → r_new ∈ desired → (r_old ∉ desired) →
  route_key r_old = route_key r_new →
  let '(r, (applied', (_, kt'))) := podnet_reconcile local nodes (applied, (w, kt)) in
  ∀ n, r = inr n → r_new ∈ applied' ∧ kt' !! route_key r_new = None.
Proof.
  intros desired Ho Hn Hno Hk. pose proof (podnet_reconcile_run local nodes applied w kt) as Hrun.
  destruct (podnet_reconcile _ _ _) as [r [applied' [w' kt']]]. intros n ->.
  destruct Hrun as (adds & dels & rest & rest' & Hadds & Hdels & -> & _ & -> & -> & -> & _).
  split; [done|]. apply delete_all_in. rewrite app_nil_r in Hdels. subst dels.
  rewrite <-Hk. apply list_elem_of_fmap. exists r_old. split; [done|]. by apply elem_of_to_del.
Qed.
End podnet.

(** Two nodes; then the second one gets another address. *)
Definition nodes_before : list (NodeRoute (H := ref_net_lib)) :=
  [{| nr_name := "a"; nr_ip := ip_of "192.168.0.1"; nr_pod_cidrs := [net_of "10.0.1.0/24"] |};
   {| nr_name := "b"; nr_ip := ip_of "192.168.0.2"; nr_pod_cidrs := [net_of "10.0.2.0/24"] |}].
Definition nodes_after : list (NodeRoute (H := ref_net_lib)) :=
  [{| nr_name := "a"; nr_ip := ip_of "192.168.0.1"; nr_pod_cidrs := [net_of "10.0.1.0/24"] |};
   {| nr_name := "b"; nr_ip := ip_of "192.168.0.9"; nr_pod_cidrs := [net_of "10.0.2.0/24"] |}].

Lemma podnet_reconcile_converges_witness :
  let desired := desired_pod_routes "a" nodes_before in
  let '(r, (applied', (_, kt'))) :=
    podnet_reconcile "a" nodes_before ([], (mock_netlink_empty, ∅)) in
  match r with
  | inr _ => applied' = desired ∧ ∀ k r, kt' !! k = Some r ↔ pod_route "a" nodes_before r ∧ route_key r = k
  | inl _ => applied' = [] ∧ in_between kt' [] desired
  end.
Proof.
  apply (podnet_reconcile_converges "a" nodes_before [] mock_netlink_empty ∅).
  - apply installed_in_between. intros k r. split.
    + by rewrite lookup_empty.
    + intros [Hr _]. by apply elem_of_nil in Hr.
  - intros r r' Hr. by apply elem_of_nil in Hr.
  - apply NoDup_singleton.
Defined.

Definition route_via (gw : string) : Route (H := ref_net_lib) :=
  {| dst := net_of "10.0.2.0/24"; gateway := Some (ip_of gw); table := 254 |}.

Definition kernel_before :=
  insert_all route_key id ∅ (desired_pod_routes "a" nodes_before).

Lemma podnet_gateway_change_loses_route_witness :
  (podnet_reconcile "a" nodes_after
     (desired_pod_routes "a" nodes_before, (mock_netlink_empty, kernel_before))).1 =
    inr (1%nat, 1%nat) ∧
  let '(r, (applied', (_, kt'))) :=
    podnet_reconcile "a" nodes_after
      (desired_pod_routes "a" nodes_before, (mock_netlink_empty, kernel_before)) in
  ∀ n, r = inr n →
    route_via "192.168.0.9" ∈ applied' ∧ kt' !! route_key (route_via "192.168.0.9") = None.
Proof.
  split; [reflexivity|].
  apply (podnet_gateway_change_loses_route "a" nodes_after
    (desired_pod_routes "a" nodes_before) mock_netlink_empty kernel_before
    (route_via "192.168.0.2") (route_via "192.168.0.9")).
  - by apply list_elem_of_singleton.
  - by apply list_elem_of_singleton.
  - intros Hin. by apply list_elem_of_singleton in Hin.
  - reflexivity.
Defined.
End PodNetTheorems.

(** ** Injected routes *)

Module InjectTheorems.
Import Overlay Inject.

Section inject.
Context `{IpNetLib} {W : Type} `{!NetlinkOps W}.

Definition injected (cfg : InjectorConfig) (ev : BestPath) : InjectedRoute :=
  {| ir_route := {| dst := bp_prefix ev; gateway := Some (bp_next_hop ev);
                    table := ic_table cfg |};
     ir_via_tunnel := needs_tunnel (bp_next_hop ev) (ic_local_subnets cfg) (ic_overlay cfg) |}.

(** *** What a sequence of events should leave *)

(** A prefix is rejected when one of the networks to reject has all its addresses. *)
Definition rejected (reject : list IpNet) (p : IpNet) : Prop :=
  ∃ n, n ∈ reject ∧ ∀ a, ip_wf a → net_contains p a = true → net_contains n a = true.

(** A route goes through a tunnel when the overlay is full, or when its next hop is
    in no local subnet. *)
Definition tunnelled (cfg : InjectorConfig) (next_hop : IpAddr) : Prop :=
  ic_overlay cfg = OverlayFull ∨ ∀ n, n ∈ ic_local_subnets cfg → net_contains n next_hop = false.

Definition last_event (evs : list BestPath) (p : IpNet) : option BestPath :=
  last (filter (λ ev, bp_prefix ev = p) evs).

(** The last event of a prefix decides: an announcement that is not rejected leaves
    a route by its next hop, in the table of the injector. *)
Definition leaves_route (cfg : InjectorConfig) (evs : list BestPath) (p : IpNet) (ir : InjectedRoute) : Prop :=
  ∃ ev, last_event evs p = Some ev ∧ bp_withdrawal ev = false ∧ ¬ rejected (ic_import_reject cfg) p ∧
    ir_route ir = {| dst := p; gateway := Some (bp_next_hop ev); table := ic_table cfg |} ∧
    (ir_via_tunnel ir = true ↔ tunnelled cfg (bp_next_hop ev)).

(** The routes a sequence of events should leave: the last accepted
    announcement of each prefix that is neither withdrawn nor rejected. *)
Definition rib_step (cfg : InjectorConfig) (m : gmap IpNet InjectedRoute) (ev : BestPath)
    : gmap IpNet InjectedRoute :=
  if bp_withdrawal ev || is_rejected cfg (bp_prefix ev) then delete (bp_prefix ev) m
  else <[bp_prefix ev := injected cfg ev]> m.

(** The kernel holds exactly the routes of the map; none is rejected. *)
Definition inject_inv (cfg : InjectorConfig) (m : gmap IpNet InjectedRoute) (kt : Ktable) : Prop :=
  (∀ p ir, m !! p = Some ir →
     route_key (ir_route ir) = (p, ic_table cfg) ∧ is_rejected cfg p = false) ∧
  (∀ k r, kt !! k = Some r ↔
     ∃ ir, m !! k.1 = Some ir ∧ ir_route ir = r ∧ k.2 = ic_table cfg).

Lemma remove_route_run (cfg : InjectorConfig) (p : IpNet) (m : gmap IpNet InjectedRoute) (w : W) (kt : Ktable) :
  inject_inv cfg m kt →
  let '(r, (m', (_, kt'))) := remove_route p (m, (w, kt)) in
  r = inr tt → m' = delete p m ∧ inject_inv cfg m' kt'.
Proof.
  intros [Hm Hk]. unfold remove_route. munfold.
  destruct (m !! p) as [ir|] eqn:Hp; cbn beta iota; cycle 1.
  { intros _. by rewrite delete_id. }
  unfold inject_nl. munfold. cbn [fst snd]. unfold route_del at 1. cbn [kernel_netlink].
  unfold noting. cbn [fst snd]. destruct (route_del _ w) as [[e|[]] w']; [done|]. intros _.
  destruct (Hm p ir Hp) as [Hkey Hrej]. split; [done|]. rewrite Hkey. split.
  - intros q iq Hq. apply lookup_delete_Some in Hq as [_ Hq]. by apply Hm.
  - intros k r. rewrite lookup_delete_Some, Hk. split.
    + intros [Hne (ix & Hx & <- & Ht)]. exists ix. rewrite lookup_delete_ne; [done|].
      intros ->. apply Hne. by rewrite <-Ht; destruct k.
    + intros (ix & Hx & <- & Ht). apply lookup_delete_Some in Hx as [Hne Hx].
      split; [|by exists ix]. intros Heq. apply Hne. by rewrite <-Heq.
Qed.

Lemma on_event_run (cfg : InjectorConfig) (ev : BestPath) (m : gmap IpNet InjectedRoute) (w : W) (kt : Ktable) :
  inject_inv cfg m kt →
  let '(r, (m', (_, kt'))) := on_event cfg ev (m, (w, kt)) in
  r = inr tt → m' = rib_step cfg m ev ∧ inject_inv cfg m' kt'.
Proof.
  intros Hinv. unfold on_event, rib_step.
  destruct (bp_withdrawal ev); cbn [orb]; [by apply remove_route_run|].
  destruct (is_rejected cfg (bp_prefix ev)) eqn:Hrej; [by apply remove_route_run|].
  unfold inject_nl. munfold. cbn [fst snd]. unfold route_replace at 1. cbn [kernel_netlink].
  unfold noting. cbn [fst snd]. destruct (route_replace _ w) as [[e|[]] w']; [done|].
  cbn [fst snd]. intros _. split; [done|]. destruct Hinv as [Hm Hk]. split.
  - intros q iq. rewrite lookup_insert_Some. intros [[<- <-]|[_ Hq]]; [done|by apply Hm].
  - intros k r. rewrite lookup_insert_Some, Hk. split.
    + intros [[<- <-]|[Hne (ix & Hx & <- & Ht)]].
      * eexists. cbn. by rewrite lookup_insert_eq.
      * exists ix. rewrite lookup_insert_ne; [done|]. intros Heq. apply Hne.
        destruct k; cbn in *. by subst.
    + intros (ix & Hx & <- & Ht). apply lookup_insert_Some in Hx as [[Heq <-]|[Hne Hx]].
      * left. split; [|done]. destruct k; cbn in *. by subst.
      * right. split; [|by exists ix]. intros <-. done.
Qed.

Lemma on_events_run (cfg : InjectorConfig) (evs : list BestPath) (m : gmap IpNet InjectedRoute)
    (w : W) (kt : Ktable) :
  inject_inv cfg m kt →
  let '(r, (m', (_, kt'))) := mfor evs (on_event cfg) (m, (w, kt)) in
  r = inr tt → m' = foldl (rib_step cfg) m evs ∧ inject_inv cfg m' kt'.
Proof.
  revert m w kt. induction evs as [|ev evs IH]; intros m w kt Hinv; [done|].
  cbn [mfor foldl]. munfold. pose proof (on_event_run cfg ev m w kt Hinv) as Hev.
  destruct (on_event cfg ev (m, (w, kt))) as [[e|[]] [m1 [w1 kt1]]]; [done|].
  destruct (Hev eq_refl) as [-> Hinv1]. by apply IH.
Qed.

Lemma inject_inv_empty (cfg : InjectorConfig) : inject_inv cfg ∅ ∅.
Proof.
  split.
  - intros p ir. by rewrite lookup_empty.
  - intros k r. rewrite lookup_empty. split; [done|]. intros (ir & Hir & _).
    by rewrite lookup_empty in Hir.
Qed.

(** *** The steps and what they should leave *)

Context `{!IpNetLaws}.

Lemma is_rejected_spec cfg p : is_rejected cfg p = true ↔ rejected (ic_import_reject cfg) p.
Proof.
  unfold is_rejected, rejected. rewrite existsb_exists. setoid_rewrite <-list_elem_of_In.
  setoid_rewrite andb_true_iff. setoid_rewrite Z.leb_le. f_equiv. intros n. by rewrite net_inside.
Qed.

Lemma needs_tunnel_spec cfg nh :
  needs_tunnel nh (ic_local_subnets cfg) (ic_overlay cfg) = true ↔ tunnelled cfg nh.
Proof.
  unfold needs_tunnel, tunnelled. destruct (ic_overlay cfg); [|naive_solver].
  rewrite negb_true_iff, <-not_true_iff_false, existsb_exists. setoid_rewrite <-list_elem_of_In. split.
  - intros Hn. right. intros n Hin. apply not_true_iff_false. intros Hc. apply Hn. by exists n.
  - intros [?|Hall]; [done|]. intros (n & Hin & Hc). by rewrite (Hall n Hin) in Hc.
Qed.

Lemma injected_leaves cfg ev ir :
  ir = injected cfg ev ↔
  ir_route ir = {| dst := bp_prefix ev; gateway := Some (bp_next_hop ev); table := ic_table cfg |} ∧
  (ir_via_tunnel ir = true ↔ tunnelled cfg (bp_next_hop ev)).
Proof.
  rewrite <-needs_tunnel_spec. destruct ir as [r t]. unfold injected. cbn. split; [by intros [= -> ->]|].
  intros [-> Ht]. f_equal. by apply eq_true_iff_eq.
Qed.

Lemma rib_steps_leave cfg evs p ir :
  foldl (rib_step cfg) ∅ evs !! p = Some ir ↔ leaves_route cfg evs p ir.
Proof.
  unfold leaves_route, last_event. induction evs as [|ev evs IH] using rev_ind.
  { cbn. rewrite lookup_empty. split; [done|]. by intros (ev & ? & _). }
  rewrite foldl_app, filter_app, filter_cons, filter_nil. cbn [foldl]. unfold rib_step at 1.
  destruct (decide (bp_prefix ev = p)) as [<-|Hne].
  - rewrite last_snoc. destruct (bp_withdrawal ev) eqn:Hw; cbn [orb].
    { rewrite lookup_delete_eq. split; [done|]. intros (ev' & [= <-] & Hno & _). congruence. }
    pose proof (is_rejected_spec cfg (bp_prefix ev)) as Hrej.
    destruct (is_rejected cfg (bp_prefix ev)) eqn:Hr.
    { rewrite lookup_delete_eq. split; [done|]. intros (ev' & _ & _ & Hno & _). by destruct Hno; apply Hrej. }
    rewrite lookup_insert_eq. pose proof (injected_leaves cfg ev ir) as Hinj.
    assert (¬ rejected (ic_import_reject cfg) (bp_prefix ev)) by (by rewrite <-Hrej). split.
    + intros [= Heq]. symmetry in Heq. apply Hinj in Heq as [??]. eauto 10.
    + intros (ev' & [= <-] & _ & _ & Hroute & Htun). f_equal. symmetry. by apply Hinj.
  - rewrite app_nil_r, <-IH. destruct (_ || _); [by rewrite lookup_delete_ne|by rewrite lookup_insert_ne].
Qed.

(** C23: After a sequence of best-path events whose kernel calls all succeed, on an
    injector that starts with nothing: the last event of a prefix decides.  The
    prefix has a route, by the next hop of the event and marked for the tunnel where
    it needs one, exactly when that event is an announcement and no network to
    reject contains the prefix; and the kernel holds exactly these routes. *)
Theorem inject_events_correct cfg (evs : list BestPath) (w : W) :
  let '(r, (m, (_, kt))) := mfor evs (on_event cfg) (∅, (w, ∅)) in
  r = inr tt →
  (∀ p ir, m !! p = Some ir ↔ leaves_route cfg evs p ir) ∧
  (∀ p t r, kt !! (p, t) = Some r ↔ t = ic_table cfg ∧ ∃ ir, leaves_route cfg evs p ir ∧ r = ir_route ir).
Proof.
  pose proof (on_events_run cfg evs ∅ w ∅ (inject_inv_empty cfg)) as Hrun.
  destruct (mfor evs _ _) as [r [m [w' kt]]]. intros Hr. destruct (Hrun Hr) as [-> [_ Hk]]. split.
  - apply rib_steps_leave.
  - intros p t x. rewrite Hk. setoid_rewrite <-rib_steps_leave. cbn. naive_solver.
Qed.

(** A withdrawal whose deletion fails leaves its route in the kernel and
    forgets it: the event can be repeated, and the tick run, without any
    deletion being tried again. *)
Theorem inject_failed_withdrawal_forgotten (cfg : InjectorConfig) (ev : BestPath)
    (m : gmap IpNet InjectedRoute) (w : W) (kt : Ktable) e s :
  bp_withdrawal ev = true →
  on_event cfg ev (m, (w, kt)) = (inl e, s) →
  s.2.2 = kt ∧ s.1 !! bp_prefix ev = None ∧ on_event cfg ev s = (inr tt, s).
Proof.
  intros Hw. unfold on_event. rewrite Hw. unfold remove_route at 1. munfold. cbn [fst snd].
  destruct (m !! bp_prefix ev) as [ir|]; [|done].
  unfold inject_nl. munfold. cbn [fst snd]. unfold route_del at 1. cbn [kernel_netlink].
  unfold noting. cbn [fst snd]. destruct (route_del _ w) as [[e'|[]] w']; [|done].
  cbn [fst snd]. intros [= <- <-]. split; [done|]. cbn [fst snd].
  assert (delete (bp_prefix ev) m !! bp_prefix ev = None) as Hn by apply lookup_delete_eq.
  split; [done|]. unfold remove_route. munfold. cbn [fst snd]. by rewrite Hn.
Qed.
End inject.

(** A netlink world in which deletions fail. *)
Definition failing_del : NetlinkOps (H := ref_net_lib) unit := {|
  ensure_dummy_link _ := mret tt; addr_add _ _ _ := mret tt; addr_del _ _ _ := mret tt;
  route_replace _ := mret tt; route_del _ := mfail (NetlinkOp "busy"); route_list _ := mret [];
|}.

Definition cfg_demo : InjectorConfig (H := ref_net_lib) :=
  {| ic_local_subnets := [net_of "192.168.0.0/24"]; ic_overlay := OverlaySubnet;
     ic_table := 77; ic_import_reject := [net_of "10.0.0.0/8"] |}.
Definition ev_demo (w : bool) : BestPath (H := ref_net_lib) :=
  {| bp_prefix := net_of "172.16.1.0/24"; bp_next_hop := ip_of "192.168.1.7";
     bp_withdrawal := w |}.
Definition map_demo : gmap (IpNet (IpNetLib := ref_net_lib)) InjectedRoute :=
  <[bp_prefix (ev_demo false) := injected cfg_demo (ev_demo false)]> ∅.

Lemma inject_events_correct_witness :
  let evs := [ev_demo false; ev_demo true; ev_demo false] in
  let '(r, (m, (_, kt))) := mfor evs (on_event cfg_demo) (∅, (mock_netlink_empty, ∅)) in
  (∀ p ir, m !! p = Some ir ↔ leaves_route cfg_demo evs p ir) ∧
  (∀ p t r, kt !! (p, t) = Some r ↔
     t = ic_table cfg_demo ∧ ∃ ir, leaves_route cfg_demo evs p ir ∧ r = ir_route ir).
Proof.
  pose proof (inject_events_correct (H := ref_net_lib) cfg_demo [ev_demo false; ev_demo true; ev_demo false]
    mock_netlink_empty) as Hrun.
  assert ((mfor [ev_demo false; ev_demo true; ev_demo false] (on_event cfg_demo) (∅, (mock_netlink_empty, ∅))).1 = inr tt)
    as Hok by reflexivity.
  cbv zeta. destruct (mfor _ _ _) as [r [m [w kt]]]. exact (Hrun Hok).
Defined.

Lemma inject_failed_withdrawal_forgotten_witness :
  let s := (on_event (NetlinkOps0 := kernel_netlink unit (NetlinkOps0 := failing_del))
              cfg_demo (ev_demo true) (map_demo, (tt, ∅))).2 in
  s.2.2 = ∅ ∧ s.1 !! bp_prefix (ev_demo true) = None ∧
  on_event (NetlinkOps0 := kernel_netlink unit (NetlinkOps0 := failing_del))
    cfg_demo (ev_demo true) s = (inr tt, s).
Proof.
  eapply (inject_failed_withdrawal_forgotten (NetlinkOps0 := failing_del) cfg_demo (ev_demo true)
            map_demo tt ∅ (NetlinkOp "busy")); reflexivity.
Defined.
End InjectTheorems.

(** ** Advertised prefixes *)

Module AdvertiseTheorems.
Import Advertise.

Section advertise.
Context `{IpNetLib} {W : Type} `{!BgpEngine W}.

(** After any number of failed syncs towards [D] from the prefixes [adv]. *)
Definition adv_between (rib : gmap IpNet Path) (adv D : gset IpNet) : Prop :=
  ∀ p, (is_Some (rib !! p) → p ∈ adv ∨ p ∈ D) ∧ (p ∈ adv → p ∈ D → is_Some (rib !! p)).

Definition desired_set (desired : list IpNet) (enabled : bool) : gset IpNet :=
  if enabled then list_to_set desired else ∅.

Lemma announce_prefix attrs nh p : path_prefix (announce_path attrs nh p) = p.
Proof.
  unfold announce_path, as_path_prepend, path_build.
  destruct (adv_as_prepend attrs) as [[asn rep]|]; [destruct (0 <? rep)|];
    cbn; by destruct (of_net p).
Qed.
Lemma withdraw_prefix nh p : path_prefix (withdraw_path nh p) = p.
Proof. unfold withdraw_path, path_build. cbn. by destruct (of_net p). Qed.

Lemma announce_prefixes attrs nh (l : list IpNet) :
  (λ p, path_prefix (announce_path attrs nh p)) <$> l = l.
Proof. induction l as [|p l IH]; [done|]. by rewrite fmap_cons, IH, announce_prefix. Qed.
Lemma withdraw_prefixes nh (l : list IpNet) :
  (λ p, path_prefix (withdraw_path nh p)) <$> l = l.
Proof. induction l as [|p l IH]; [done|]. by rewrite fmap_cons, IH, withdraw_prefix. Qed.

Lemma advertiser_sync_run attrs desired nh enabled (adv : gset IpNet) (w : W) (sp : Speaker) :
  let D := desired_set desired enabled in
  let '(r, (adv', (_, sp'))) := advertiser_sync attrs desired nh enabled (adv, (w, sp)) in
  ∃ adds dels rest rest',
    bset_iter (D ∖ adv) = adds ++ rest ∧ bset_iter (adv ∖ D) = dels ++ rest' ∧
    sp_rib sp' = delete_all (λ p, path_prefix (withdraw_path nh p))
      (insert_all (λ p, path_prefix (announce_path attrs nh p)) (announce_path attrs nh)
         (sp_rib sp) adds) dels ∧
    match r with
    | inr n => adv' = D ∧ rest = [] ∧ rest' = [] ∧
               n = (length (bset_iter (D ∖ adv)), length (bset_iter (adv ∖ D)))
    | inl _ => adv' = adv
    end.
Proof.
  intros D. unfold advertiser_sync, adv_engine. fold (desired_set desired enabled). fold D.
  munfold. cbn [fst snd].
  destruct (mfor (bset_iter (D ∖ adv)) _ _) as [[e|[]] [w1 sp1]] eqn:Hrun;
    apply add_paths_run in Hrun as (adds & rest & Hl & Hrest & Hrib & _);
    cbn [fst snd] in *.
  { exists adds, [], rest, (bset_iter (adv ∖ D)). done. }
  destruct (mfor (bset_iter (adv ∖ D)) _ _) as [[e|[]] [w2 sp2]] eqn:Hrun;
    apply delete_paths_run in Hrun as (dels & rest' & Hl' & Hrest' & Hrib' & _);
    cbn [fst snd] in *; exists adds, dels, rest, rest'; rewrite Hrib', Hrib; auto 10.
Qed.

Lemma adv_between_step rib (adv D : gset IpNet) attrs nh adds dels rest rest' :
  adv_between rib adv D →
  bset_iter (D ∖ adv) = adds ++ rest → bset_iter (adv ∖ D) = dels ++ rest' →
  let rib' := delete_all (λ p, path_prefix (withdraw_path nh p))
    (insert_all (λ p, path_prefix (announce_path attrs nh p)) (announce_path attrs nh)
       rib adds) dels in
  adv_between rib' adv D ∧
  (∀ p, p ∈ adds → is_Some (rib' !! p)) ∧ (∀ p, p ∈ dels → rib' !! p = None).
Proof.
  intros Hb Hadds Hdels rib'.
  assert (∀ p, p ∈ adds → p ∈ D ∧ (p ∉ adv)) as Ha.
  { intros p Hp. apply elem_of_difference, elem_of_bset_iter. rewrite Hadds.
    apply elem_of_app. by left. }
  assert (∀ p, p ∈ dels → p ∈ adv ∧ (p ∉ D)) as Hd.
  { intros p Hp. apply elem_of_difference, elem_of_bset_iter. rewrite Hdels.
    apply elem_of_app. by left. }
  assert (NoDup adds) as Hnd.
  { pose proof (bset_iter_NoDup (D ∖ adv)) as Hnd. rewrite Hadds in Hnd.
    by apply NoDup_app in Hnd as [? _]. }
  assert (∀ p, p ∈ dels → rib' !! p = None) as Hdel.
  { intros p Hp. subst rib'. apply delete_all_in. by rewrite withdraw_prefixes. }
  assert (∀ p, p ∈ adds → is_Some (rib' !! p)) as Hadd.
  { intros p Hp. subst rib'. rewrite delete_all_notin.
    - pose proof (insert_all_in (λ p, path_prefix (announce_path attrs nh p))
        (announce_path attrs nh) rib adds p) as Hin.
      rewrite announce_prefixes, announce_prefix in Hin. rewrite Hin by done. by eexists.
    - rewrite withdraw_prefixes. intros Hp'. destruct (Ha p Hp), (Hd p Hp'). done. }
  split; [|done]. intros p.
  destruct (decide (p ∈ dels)) as [Hpd|Hpd].
  { rewrite (Hdel p Hpd). destruct (Hd p Hpd). split; [by intros [? ?]|done]. }
  destruct (decide (p ∈ adds)) as [Hpa|Hpa].
  { destruct (Ha p Hpa). auto. }
  assert (rib' !! p = rib !! p) as ->; [|apply Hb]. subst rib'.
  rewrite delete_all_notin, insert_all_notin by
    (rewrite ?withdraw_prefixes, ?announce_prefixes; done). done.
Qed.

Lemma sync_converges attrs desired nh enabled (adv : gset IpNet) (w : W)
    (sp : Speaker) :
  let D := desired_set desired enabled in
  adv_between (sp_rib sp) adv D →
  let '(r, (adv', (_, sp'))) := advertiser_sync attrs desired nh enabled (adv, (w, sp)) in
  match r with
  | inr _ => adv' = D ∧ dom (sp_rib sp') = D
  | inl _ => adv' = adv ∧ adv_between (sp_rib sp') adv D
  end.
Proof.
  intros D Hb. pose proof (advertiser_sync_run attrs desired nh enabled adv w sp) as Hrun.
  destruct (advertiser_sync _ _ _ _ _) as [r [adv' [w' sp']]].
  destruct Hrun as (adds & dels & rest & rest' & Hadds & Hdels & Hrib & Hr).
  fold D in Hadds, Hdels, Hr.
  pose proof (adv_between_step (sp_rib sp) adv D attrs nh adds dels rest rest' Hb Hadds Hdels)
    as (Hb' & Hin & Hout). cbn beta in *. rewrite <-Hrib in Hb', Hin, Hout.
  destruct r as [e|n]; [done|]. destruct Hr as (-> & -> & -> & _). split; [done|].
  rewrite app_nil_r in Hadds, Hdels. subst adds dels. apply set_eq. intros p.
  rewrite elem_of_dom. split.
  - intros Hp. destruct (decide (p ∈ D)) as [|Hn]; [done|].
    destruct (proj1 (Hb' p) Hp) as [Ha|]; [|done].
    rewrite Hout in Hp; [by destruct Hp|].
    apply elem_of_bset_iter. by apply elem_of_difference.
  - intros Hp. destruct (decide (p ∈ adv)) as [Ha|Ha]; [by apply Hb'|].
    apply Hin, elem_of_bset_iter. by apply elem_of_difference.
Qed.

(** C25: Towards a fixed desired set, failed syncs do no harm, and the first sync
    that succeeds leaves the speaker announcing exactly the desired prefixes:
    none at all when advertisement is disabled.  At the start the speaker must have
    what is recorded and still desired, and nothing that is neither ([adv_between],
    as failed syncs leave it; [advertiser_leak] shows a start that is not so). *)
Theorem advertiser_sync_converges attrs desired nh enabled (adv : gset IpNet) (w : W)
    (sp : Speaker) :
  let D := desired_set desired enabled in
  adv_between (sp_rib sp) adv D →
  let '(r, (adv', (_, sp'))) := advertiser_sync attrs desired nh enabled (adv, (w, sp)) in
  match r with
  | inr _ => adv' = D ∧ dom (sp_rib sp') = D
  | inl _ => adv' = adv ∧ adv_between (sp_rib sp') adv D
  end.
Proof. apply sync_converges. Qed.

(** A prefix announced by a failed sync and no longer desired afterwards is
    never withdrawn: it is in the speaker's table but not in the advertiser's
    set, and successful syncs leave it there. *)
Theorem advertiser_leak attrs desired nh enabled (adv : gset IpNet) (w : W) (sp : Speaker) p :
  is_Some (sp_rib sp !! p) → (p ∉ adv) → (p ∉ desired_set desired enabled) →
  let '(r, (adv', (_, sp'))) := advertiser_sync attrs desired nh enabled (adv, (w, sp)) in
  is_Some (sp_rib sp' !! p) ∧ ∀ n, r = inr n → (p ∉ adv').
Proof.
  intros Hp Ha HD. pose proof (advertiser_sync_run attrs desired nh enabled adv w sp) as Hrun.
  destruct (advertiser_sync _ _ _ _ _) as [r [adv' [w' sp']]].
  destruct Hrun as (adds & dels & rest & rest' & Hadds & Hdels & Hrib & Hr). split.
  - rewrite Hrib, delete_all_notin, insert_all_notin; [done|..].
    + rewrite announce_prefixes. intros Hin. apply HD.
      assert (p ∈ bset_iter (desired_set desired enabled ∖ adv)) as Hx.
      { rewrite Hadds. apply elem_of_app. by left. }
      apply elem_of_bset_iter, elem_of_difference in Hx. apply Hx.
    + rewrite withdraw_prefixes. intros Hin. apply Ha.
      assert (p ∈ bset_iter (adv ∖ desired_set desired enabled)) as Hx.
      { rewrite Hdels. apply elem_of_app. by left. }
      apply elem_of_bset_iter, elem_of_difference in Hx. apply Hx.
  - intros n ->. destruct Hr as [-> _]. done.
Qed.
End advertise.

Definition no_attrs : Attributes := {| adv_communities := []; adv_as_prepend := None |}.
Definition quiet : Speaker (H := ref_net_lib) := {| sp_peers := ∅; sp_rib := ∅ |}.

Lemma advertiser_sync_converges_witness :
  let desired := [net_of "10.0.1.0/24"; net_of "fd00::/64"] in
  let '(r, (adv', (_, sp'))) :=
    advertiser_sync (W := MockBgpEngine * Speaker) no_attrs desired (ip_of "192.168.0.1") true (∅, (mock_bgp_new, quiet)) in
  match r with
  | inr _ => adv' = desired_set desired true ∧ dom (sp_rib sp') = desired_set desired true
  | inl _ => adv' = ∅ ∧ adv_between (sp_rib sp') ∅ (desired_set desired true)
  end.
Proof.
  apply (advertiser_sync_converges (H := ref_net_lib) no_attrs [net_of "10.0.1.0/24"; net_of "fd00::/64"]
           (ip_of "192.168.0.1") true ∅ mock_bgp_new quiet).
  intros p. split; [|set_solver]. cbn. rewrite lookup_empty. by intros [? ?].
Defined.

Definition leaky : Speaker (H := ref_net_lib) :=
  {| sp_peers := ∅;
     sp_rib := {[ net_of "10.0.9.0/24" :=
                  announce_path no_attrs (ip_of "192.168.0.1") (net_of "10.0.9.0/24") ]} |}.

Lemma advertiser_leak_witness :
  let '(r, (adv', (_, sp'))) :=
    advertiser_sync (W := MockBgpEngine * Speaker) no_attrs [net_of "10.0.1.0/24"] (ip_of "192.168.0.1") true
      (∅, (mock_bgp_new, leaky)) in
  is_Some (sp_rib sp' !! net_of "10.0.9.0/24") ∧ ∀ n, r = inr n → (net_of "10.0.9.0/24" ∉ adv').
Proof.
  apply (advertiser_leak (H := ref_net_lib) no_attrs [net_of "10.0.1.0/24"] (ip_of "192.168.0.1") true ∅
           mock_bgp_new leaky (net_of "10.0.9.0/24")).
  - by eexists.
  - apply not_elem_of_empty.
  - unfold desired_set. rewrite elem_of_list_to_set, list_elem_of_singleton. discriminate.
Defined.
End AdvertiseTheorems.

(** ** Peers programmed into the engine *)

Module RoutesTheorems.
Import Peers Routes.

Section routes.
Context `{IpNetLib} {W : Type} `{!BgpEngine W}.

(** A peer of the engine that is configured for a derived peer. *)
Definition configured (gr : option GracefulRestart) (p : BgpPeer) (c : PeerConfig) : Prop :=
  (pc_neighbor c = neighbor p ∧ pc_peer_asn c = peer_asn p ∧ pc_is_external c = is_external p) ∧
  (pc_rr_client c = rr_client p ∧ pc_rr_cluster_id c = pretty <$> rr_cluster_id p) ∧
  (pc_local_address c = None ∧ pc_password c = None ∧ pc_port c = None ∧ pc_multihop_ttl c = None) ∧
  pc_graceful_restart c = gr.

(** The speaker has the peers of [l]. *)
Definition peered (gr : option GracefulRestart) (ps : gmap IpAddr PeerConfig) (l : list BgpPeer) : Prop :=
  ∀ p, p ∈ l → ∃ c, ps !! neighbor p = Some c ∧ configured gr p c.

Lemma configured_is gr p c : configured gr p c ↔ c = to_peer_config p gr.
Proof.
  destruct c. unfold configured, to_peer_config. cbn. split.
  - by intros ((-> & -> & ->) & (-> & ->) & (-> & -> & -> & ->) & ->).
  - by intros [= -> -> -> -> -> -> -> -> -> ->].
Qed.

Definition desired_peers (cfg : RoutesControllerConfig) (nodes : list NodeBgp) : list BgpPeer :=
  derive_ibgp_peers (rc_local cfg) nodes (rc_full_mesh cfg) (rc_enable_ibgp cfg).

Definition with_speaker (cur : list BgpPeer) (exts : list PeerConfig) (b : bool) (w : W)
    (sp : Speaker) : NrcState (W * Speaker) :=
  {| current_peers := cur; external_peers := exts; external_applied := b;
     nrc_engine := (w, sp) |}.

(** C20: A pass, on an engine that has the peers that are recorded: when it succeeds
    the engine has every derived peer, with its parameters, changed ones included,
    and none of the recorded peers that are not derived any more.  Whether it
    succeeds or not, every other address is left as it was, external peers among
    them.  The addresses of the derived peers must be distinct. *)
Theorem reconcile_and_apply_correct cfg nodes cur exts b (w : W) (sp : Speaker) :
  let D := desired_peers cfg nodes in
  peered (rc_graceful_restart cfg) (sp_peers sp) cur → NoDup (neighbor <$> D) →
  let '(r, s) := reconcile_and_apply cfg nodes (with_speaker cur exts b w sp) in
  (∀ a, a ∉ neighbor <$> cur → a ∉ neighbor <$> D → sp_peers (nrc_engine s).2 !! a = sp_peers sp !! a) ∧
  (∀ n, r = inr n →
     current_peers s = D ∧ peered (rc_graceful_restart cfg) (sp_peers (nrc_engine s).2) D ∧
     ∀ a, a ∈ neighbor <$> cur → a ∉ neighbor <$> D → sp_peers (nrc_engine s).2 !! a = None).
Proof.
  intros D Hcur Hnd. unfold reconcile_and_apply, nrc_reconcile, engine. fold (desired_peers cfg nodes).
  fold D. munfold. cbn. unfold peer_diff.
  set (add := filter (λ d, d ∉ cur) D).
  set (rem := neighbor <$> filter (λ c, neighbor c ∉ neighbor <$> D) cur).
  set (conf := λ p, to_peer_config p (rc_graceful_restart cfg)).
  assert (∀ a l1 l2, (∀ x, x ∈ l1 → x ∈ add) → (∀ x, x ∈ l2 → x ∈ rem) → a ∉ neighbor <$> cur → a ∉ neighbor <$> D →
    delete_all id (insert_all (λ x, pc_neighbor (conf x)) conf (sp_peers sp) l1) l2 !! a = sp_peers sp !! a) as Hother.
  { intros a l1 l2 H1 H2 Hc Hd. rewrite delete_all_notin, insert_all_notin; [done|..].
    - change ((λ x, pc_neighbor (conf x)) <$> l1) with (neighbor <$> l1). intros (p & -> & [_ Hp]%H1%list_elem_of_filter)%list_elem_of_fmap.
      apply Hd. by apply list_elem_of_fmap_2.
    - rewrite list_fmap_id. intros (p & -> & [_ Hp]%list_elem_of_filter)%H2%list_elem_of_fmap.
      apply Hc. by apply list_elem_of_fmap_2. }
  destruct (mfor add _ _) as [[e|[]] [w1 sp1]] eqn:Hrun;
    apply add_peers_run in Hrun as (adds & rest & Hl & Hrest & Hps & _); cbn [fst snd] in Hps.
  { cbn. split; [|done]. intros a Hc Hd. rewrite Hps. apply (Hother a adds []); try done.
    - intros x Hx. rewrite Hl. apply elem_of_app. by left.
    - by intros x ?%elem_of_nil. }
  rewrite (Hrest eq_refl), app_nil_r in Hl. subst adds. cbn.
  destruct (mfor rem _ _) as [[e|[]] [w2 sp2]] eqn:Hrun;
    apply delete_peers_run in Hrun as (dels & rest' & Hl' & Hrest' & Hps' & _); cbn [fst snd] in Hps'.
  { cbn. split; [|done]. intros a Hc Hd. rewrite Hps', Hps. apply (Hother a add dels); try done.
    intros x Hx. rewrite Hl'. apply elem_of_app. by left. }
  rewrite (Hrest' eq_refl), app_nil_r in Hl'. subst dels. cbn. rewrite Hps', Hps.
  split; [intros a Hc Hd; by apply Hother|]. intros n _. split; [done|].
  assert (NoDup (neighbor <$> add)) as Hnda by by apply NoDup_fmap_filter. split.
  - intros p Hp. exists (conf p). split; [|by apply configured_is].
    rewrite delete_all_notin.
    2:{ rewrite list_fmap_id. intros (q & Hq & [Hn _]%list_elem_of_filter)%list_elem_of_fmap.
        destruct Hn. rewrite <-Hq. by apply list_elem_of_fmap_2. }
    destruct (decide (p ∈ cur)) as [Hpc|Hpc].
    + rewrite insert_all_notin; [by destruct (Hcur p Hpc) as (c & Hc & ->%configured_is)|].
      change ((λ x, pc_neighbor (conf x)) <$> add) with (neighbor <$> add). intros (q & Hq & [Hqc HqD]%list_elem_of_filter)%list_elem_of_fmap.
      by rewrite (NoDup_fmap_elem_inj neighbor D p q) in Hpc.
    + apply (insert_all_in (λ p, pc_neighbor (conf p)) conf _ add p); [done|]. by apply list_elem_of_filter.
  - intros a (p & -> & Hp)%list_elem_of_fmap Hd. apply delete_all_in. rewrite list_fmap_id.
    apply list_elem_of_fmap_2. by apply list_elem_of_filter.
Qed.

(** A pass that fails is not repaired: the peers are recorded as configured
    before the engine is called, so the next pass over the same nodes reports
    success without calling the engine at all. *)
Theorem failed_pass_not_retried cfg nodes (s s' : NrcState W) e :
  reconcile_and_apply cfg nodes s = (inl e, s') →
  reconcile_and_apply cfg nodes s' = (inr (0, 0)%nat, s').
Proof.
  intros Hrun.
  assert (current_peers s' = desired_peers cfg nodes) as Hcur.
  { revert Hrun. unfold reconcile_and_apply, nrc_reconcile, engine.
    fold (desired_peers cfg nodes). munfold. cbn.
    destruct (mfor _ _ _) as [[?|[]] ?]; [by intros [= <- <-]|].
    destruct (mfor _ _ _) as [[?|[]] ?]; by intros [= <- <-]. }
  unfold reconcile_and_apply, nrc_reconcile, engine. fold (desired_peers cfg nodes). munfold.
  unfold peer_diff. rewrite <-Hcur. cbn.
  rewrite (filter_none (λ d, d ∉ current_peers s')) by (intros x Hx Hn; by apply Hn).
  rewrite (filter_none (λ c, neighbor c ∉ neighbor <$> current_peers s'))
    by (intros x Hx Hn; apply Hn; by apply list_elem_of_fmap_2).
  cbn. by destruct s'.
Qed.
End routes.

Definition rc_demo : RoutesControllerConfig :=
  {| rc_local := PeersTheorems.node_demo "a" 1 64512 None None; rc_full_mesh := true;
     rc_enable_ibgp := true; rc_graceful_restart := None |}.
Definition nodes_demo : list NodeBgp :=
  [PeersTheorems.node_demo "a" 1 64512 None None; PeersTheorems.node_demo "b" 2 64512 None None;
   PeersTheorems.node_demo "c" 3 64512 None None].

(** The peer [b] was recorded, [x] is an external peer and [c] is new. *)
Definition peer_of (last : Z) : BgpPeer :=
  {| neighbor := V4 last; peer_asn := 64512; is_external := false; rr_client := false;
     rr_cluster_id := None |}.
Definition speaker_demo : Speaker (H := ref_net_lib) :=
  {| sp_peers := <[V4 2 := to_peer_config (peer_of 2) None]>
                 (<[V4 9 := to_peer_config (peer_of 9) None]> ∅); sp_rib := ∅ |}.

Lemma reconcile_and_apply_correct_witness :
  let D := desired_peers rc_demo nodes_demo in
  let '(r, s) := reconcile_and_apply rc_demo nodes_demo
    (with_speaker (H := ref_net_lib) [peer_of 2] [] false mock_bgp_new speaker_demo) in
  (∀ a, a ∉ neighbor <$> [peer_of 2] → a ∉ neighbor <$> D →
     sp_peers (nrc_engine s).2 !! a = sp_peers speaker_demo !! a) ∧
  (∀ n, r = inr n →
     current_peers s = D ∧ peered None (sp_peers (nrc_engine s).2) D ∧
     ∀ a, a ∈ neighbor <$> [peer_of 2] → a ∉ neighbor <$> D → sp_peers (nrc_engine s).2 !! a = None).
Proof.
  apply (reconcile_and_apply_correct (H := ref_net_lib) rc_demo nodes_demo [peer_of 2] [] false
           mock_bgp_new speaker_demo).
  - intros p ->%list_elem_of_singleton. exists (to_peer_config (peer_of 2) None).
    split; [reflexivity|by apply configured_is].
  - cbn. apply (bool_decide_unpack _). reflexivity.
Defined.

(** An engine that refuses every peer. *)
Definition refusing : BgpEngine (H := ref_net_lib) nat := {|
  bgp_start _ := mret tt; bgp_stop := mret tt;
  add_peer _ := λ n, (inl (BgpEngineError "refused"), S n);
  delete_peer _ := mret tt; add_path _ := mret tt; delete_path _ := mret tt;
|}.

Lemma failed_pass_not_retried_witness :
  let s := {| current_peers := []; external_peers := []; external_applied := true;
              nrc_engine := 0%nat |} in
  let '(r, s') := reconcile_and_apply (BgpEngine0 := refusing) rc_demo nodes_demo s in
  r = inl (BgpEngineError "refused") ∧ nrc_engine s' = 1%nat ∧
  reconcile_and_apply (BgpEngine0 := refusing) rc_demo nodes_demo s' = (inr (0, 0)%nat, s').
Proof.
  split; [reflexivity|]. split; [reflexivity|].
  eapply (failed_pass_not_retried (BgpEngine0 := refusing) rc_demo nodes_demo
           {| current_peers := []; external_peers := []; external_applied := true;
              nrc_engine := 0%nat |}).
  reflexivity.
Defined.
End RoutesTheorems.

(** ** Service addresses *)

Module ServiceVipsTheorems.
Import ServiceVips.

Section vips.
Context `{IpNetLaws}.

Definition host_len (ip : IpAddr) : Z := ip_width (is_ipv6 ip).

Lemma host_route_some ip : ip_wf ip →
  ∃ n, host_route ip = Some n ∧ net_addr n = ip ∧ net_prefix_len n = host_len ip.
Proof. intros Hw. destruct ip; cbn; apply net_new_some; done. Qed.

(** A category of addresses of a service is announced when its annotation, or
    else the default, says so, and a local traffic policy has endpoints here. *)
Definition announces (default_on : bool) (annotation : option bool) (local_policy : bool)
    (svc : SvcVip) : Prop :=
  default default_on annotation = true ∧
  (local_policy = true → sv_has_local_endpoints svc = true).

(** The host routes announced for a set of services are those of the cluster,
    external and load-balancer addresses whose category is announced; the
    computation never panics. *)
Theorem advertised_service_vips_spec services d :
  (∀ svc, svc ∈ services →
     Forall ip_wf (sv_cluster_ips svc ++ sv_external_ips svc ++ sv_lb_ips svc)) →
  ∃ out, advertised_service_vips services d = Some out ∧
    ∀ n, n ∈ out ↔ ∃ svc ip, svc ∈ services ∧
      net_addr n = ip ∧ net_prefix_len n = host_len ip ∧
      ((ip ∈ sv_cluster_ips svc ∧
          announces (ad_cluster d) (sv_adv_cluster svc) (sv_internal_traffic_local svc) svc) ∨
       (ip ∈ sv_external_ips svc ∧
          announces (ad_external d) (sv_adv_external svc) (sv_external_traffic_local svc) svc) ∨
       (ip ∈ sv_lb_ips svc ∧ sv_skip_lb_ips svc = false ∧
          announces (ad_loadbalancer d) (sv_adv_lb svc) (sv_external_traffic_local svc) svc)).
Proof.
  intros Hwf. unfold advertised_service_vips.
  set (ips := services ≫= service_vip_ips d).
  assert (∀ svc ip, ip ∈ service_vip_ips d svc ↔
    ((ip ∈ sv_cluster_ips svc ∧
        announces (ad_cluster d) (sv_adv_cluster svc) (sv_internal_traffic_local svc) svc) ∨
     (ip ∈ sv_external_ips svc ∧
        announces (ad_external d) (sv_adv_external svc) (sv_external_traffic_local svc) svc) ∨
     (ip ∈ sv_lb_ips svc ∧ sv_skip_lb_ips svc = false ∧
        announces (ad_loadbalancer d) (sv_adv_lb svc) (sv_external_traffic_local svc) svc)))
    as Hips.
  { intros svc ip. unfold service_vip_ips, should_advertise, announces.
    rewrite !elem_of_app.
    destruct (default _ (sv_adv_cluster svc)), (default _ (sv_adv_external svc)),
      (default _ (sv_adv_lb svc)), (sv_internal_traffic_local svc),
      (sv_external_traffic_local svc), (sv_has_local_endpoints svc), (sv_skip_lb_ips svc);
      cbn; rewrite ?elem_of_nil; intuition congruence. }
  assert (∀ ip, ip ∈ ips → ip_wf ip) as Hw.
  { intros ip (svc & Hip & Hsvc)%list_elem_of_bind. specialize (Hwf svc Hsvc).
    rewrite Forall_forall in Hwf. apply Hwf. rewrite !elem_of_app.
    apply Hips in Hip. tauto. }
  assert (∃ ns, mapM host_route ips = Some ns) as [ns Hns].
  { apply mapM_is_Some_2, Forall_forall. intros ip Hip.
    destruct (host_route_some ip (Hw ip Hip)) as (n & Hn & _). by exists n. }
  rewrite Hns. eexists. split; [reflexivity|]. intros n. rewrite elem_of_list_to_set.
  apply mapM_Some in Hns. split.
  - intros Hn. apply list_elem_of_lookup in Hn as [i Hi].
    destruct (Forall2_lookup_r _ _ _ _ _ Hns Hi) as (ip & Hip & Hr).
    apply list_elem_of_lookup_2 in Hip as Hin.
    destruct (host_route_some ip (Hw ip Hin)) as (n' & Hr' & Ha & Hp).
    rewrite Hr in Hr'. simplify_eq. apply list_elem_of_bind in Hin as (svc & Hin & Hsvc).
    exists svc, (net_addr n'). split_and!; try done. by apply Hips.
  - intros (svc & ip & Hsvc & Ha & Hp & Hip). apply Hips in Hip.
    assert (ip ∈ ips) as Hin by (apply list_elem_of_bind; by exists svc).
    destruct (host_route_some ip (Hw ip Hin)) as (n' & Hr & Ha' & Hp').
    assert (n = n') as -> by (apply net_ext; congruence).
    apply list_elem_of_lookup in Hin as [i Hi].
    destruct (Forall2_lookup_l _ _ _ _ _ Hns Hi) as (n'' & Hn'' & Hr'').
    rewrite Hr in Hr''. simplify_eq. by eapply list_elem_of_lookup_2.
Qed.
End vips.

Definition svc_demo : SvcVip :=
  {| sv_cluster_ips := [ip_of "10.96.0.10"]; sv_external_ips := [ip_of "203.0.113.5"];
     sv_lb_ips := []; sv_internal_traffic_local := false; sv_external_traffic_local := true;
     sv_has_local_endpoints := false; sv_adv_cluster := Some true; sv_adv_external := None;
     sv_adv_lb := None; sv_skip_lb_ips := false |}.
Definition defaults_demo : AdvertiseDefaults :=
  {| ad_cluster := false; ad_external := true; ad_loadbalancer := true |}.

Lemma advertised_service_vips_spec_witness :
  ∃ out, advertised_service_vips (H := ref_net_lib) [svc_demo] defaults_demo = Some out ∧
    ∀ n, n ∈ out ↔ ∃ svc ip, svc ∈ [svc_demo] ∧
      net_addr n = ip ∧ net_prefix_len n = host_len ip ∧
      ((ip ∈ sv_cluster_ips svc ∧
          announces (ad_cluster defaults_demo) (sv_adv_cluster svc)
            (sv_internal_traffic_local svc) svc) ∨
       (ip ∈ sv_external_ips svc ∧
          announces (ad_external defaults_demo) (sv_adv_external svc)
            (sv_external_traffic_local svc) svc) ∨
       (ip ∈ sv_lb_ips svc ∧ sv_skip_lb_ips svc = false ∧
          announces (ad_loadbalancer defaults_demo) (sv_adv_lb svc)
            (sv_external_traffic_local svc) svc)).
Proof.
  apply (advertised_service_vips_spec (H := ref_net_lib) [svc_demo] defaults_demo).
  intros svc ->%list_elem_of_singleton.
  constructor; [split; by vm_compute|]. constructor; [split; by vm_compute|]. constructor.
Defined.
End ServiceVipsTheorems.

(** ** Communities and tunnel names *)

Module PolicyTheorems.
Import BgpPolicy Overlay Naming.

(** A community written [high:low] in decimal parses to the 32-bit value with
    those halves, and every value the parser accepts fits 32 bits. *)
Theorem parse_community_correct hi lo s n :
  (0 ≤ hi ≤ u16_max → 0 ≤ lo ≤ u16_max →
   parse_community (pretty hi +:+ ":" +:+ pretty lo) = inr (hi * 65536 + lo)) ∧
  (parse_community s = inr n → 0 ≤ n ≤ u32_max).
Proof.
  unfold parse_community. assert (∀ a b, 0 ≤ a ≤ u16_max → 0 ≤ b ≤ u16_max →
    Z.lor (Z.shiftl a 16) b = a * 65536 + b) as Hlor.
  { intros a b Ha Hb. unfold u16_max in *. rewrite Z.shiftl_mul_pow2 by lia.
    rewrite <-Z.add_lor_land. change (2 ^ 16) with 65536.
    enough (Z.land (a * 65536) b = 0) as -> by lia. apply Z.bits_inj'. intros i Hi.
    rewrite Z.land_spec, Z.bits_0. destruct (Z.lt_ge_cases i 16) as [Hlt|Hge].
    - change 65536 with (2 ^ 16). by rewrite Z.mul_pow2_bits_low.
    - rewrite (Z.bits_above_log2 b); [apply andb_false_r|lia|].
      destruct (Z.eq_dec b 0) as [->|]; [cbn; lia|]. apply Z.log2_lt_pow2; [lia|].
      pose proof (Z.pow_le_mono_r 2 16 i ltac:(lia) Hge). lia. }
  split.
  - intros Hhi Hlo. rewrite trim_nospace.
    + change (":" +:+ pretty lo) with (String ":" (pretty lo)). rewrite split_once_spec.
      * unfold parse_u16. rewrite !parse_uint_pretty by done. f_equal. by apply Hlor.
      * eapply str_all_impl; [apply digit_not_colon|]. apply pretty_digits. lia.
    + rewrite !str_all_app. apply andb_true_iff.
      split; [|apply andb_true_iff; split; [done|]];
        (eapply str_all_impl; [apply digit_not_space|]; apply pretty_digits; lia).
  - destruct (split_once _ _) as [[h l]|].
    + destruct (parse_u16 h) as [x|] eqn:Hx; [|done].
      destruct (parse_u16 l) as [y|] eqn:Hy; [|done].
      apply parse_uint_range in Hx, Hy. intros [= <-]. rewrite Hlor by done.
      unfold u16_max, u32_max in *. lia.
    + destruct (parse_u32 _) as [x|] eqn:Hx; [|done]. intros [= <-].
      by apply parse_uint_range in Hx.
Qed.

Lemma parse_community_correct_witness :
  (0 ≤ 64512 ≤ u16_max → 0 ≤ 100 ≤ u16_max →
   parse_community (pretty 64512 +:+ ":" +:+ pretty 100) = inr (64512 * 65536 + 100)) ∧
  (parse_community "64512:100" = inr 4227858532 → 0 ≤ 4227858532 ≤ u32_max).
Proof. apply (parse_community_correct 64512 100 "64512:100" 4227858532). Defined.

(** A tunnel device name has exactly the 15 characters Linux allows. *)
Theorem tunnel_name_length `{HashLaws} (next_hop : IpAddr) :
  String.length (tunnel_name next_hop) = 15%nat.
Proof.
  unfold tunnel_name. rewrite length_append, length_substring_0; [done|].
  rewrite length_hash16. unfold HASH_LEN. lia.
Qed.
End PolicyTheorems.
