(* ===== verification/Proxy.v ===== *)
(** * Proxy: the parts of the service proxy ([crates/proxy])

    The projected services ([model.rs]), the IPVS operations with the in-memory
    instance and the [ipvsadm] arguments ([ipvs.rs]), and the components the
    service sync of [ProxySync.v] composes, one module per source file:
    [Graceful], [Validation], [TcpMss], [Hairpin], [Masquerade], [Firewall],
    [Dsr], [NodePortHc] and [LocalIps].  Handlers that the program passes around
    as trait objects are records of operations over a world. *)

From stdpp Require Import gmap sets list strings pretty.
From Stdlib Require Import Ascii ZArith Lia.
From S2P Require Import Prelude Text Net Netlink.

Local Open Scope Z_scope.

(** ** Model ([model.rs]) *)

Inductive Protocol := Tcp | Udp | Sctp.
#[export] Instance Protocol_eq_dec : EqDecision Protocol.
Proof. solve_decision. Defined.
#[export] Instance Protocol_countable : Countable Protocol.
Proof.
  refine (inj_countable' (λ p, match p with Tcp => 0 | Udp => 1 | Sctp => 2 end)
    (λ z, if decide (z = 0) then Tcp else if decide (z = 1) then Udp else Sctp) _).
  by intros [].
Defined.

Definition protocol_parse (s : string) : Protocol :=
  let u := to_ascii_uppercase s in
  if decide (u = "UDP") then Udp else if decide (u = "SCTP") then Sctp else Tcp.

Inductive Scheduler := Rr | Lc | Sh | Dh | Mh.
#[export] Instance Scheduler_eq_dec : EqDecision Scheduler.
Proof. solve_decision. Defined.

Definition scheduler_parse (s : string) : Scheduler :=
  let l := to_ascii_lowercase (trim s) in
  if decide (l = "lc") then Lc
  else if decide (l = "sh") then Sh
  else if decide (l = "dh") then Dh
  else if decide (l = "mh") then Mh
  else Rr.

Definition ipvs_name (s : Scheduler) : string :=
  match s with Rr => "rr" | Lc => "lc" | Sh => "sh" | Dh => "dh" | Mh => "mh" end.

Record SchedFlags := { flag1 : bool; flag2 : bool; flag3 : bool }.
#[export] Instance SchedFlags_eq_dec : EqDecision SchedFlags.
Proof. solve_decision. Defined.

Definition no_flags : SchedFlags := {| flag1 := false; flag2 := false; flag3 := false |}.

Definition sched_flags_step (f : SchedFlags) (tok : string) : SchedFlags :=
  let t := trim tok in
  if decide (t = "flag-1") then {| flag1 := true; flag2 := flag2 f; flag3 := flag3 f |}
  else if decide (t = "flag-2") then {| flag1 := flag1 f; flag2 := true; flag3 := flag3 f |}
  else if decide (t = "flag-3") then {| flag1 := flag1 f; flag2 := flag2 f; flag3 := true |}
  else f.

Definition sched_flags_parse (value : string) : SchedFlags :=
  foldl sched_flags_step no_flags (split_char "," value).

Record ServiceInfo := {
  si_namespace : string;
  si_name : string;
  si_port_name : string;
  si_protocol : Protocol;
  si_port : Z;
  si_node_port : option Z;
  si_cluster_ips : list IpAddr;
  si_external_ips : list IpAddr;
  si_load_balancer_ips : list IpAddr;
  si_scheduler : Scheduler;
  si_sched_flags : SchedFlags;
  si_session_affinity : bool;
  si_affinity_timeout : Z;
  si_dsr : bool;
  si_internal_traffic_local : bool;
  si_external_traffic_local : bool;
  si_hairpin : bool;
  si_hairpin_external_ips : bool;
  si_health_check_node_port : option Z;
}.

Definition service_id (self : ServiceInfo) : string :=
  si_namespace self +:+ "/" +:+ si_name self +:+ "/" +:+ si_port_name self.

Record EndpointInfo := { ep_ip : IpAddr; ep_port : Z; ep_is_local : bool; ep_ready : bool }.

(** ** IPVS ([ipvs.rs]) *)

Record IpvsService := {
  vs_addr : IpAddr;
  vs_protocol : Protocol;
  vs_port : Z;
  vs_scheduler : Scheduler;
  vs_sched_flags : SchedFlags;
  vs_persistent : option Z;
}.
#[export] Instance IpvsService_eq_dec : EqDecision IpvsService.
Proof. solve_decision. Defined.

Definition ServiceKey : Type := IpAddr * Protocol * Z.

(** [IpvsService::key] *)
Definition vs_key (s : IpvsService) : ServiceKey := (vs_addr s, vs_protocol s, vs_port s).

Record IpvsDestination := {
  rs_addr : IpAddr;
  rs_port : Z;
  rs_weight : Z;
  rs_tunnel : bool;
}.
#[export] Instance IpvsDestination_eq_dec : EqDecision IpvsDestination.
Proof. solve_decision. Defined.

Definition rs_key (d : IpvsDestination) : IpAddr * Z := (rs_addr d, rs_port d).

(** [ad.addr == bd.addr && ad.port == bd.port] *)
Definition same_backend (a b : IpvsDestination) : bool := bool_decide (rs_key a = rs_key b).

Record ServiceStats := {
  st_connections : Z;
  st_packets_in : Z;
  st_packets_out : Z;
  st_bytes_in : Z;
  st_bytes_out : Z;
  st_cps : Z;
  st_pps_in : Z;
  st_pps_out : Z;
  st_bps_in : Z;
  st_bps_out : Z;
}.
Definition no_stats : ServiceStats :=
  {| st_connections := 0; st_packets_in := 0; st_packets_out := 0; st_bytes_in := 0;
     st_bytes_out := 0; st_cps := 0; st_pps_in := 0; st_pps_out := 0; st_bps_in := 0;
     st_bps_out := 0 |}.

(** [IpvsError] *)
Record IpvsError := IpvsErr { ipvs_why : string }.

Class IpvsOps (W : Type) := {
  add_service : IpvsService → M W IpvsError unit;
  edit_service : IpvsService → M W IpvsError unit;
  del_service : IpvsService → M W IpvsError unit;
  add_destination : IpvsService → IpvsDestination → M W IpvsError unit;
  del_destination : IpvsService → IpvsDestination → M W IpvsError unit;
  update_destination : IpvsService → IpvsDestination → M W IpvsError unit;
  dest_conn_stats : IpvsService → IpvsDestination → M W IpvsError (option (Z * Z));
  flush_conntrack_udp : IpAddr → Z → M W IpvsError unit;
  service_stats : M W IpvsError (list (IpvsService * ServiceStats));
  add_fwmark_service : Z → Scheduler → option Z → M W IpvsError unit;
  add_fwmark_destination : Z → IpvsDestination → M W IpvsError unit;
}.

Definition proto_debug (p : Protocol) : string :=
  match p with Tcp => "Tcp" | Udp => "Udp" | Sctp => "Sctp" end.

(** [format!("{:?}", key)]: the debug form of the tuple. *)
Definition key_debug (k : ServiceKey) : string :=
  let '(addr, proto, port) := k in
  "(" +:+ ip_to_string addr +:+ ", " +:+ proto_debug proto +:+ ", " +:+ pretty port +:+ ")".

(** [svc_key] of [sync.rs]. *)
Definition svc_key (s : IpvsService) : string := key_debug (vs_key s).

Module IpvsArgs.

Definition vip_port (addr : IpAddr) (port : Z) : string :=
  match addr with
  | V4 _ => ip_to_string addr +:+ ":" +:+ pretty port
  | V6 _ => "[" +:+ ip_to_string addr +:+ "]:" +:+ pretty port
  end.

Definition proto_flag (p : Protocol) : string :=
  match p with Tcp => "-t" | Udp => "-u" | Sctp => "--sctp-service" end.

Definition persistent_args (persistent : option Z) : list string :=
  match persistent with Some t => ["-p"; pretty t] | None => [] end.

Definition forward_arg (d : IpvsDestination) : string := if rs_tunnel d then "-i" else "-m".

Definition add_fwmark_service_args (fwmark : Z) (scheduler : Scheduler) (persistent : option Z)
    : list string :=
  ["-A"; "-f"; pretty fwmark; "-s"; ipvs_name scheduler] ++ persistent_args persistent.

Definition add_fwmark_dest_args (fwmark : Z) (dst : IpvsDestination) : list string :=
  ["-a"; "-f"; pretty fwmark; "-r"; vip_port (rs_addr dst) (rs_port dst); forward_arg dst;
   "-w"; pretty (rs_weight dst)].

Definition add_service_args (svc : IpvsService) : list string :=
  let f := vs_sched_flags svc in
  let sched_names := (if flag1 f then ["sh-fallback"] else []) ++
                     (if flag2 f then ["sh-port"] else []) in
  ["-A"; proto_flag (vs_protocol svc); vip_port (vs_addr svc) (vs_port svc);
   "-s"; ipvs_name (vs_scheduler svc)] ++
  match sched_names with [] => [] | _ => ["-b"; str_join "," sched_names] end ++
  persistent_args (vs_persistent svc).

Definition edit_service_args (svc : IpvsService) : list string :=
  <[0%nat := "-E"]> (add_service_args svc).

Definition del_service_args (svc : IpvsService) : list string :=
  ["-D"; proto_flag (vs_protocol svc); vip_port (vs_addr svc) (vs_port svc)].

Definition add_dest_args (svc : IpvsService) (dst : IpvsDestination) : list string :=
  ["-a"; proto_flag (vs_protocol svc); vip_port (vs_addr svc) (vs_port svc);
   "-r"; vip_port (rs_addr dst) (rs_port dst); forward_arg dst; "-w"; pretty (rs_weight dst)].

Definition edit_dest_args (svc : IpvsService) (dst : IpvsDestination) : list string :=
  <[0%nat := "-e"]> (add_dest_args svc dst).

Definition del_dest_args (svc : IpvsService) (dst : IpvsDestination) : list string :=
  ["-d"; proto_flag (vs_protocol svc); vip_port (vs_addr svc) (vs_port svc);
   "-r"; vip_port (rs_addr dst) (rs_port dst)].

Definition conntrack_flush_udp_args (addr : IpAddr) (port : Z) : list string :=
  ["-D"; "--orig-dst"; ip_to_string addr; "-p"; "udp"; "--dport"; pretty port].

End IpvsArgs.

Module IpvsStats.

Definition parse_addr_port (tok : string) : option (IpAddr * Z) :=
  '(a, p) ← match strip_prefix "[" tok with
            | Some rest => split_once_str "]:" rest
            | None => rsplit_once ":" tok
            end;
  a ← parse_ipaddr a;
  p ← parse_u16 p;
  Some (a, p).

Definition parse_proto (tok : string) : option Protocol :=
  if decide (tok = "TCP") then Some Tcp
  else if decide (tok = "UDP") then Some Udp
  else if decide (tok = "SCTP") then Some Sctp
  else None.

(** The fields of a statistics row: the service and its five numbers.  [None]
    for rows that are skipped. *)
Definition stats_row (line : string) : option (ServiceKey * (Z * Z * Z * Z * Z)) :=
  match split_whitespace line with
  | p :: ap :: a :: b :: c :: d :: e :: _ =>
      proto ← parse_proto p;
      '(addr, port) ← parse_addr_port ap;
      Some ((addr, proto, port),
            (parse_u64_or_0 a, parse_u64_or_0 b, parse_u64_or_0 c, parse_u64_or_0 d,
             parse_u64_or_0 e))
  | _ => None
  end.

Definition stats_step (m : gmap ServiceKey ServiceStats) (line : string)
    : gmap ServiceKey ServiceStats :=
  match stats_row line with
  | None => m
  | Some (k, (a, b, c, d, e)) =>
      <[k := {| st_connections := a; st_packets_in := b; st_packets_out := c; st_bytes_in := d;
                st_bytes_out := e; st_cps := 0; st_pps_in := 0; st_pps_out := 0;
                st_bps_in := 0; st_bps_out := 0 |}]> m
  end.

Definition rate_step (m : gmap ServiceKey ServiceStats) (line : string)
    : gmap ServiceKey ServiceStats :=
  match stats_row line with
  | None => m
  | Some (k, (a, b, c, d, e)) =>
      match m !! k with
      | None => m
      | Some s =>
          <[k := {| st_connections := st_connections s; st_packets_in := st_packets_in s;
                    st_packets_out := st_packets_out s; st_bytes_in := st_bytes_in s;
                    st_bytes_out := st_bytes_out s; st_cps := a; st_pps_in := b;
                    st_pps_out := c; st_bps_in := d; st_bps_out := e |}]> m
      end
  end.

(** [Ord] of the tuple key: address, protocol in declaration order, port. *)
Definition proto_rank (p : Protocol) : Z := match p with Tcp => 0 | Udp => 1 | Sctp => 2 end.
Definition service_key_le (a b : ServiceKey) : Prop :=
  let '(xa, xp, xn) := a in
  let '(ya, yp, yn) := b in
  (ip_le xa ya ∧ xa ≠ ya) ∨
  (xa = ya ∧ (proto_rank xp < proto_rank yp ∨ (xp = yp ∧ xn ≤ yn))).
#[export] Program Instance service_key_order : KeyOrder ServiceKey := {| key_le := service_key_le |}.
Next Obligation.
  intros [[xa xp] xn] [[ya yp] yn]. unfold service_key_le.
  pose proof (_ : Decision (key_le xa ya)) as Hd. cbn in Hd. apply _.
Defined.
Next Obligation.
  assert (PartialOrder ip_le) as Hpo by exact (key_le_po (K := IpAddr)).
  assert (∀ p q, proto_rank p = proto_rank q → p = q) as Hinj by by intros [] [].
  split; [split|].
  - intros [[a p] n]. cbn. right. split; [done|]. right. split; [done|lia].
  - intros [[a p] n] [[b q] m] [[c r] k]. cbn.
    intros [[Ha Hb]|[-> Hb]] [[Hc Hd]|[<- Hd]].
    + left. split; [by etransitivity|]. intros ->. apply Hb. by apply (anti_symm ip_le).
    + by left.
    + by left.
    + right. split; [done|]. destruct Hb as [Hb|[-> Hb]], Hd as [Hd|[<- Hd]]; [left; lia|auto|auto|].
      right. split; [done|lia].
  - intros [[a p] n] [[b q] m]. cbn. intros [[Ha Hb]|[-> Hb]] [[Hc Hd]|[He Hd]].
    + destruct Hb. by apply (anti_symm ip_le).
    + by destruct Hb.
    + done.
    + destruct Hb as [Hb|[-> Hb]], Hd as [Hd|[? Hd]]; subst; try lia. f_equal. lia.
Qed.
Next Obligation.
  intros [[a p] n] [[b q] m]. cbn. destruct (decide (a = b)) as [->|He].
  - destruct (Z.lt_trichotomy (proto_rank p) (proto_rank q)) as [?|[Hr|?]]; [left; auto| |right; auto].
    assert (p = q) as -> by (by destruct p, q).
    destruct (Z.le_ge_cases n m); [left|right]; auto.
  - destruct (total (key_le (K := IpAddr)) a b); [left|right]; left; auto.
Qed.

Definition stats_service (k : ServiceKey) : IpvsService :=
  let '(addr, protocol, port) := k in
  {| vs_addr := addr; vs_protocol := protocol; vs_port := port; vs_scheduler := Rr;
     vs_sched_flags := no_flags; vs_persistent := None |}.

Definition parse_ipvsadm_stats (stats rate : string) : list (IpvsService * ServiceStats) :=
  let m := foldl stats_step ∅ (str_lines stats) in
  let m := foldl rate_step m (str_lines rate) in
  prod_map stats_service id <$> btree_iter m.

End IpvsStats.

(** ** The in-memory IPVS of the tests ([mock]) *)

Module MockIpvs.

Record MockIpvs := {
  services : gmap string IpvsService;
  destinations : gmap string (list IpvsDestination);
  conn_stats : gmap string (Z * Z);
  conntrack_flushes : list (IpAddr * Z);
  mock_service_stats : gmap string ServiceStats;
  fwmark_services : list Z;
  fwmark_dests : list (Z * IpvsDestination);
  dest_writes : nat;
}.

Definition mock_ipvs_new : MockIpvs :=
  {| services := ∅; destinations := ∅; conn_stats := ∅; conntrack_flushes := [];
     mock_service_stats := ∅; fwmark_services := []; fwmark_dests := []; dest_writes := 0 |}.

(** [dk] *)
Definition dest_key_debug (svc : IpvsService) (dst : IpvsDestination) : string :=
  svc_key svc +:+ "|" +:+ ip_to_string (rs_addr dst) +:+ ":" +:+ pretty (rs_port dst).

Definition with_services (f : gmap string IpvsService → gmap string IpvsService) (w : MockIpvs) :=
  {| services := f (services w); destinations := destinations w; conn_stats := conn_stats w;
     conntrack_flushes := conntrack_flushes w; mock_service_stats := mock_service_stats w;
     fwmark_services := fwmark_services w; fwmark_dests := fwmark_dests w;
     dest_writes := dest_writes w |}.
Definition with_destinations
    (f : gmap string (list IpvsDestination) → gmap string (list IpvsDestination))
    (writes : nat) (w : MockIpvs) :=
  {| services := services w; destinations := f (destinations w); conn_stats := conn_stats w;
     conntrack_flushes := conntrack_flushes w; mock_service_stats := mock_service_stats w;
     fwmark_services := fwmark_services w; fwmark_dests := fwmark_dests w;
     dest_writes := dest_writes w + writes |}.

(** [v.retain(|e| !(e.addr == dst.addr && e.port == dst.port))] *)
Definition retain_backend (dst : IpvsDestination) (v : list IpvsDestination)
    : list IpvsDestination := filter (λ e, same_backend e dst = false) v.

Definition mock_add_destination (svc : IpvsService) (dst : IpvsDestination)
    : M MockIpvs IpvsError unit :=
  mmodify (with_destinations (λ m,
    <[svc_key svc := retain_backend dst (default [] (m !! svc_key svc)) ++ [dst]]> m) 1).

#[export] Instance mock_ipvs_ops : IpvsOps MockIpvs := {|
  add_service svc := mmodify (with_services <[svc_key svc := svc]>);
  edit_service svc := mmodify (with_services <[svc_key svc := svc]>);
  del_service svc := mmodify (λ w,
    with_destinations (delete (svc_key svc)) 0 (with_services (delete (svc_key svc)) w));
  add_destination := mock_add_destination;
  del_destination svc dst := mmodify (with_destinations (λ m,
    match m !! svc_key svc with
    | Some v => <[svc_key svc := retain_backend dst v]> m
    | None => m
    end) 0);
  update_destination := mock_add_destination;
  dest_conn_stats svc dst := λ w, (inr (conn_stats w !! dest_key_debug svc dst), w);
  flush_conntrack_udp addr port := mmodify (λ w,
    {| services := services w; destinations := destinations w; conn_stats := conn_stats w;
       conntrack_flushes := conntrack_flushes w ++ [(addr, port)];
       mock_service_stats := mock_service_stats w;
       fwmark_services := fwmark_services w; fwmark_dests := fwmark_dests w;
       dest_writes := dest_writes w |});
  service_stats := λ w,
    (inr ((λ kv, (kv.2, default no_stats (mock_service_stats w !! kv.1)))
            <$> btree_iter (services w)), w);
  add_fwmark_service mark _ _ := mmodify (λ w,
    {| services := services w; destinations := destinations w; conn_stats := conn_stats w;
       conntrack_flushes := conntrack_flushes w; mock_service_stats := mock_service_stats w;
       fwmark_services := fwmark_services w ++ [mark]; fwmark_dests := fwmark_dests w;
       dest_writes := dest_writes w |});
  add_fwmark_destination mark dst := mmodify (λ w,
    {| services := services w; destinations := destinations w; conn_stats := conn_stats w;
       conntrack_flushes := conntrack_flushes w; mock_service_stats := mock_service_stats w;
       fwmark_services := fwmark_services w; fwmark_dests := fwmark_dests w ++ [(mark, dst)];
       dest_writes := dest_writes w |});
|}.

End MockIpvs.

(** ** Graceful termination ([graceful.rs]) *)

Module Graceful.

(** [deadline] is an [Instant], in milliseconds. *)
Record PendingRemoval := {
  pr_svc : IpvsService;
  pr_dst : IpvsDestination;
  pr_deadline : Z;
}.

(** [GracefulQueue]: its field [items]. *)
Definition GracefulQueue : Type := list PendingRemoval.

Definition same_dst (a : IpvsService) (ad : IpvsDestination) (b : IpvsService)
    (bd : IpvsDestination) : bool :=
  bool_decide (vs_key a = vs_key b) && same_backend ad bd.

Definition enqueue (svc : IpvsService) (dst : IpvsDestination) (deadline : Z)
    (items : GracefulQueue) : GracefulQueue :=
  if existsb (λ p, same_dst (pr_svc p) (pr_dst p) svc dst) items then items
  else items ++ [{| pr_svc := svc; pr_dst := dst; pr_deadline := deadline |}].

Definition requeue (p : PendingRemoval) (items : GracefulQueue) : GracefulQueue := items ++ [p].

End Graceful.

Module Validation.

Definition validate_external_ip `{IpNetLib} (ip : IpAddr) (allowed cluster : list IpNet)
    (strict : bool) : bool :=
  if negb strict then true
  else if existsb (λ n, net_contains n ip) cluster then false
  else existsb (λ n, net_contains n ip) allowed.

End Validation.

(** ** iptables handlers

    One rule is its argument list.  [run] of the runtime handlers executes the
    family's binary on a table and reports whether it succeeded. *)

Definition Rule : Type := list string.

Definition iptables_base (family : IpFamily) : string :=
  match family with FamV4 => "iptables" | FamV6 => "ip6tables" end.

(** [Command::new(base).args(full).output()], with the error of the component. *)
Definition run_base {W E} `{!CommandRunner W} (mk_err : string → E) (base : string)
    (full : list string) : M W E bool := λ w,
  match run_command base full None w with
  | (inl e, w) => (inl (mk_err ("spawn " +:+ base +:+ " " +:+ debug_strings full +:+ ": " +:+ e)), w)
  | (inr (success, _, _), w) => (inr success, w)
  end.

(** [-C] then [-A], or an insertion at the top. *)
Definition check_or_add {W E} (run : list string → M W E bool) (fail : E)
    (check add : list string) : M W E unit :=
  present ← run check;
  if present : bool then mret tt
  else added ← run add; if added : bool then mret tt else mfail fail.

(** ** TCPMSS clamping ([tcpmss.rs]) *)

Module TcpMss.

Definition KUBE_BRIDGE : string := "kube-bridge".
Definition IPV4_HEADER_LEN : Z := 20.
Definition IPV6_HEADER_LEN : Z := 40.
Definition TCP_HEADER_MIN_LEN : Z := 20.

Definition tcp_mss (mtu : Z) (ipv6 : bool) : Z :=
  let ip_header := if ipv6 then IPV6_HEADER_LEN else IPV4_HEADER_LEN in
  mtu - (2 * ip_header + TCP_HEADER_MIN_LEN).

Definition tcpmss_mangle_args (ip : IpAddr) (port mss : Z) : Rule :=
  ["-s"; ip_to_string ip; "-m"; "tcp"; "-p"; "tcp"; "--sport"; pretty port; "-i"; KUBE_BRIDGE;
   "--tcp-flags"; "SYN,RST"; "SYN"; "-j"; "TCPMSS"; "--set-mss"; pretty mss].

(** [MangleError] *)
Record MangleError := MangleErr { mangle_why : string }.

(** The trait [MangleOps], as a value. *)
Record MangleOps (W : Type) := {
  mangle_append_unique : string → Rule → M W MangleError unit;
  mangle_delete : string → Rule → M W MangleError unit;
}.
#[global] Arguments mangle_append_unique {W} _ _ _.
#[global] Arguments mangle_delete {W} _ _ _.

Definition ensure_tcpmss {W} (ops : MangleOps W) (ip : IpAddr) (port mtu : Z)
    : M W MangleError unit :=
  mangle_append_unique ops "PREROUTING" (tcpmss_mangle_args ip port (tcp_mss mtu (is_ipv6 ip))).

Definition remove_tcpmss {W} (ops : MangleOps W) (ip : IpAddr) (port mtu : Z)
    : M W MangleError unit :=
  mangle_delete ops "PREROUTING" (tcpmss_mangle_args ip port (tcp_mss mtu (is_ipv6 ip))).

(** [SystemMangle] *)
Definition system_mangle_run {W} `{!CommandRunner W} (base op chain : string) (args : Rule)
    : M W MangleError bool :=
  run_base MangleErr base (["-w"; "-t"; "mangle"; op; chain] ++ args).

Definition system_mangle {W} `{!CommandRunner W} (family : IpFamily) : MangleOps W :=
  let base := iptables_base family in {|
  mangle_append_unique chain args :=
    present ← system_mangle_run base "-C" chain args;
    (if present : bool then mret tt
     else added ← system_mangle_run base "-A" chain args;
          if added : bool then mret tt
          else mfail (MangleErr ("failed to append mangle " +:+ chain +:+ " rule")));
  mangle_delete chain args := (λ _, tt) <$> system_mangle_run base "-D" chain args;
|}.

(** [MockMangle] *)
Record MockMangle := {
  mangle_appended : list (string * Rule);
  mangle_deleted : list (string * Rule);
}.

Definition mock_mangle : MangleOps MockMangle := {|
  mangle_append_unique chain args := mmodify (λ w,
    {| mangle_appended := mangle_appended w ++ [(chain, args)];
       mangle_deleted := mangle_deleted w |});
  mangle_delete chain args := mmodify (λ w,
    {| mangle_appended := mangle_appended w;
       mangle_deleted := mangle_deleted w ++ [(chain, args)] |});
|}.

End TcpMss.

(** ** Hairpin SNAT ([hairpin.rs]) *)

Module Hairpin.

Definition HAIRPIN_CHAIN : string := "KUBE-ROUTER-HAIRPIN".

Definition cidr_self (ip : IpAddr) : string :=
  match ip with
  | V4 _ => ip_to_string ip +:+ "/32"
  | V6 _ => ip_to_string ip +:+ "/128"
  end.

Definition hairpin_snat_args (ep_ip vip : IpAddr) (port : Z) : Rule :=
  ["-s"; cidr_self ep_ip; "-d"; cidr_self ep_ip; "-m"; "ipvs"; "--vaddr"; ip_to_string vip;
   "--vport"; pretty port; "-j"; "SNAT"; "--to-source"; ip_to_string vip].

Definition hairpin_jump_args : Rule :=
  ["-m"; "ipvs"; "--vdir"; "ORIGINAL"; "-j"; HAIRPIN_CHAIN].

(** [if !rules.contains(&rule) { rules.push(rule) }] *)
Definition push_new (rules : list Rule) (rule : Rule) : list Rule :=
  if list_contains rules rule then rules else rules ++ [rule].

(** The addresses of a service that get hairpin rules in a family. *)
Definition hairpin_vips (ipv6 : bool) (svc : ServiceInfo) : list IpAddr :=
  filter (λ v, is_ipv6 v = ipv6)
    (si_cluster_ips svc ++
     (if si_hairpin_external_ips svc then si_external_ips svc else [])).

(** The rules one service contributes, in the order they are pushed. *)
Definition service_hairpin_rules (global ipv6 : bool) (x : ServiceInfo * list EndpointInfo)
    : list Rule :=
  let '(svc, eps) := x in
  if negb (global || si_hairpin svc) then []
  else
    ep ← filter (λ ep, ep_is_local ep = true ∧ ep_ready ep = true ∧ is_ipv6 (ep_ip ep) = ipv6) eps;
    (λ vip, hairpin_snat_args (ep_ip ep) vip (si_port svc)) <$> hairpin_vips ipv6 svc.

Definition hairpin_rules_for_family (services : list (ServiceInfo * list EndpointInfo))
    (global ipv6 : bool) : list Rule :=
  foldl push_new [] (services ≫= service_hairpin_rules global ipv6).

(** [NatError] *)
Record NatError := NatErr { nat_why : string }.

(** The trait [NatOps], as a value. *)
Record NatOps (W : Type) := {
  nat_ensure_chain : string → M W NatError unit;
  nat_append_unique : string → Rule → M W NatError unit;
  nat_flush_chain : string → M W NatError unit;
  nat_delete : string → Rule → M W NatError unit;
}.
#[global] Arguments nat_ensure_chain {W} _ _.
#[global] Arguments nat_append_unique {W} _ _ _.
#[global] Arguments nat_flush_chain {W} _ _.
#[global] Arguments nat_delete {W} _ _ _.

Definition sync_hairpin {W} (ops : NatOps W) (rules : list Rule) : M W NatError unit :=
  nat_ensure_chain ops HAIRPIN_CHAIN;;
  nat_append_unique ops "POSTROUTING" hairpin_jump_args;;
  nat_flush_chain ops HAIRPIN_CHAIN;;
  mfor rules (nat_append_unique ops HAIRPIN_CHAIN).

(** [SystemNat] *)
Definition system_nat_run {W} `{!CommandRunner W} (base : string) (args : list string)
    : M W NatError bool :=
  run_base NatErr base (["-w"; "-t"; "nat"] ++ args).

Definition system_nat {W} `{!CommandRunner W} (family : IpFamily) : NatOps W :=
  let run := system_nat_run (iptables_base family) in {|
  nat_ensure_chain chain := (λ _, tt) <$> run ["-N"; chain];
  nat_append_unique chain args :=
    check_or_add run (NatErr ("failed to append nat " +:+ chain +:+ " rule"))
      (["-C"; chain] ++ args) (["-A"; chain] ++ args);
  nat_flush_chain chain := (λ _, tt) <$> run ["-F"; chain];
  nat_delete chain args := (λ _, tt) <$> run (["-D"; chain] ++ args);
|}.

(** [MockNat] *)
Record MockNat := {
  nat_chains : list string;
  nat_appended : list (string * Rule);
  nat_flushed : list string;
  nat_deleted : list (string * Rule);
}.

Definition mock_nat : NatOps MockNat := {|
  nat_ensure_chain chain := mmodify (λ w,
    {| nat_chains := nat_chains w ++ [chain]; nat_appended := nat_appended w;
       nat_flushed := nat_flushed w; nat_deleted := nat_deleted w |});
  nat_append_unique chain args := mmodify (λ w,
    {| nat_chains := nat_chains w; nat_appended := nat_appended w ++ [(chain, args)];
       nat_flushed := nat_flushed w; nat_deleted := nat_deleted w |});
  nat_flush_chain chain := mmodify (λ w,
    {| nat_chains := nat_chains w; nat_appended := nat_appended w;
       nat_flushed := nat_flushed w ++ [chain]; nat_deleted := nat_deleted w |});
  nat_delete chain args := mmodify (λ w,
    {| nat_chains := nat_chains w; nat_appended := nat_appended w;
       nat_flushed := nat_flushed w; nat_deleted := nat_deleted w ++ [(chain, args)] |});
|}.

End Hairpin.

(** ** Masquerade ([masquerade.rs]) *)

Module Masquerade.
Import Hairpin.

Definition masquerade_args (primary_ip : IpAddr) (cidr : option string) (random_fully : bool)
    : Rule :=
  ["-m"; "ipvs"; "--ipvs"; "--vdir"; "ORIGINAL"; "--vmethod"; "MASQ"] ++
  match cidr with Some c => ["!"; "-s"; c; "!"; "-d"; c] | None => [] end ++
  ["-j"; "SNAT"; "--to-source"; ip_to_string primary_ip] ++
  (if random_fully then ["--random-fully"] else []).

Definition sync_masquerade_rules {W} (ops : NatOps W) (primary_ip : IpAddr)
    (pod_cidrs : list string) (masquerade_all random_fully : bool) : M W NatError unit :=
  let all_rule := masquerade_args primary_ip None random_fully in
  (if masquerade_all then nat_append_unique ops "POSTROUTING" all_rule
   else nat_delete ops "POSTROUTING" all_rule);;
  mfor pod_cidrs (λ cidr,
    nat_append_unique ops "POSTROUTING" (masquerade_args primary_ip (Some cidr) random_fully)).

End Masquerade.

(** ** The IPVS service firewall ([firewall.rs]) *)

Module Firewall.

Definition LOCAL_IPS_SET : string := "kube-router-local-ips".
Definition SERVICE_IPS_SET : string := "kube-router-svip".
Definition SERVICE_IP_PORTS_SET : string := "kube-router-svip-prt".
Definition FIREWALL_CHAIN : string := "KUBE-ROUTER-SERVICES".

Definition ipset_name (base : string) (ipv6 : bool) : string :=
  if ipv6 then "inet6:" +:+ base else base.

Definition fw_proto_name (p : Protocol) : string :=
  match p with Tcp => "tcp" | Udp => "udp" | Sctp => "132" end.

Definition icmp_types (ipv6 : bool) : list (string * string) :=
  [("echo-request", "allow icmp echo requests");
   ("destination-unreachable", "allow icmp destination unreachable messages");
   ("time-exceeded", "allow icmp time exceeded messages")] ++
  (if ipv6 then
     [("neighbor-solicitation", "allow icmp neighbor solicitation messages");
      ("neighbor-advertisement", "allow icmp neighbor advertisement messages");
      ("echo-reply", "allow icmp echo reply messages")]
   else []).

Definition icmp_accept_rules (ipv6 : bool) : list Rule :=
  let '(proto, type_flag) :=
    if ipv6 then ("ipv6-icmp", "--icmpv6-type") else ("icmp", "--icmp-type") in
  (λ tc : string * string,
     ["-m"; "comment"; "--comment"; tc.2; "-p"; proto; type_flag; tc.1; "-j"; "ACCEPT"])
    <$> icmp_types ipv6.

Definition service_accept_rule (ipv6 : bool) : Rule :=
  ["-m"; "comment"; "--comment"; "allow input traffic to ipvs services"; "-m"; "set";
   "--match-set"; ipset_name SERVICE_IP_PORTS_SET ipv6; "dst,dst"; "-j"; "ACCEPT"].

Definition reject_rule (ipv6 : bool) : Rule :=
  let reject_with := if ipv6 then "icmp6-port-unreachable" else "icmp-port-unreachable" in
  ["-m"; "comment"; "--comment"; "reject all unexpected traffic to service IPs"; "-m"; "set";
   "!"; "--match-set"; ipset_name LOCAL_IPS_SET ipv6; "dst"; "-j"; "REJECT"; "--reject-with";
   reject_with].

Definition input_jump_rule (ipv6 : bool) : Rule :=
  ["-m"; "comment"; "--comment"; "handle traffic to IPVS service IPs in custom chain"; "-m";
   "set"; "--match-set"; ipset_name SERVICE_IPS_SET ipv6; "dst"; "-j"; FIREWALL_CHAIN].

Definition create_set (name kind family : string) : string :=
  "create " +:+ name +:+ " " +:+ kind +:+ " family " +:+ family +:+ " timeout 0 -exist" +:+
  newline +:+ "flush " +:+ name +:+ newline.

Definition fw_ipset_restore_payload (local_ips : list IpAddr)
    (service_vips : list (IpAddr * Protocol * Z)) (ipv6 : bool) : string :=
  let family := if ipv6 then "inet6" else "inet" in
  create_set (ipset_name LOCAL_IPS_SET ipv6) "hash:ip" family +:+
  create_set (ipset_name SERVICE_IPS_SET ipv6) "hash:ip" family +:+
  create_set (ipset_name SERVICE_IP_PORTS_SET ipv6) "hash:ip,port" family +:+
  str_concat ((λ ip, "add " +:+ ipset_name LOCAL_IPS_SET ipv6 +:+ " " +:+ ip_to_string ip +:+
                     newline) <$> filter (λ ip, is_ipv6 ip = ipv6) local_ips) +:+
  str_concat ((λ v : IpAddr * Protocol * Z,
    let '(ip, proto, port) := v in
    "add " +:+ ipset_name SERVICE_IPS_SET ipv6 +:+ " " +:+ ip_to_string ip +:+ newline +:+
    "add " +:+ ipset_name SERVICE_IP_PORTS_SET ipv6 +:+ " " +:+ ip_to_string ip +:+ "," +:+
    fw_proto_name proto +:+ ":" +:+ pretty port +:+ newline) <$>
    filter (λ v, is_ipv6 v.1.1 = ipv6) service_vips).

(** [FirewallError] *)
Record FirewallError := FirewallErr { firewall_why : string }.

(** The traits [FwIptables] and [FwIpset], as values. *)
Record FwIptables (W : Type) := {
  fw_clear_chain : string → M W FirewallError unit;
  fw_append_unique : string → Rule → M W FirewallError unit;
  fw_ensure_top : string → Rule → M W FirewallError unit;
  fw_delete : string → Rule → M W FirewallError unit;
}.
#[global] Arguments fw_clear_chain {W} _ _.
#[global] Arguments fw_append_unique {W} _ _ _.
#[global] Arguments fw_ensure_top {W} _ _ _.
#[global] Arguments fw_delete {W} _ _ _.

Record FwIpset (W : Type) := { fw_restore : string → M W FirewallError unit }.
#[global] Arguments fw_restore {W} _ _.

Definition setup_firewall {W} (ipt : FwIptables W) (ipv6 permit_all : bool)
    : M W FirewallError unit :=
  fw_clear_chain ipt FIREWALL_CHAIN;;
  let jump := input_jump_rule ipv6 in
  if permit_all then fw_delete ipt "INPUT" jump
  else
    mfor (icmp_accept_rules ipv6) (fw_append_unique ipt FIREWALL_CHAIN);;
    fw_append_unique ipt FIREWALL_CHAIN (service_accept_rule ipv6);;
    fw_append_unique ipt FIREWALL_CHAIN (reject_rule ipv6);;
    fw_ensure_top ipt "INPUT" jump.

Definition sync_firewall_sets {W} (ipset : FwIpset W) (local_ips : list IpAddr)
    (service_vips : list (IpAddr * Protocol * Z)) (ipv6 : bool) : M W FirewallError unit :=
  fw_restore ipset (fw_ipset_restore_payload local_ips service_vips ipv6).

(** [SystemFwIptables] *)
Definition system_fw_run {W} `{!CommandRunner W} (base : string) (args : list string)
    : M W FirewallError bool :=
  run_base FirewallErr base (["-w"; "-t"; "filter"] ++ args).

Definition system_fw_iptables {W} `{!CommandRunner W} (family : IpFamily) : FwIptables W :=
  let run := system_fw_run (iptables_base family) in {|
  fw_clear_chain chain :=
    _ ← run ["-N"; chain];
    flushed ← run ["-F"; chain];
    (if flushed : bool then mret tt else mfail (FirewallErr ("failed to flush " +:+ chain)));
  fw_append_unique chain args :=
    check_or_add run (FirewallErr ("failed to append to " +:+ chain))
      (["-C"; chain] ++ args) (["-A"; chain] ++ args);
  fw_ensure_top chain args :=
    check_or_add run (FirewallErr ("failed to insert into " +:+ chain))
      (["-C"; chain] ++ args) (["-I"; chain; "1"] ++ args);
  fw_delete chain args := (λ _, tt) <$> run (["-D"; chain] ++ args);
|}.

(** [SystemFwIpset]: the messages of spawning and of waiting are not told apart. *)
Definition system_fw_ipset {W} `{!CommandRunner W} : FwIpset W := {|
  fw_restore payload := λ w,
    match run_command "ipset" ["restore"; "-exist"] (Some payload) w with
    | (inl e, w) => (inl (FirewallErr ("spawn ipset restore: " +:+ e)), w)
    | (inr (false, _, stderr), w) => (inl (FirewallErr (trim stderr)), w)
    | (inr (true, _, _), w) => (inr tt, w)
    end;
|}.

End Firewall.

(** ** Direct server return ([dsr.rs]) *)

Module Dsr.
Import TcpMss.

Definition KUBE_TUNNEL_IF_V4 : string := "kube-tunnel-if".
Definition KUBE_TUNNEL_IF_V6 : string := "kube-tunnel-v6".
Definition DSR_ROUTE_TABLE_ID : Z := 78.
Definition DSR_ROUTE_TABLE_NAME : string := "kube-router-dsr".
Definition EXTERNAL_IP_ROUTE_TABLE_ID : Z := 79.
Definition EXTERNAL_IP_ROUTE_TABLE_NAME : string := "external_ip".
Definition TRAFFIC_DIRECTOR_RULE_PRIORITY : Z := 32764.
Definition DSR_POLICY_RULE_PRIORITY : Z := 32765.
Definition MAX_FWMARK : Z := 16383.
Definition MAX_UNIQUE_FWMARK_INC : Z := 16380.

Inductive DsrError :=
| FwMarkExhausted (key : string) (tries : Z)
| DsrIpvs (e : IpvsError)
| DsrMangle (e : MangleError).

Definition dsr_proto_name (p : Protocol) : string :=
  match p with Tcp => "tcp" | Udp => "udp" | Sctp => "sctp" end.

(** The octets of a string; [h.wrapping_mul] on [u32]. *)
Definition fnv_step (h b : Z) : Z := (Z.lxor h b * 16777619) `mod` 2 ^ 32.
Definition fnv1a_32 (data : list Z) : Z := foldl fnv_step 2166136261 data.
Definition as_bytes (s : string) : list Z := byte_of <$> String.list_ascii_of_string s.

Definition generate_fwmark (service_key : string) (increment : Z) : Z :=
  let s := if increment =? 0 then service_key else service_key +:+ "-" +:+ pretty increment in
  Z.land (fnv1a_32 (as_bytes s)) MAX_FWMARK.

Definition service_key (ip : string) (proto : Protocol) (port : Z) : string :=
  ip +:+ "-" +:+ dsr_proto_name proto +:+ "-" +:+ pretty port.

(** [FwMarkRegistry]: its field [map]. *)
Definition FwMarkRegistry : Type := gmap Z string.

(** The loop of [assign], at [increment]; [tries] bounds the attempts left. *)
Fixpoint assign_loop (tries : nat) (key : string) (increment : Z) (map : FwMarkRegistry)
    : (DsrError + Z) * FwMarkRegistry :=
  match tries with
  | O => (inl (FwMarkExhausted key MAX_UNIQUE_FWMARK_INC), map)
  | S tries =>
      let mark := generate_fwmark key increment in
      match map !! mark with
      | Some found =>
          if decide (found = key) then (inr mark, <[mark := key]> map)
          else assign_loop tries key (increment + 1) map
      | None => (inr mark, <[mark := key]> map)
      end
  end.

Definition assign (ip : string) (proto : Protocol) (port : Z) (map : FwMarkRegistry)
    : (DsrError + Z) * FwMarkRegistry :=
  assign_loop (Z.to_nat MAX_UNIQUE_FWMARK_INC) (service_key ip proto port) 0 map.

Definition lookup_by_service (ip : string) (proto : Protocol) (port : Z) (map : FwMarkRegistry)
    : option Z :=
  let key := service_key ip proto port in
  '(_, kv) ← list_find (λ kv : Z * string, kv.2 = key) (btree_iter map);
  Some kv.1.

Definition lookup_by_fwmark (fwmark : Z) (map : FwMarkRegistry) : option (string * string * Z) :=
  key ← map !! fwmark;
  match split_char "-" key with
  | [a; b; c] => port ← parse_u16 c; Some (a, b, port)
  | _ => None
  end.

Definition registry_remove (fwmark : Z) (map : FwMarkRegistry) : FwMarkRegistry :=
  delete fwmark map.

Definition dsr_mark_args (ip : IpAddr) (proto : Protocol) (port fwmark : Z) : Rule :=
  let p := dsr_proto_name proto in
  ["-d"; ip_to_string ip; "-m"; p; "-p"; p; "--dport"; pretty port; "-j"; "MARK"; "--set-mark";
   pretty fwmark].

Definition ip_rule_fwmark_args (op : string) (fwmark table priority : Z) : list string :=
  ["rule"; op; "fwmark"; pretty fwmark; "table"; pretty table; "priority"; pretty priority].

Definition ip_rule_from_all_args (op : string) (table priority : Z) : list string :=
  ["rule"; op; "from"; "all"; "lookup"; pretty table; "priority"; pretty priority].

Definition rt_tables_entry (id : Z) (name : string) : string := pretty id +:+ " " +:+ name.

Definition rp_filter_key (iface : string) : string := "net.ipv4.conf." +:+ iface +:+ ".rp_filter".

Definition tunnel_setup_commands (vip : IpAddr) : list (list string) :=
  let '(name, mode) :=
    if is_ipv6 vip then (KUBE_TUNNEL_IF_V6, "ip6tnl") else (KUBE_TUNNEL_IF_V4, "ipip") in
  let plen := if is_ipv6 vip then "128" else "32" in
  [["link"; "add"; name; "type"; mode];
   ["link"; "set"; name; "up"];
   ["addr"; "add"; ip_to_string vip +:+ "/" +:+ plen; "dev"; name]].

Definition dsr_destination (ep : EndpointInfo) : IpvsDestination :=
  {| rs_addr := ep_ip ep; rs_port := ep_port ep; rs_weight := 1; rs_tunnel := true |}.

Section configure.
Context {W : Type} `{!IpvsOps W} (mangle : MangleOps W).

Definition reg {A} (f : FwMarkRegistry → (DsrError + A) * FwMarkRegistry)
    : M (FwMarkRegistry * W) DsrError A :=
  λ s, let '(r, m) := f s.1 in (r, (m, s.2)).
Definition dsr_io {A E} (wrap : E → DsrError) (m : M W E A) : M (FwMarkRegistry * W) DsrError A :=
  mzoom snd (λ w s, (s.1, w)) (mmap_err wrap m).

Definition configure_dsr_vip (proto : Protocol) (port : Z) (endpoints : list EndpointInfo)
    (scheduler : Scheduler) (persistent : option Z) (vip : IpAddr)
    : M (FwMarkRegistry * W) DsrError Z :=
  fwmark ← reg (assign (ip_to_string vip) proto port);
  dsr_io DsrIpvs (add_fwmark_service fwmark scheduler persistent);;
  mfor (filter (λ e, ep_ready e = true) endpoints)
    (λ ep, dsr_io DsrIpvs (add_fwmark_destination fwmark (dsr_destination ep)));;
  let mark_rule := dsr_mark_args vip proto port fwmark in
  dsr_io DsrMangle (mangle_append_unique mangle "PREROUTING" mark_rule);;
  dsr_io DsrMangle (mangle_append_unique mangle "OUTPUT" mark_rule);;
  mret fwmark.

Fixpoint configure_dsr_host (vips : list IpAddr) (proto : Protocol) (port : Z)
    (endpoints : list EndpointInfo) (scheduler : Scheduler) (persistent : option Z)
    : M (FwMarkRegistry * W) DsrError (list Z) :=
  match vips with
  | [] => mret []
  | vip :: vips =>
      mark ← configure_dsr_vip proto port endpoints scheduler persistent vip;
      marks ← configure_dsr_host vips proto port endpoints scheduler persistent;
      mret (mark :: marks)
  end.
End configure.
End Dsr.

(** ** NodePort health checks ([nodeport_hc.rs]) *)

Module NodePortHc.

(** Counts are [usize]. *)
Definition Counts : Type := gmap Z nat.

Definition count_step (out : Counts) (x : ServiceInfo * list EndpointInfo) : Counts :=
  let '(svc, eps) := x in
  match si_health_check_node_port svc with
  | None => out
  | Some port =>
      let active := length (filter (λ e, ep_is_local e = true ∧ ep_ready e = true) eps) in
      <[port := (default 0 (out !! port) + active)%nat]> out
  end.

Definition active_local_counts (services : list (ServiceInfo * list EndpointInfo)) : Counts :=
  foldl count_step ∅ services.

(** [kr_observability::http::Response] *)
Record Response := { status : Z; content_type : string; body : string }.

Definition nphc_response (path : string) (port : Z) (counts : Counts) : Response :=
  if negb (starts_with "/healthz" path) then
    {| status := 404; content_type := "text/plain"; body := "not found" |}
  else
    let active := default 0%nat (counts !! port) in
    if (0 <? active)%nat then
      {| status := 200; content_type := "text/plain";
         body := pretty (Z.of_nat active) +:+ " Service Endpoints found" +:+ newline |}
    else
      {| status := 503; content_type := "text/plain";
         body := "No Service Endpoints Found" +:+ newline |}.

(** The fields of [NodePortHealthChecks]; a server is identified by its port. *)
Record NodePortHealthChecks := {
  hc_counts : Counts;
  hc_servers : gset Z;
  hc_bind_host : string;
}.

(** [NodePortHealthChecks::new]: servers listen on all interfaces. *)
Definition nphc_new : NodePortHealthChecks :=
  {| hc_counts := ∅; hc_servers := ∅; hc_bind_host := "0.0.0.0" |}.

(** Binding a listener and serving it, and aborting a server. *)
Class HttpServers (W : Type) := {
  http_bind : string → M W string unit;
  http_abort : Z → W → W;
}.

Section sync.
Context {W : Type} `{!HttpServers W}.

Definition HcState : Type := NodePortHealthChecks * W.

Definition set_counts (c : Counts) (s : HcState) : HcState :=
  ({| hc_counts := c; hc_servers := hc_servers s.1; hc_bind_host := hc_bind_host s.1 |}, s.2).
Definition set_servers (f : gset Z → gset Z) (s : HcState) : HcState :=
  ({| hc_counts := hc_counts s.1; hc_servers := f (hc_servers s.1);
      hc_bind_host := hc_bind_host s.1 |}, s.2).

Definition stop_server (p : Z) : M HcState string unit :=
  mmodify (λ s, let s := set_servers (λ x, x ∖ {[p]}) s in (s.1, http_abort p s.2)).

Definition start_server (port : Z) : M HcState string unit :=
  s ← mget;
  if bool_decide (port ∈ hc_servers s.1) then mret tt
  else
    mzoom snd (λ w s, (s.1, w)) (http_bind (hc_bind_host s.1 +:+ ":" +:+ pretty port));;
    mmodify (set_servers (λ x, {[port]} ∪ x)).

Definition nphc_sync (desired : Counts) : M HcState string unit :=
  mmodify (set_counts desired);;
  s ← mget;
  mfor (filter (λ p, desired !! p = None) (bset_iter (hc_servers s.1))) stop_server;;
  mfor (btree_keys desired) start_server.

Definition stop_all : M HcState string unit :=
  s ← mget;
  mfor (bset_iter (hc_servers s.1)) stop_server.
End sync.
End NodePortHc.

(** ** Local addresses ([local_ips.rs]) *)

Module LocalIps.

Definition EXCLUDED : list string := ["dummy"; "kube"; "docker"].

(** The interface, kind and address text of a line with enough fields. *)
Definition addr_fields (line : string) : option (string * string * string) :=
  match split_whitespace line with
  | _ :: iface :: kind :: addr :: _ => Some (iface, kind, addr)
  | _ => None
  end.

Definition is_inet (kind : string) : bool :=
  bool_decide (kind = "inet") || bool_decide (kind = "inet6").

Definition ip_addr_step (ips : list IpAddr) (line : string) : list IpAddr :=
  match addr_fields line with
  | None => ips
  | Some (iface, kind, text) =>
      if existsb (λ e, str_contains e iface) EXCLUDED then ips
      else if negb (is_inet kind) then ips
      else match split_once "/" text with
           | None => ips
           | Some (addr, _) =>
               match parse_ipaddr addr with
               | None => ips
               | Some ip => if negb (is_loopback ip) && negb (list_contains ips ip)
                            then ips ++ [ip] else ips
               end
           end
  end.

Definition parse_ip_addr_output (out : string) : list IpAddr :=
  foldl ip_addr_step [] (str_lines out).

Definition all_local_ips {W} `{!CommandRunner W} (w : W) : list IpAddr * W :=
  match run_command "ip" ["-o"; "addr"; "show"] None w with
  | (inr (true, stdout, _), w) => (parse_ip_addr_output stdout, w)
  | (_, w) => ([], w)
  end.

Fixpoint iface_in_lines (lines : list string) (ip : IpAddr) : option string :=
  match lines with
  | [] => None
  | line :: lines =>
      match addr_fields line with
      | Some (iface, kind, text) =>
          if is_inet kind && bool_decide ((fst <$> split_once "/" text) ≫= parse_ipaddr = Some ip)
          then Some iface else iface_in_lines lines ip
      | None => iface_in_lines lines ip
      end
  end.

Definition parse_iface_for_ip (out : string) (ip : IpAddr) : option string :=
  iface_in_lines (str_lines out) ip.

Definition iface_for_ip {W} `{!CommandRunner W} (ip : IpAddr) (w : W) : option string * W :=
  match run_command "ip" ["-o"; "addr"; "show"] None w with
  | (inr (true, stdout, _), w) => (parse_iface_for_ip stdout ip, w)
  | (_, w) => (None, w)
  end.

End LocalIps.
