(* ===== verification/ProxySync.v ===== *)
(** * ProxySync: services to IPVS ([crates/proxy/src/sync.rs])

    [ServiceSync] keeps what it last programmed ([applied], [bound_vips], the
    queue of draining destinations, ...) and reconciles it with the services and
    endpoints of the informer store.  A pass computes a [Plan] from the snapshot
    and then programs the difference; the record [SyncConfig] has the fields the
    builder methods set, [SyncState] the ones a pass changes, and the world. *)

From stdpp Require Import gmap sets list strings pretty.
From Stdlib Require Import Ascii ZArith Lia.
From S2P Require Import Prelude Text Net Common Netlink Proxy.
Import TcpMss Hairpin Masquerade Firewall Dsr NodePortHc LocalIps Graceful Validation.

Local Open Scope Z_scope.

Definition DUMMY_IF : string := "kube-dummy-if".

Record MasqueradeCfg := {
  mq_all : bool;
  mq_random_fully : bool;
  mq_primary : list (bool * IpAddr);
  mq_pod_cidrs : list string;
}.

Definition parse_port_range (s : string) : option (Z * Z) :=
  '(lo, hi) ← split_once "-" s;
  lo ← parse_u16 (trim lo);
  hi ← parse_u16 (trim hi);
  Some (lo, hi).

Inductive SyncError :=
| SyncIpvs (e : IpvsError)
| SyncNetlink (e : NetlinkError)
| SyncHairpin (e : NatError)
| SyncNodePort (e : string)
| SyncFirewall (e : FirewallError)
| SyncDsr (e : DsrError)
| SyncDsrMss (e : MangleError).

Record DsrJob := {
  job_vips : list IpAddr;
  job_protocol : Protocol;
  job_port : Z;
  job_endpoints : list EndpointInfo;
  job_scheduler : Scheduler;
  job_persistent : option Z;
}.

Definition prefix_len (ip : IpAddr) : Z := match ip with V4 _ => 32 | V6 _ => 128 end.

Definition sync_proto_name (p : Protocol) : string :=
  match p with Tcp => "tcp" | Udp => "udp" | Sctp => "sctp" end.

Definition service_wants_sloppy_tcp (svc : ServiceInfo) : bool :=
  si_dsr svc && bool_decide (si_scheduler svc = Mh).

(** ** The environment *)

(** [ServiceProvider::services] *)
Class ServiceProvider (W : Type) := {
  provider_services : W → list (ServiceInfo * list EndpointInfo);
}.
(** [Instant::now], in milliseconds. *)
Class Clock (W : Type) := { clock_now : W → Z }.
(** [std::fs::write] *)
Class FileOps (W : Type) := { fs_write : string → string → M W string unit }.

(** [kr_common::sysctl::write] *)
Definition sysctl_write {W} `{!FileOps W} (key value : string) : M W string unit :=
  fs_write (Sysctl.key_to_path key) value.

(** [x as f64] for an unsigned integer: the nearest number with 53 significant
    bits, ties to even. *)
Definition as_f64 (n : Z) : Z :=
  if n <? 2 ^ 53 then n
  else
    let unit := 2 ^ (Z.log2 n - 52) in
    let q := n `div` unit in
    let r := 2 * (n `mod` unit) in
    (if (unit <? r) || ((r =? unit) && Z.odd q) then q + 1 else q) * unit.

Record ServiceStatSample := {
  ss_namespace : string;
  ss_service : string;
  ss_vip : string;
  ss_protocol : string;
  ss_port : Z;
  ss_total_connections : Z;
  ss_packets_in : Z;
  ss_packets_out : Z;
  ss_bytes_in : Z;
  ss_bytes_out : Z;
  ss_cps : Z;
  ss_pps_in : Z;
  ss_pps_out : Z;
  ss_bps_in : Z;
  ss_bps_out : Z;
}.
(** [ServiceMetrics::update] *)
Class MetricsOps (W : Type) := { metrics_update : list ServiceStatSample → nat → W → W }.
(** [health.lock().heartbeat(Component::NetworkServices, Instant::now())] *)
Class Heartbeat (W : Type) := { services_heartbeat : W → W }.

Section sync.
Context `{IpNetLib} {W : Type}.
Context `{!IpvsOps W, !NetlinkOps W, !CommandRunner W, !HttpServers W}.
Context `{!ServiceProvider W, !Clock W, !FileOps W, !MetricsOps W, !Heartbeat W}.

Record ValidationRanges := {
  vr_external : list IpNet;
  vr_loadbalancer : list IpNet;
  vr_cluster : list IpNet;
  vr_strict : bool;
}.

Record SyncConfig := {
  sc_ranges : ValidationRanges;
  sc_node_ips : list IpAddr;
  sc_graceful : bool;
  sc_graceful_period : Z;
  sc_metrics : bool;
  sc_hairpin_global : bool;
  sc_hairpin_nat : list (bool * NatOps W);
  sc_node_port_range : option (Z * Z);
  sc_masquerade : option MasqueradeCfg;
  sc_firewall_permit_all : bool;
  sc_firewall_ipt : list (bool * FwIptables W);
  sc_firewall_ipset : option (FwIpset W);
  sc_dsr_mangle : list (bool * MangleOps W);
  sc_dsr_mtu : Z;
}.

Definition Programmed : Type := gmap string (IpvsService * list IpvsDestination).

Record SyncState := {
  gqueue : GracefulQueue;
  nphc : option NodePortHealthChecks;
  firewall_setup_done : bool;
  dsr_registry : FwMarkRegistry;
  applied : Programmed;
  meta : gmap string (string * string);
  bound_vips : gset IpAddr;
  sloppy_tcp : bool;
  sync_world : W;
}.

(** ** Construction *)

(** [ServiceSync::new]: its configuration and its state. *)
Definition config_new (ranges : ValidationRanges) : SyncConfig :=
  {| sc_ranges := ranges; sc_node_ips := []; sc_graceful := false; sc_graceful_period := 0;
     sc_metrics := false; sc_hairpin_global := false; sc_hairpin_nat := [];
     sc_node_port_range := None; sc_masquerade := None; sc_firewall_permit_all := true;
     sc_firewall_ipt := []; sc_firewall_ipset := None; sc_dsr_mangle := []; sc_dsr_mtu := 1500 |}.
Definition state_new (w : W) : SyncState :=
  {| gqueue := []; nphc := None; firewall_setup_done := false; dsr_registry := ∅; applied := ∅;
     meta := ∅; bound_vips := ∅; sloppy_tcp := false; sync_world := w |}.

(** The builders. *)
Definition with_metrics (cfg : SyncConfig) : SyncConfig :=
  {| sc_ranges := sc_ranges cfg; sc_node_ips := sc_node_ips cfg; sc_graceful := sc_graceful cfg;
     sc_graceful_period := sc_graceful_period cfg; sc_metrics := true;
     sc_hairpin_global := sc_hairpin_global cfg; sc_hairpin_nat := sc_hairpin_nat cfg;
     sc_node_port_range := sc_node_port_range cfg; sc_masquerade := sc_masquerade cfg;
     sc_firewall_permit_all := sc_firewall_permit_all cfg; sc_firewall_ipt := sc_firewall_ipt cfg;
     sc_firewall_ipset := sc_firewall_ipset cfg; sc_dsr_mangle := sc_dsr_mangle cfg;
     sc_dsr_mtu := sc_dsr_mtu cfg |}.
Definition with_hairpin (global : bool) (nat : list (bool * NatOps W)) (cfg : SyncConfig) : SyncConfig :=
  {| sc_ranges := sc_ranges cfg; sc_node_ips := sc_node_ips cfg; sc_graceful := sc_graceful cfg;
     sc_graceful_period := sc_graceful_period cfg; sc_metrics := sc_metrics cfg;
     sc_hairpin_global := global; sc_hairpin_nat := nat;
     sc_node_port_range := sc_node_port_range cfg; sc_masquerade := sc_masquerade cfg;
     sc_firewall_permit_all := sc_firewall_permit_all cfg; sc_firewall_ipt := sc_firewall_ipt cfg;
     sc_firewall_ipset := sc_firewall_ipset cfg; sc_dsr_mangle := sc_dsr_mangle cfg;
     sc_dsr_mtu := sc_dsr_mtu cfg |}.
Definition with_node_port_range (range : option (Z * Z)) (cfg : SyncConfig) : SyncConfig :=
  {| sc_ranges := sc_ranges cfg; sc_node_ips := sc_node_ips cfg; sc_graceful := sc_graceful cfg;
     sc_graceful_period := sc_graceful_period cfg; sc_metrics := sc_metrics cfg;
     sc_hairpin_global := sc_hairpin_global cfg; sc_hairpin_nat := sc_hairpin_nat cfg;
     sc_node_port_range := range; sc_masquerade := sc_masquerade cfg;
     sc_firewall_permit_all := sc_firewall_permit_all cfg; sc_firewall_ipt := sc_firewall_ipt cfg;
     sc_firewall_ipset := sc_firewall_ipset cfg; sc_dsr_mangle := sc_dsr_mangle cfg;
     sc_dsr_mtu := sc_dsr_mtu cfg |}.
Definition with_masquerade (mq : MasqueradeCfg) (cfg : SyncConfig) : SyncConfig :=
  {| sc_ranges := sc_ranges cfg; sc_node_ips := sc_node_ips cfg; sc_graceful := sc_graceful cfg;
     sc_graceful_period := sc_graceful_period cfg; sc_metrics := sc_metrics cfg;
     sc_hairpin_global := sc_hairpin_global cfg; sc_hairpin_nat := sc_hairpin_nat cfg;
     sc_node_port_range := sc_node_port_range cfg; sc_masquerade := Some mq;
     sc_firewall_permit_all := sc_firewall_permit_all cfg; sc_firewall_ipt := sc_firewall_ipt cfg;
     sc_firewall_ipset := sc_firewall_ipset cfg; sc_dsr_mangle := sc_dsr_mangle cfg;
     sc_dsr_mtu := sc_dsr_mtu cfg |}.
Definition with_dsr (mangle : list (bool * MangleOps W)) (mtu : Z) (cfg : SyncConfig) : SyncConfig :=
  {| sc_ranges := sc_ranges cfg; sc_node_ips := sc_node_ips cfg; sc_graceful := sc_graceful cfg;
     sc_graceful_period := sc_graceful_period cfg; sc_metrics := sc_metrics cfg;
     sc_hairpin_global := sc_hairpin_global cfg; sc_hairpin_nat := sc_hairpin_nat cfg;
     sc_node_port_range := sc_node_port_range cfg; sc_masquerade := sc_masquerade cfg;
     sc_firewall_permit_all := sc_firewall_permit_all cfg; sc_firewall_ipt := sc_firewall_ipt cfg;
     sc_firewall_ipset := sc_firewall_ipset cfg; sc_dsr_mangle := mangle; sc_dsr_mtu := mtu |}.
Definition with_firewall (permit_all : bool) (ipt : list (bool * FwIptables W))
    (ipset : FwIpset W) (cfg : SyncConfig) : SyncConfig :=
  {| sc_ranges := sc_ranges cfg; sc_node_ips := sc_node_ips cfg; sc_graceful := sc_graceful cfg;
     sc_graceful_period := sc_graceful_period cfg; sc_metrics := sc_metrics cfg;
     sc_hairpin_global := sc_hairpin_global cfg; sc_hairpin_nat := sc_hairpin_nat cfg;
     sc_node_port_range := sc_node_port_range cfg; sc_masquerade := sc_masquerade cfg;
     sc_firewall_permit_all := permit_all; sc_firewall_ipt := ipt;
     sc_firewall_ipset := Some ipset; sc_dsr_mangle := sc_dsr_mangle cfg;
     sc_dsr_mtu := sc_dsr_mtu cfg |}.
Definition with_node_ips (node_ips : list IpAddr) (cfg : SyncConfig) : SyncConfig :=
  {| sc_ranges := sc_ranges cfg; sc_node_ips := node_ips; sc_graceful := sc_graceful cfg;
     sc_graceful_period := sc_graceful_period cfg; sc_metrics := sc_metrics cfg;
     sc_hairpin_global := sc_hairpin_global cfg; sc_hairpin_nat := sc_hairpin_nat cfg;
     sc_node_port_range := sc_node_port_range cfg; sc_masquerade := sc_masquerade cfg;
     sc_firewall_permit_all := sc_firewall_permit_all cfg; sc_firewall_ipt := sc_firewall_ipt cfg;
     sc_firewall_ipset := sc_firewall_ipset cfg; sc_dsr_mangle := sc_dsr_mangle cfg;
     sc_dsr_mtu := sc_dsr_mtu cfg |}.
Definition with_graceful (enabled : bool) (period : Z) (cfg : SyncConfig) : SyncConfig :=
  {| sc_ranges := sc_ranges cfg; sc_node_ips := sc_node_ips cfg; sc_graceful := enabled;
     sc_graceful_period := period; sc_metrics := sc_metrics cfg;
     sc_hairpin_global := sc_hairpin_global cfg; sc_hairpin_nat := sc_hairpin_nat cfg;
     sc_node_port_range := sc_node_port_range cfg; sc_masquerade := sc_masquerade cfg;
     sc_firewall_permit_all := sc_firewall_permit_all cfg; sc_firewall_ipt := sc_firewall_ipt cfg;
     sc_firewall_ipset := sc_firewall_ipset cfg; sc_dsr_mangle := sc_dsr_mangle cfg;
     sc_dsr_mtu := sc_dsr_mtu cfg |}.
Definition with_nodeport_healthchecks (hc : NodePortHealthChecks) (s : SyncState) : SyncState :=
  {| gqueue := gqueue s; nphc := Some hc; firewall_setup_done := firewall_setup_done s;
     dsr_registry := dsr_registry s; applied := applied s; meta := meta s;
     bound_vips := bound_vips s; sloppy_tcp := sloppy_tcp s; sync_world := sync_world s |}.

(** ** The plan of a pass *)

Record Plan := {
  p_desired : Programmed;
  p_vips : gset IpAddr;
  p_meta : gmap string (string * string);
  p_jobs : list DsrJob;
  p_sloppy : bool;
}.

Definition empty_plan : Plan :=
  {| p_desired := ∅; p_vips := ∅; p_meta := ∅; p_jobs := []; p_sloppy := false |}.

(** The closure [dests]. *)
Definition plan_dests (svc : ServiceInfo) (eps : list EndpointInfo) (local_only : bool)
    : list IpvsDestination :=
  (λ e, {| rs_addr := ep_ip e; rs_port := ep_port e; rs_weight := 1; rs_tunnel := si_dsr svc |})
    <$> filter (λ e, ep_ready e && (negb local_only || ep_is_local e) = true) eps.

Definition persistent_of (svc : ServiceInfo) : option Z :=
  if si_session_affinity svc then Some (si_affinity_timeout svc) else None.

Definition virtual_service (svc : ServiceInfo) (addr : IpAddr) (port : Z) : IpvsService :=
  {| vs_addr := addr; vs_protocol := si_protocol svc; vs_port := port;
     vs_scheduler := si_scheduler svc; vs_sched_flags := si_sched_flags svc;
     vs_persistent := persistent_of svc |}.

(** Insert a virtual service and its metadata; [vips] are the addresses to bind. *)
Definition plan_insert (svc : ServiceInfo) (isvc : IpvsService) (dests : list IpvsDestination)
    (vips : gset IpAddr) (p : Plan) : Plan :=
  {| p_desired := <[svc_key isvc := (isvc, dests)]> (p_desired p);
     p_vips := vips ∪ p_vips p;
     p_meta := <[svc_key isvc := (si_namespace svc, si_name svc)]> (p_meta p);
     p_jobs := p_jobs p; p_sloppy := p_sloppy p |}.

(** The closure [add_vip]. *)
Definition add_vip (svc : ServiceInfo) (eps : list EndpointInfo) (local_only : bool)
    (p : Plan) (vip : IpAddr) : Plan :=
  plan_insert svc (virtual_service svc vip (si_port svc)) (plan_dests svc eps local_only)
    {[vip]} p.

Definition dsr_enabled (cfg : SyncConfig) : bool :=
  match sc_dsr_mangle cfg with [] => false | _ => true end.

(** One external or load-balancer address: validated, and then either left to
    the DSR path or programmed. *)
Definition plan_external (cfg : SyncConfig) (svc : ServiceInfo) (eps : list EndpointInfo)
    (allowed : list IpNet) (st : Plan * list IpAddr) (vip : IpAddr) : Plan * list IpAddr :=
  if validate_external_ip vip allowed (vr_cluster (sc_ranges cfg)) (vr_strict (sc_ranges cfg))
  then if dsr_enabled cfg && si_dsr svc then (st.1, st.2 ++ [vip])
       else (add_vip svc eps (si_external_traffic_local svc) st.1 vip, st.2)
  else st.

Definition push_job (svc : ServiceInfo) (eps : list EndpointInfo) (dsr_vips : list IpAddr)
    (p : Plan) : Plan :=
  match dsr_vips with
  | [] => p
  | _ =>
      {| p_desired := p_desired p; p_vips := p_vips p; p_meta := p_meta p;
         p_jobs := p_jobs p ++
           [{| job_vips := dsr_vips; job_protocol := si_protocol svc; job_port := si_port svc;
               job_endpoints := eps; job_scheduler := si_scheduler svc;
               job_persistent := persistent_of svc |}];
         p_sloppy := p_sloppy p |}
  end.

Definition node_port_allowed (cfg : SyncConfig) (np : Z) : bool :=
  match sc_node_port_range cfg with
  | Some (lo, hi) => negb ((np <? lo) || (hi <? np))
  | None => true
  end.

Definition plan_node_port (cfg : SyncConfig) (svc : ServiceInfo) (eps : list EndpointInfo)
    (p : Plan) : Plan :=
  match si_node_port svc with
  | None => p
  | Some np =>
      if negb (node_port_allowed cfg np) then p
      else
        let local_only := si_external_traffic_local svc in
        let dests := plan_dests svc eps local_only in
        if local_only && bool_decide (dests = []) then p
        else foldl (λ p nip, plan_insert svc (virtual_service svc nip np) dests ∅ p)
               p (sc_node_ips cfg)
  end.

Definition note_sloppy (svc : ServiceInfo) (p : Plan) : Plan :=
  {| p_desired := p_desired p; p_vips := p_vips p; p_meta := p_meta p; p_jobs := p_jobs p;
     p_sloppy := p_sloppy p || service_wants_sloppy_tcp svc |}.

(** The body of the loop over [provider.services()]. *)
Definition plan_service (cfg : SyncConfig) (p : Plan) (x : ServiceInfo * list EndpointInfo)
    : Plan :=
  let '(svc, eps) := x in
  let p := note_sloppy svc p in
  let p := foldl (add_vip svc eps (si_internal_traffic_local svc)) p (si_cluster_ips svc) in
  let st := foldl (plan_external cfg svc eps (vr_external (sc_ranges cfg))) (p, [])
              (si_external_ips svc) in
  let '(p, dsr_vips) := foldl (plan_external cfg svc eps (vr_loadbalancer (sc_ranges cfg))) st
                          (si_load_balancer_ips svc) in
  plan_node_port cfg svc eps (push_job svc eps dsr_vips p).

Definition make_plan (cfg : SyncConfig) (services : list (ServiceInfo * list EndpointInfo))
    : Plan := foldl (plan_service cfg) empty_plan services.

(** ** Fields of the state *)

Definition set_gqueue (q : GracefulQueue) (s : SyncState) : SyncState :=
  {| gqueue := q; nphc := nphc s; firewall_setup_done := firewall_setup_done s;
     dsr_registry := dsr_registry s; applied := applied s; meta := meta s;
     bound_vips := bound_vips s; sloppy_tcp := sloppy_tcp s; sync_world := sync_world s |}.
Definition set_nphc (h : NodePortHealthChecks) (w : W) (s : SyncState) : SyncState :=
  {| gqueue := gqueue s; nphc := Some h; firewall_setup_done := firewall_setup_done s;
     dsr_registry := dsr_registry s; applied := applied s; meta := meta s;
     bound_vips := bound_vips s; sloppy_tcp := sloppy_tcp s; sync_world := w |}.
Definition set_setup_done (s : SyncState) : SyncState :=
  {| gqueue := gqueue s; nphc := nphc s; firewall_setup_done := true;
     dsr_registry := dsr_registry s; applied := applied s; meta := meta s;
     bound_vips := bound_vips s; sloppy_tcp := sloppy_tcp s; sync_world := sync_world s |}.
Definition set_registry (r : FwMarkRegistry) (w : W) (s : SyncState) : SyncState :=
  {| gqueue := gqueue s; nphc := nphc s; firewall_setup_done := firewall_setup_done s;
     dsr_registry := r; applied := applied s; meta := meta s;
     bound_vips := bound_vips s; sloppy_tcp := sloppy_tcp s; sync_world := w |}.
Definition set_programmed (p : Plan) (s : SyncState) : SyncState :=
  {| gqueue := gqueue s; nphc := nphc s; firewall_setup_done := firewall_setup_done s;
     dsr_registry := dsr_registry s; applied := p_desired p; meta := p_meta p;
     bound_vips := p_vips p; sloppy_tcp := sloppy_tcp s; sync_world := sync_world s |}.
Definition set_sloppy (b : bool) (s : SyncState) : SyncState :=
  {| gqueue := gqueue s; nphc := nphc s; firewall_setup_done := firewall_setup_done s;
     dsr_registry := dsr_registry s; applied := applied s; meta := meta s;
     bound_vips := bound_vips s; sloppy_tcp := b; sync_world := sync_world s |}.
Definition set_sync_world (w : W) (s : SyncState) : SyncState :=
  {| gqueue := gqueue s; nphc := nphc s; firewall_setup_done := firewall_setup_done s;
     dsr_registry := dsr_registry s; applied := applied s; meta := meta s;
     bound_vips := bound_vips s; sloppy_tcp := sloppy_tcp s; sync_world := w |}.

(** [io(..).await.map_err(wrap)?] *)
Definition io {A E} (wrap : E → SyncError) (m : M W E A) : M SyncState SyncError A :=
  mzoom sync_world set_sync_world (mmap_err wrap m).

(** ** Programming the difference *)

(** One destination: every one on a full resync, otherwise only a new one or
    one whose parameters changed. *)
Definition program_dest (full_resync : bool) (prev_dests : list IpvsDestination)
    (isvc : IpvsService) (d : IpvsDestination) : M SyncState SyncError unit :=
  if full_resync then io SyncIpvs (add_destination isvc d)
  else
    match List.find (λ o, same_backend o d) prev_dests with
    | Some o => if decide (o = d) then mret tt else io SyncIpvs (update_destination isvc d)
    | None => io SyncIpvs (add_destination isvc d)
    end.

Definition program_service (full_resync : bool) (prev : Programmed)
    (x : string * (IpvsService * list IpvsDestination)) : M SyncState SyncError unit :=
  let '(key, (isvc, dests)) := x in
  match prev !! key with
  | Some (p, _) =>
      if decide (p = isvc)
      then mwhen full_resync (io SyncIpvs (add_service isvc))
      else io SyncIpvs (edit_service isvc)
  | None => io SyncIpvs (add_service isvc)
  end;;
  let prev_dests := default [] (snd <$> prev !! key) in
  mfor dests (program_dest full_resync prev_dests isvc).

(** Destinations that lost their endpoint, under their desired service. *)
Definition stale_dests (prev desired : Programmed) : list (IpvsService * IpvsDestination) :=
  '(k, (isvc, dests)) ← btree_iter desired;
  match prev !! k with
  | Some (_, old) =>
      (λ o, (isvc, o)) <$> filter (λ o, existsb (λ d, same_backend d o) dests = false) old
  | None => []
  end.

Definition removed_services (prev desired : Programmed) : list IpvsService :=
  (λ kv, kv.2.1) <$> filter (λ kv, desired !! kv.1 = None) (btree_iter prev).

Definition flush_udp (svc : IpvsService) : M SyncState SyncError unit :=
  mwhen (bool_decide (vs_protocol svc = Udp))
    (io SyncIpvs (flush_conntrack_udp (vs_addr svc) (vs_port svc))).

Definition drained (d : IpvsDestination) : IpvsDestination :=
  {| rs_addr := rs_addr d; rs_port := rs_port d; rs_weight := 0; rs_tunnel := rs_tunnel d |}.

Definition remove_destination (cfg : SyncConfig) (x : IpvsService * IpvsDestination)
    : M SyncState SyncError unit :=
  let '(svc, dst) := x in
  (if sc_graceful cfg then
     io SyncIpvs (update_destination svc (drained dst));;
     mmodify (λ s, set_gqueue (enqueue svc (drained dst)
       (clock_now (sync_world s) + sc_graceful_period cfg) (gqueue s)) s)
   else io SyncIpvs (del_destination svc dst));;
  flush_udp svc.

Definition remove_service (svc : IpvsService) : M SyncState SyncError unit :=
  io SyncIpvs (del_service svc);; flush_udp svc.

(** The IPVS half of a pass. *)
Definition program_ipvs (cfg : SyncConfig) (full_resync : bool) (desired : Programmed)
    : M SyncState SyncError unit :=
  s ← mget;
  let prev := applied s in
  mfor (btree_iter desired) (program_service full_resync prev);;
  mfor (stale_dests prev desired) (remove_destination cfg);;
  mfor (removed_services prev desired) remove_service.

(** The addresses of the dummy interface. *)
Definition program_vips (want : gset IpAddr) : M SyncState SyncError unit :=
  s ← mget;
  let bound := bound_vips s in
  mfor (filter (λ v, v ∉ bound) (bset_iter want))
    (λ v, io SyncNetlink (addr_add DUMMY_IF v (prefix_len v)));;
  mfor (filter (λ v, v ∉ want) (bset_iter bound))
    (λ v, io SyncNetlink (addr_del DUMMY_IF v (prefix_len v))).

Definition program_sloppy (want : bool) : M SyncState SyncError unit := λ s,
  if Bool.eqb want (sloppy_tcp s) then (inr tt, s)
  else
    match sysctl_write "net.ipv4.vs.sloppy_tcp" (if want then "1" else "0") (sync_world s) with
    | (inr _, w) => (inr tt, set_sloppy want (set_sync_world w s))
    | (inl _, w) => (inr tt, set_sync_world w s)
    end.

(** ** After the commit *)

(** A drained destination is desired again with a positive weight. *)
Definition readded (applied : Programmed) (p : PendingRemoval) : bool :=
  match applied !! svc_key (pr_svc p) with
  | Some (_, ds) => existsb (λ d, same_backend d (pr_dst p) && negb (rs_weight d =? 0)) ds
  | None => false
  end.

Definition process_pending (now : Z) (p : PendingRemoval) : M SyncState SyncError unit :=
  s ← mget;
  if readded (applied s) p then mret tt
  else
    stats ← io SyncIpvs (dest_conn_stats (pr_svc p) (pr_dst p));
    let idle := bool_decide (stats = Some (0, 0)) in
    if idle || (pr_deadline p <=? now)
    then io SyncIpvs (del_destination (pr_svc p) (pr_dst p))
    else mmodify (λ s, set_gqueue (requeue p (gqueue s)) s).

Definition process_graceful_queue : M SyncState SyncError unit :=
  s ← mget;
  match gqueue s with
  | [] => mret tt
  | items =>
      let now := clock_now (sync_world s) in
      mmodify (set_gqueue []);;
      mfor items (process_pending now)
  end.

Definition stat_sample (meta : gmap string (string * string)) (x : IpvsService * ServiceStats)
    : option ServiceStatSample :=
  let '(svc, st) := x in
  '(ns, name) ← meta !! svc_key svc;
  Some {| ss_namespace := ns; ss_service := name; ss_vip := ip_to_string (vs_addr svc);
          ss_protocol := sync_proto_name (vs_protocol svc); ss_port := vs_port svc;
          ss_total_connections := as_f64 (st_connections st);
          ss_packets_in := as_f64 (st_packets_in st);
          ss_packets_out := as_f64 (st_packets_out st);
          ss_bytes_in := as_f64 (st_bytes_in st); ss_bytes_out := as_f64 (st_bytes_out st);
          ss_cps := as_f64 (st_cps st); ss_pps_in := as_f64 (st_pps_in st);
          ss_pps_out := as_f64 (st_pps_out st); ss_bps_in := as_f64 (st_bps_in st);
          ss_bps_out := as_f64 (st_bps_out st) |}.

Definition update_metrics (cfg : SyncConfig) : M SyncState SyncError unit :=
  if negb (sc_metrics cfg) then mret tt
  else
    stats ← io SyncIpvs service_stats;
    mmodify (λ s, set_sync_world
      (metrics_update (filter_map (stat_sample (meta s)) stats) (size (applied s))
         (sync_world s)) s).

(** [configure_dsr_host] on the registry of the state. *)
Definition with_registry {A} (m : M (FwMarkRegistry * W) DsrError A) : M SyncState SyncError A :=
  mzoom (λ s, (dsr_registry s, sync_world s)) (λ rw s, set_registry rw.1 rw.2 s)
    (mmap_err SyncDsr m).

Definition process_dsr_job (cfg : SyncConfig) (job : DsrJob) (h : bool * MangleOps W)
    : M SyncState SyncError unit :=
  let '(ipv6, mangle) := h in
  match filter (λ v, is_ipv6 v = ipv6) (job_vips job) with
  | [] => mret tt
  | vips =>
      with_registry (configure_dsr_host mangle vips (job_protocol job) (job_port job)
        (job_endpoints job) (job_scheduler job) (job_persistent job));;
      mfor vips (λ vip, io SyncDsrMss (ensure_tcpmss mangle vip (job_port job) (sc_dsr_mtu cfg)))
  end.

Definition process_dsr_jobs (cfg : SyncConfig) (jobs : list DsrJob) : M SyncState SyncError unit :=
  match sc_dsr_mangle cfg, jobs with
  | [], _ | _, [] => mret tt
  | mangles, _ => mfor jobs (λ job, mfor mangles (process_dsr_job cfg job))
  end.

Definition sync_hairpin_all (cfg : SyncConfig) : M SyncState SyncError unit :=
  match sc_hairpin_nat cfg with
  | [] => mret tt
  | handlers =>
      s ← mget;
      let services := provider_services (sync_world s) in
      mfor handlers (λ h,
        io SyncHairpin (sync_hairpin h.2
          (hairpin_rules_for_family services (sc_hairpin_global cfg) h.1)))
  end.

Definition sync_masquerade (cfg : SyncConfig) : M SyncState SyncError unit :=
  match sc_masquerade cfg with
  | None => mret tt
  | Some mq =>
      mfor (sc_hairpin_nat cfg) (λ h : bool * NatOps W,
        match List.find (λ fp : bool * IpAddr, Bool.eqb fp.1 h.1) (mq_primary mq) with
        | None => mret tt
        | Some (_, primary) =>
            let cidrs := filter (λ c, str_contains_char ":" c = h.1) (mq_pod_cidrs mq) in
            io SyncHairpin
              (sync_masquerade_rules h.2 primary cidrs (mq_all mq) (mq_random_fully mq))
        end)
  end.

Definition sync_nodeport_healthchecks : M SyncState SyncError unit :=
  s ← mget;
  match nphc s with
  | None => mret tt
  | Some hc =>
      let desired := active_local_counts (provider_services (sync_world s)) in
      mzoom (λ s, (default hc (nphc s), sync_world s)) (λ hw s, set_nphc hw.1 hw.2 s)
        (mmap_err SyncNodePort (nphc_sync desired))
  end.

Definition sync_firewall (cfg : SyncConfig) : M SyncState SyncError unit :=
  match sc_firewall_ipt cfg, sc_firewall_ipset cfg with
  | [], _ | _, None => mret tt
  | ipts, Some ipset =>
      s ← mget;
      let '(local, w) := all_local_ips (sync_world s) in
      mmodify (set_sync_world w);;
      let vips := (λ x, (vs_addr x.1, vs_protocol x.1, vs_port x.1)) <$> btree_values (applied s) in
      mfor ipts (λ h : bool * FwIptables W,
        io SyncFirewall (sync_firewall_sets ipset local vips h.1));;
      if firewall_setup_done s then mret tt
      else
        mfor ipts (λ h : bool * FwIptables W,
          io SyncFirewall (setup_firewall h.2 h.1 (sc_firewall_permit_all cfg)));;
        mmodify set_setup_done
  end.

(** ** A pass *)

Definition reconcile_inner (cfg : SyncConfig) (full_resync : bool) : M SyncState SyncError unit :=
  io SyncNetlink (ensure_dummy_link DUMMY_IF);;
  s ← mget;
  let plan := make_plan cfg (provider_services (sync_world s)) in
  program_sloppy (p_sloppy plan);;
  program_ipvs cfg full_resync (p_desired plan);;
  program_vips (p_vips plan);;
  mmodify (set_programmed plan);;
  process_graceful_queue;;
  update_metrics cfg;;
  process_dsr_jobs cfg (p_jobs plan);;
  sync_hairpin_all cfg;;
  sync_masquerade cfg;;
  sync_nodeport_healthchecks;;
  sync_firewall cfg.

Definition sync_reconcile (cfg : SyncConfig) : M SyncState SyncError unit :=
  reconcile_inner cfg true.

(** What wakes the loop of [run]: the timer or a change; [stop] ends it. *)
Inductive Wake := Ticked | Notified.

(** [run] over the wakes that come before [stop]: a failed pass is logged, and
    every pass ends with a heartbeat. *)
Definition run_step (cfg : SyncConfig) (s : SyncState) (wake : Wake) : SyncState :=
  let full_resync := match wake with Ticked => true | Notified => false end in
  let '(_, s) := reconcile_inner cfg full_resync s in
  set_sync_world (services_heartbeat (sync_world s)) s.

Definition sync_run (cfg : SyncConfig) (wakes : list Wake) (s : SyncState) : SyncState :=
  foldl (run_step cfg) s wakes.
End sync.
