(* ===== verification/SyncFacts.v ===== *)
(** * SyncFacts: a pass as a sequence of IPVS calls

    Without graceful termination the IPVS half of a pass is a list of calls that
    depends only on what was programmed and what is desired ([script]).  [View]
    is what the kernel holds when every successful call does what its
    documentation says and every failing one does nothing. *)

From stdpp Require Import gmap sets list strings pretty.
From Stdlib Require Import Ascii ZArith Lia.
From S2P Require Import Prelude Text Net IpText Common Netlink Proxy ProxySync.
Import Graceful.

Local Open Scope Z_scope.
#[local] Arguments svc_key : simpl never.
#[local] Arguments rs_key : simpl never.

(** ** Calls and their documented effects *)

Inductive IpvsCall :=
| AddService (svc : IpvsService)
| EditService (svc : IpvsService)
| DelService (svc : IpvsService)
| AddDest (svc : IpvsService) (d : IpvsDestination)
| UpdateDest (svc : IpvsService) (d : IpvsDestination)
| DelDest (svc : IpvsService) (d : IpvsDestination)
| FlushUdp (addr : IpAddr) (port : Z).

Record View := {
  v_services : gmap string IpvsService;
  v_dests : gmap (string * (IpAddr * Z)) IpvsDestination;
}.

(** What a call that reports success does to the table: adding what is there, and
    changing or deleting what is not, change nothing; a destination goes under an
    existing service and with it.  It is the kernel's table for operations that
    report what the kernel refuses, which those over netlink do not (see
    [GenlTheorems.kernel_refusals_unseen]). *)
Definition effect (v : View) (c : IpvsCall) : View :=
  match c with
  | AddService svc =>
      {| v_services := match v_services v !! svc_key svc with
                       | Some _ => v_services v
                       | None => <[svc_key svc := svc]> (v_services v)
                       end; v_dests := v_dests v |}
  | EditService svc =>
      {| v_services := alter (λ _, svc) (svc_key svc) (v_services v); v_dests := v_dests v |}
  | DelService svc =>
      {| v_services := delete (svc_key svc) (v_services v);
         v_dests := filter (λ kv, kv.1.1 ≠ svc_key svc) (v_dests v) |}
  | AddDest svc d =>
      {| v_services := v_services v;
         v_dests := match v_services v !! svc_key svc, v_dests v !! (svc_key svc, rs_key d) with
                    | Some _, None => <[(svc_key svc, rs_key d) := d]> (v_dests v)
                    | _, _ => v_dests v
                    end |}
  | UpdateDest svc d =>
      {| v_services := v_services v;
         v_dests := alter (λ _, d) (svc_key svc, rs_key d) (v_dests v) |}
  | DelDest svc d =>
      {| v_services := v_services v; v_dests := delete (svc_key svc, rs_key d) (v_dests v) |}
  | FlushUdp _ _ => v
  end.

Definition run_call `{IpvsOps W} (c : IpvsCall) : M W IpvsError unit :=
  match c with
  | AddService svc => add_service svc
  | EditService svc => edit_service svc
  | DelService svc => del_service svc
  | AddDest svc d => add_destination svc d
  | UpdateDest svc d => update_destination svc d
  | DelDest svc d => del_destination svc d
  | FlushUdp addr port => flush_conntrack_udp addr port
  end.

(** An environment beside the view its successful calls produce. *)
Definition viewing `{IpvsOps W} (c : IpvsCall) : M (W * View) IpvsError unit :=
  noting (λ v, effect v c) (run_call c).

(** A call that the view does not depend on. *)
Definition beside {W G E A} (m : M W E A) : M (W * G) E A := noting id m.

#[export] Instance viewed_ipvs `{IpvsOps W} : IpvsOps (W * View) := {|
  add_service svc := viewing (AddService svc);
  edit_service svc := viewing (EditService svc);
  del_service svc := viewing (DelService svc);
  add_destination svc d := viewing (AddDest svc d);
  del_destination svc d := viewing (DelDest svc d);
  update_destination svc d := viewing (UpdateDest svc d);
  dest_conn_stats svc d := beside (dest_conn_stats svc d);
  flush_conntrack_udp addr port := viewing (FlushUdp addr port);
  service_stats := beside service_stats;
  add_fwmark_service mark sched p := beside (add_fwmark_service mark sched p);
  add_fwmark_destination mark d := beside (add_fwmark_destination mark d);
|}.
#[export] Instance viewed_clock `{Clock W} : Clock (W * View) := {| clock_now w := clock_now w.1 |}.

Lemma run_call_viewed `{IpvsOps W} c : run_call (W := W * View) c = viewing c.
Proof. by destruct c. Qed.

(** ** The calls of a pass *)

Definition flush_calls (svc : IpvsService) : list IpvsCall :=
  if bool_decide (vs_protocol svc = Udp) then [FlushUdp (vs_addr svc) (vs_port svc)] else [].

Definition dest_calls (full_resync : bool) (prev_dests : list IpvsDestination)
    (isvc : IpvsService) (d : IpvsDestination) : list IpvsCall :=
  if full_resync then [AddDest isvc d]
  else
    match List.find (λ o, same_backend o d) prev_dests with
    | Some o => if decide (o = d) then [] else [UpdateDest isvc d]
    | None => [AddDest isvc d]
    end.

Definition own_calls (full_resync : bool) (prev : Programmed) (key : string) (isvc : IpvsService)
    : list IpvsCall :=
  match prev !! key with
  | Some (p, _) =>
      if decide (p = isvc) then (if full_resync then [AddService isvc] else [])
      else [EditService isvc]
  | None => [AddService isvc]
  end.

Definition service_calls (full_resync : bool) (prev : Programmed)
    (x : string * (IpvsService * list IpvsDestination)) : list IpvsCall :=
  own_calls full_resync prev x.1 x.2.1 ++
  (x.2.2 ≫= dest_calls full_resync (default [] (snd <$> prev !! x.1)) x.2.1).

Definition script (full_resync : bool) (prev desired : Programmed) : list IpvsCall :=
  (btree_iter desired ≫= service_calls full_resync prev) ++
  (stale_dests prev desired ≫= λ x, DelDest x.1 x.2 :: flush_calls x.1) ++
  (removed_services prev desired ≫= λ svc, DelService svc :: flush_calls svc).

Section script.
Context `{IpNetLib} {W : Type} `{!IpvsOps W, !Clock W}.
Implicit Types (s : SyncState (W := W)).

Definition io_call (c : IpvsCall) : M (SyncState (W := W)) SyncError unit :=
  io SyncIpvs (run_call c).

(** A computation is the list of calls. *)
Definition is_calls (m : M (SyncState (W := W)) SyncError unit) (l : list IpvsCall) : Prop :=
  ∀ s, m s = mfor l io_call s.

Lemma is_calls_app m m' l l' : is_calls m l → is_calls m' l' → is_calls (m ;; m') (l ++ l').
Proof.
  intros Hm Hm' s. unfold mbind at 1, M_bind. rewrite Hm. clear Hm m. revert s.
  induction l as [|c l IH]; intros s; [apply Hm'|]. cbn [mfor app]. unfold mbind, M_bind.
  destruct (io_call c s) as [[e|[]] s']; [done|]. apply IH.
Qed.

Lemma is_calls_for {A} (body : A → M (SyncState (W := W)) SyncError unit) f l :
  (∀ x, is_calls (body x) (f x)) → is_calls (mfor l body) (l ≫= f).
Proof.
  intros Hb. induction l as [|x l IH]; [done|]. cbn [mfor]. rewrite bind_cons.
  by apply is_calls_app.
Qed.

Lemma is_calls_one c : is_calls (io_call c) [c].
Proof. intros s. cbn. unfold mbind, M_bind. by destruct (io_call c s) as [[e|[]] s']. Qed.

Lemma is_calls_flush svc : is_calls (flush_udp svc) (flush_calls svc).
Proof.
  unfold flush_udp, flush_calls, mwhen. destruct (bool_decide _); [|done].
  apply (is_calls_one (FlushUdp _ _)).
Qed.

Lemma program_dest_calls full prev isvc d :
  is_calls (program_dest full prev isvc d) (dest_calls full prev isvc d).
Proof.
  unfold program_dest, dest_calls. destruct full; [apply (is_calls_one (AddDest _ _))|].
  destruct (List.find _ _) as [o|]; [|apply (is_calls_one (AddDest _ _))].
  case_decide; [done|apply (is_calls_one (UpdateDest _ _))].
Qed.

Lemma program_service_calls full prev x :
  is_calls (program_service full prev x) (service_calls full prev x).
Proof.
  destruct x as [key [isvc dests]]. unfold program_service, service_calls, own_calls.
  cbn [fst snd]. apply is_calls_app.
  - destruct (prev !! key) as [[p ds]|]; [|apply (is_calls_one (AddService _))].
    case_decide; [|apply (is_calls_one (EditService _))]. destruct full; [|done].
    apply (is_calls_one (AddService _)).
  - apply is_calls_for. intros d. apply program_dest_calls.
Qed.

(** The IPVS half of a pass is its script, when nothing is drained. *)
Lemma program_ipvs_script (cfg : SyncConfig (W := W)) full desired s :
  sc_graceful cfg = false ∨ stale_dests (applied s) desired = [] →
  program_ipvs cfg full desired s = mfor (script full (applied s) desired) io_call s.
Proof.
  intros Hg. unfold program_ipvs. unfold mbind at 1, M_bind, mget. unfold script.
  refine (is_calls_app _ _ _ _ _ (is_calls_app _ _ _ _ _ _) s).
  - apply is_calls_for. intros x. apply program_service_calls.
  - destruct Hg as [Hg| ->]; [|done].
    apply is_calls_for. intros [svc dst]. unfold remove_destination. rewrite Hg.
    apply (is_calls_app _ _ [_]); [apply (is_calls_one (DelDest _ _))|apply is_calls_flush].
  - apply is_calls_for. intros svc. unfold remove_service.
    apply (is_calls_app _ _ [_]); [apply (is_calls_one (DelService _))|apply is_calls_flush].
Qed.
End script.

(** ** Towards the desired services *)

(** A destination of a programmed service. *)
Definition dest_of (m : Programmed) (k : string) (b : IpAddr * Z) : option IpvsDestination :=
  '(_, ds) ← m !! k; List.find (λ d, bool_decide (rs_key d = b)) ds.

Definition svc_of (m : Programmed) (k : string) : option IpvsService := fst <$> m !! k.

(** Entries are under the key of their service, and a socket has one destination:
    the same one wherever it comes more than once. *)
Definition dests_agree (ds : list IpvsDestination) : Prop :=
  ∀ d d', d ∈ ds → d' ∈ ds → rs_key d = rs_key d' → d = d'.
Definition programmed_ok (m : Programmed) : Prop :=
  ∀ k svc ds, m !! k = Some (svc, ds) → k = svc_key svc ∧ dests_agree ds.

(** The view shows the services and their destinations. *)
Definition shows (m : Programmed) (v : View) : Prop :=
  (∀ k, v_services v !! k = svc_of m k) ∧ (∀ k b, v_dests v !! (k, b) = dest_of m k b).

(** Every service and destination is as it was or as it is desired. *)
Definition between (prev desired : Programmed) (v : View) : Prop :=
  (∀ k, v_services v !! k = svc_of prev k ∨ v_services v !! k = svc_of desired k) ∧
  (∀ k b, v_dests v !! (k, b) = dest_of prev k b ∨ v_dests v !! (k, b) = dest_of desired k b).

Lemma shows_between prev desired v : shows prev v → between prev desired v.
Proof. intros [Hs Hd]. split; intros; left; auto. Qed.

(** A call whose effect, if any, is as desired. *)
Definition towards (desired : Programmed) (c : IpvsCall) : Prop :=
  match c with
  | AddService svc | EditService svc => svc_of desired (svc_key svc) = Some svc
  | DelService svc => desired !! svc_key svc = None
  | AddDest svc d | UpdateDest svc d => dest_of desired (svc_key svc) (rs_key d) = Some d
  | DelDest svc d => dest_of desired (svc_key svc) (rs_key d) = None
  | FlushUdp _ _ => True
  end.

Lemma towards_services desired c v k :
  towards desired c →
  v_services (effect v c) !! k = v_services v !! k ∨ v_services (effect v c) !! k = svc_of desired k.
Proof.
  destruct c as [svc|svc|svc|svc d|svc d|svc d|a p]; cbn; intros Hc; try (by left).
  - destruct (v_services v !! svc_key svc) eqn:Hv; [by left|].
    destruct (decide (svc_key svc = k)) as [<-|Hk]; [right; by rewrite Hc, lookup_insert_eq|].
    left. by rewrite lookup_insert_ne.
  - destruct (decide (svc_key svc = k)) as [<-|Hk]; [|left; by rewrite lookup_alter_ne].
    rewrite lookup_alter_eq, Hc. destruct (v_services v !! svc_key svc); [by right|by left].
  - destruct (decide (svc_key svc = k)) as [<-|Hk]; [|left; by rewrite lookup_delete_ne].
    right. rewrite lookup_delete_eq. unfold svc_of. by rewrite Hc.
Qed.

Lemma towards_dests desired c v k b :
  towards desired c →
  v_dests (effect v c) !! (k, b) = v_dests v !! (k, b) ∨
  v_dests (effect v c) !! (k, b) = dest_of desired k b.
Proof.
  destruct c as [svc|svc|svc|svc d|svc d|svc d|a p]; cbn; intros Hc; try (by left).
  - destruct (decide (svc_key svc = k)) as [<-|Hk].
    + right. unfold dest_of. rewrite Hc. cbn. apply map_lookup_filter_None_2. right. cbn. naive_solver.
    + left. destruct (v_dests v !! (k, b)) as [d|] eqn:Hd.
      * apply map_lookup_filter_Some_2; [done|]. cbn. congruence.
      * apply map_lookup_filter_None_2. by left.
  - destruct (v_services v !! svc_key svc); [|by left].
    destruct (v_dests v !! (svc_key svc, rs_key d)) eqn:Hd; [by left|].
    destruct (decide ((svc_key svc, rs_key d) = (k, b))) as [Heq|Hk].
    + right. simplify_eq. by rewrite Hc, lookup_insert_eq.
    + left. by rewrite lookup_insert_ne.
  - destruct (decide ((svc_key svc, rs_key d) = (k, b))) as [Heq|Hk];
      [|left; by rewrite lookup_alter_ne].
    simplify_eq. rewrite lookup_alter_eq, Hc. destruct (v_dests v !! _); [by right|by left].
  - destruct (decide ((svc_key svc, rs_key d) = (k, b))) as [Heq|Hk];
      [|left; by rewrite lookup_delete_ne].
    right. simplify_eq. by rewrite Hc, lookup_delete_eq.
Qed.

Lemma towards_between prev desired c v :
  towards desired c → between prev desired v → between prev desired (effect v c).
Proof.
  intros Hc [Hs Hd]. split.
  - intros k. destruct (towards_services desired c v k Hc) as [->| ->]; auto.
  - intros k b. destruct (towards_dests desired c v k b Hc) as [->| ->]; auto.
Qed.

(** Views on which a service, or a destination, is as desired. *)
Definition svc_settled (desired : Programmed) (k : string) (v : View) : Prop :=
  v_services v !! k = svc_of desired k.
Definition dest_settled (desired : Programmed) (k : string) (b : IpAddr * Z) (v : View) : Prop :=
  v_dests v !! (k, b) = dest_of desired k b.

(** Running calls. *)
Definition effects (v : View) (l : list IpvsCall) : View := foldl effect v l.

Lemma effects_keep desired (P : View → Prop) l v :
  (∀ c v, towards desired c → P v → P (effect v c)) → Forall (towards desired) l → P v →
  P (effects v l).
Proof. intros Hstep Hl. revert v. induction Hl as [|c l Hc _ IH]; intros v Hv; [done|]. cbn. auto. Qed.

Lemma svc_settled_keep desired k c v :
  towards desired c → svc_settled desired k v → svc_settled desired k (effect v c).
Proof. intros Hc Hv. unfold svc_settled. by destruct (towards_services desired c v k Hc) as [->| ->]. Qed.
Lemma dest_settled_keep desired k b c v :
  towards desired c → dest_settled desired k b v → dest_settled desired k b (effect v c).
Proof. intros Hc Hv. unfold dest_settled. by destruct (towards_dests desired c v k b Hc) as [->| ->]. Qed.

(** A property that some call brings about from any intermediate view. *)
Lemma effects_reach desired (Q P : View → Prop) l c v :
  c ∈ l → Forall (towards desired) l →
  (∀ c v, towards desired c → Q v → Q (effect v c)) →
  (∀ c v, towards desired c → P v → P (effect v c)) →
  (∀ v, Q v → P (effect v c)) → Q v → P (effects v l).
Proof.
  intros Hc Hl HQ HP Hreach Hv. apply list_elem_of_split in Hc as (l1 & l2 & ->).
  apply Forall_app in Hl as [Hl1 [_ Hl2]%Forall_cons]. unfold effects. rewrite foldl_app. cbn.
  apply (effects_keep desired P _ _ HP Hl2), Hreach. by apply (effects_keep desired Q).
Qed.

(** ** The script reaches the desired services *)

Lemma find_rs_key_some (l : list IpvsDestination) b d :
  List.find (λ x, bool_decide (rs_key x = b)) l = Some d → d ∈ l ∧ rs_key d = b.
Proof.
  intros Hf. apply List.find_some in Hf as [Hin Hb%bool_decide_eq_true]. by apply list_elem_of_In in Hin.
Qed.

Lemma find_rs_key_none (l : list IpvsDestination) b :
  List.find (λ x, bool_decide (rs_key x = b)) l = None ↔ b ∉ rs_key <$> l.
Proof.
  split.
  - intros Hf (d & -> & Hd)%list_elem_of_fmap. pose proof (List.find_none _ _ Hf d) as Hn.
    rewrite list_elem_of_In in Hd. specialize (Hn Hd). cbn in Hn. by rewrite bool_decide_eq_true_2 in Hn.
  - intros Hb. destruct (List.find _ l) as [d|] eqn:Hf; [|done].
    apply find_rs_key_some in Hf as [Hd <-]. destruct Hb. by apply list_elem_of_fmap_2.
Qed.

Lemma find_rs_key l d :
  dests_agree l → d ∈ l → List.find (λ x, bool_decide (rs_key x = rs_key d)) l = Some d.
Proof.
  intros Hl Hd. destruct (List.find _ l) as [x|] eqn:Hf.
  - apply find_rs_key_some in Hf as [Hx Heq]. f_equal. by apply Hl.
  - apply find_rs_key_none in Hf. destruct Hf. by apply list_elem_of_fmap_2.
Qed.

Section reach.
Variables (full : bool) (prev desired : Programmed).
Hypothesis Hprev : programmed_ok prev.
Hypothesis Hdes : programmed_ok desired.

Lemma desired_dest k svc ds d :
  desired !! k = Some (svc, ds) → d ∈ ds → dest_of desired (svc_key svc) (rs_key d) = Some d.
Proof.
  intros Hk Hd. destruct (Hdes k svc ds Hk) as [-> Hnd]. unfold dest_of. rewrite Hk. cbn.
  by apply find_rs_key.
Qed.

Lemma elem_of_stale svc d :
  (svc, d) ∈ stale_dests prev desired ↔
  ∃ k ds p old, desired !! k = Some (svc, ds) ∧ prev !! k = Some (p, old) ∧ d ∈ old ∧
                rs_key d ∉ rs_key <$> ds.
Proof.
  unfold stale_dests. rewrite list_elem_of_bind. split.
  - intros ([k [isvc ds]] & Hin & Hk%elem_of_btree_iter).
    destruct (prev !! k) as [[p old]|] eqn:Hp; [|by apply elem_of_nil in Hin].
    apply list_elem_of_fmap in Hin as (o & [= -> ->] & [Hf Ho]%list_elem_of_filter).
    exists k, ds, p, old. split_and!; [done..|]. intros (x & Hx & Hin)%list_elem_of_fmap.
    apply not_true_iff_false in Hf. apply Hf, existsb_exists. exists x.
    split; [by apply list_elem_of_In|]. by apply bool_decide_eq_true.
  - intros (k & ds & p & old & Hk & Hp & Hd & Hn). exists (k, (svc, ds)). split.
    + rewrite Hp. apply list_elem_of_fmap. exists d. split; [done|]. apply list_elem_of_filter.
      split; [|done]. apply not_true_iff_false. rewrite existsb_exists.
      intros (x & Hx & Hb%bool_decide_eq_true). apply Hn. rewrite <-Hb.
      apply list_elem_of_fmap_2. by apply list_elem_of_In.
    + by apply elem_of_btree_iter.
Qed.

Lemma elem_of_removed svc :
  svc ∈ removed_services prev desired ↔
  ∃ k ds, prev !! k = Some (svc, ds) ∧ desired !! k = None.
Proof.
  unfold removed_services. rewrite list_elem_of_fmap. split.
  - intros ([k [s ds]] & -> & [Hn Hk%elem_of_btree_iter]%list_elem_of_filter). by exists k, ds.
  - intros (k & ds & Hk & Hn). exists (k, (svc, ds)). split; [done|].
    apply list_elem_of_filter. split; [done|by apply elem_of_btree_iter].
Qed.

Lemma flush_towards svc : Forall (towards desired) (flush_calls svc).
Proof. unfold flush_calls. destruct (bool_decide _); [by repeat constructor|apply Forall_nil_2]. Qed.

Lemma dest_calls_towards k svc ds old d :
  desired !! k = Some (svc, ds) → d ∈ ds → Forall (towards desired) (dest_calls full old svc d).
Proof.
  intros Hk Hd. pose proof (desired_dest k svc ds d Hk Hd) as Hdest. unfold dest_calls.
  repeat case_match; try case_decide; rewrite ?Forall_singleton; try done; apply Forall_nil_2.
Qed.

Lemma own_calls_towards k svc ds :
  desired !! k = Some (svc, ds) → Forall (towards desired) (own_calls full prev k svc).
Proof.
  intros Hk. pose proof (proj1 (Hdes k svc ds Hk)) as Hkey.
  assert (svc_of desired (svc_key svc) = Some svc) as Hs by (unfold svc_of; by rewrite <-Hkey, Hk).
  unfold own_calls. repeat case_match; try case_decide; rewrite ?Forall_singleton;
    try done; destruct full; rewrite ?Forall_singleton; try done; apply Forall_nil_2.
Qed.

Lemma service_calls_towards x :
  x ∈ btree_iter desired → Forall (towards desired) (service_calls full prev x).
Proof.
  destruct x as [k [svc ds]]. intros Hk%elem_of_btree_iter. unfold service_calls. cbn [fst snd].
  apply Forall_app_2; [by eapply own_calls_towards|].
  apply Forall_forall. intros c (d & Hc & Hd)%list_elem_of_bind.
  pose proof (dest_calls_towards k svc ds (default [] (snd <$> prev !! k)) d Hk Hd) as Hall.
  rewrite Forall_forall in Hall. by apply Hall.
Qed.

Lemma script_towards : Forall (towards desired) (script full prev desired).
Proof.
  unfold script. rewrite Forall_forall. intros c. rewrite !elem_of_app, !list_elem_of_bind.
  intros [(x & Hc & Hx)|[([svc d] & Hc & Hx)|(svc & Hc & Hx)]].
  - pose proof (service_calls_towards x Hx) as Hall. rewrite Forall_forall in Hall. by apply Hall.
  - apply elem_of_cons in Hc as [->|Hc];
      [|pose proof (flush_towards svc) as Hall; rewrite Forall_forall in Hall; by apply Hall].
    apply elem_of_stale in Hx as (k & ds & p & old & Hk & _ & _ & Hn). cbn.
    destruct (Hdes k svc ds Hk) as [-> _]. unfold dest_of. rewrite Hk. cbn. by apply find_rs_key_none.
  - apply elem_of_cons in Hc as [->|Hc];
      [|pose proof (flush_towards svc) as Hall; rewrite Forall_forall in Hall; by apply Hall].
    apply elem_of_removed in Hx as (k & ds & Hk & Hn). cbn. by destruct (Hprev k svc ds Hk) as [<- _].
Qed.

Lemma own_reach k svc ds v :
  desired !! k = Some (svc, ds) → between prev desired v →
  svc_settled desired k (effects v (own_calls full prev k svc)).
Proof.
  intros Hk [Hs _]. pose proof (proj1 (Hdes k svc ds Hk)) as Hkey. specialize (Hs k).
  unfold svc_settled, own_calls in *. unfold svc_of in *. rewrite Hk in *.
  destruct (prev !! k) as [[p old]|] eqn:Hp; cbn in Hs |- *.
  - case_decide as Heq.
    + subst p. assert (v_services v !! k = Some svc) as Hv by by destruct Hs.
      destruct full; cbn; [|done]. rewrite <-Hkey, Hv. exact Hv.
    + cbn. rewrite <-Hkey, lookup_alter_eq. by destruct Hs as [-> | ->].
  - cbn. rewrite <-Hkey. destruct Hs as [Hv|Hv]; rewrite Hv; [by rewrite lookup_insert_eq|done].
Qed.

(** The script around the calls of one service. *)
Lemma script_split x :
  x ∈ btree_iter desired →
  ∃ l1 l2, script full prev desired = l1 ++ own_calls full prev x.1 x.2.1 ++
    (x.2.2 ≫= dest_calls full (default [] (snd <$> prev !! x.1)) x.2.1) ++ l2.
Proof.
  intros (l1 & l2 & Hl)%list_elem_of_split. unfold script.
  exists (l1 ≫= service_calls full prev). rewrite Hl, bind_app, bind_cons.
  unfold service_calls at 2. rewrite <-!app_assoc. eexists. done.
Qed.

Lemma effects_app v l l' : effects v (l ++ l') = effects (effects v l) l'.
Proof. apply foldl_app. Qed.

(** After the own calls of a service, the service is as desired and stays so. *)
Lemma service_ready x v :
  x ∈ btree_iter desired → between prev desired v →
  ∃ v' l2, between prev desired v' ∧ svc_settled desired x.1 v' ∧
    effects v (script full prev desired) =
    effects v' ((x.2.2 ≫= dest_calls full (default [] (snd <$> prev !! x.1)) x.2.1) ++ l2) ∧
    Forall (towards desired)
      ((x.2.2 ≫= dest_calls full (default [] (snd <$> prev !! x.1)) x.2.1) ++ l2).
Proof.
  intros Hx Hv. destruct (script_split x Hx) as (l1 & l2 & Hl). pose proof script_towards as Hall.
  rewrite Hl in Hall. apply Forall_app in Hall as [H1 [H2 H3]%Forall_app].
  destruct x as [k [svc ds]]. cbn [fst snd] in *.
  assert (between prev desired (effects v l1)) as Hv1
    by (apply (effects_keep desired); [intros c w; apply towards_between|done..]).
  exists (effects (effects v l1) (own_calls full prev k svc)), l2. split_and!.
  - apply (effects_keep desired); [intros c w; apply towards_between|done..].
  - apply (own_reach k svc ds); [by apply elem_of_btree_iter|done].
  - by rewrite Hl, !effects_app.
  - done.
Qed.

Lemma del_service_in k svc ds :
  prev !! k = Some (svc, ds) → desired !! k = None → DelService svc ∈ script full prev desired.
Proof.
  intros Hk Hn. unfold script. apply elem_of_app. right. apply elem_of_app. right.
  apply list_elem_of_bind. exists svc. split; [by apply list_elem_of_here|].
  apply elem_of_removed. eauto.
Qed.

Lemma service_reached k v :
  between prev desired v → svc_settled desired k (effects v (script full prev desired)).
Proof.
  intros Hv. pose proof script_towards as Hall.
  destruct (desired !! k) as [[svc ds]|] eqn:Hk.
  - destruct (service_ready (k, (svc, ds)) v) as (v' & l2 & Hv' & Hs & -> & Hl);
      [by apply elem_of_btree_iter|done|]. cbn [fst snd] in *.
    apply (effects_keep desired); [intros c w; apply svc_settled_keep|done|done].
  - destruct (prev !! k) as [[svc ds]|] eqn:Hp.
    + pose proof (proj1 (Hprev k svc ds Hp)) as Hkey.
      apply (effects_reach desired (λ _, True) (svc_settled desired k) _ (DelService svc));
        [by eapply del_service_in|done|done|intros c w; apply svc_settled_keep| |done].
      intros w _. unfold svc_settled, svc_of. rewrite Hk. cbn. rewrite <-Hkey. apply lookup_delete_eq.
    + apply (effects_keep desired); [intros c w; apply svc_settled_keep|done|].
      unfold svc_settled. destruct Hv as [Hs _]. destruct (Hs k) as [->|H']; [|done].
      unfold svc_of. by rewrite Hp, Hk.
Qed.

(** A full resync adds destinations and does not change them. *)
Hypothesis Hchanged : full = true →
  ∀ k b o d, dest_of prev k b = Some o → dest_of desired k b = Some d → o = d.

Lemma same_backend_find (l : list IpvsDestination) d :
  List.find (λ o, same_backend o d) l = List.find (λ o, bool_decide (rs_key o = rs_key d)) l.
Proof. done. Qed.

(** A destination is added under its service, or updated. *)
Lemma dest_call_reach k svc ds d v :
  desired !! k = Some (svc, ds) → d ∈ ds →
  between prev desired v → svc_settled desired k v →
  dest_of prev k (rs_key d) ≠ Some d →
  ∃ c, c ∈ dest_calls full (default [] (snd <$> prev !! k)) svc d ∧
    ∀ w, between prev desired w ∧ svc_settled desired k w → dest_settled desired k (rs_key d) (effect w c).
Proof.
  intros Hk Hd Hv Hs Hne. destruct (Hdes k svc ds Hk) as [Hkey _].
  pose proof (desired_dest k svc ds d Hk Hd) as Hdd. rewrite <-Hkey in Hdd.
  assert (List.find (λ o, same_backend o d) (default [] (snd <$> prev !! k)) =
    dest_of prev k (rs_key d)) as Hfind.
  { rewrite same_backend_find. unfold dest_of. by destruct (prev !! k) as [[p old]|]. }
  destruct (dest_of prev k (rs_key d)) as [o|] eqn:Ho.
  - assert (full = false) as Hfull.
    { destruct full; [|done]. pose proof (Hchanged eq_refl k (rs_key d) o d Ho Hdd). congruence. }
    exists (UpdateDest svc d). unfold dest_calls. rewrite Hfull, Hfind. split.
    + rewrite decide_False by congruence. apply list_elem_of_here.
    + intros w [[_ Hw] _]. specialize (Hw k (rs_key d)). unfold dest_settled. cbn.
      rewrite <-Hkey, lookup_alter_eq, Hdd. rewrite Ho, Hdd in Hw. by destruct Hw as [-> | ->].
  - exists (AddDest svc d). unfold dest_calls. rewrite Hfind. split.
    + destruct full; apply list_elem_of_here.
    + intros w [[_ Hw] Hws]. specialize (Hw k (rs_key d)). unfold dest_settled, svc_settled in *.
      cbn. rewrite <-Hkey, Hws. unfold svc_of. rewrite Hk. cbn. rewrite Ho, Hdd in Hw. rewrite Hdd.
      destruct Hw as [Hw|Hw]; rewrite Hw; [by rewrite lookup_insert_eq|done].
Qed.

Lemma dest_reached k b v :
  between prev desired v → dest_settled desired k b (effects v (script full prev desired)).
Proof.
  intros Hv. pose proof script_towards as Hall.
  destruct (decide (dest_of prev k b = dest_of desired k b)) as [Heq|Hne].
  { apply (effects_keep desired); [intros c w; apply dest_settled_keep|done|].
    unfold dest_settled. destruct Hv as [_ Hd]. destruct (Hd k b) as [->|]; done. }
  destruct (desired !! k) as [[svc ds]|] eqn:Hk.
  - destruct (dest_of desired k b) as [d|] eqn:Hd.
    + pose proof Hd as Hd'. unfold dest_of in Hd'. rewrite Hk in Hd'. cbn in Hd'.
      apply find_rs_key_some in Hd' as [Hin <-].
      destruct (service_ready (k, (svc, ds)) v) as (v' & l2 & Hv' & Hs & -> & Hl);
        [by apply elem_of_btree_iter|done|]. cbn [fst snd] in *.
      destruct (dest_call_reach k svc ds d v' Hk Hin Hv' Hs) as (c & Hc & Hreach); [congruence|].
      apply (effects_reach desired (λ w, between prev desired w ∧ svc_settled desired k w)
        (dest_settled desired k (rs_key d)) _ c); [|done| |intros x w; apply dest_settled_keep|done|done].
      * apply elem_of_app. left. apply list_elem_of_bind. by exists d.
      * intros x w Hx [Hw1 Hw2]. split; [by apply towards_between|by apply svc_settled_keep].
    + destruct (dest_of prev k b) as [o|] eqn:Ho; [|done]. unfold dest_of in Ho.
      destruct (prev !! k) as [[p old]|] eqn:Hp; [|done]. cbn in Ho.
      apply find_rs_key_some in Ho as [Hin <-].
      apply (effects_reach desired (λ _, True) (dest_settled desired k (rs_key o)) _ (DelDest svc o));
        [|done|done|intros x w; apply dest_settled_keep| |done].
      * unfold script. apply elem_of_app. right. apply elem_of_app. left.
        apply list_elem_of_bind. exists (svc, o). split; [by apply list_elem_of_here|].
        apply elem_of_stale. exists k, ds, p, old. split_and!; [done..|].
        unfold dest_of in Hd. rewrite Hk in Hd. cbn in Hd. by apply find_rs_key_none.
      * intros w _. unfold dest_settled. rewrite Hd. cbn. destruct (Hdes k svc ds Hk) as [-> _].
        apply lookup_delete_eq.
  - assert (dest_of desired k b = None) as Hd by (unfold dest_of; by rewrite Hk).
    destruct (prev !! k) as [[svc ds]|] eqn:Hp.
    + pose proof (proj1 (Hprev k svc ds Hp)) as Hkey.
      apply (effects_reach desired (λ _, True) (dest_settled desired k b) _ (DelService svc));
        [by eapply del_service_in|done|done|intros c w; apply dest_settled_keep| |done].
      intros w _. unfold dest_settled. rewrite Hd. cbn. rewrite <-Hkey.
      apply map_lookup_filter_None_2. right. cbn. naive_solver.
    + destruct Hne. unfold dest_of. by rewrite Hp, Hk.
Qed.
End reach.

(** A destination that is there stays as it is, unless a call updates it. *)
Lemma effect_keeps_dest desired c v k b o :
  towards desired c → is_Some (desired !! k) → is_Some (dest_of desired k b) →
  (∀ svc d, c = UpdateDest svc d → (svc_key svc, rs_key d) ≠ (k, b)) →
  v_dests v !! (k, b) = Some o → v_dests (effect v c) !! (k, b) = Some o.
Proof.
  intros Hc [x Hk] [d' Hd'] Hu Hv. destruct c as [svc|svc|svc|svc d|svc d|svc d|a p]; cbn in *; try done.
  - apply map_lookup_filter_Some_2; [done|]. cbn. intros ->. congruence.
  - destruct (v_services v !! svc_key svc); [|done].
    destruct (v_dests v !! (svc_key svc, rs_key d)) eqn:Hd; [done|].
    rewrite lookup_insert_ne; [done|]. congruence.
  - rewrite lookup_alter_ne by by apply Hu. done.
  - rewrite lookup_delete_ne; [done|]. intros Heq. simplify_eq.
Qed.

Lemma elem_of_service_calls full prev x c :
  c ∈ service_calls full prev x →
  c ∈ own_calls full prev x.1 x.2.1 ∨
  ∃ d, d ∈ x.2.2 ∧ c ∈ dest_calls full (default [] (snd <$> prev !! x.1)) x.2.1 d.
Proof.
  unfold service_calls. rewrite elem_of_app, list_elem_of_bind. intros [Hc|(d & Hc & Hd)]; eauto.
Qed.

(** The updates of a script are of destinations whose parameters changed. *)
Lemma script_updates full prev desired svc d :
  programmed_ok desired → UpdateDest svc d ∈ script full prev desired →
  full = false ∧ ∃ o, dest_of prev (svc_key svc) (rs_key d) = Some o ∧ o ≠ d.
Proof.
  intros Hdes. unfold script. rewrite !elem_of_app, !list_elem_of_bind.
  assert (∀ svc', UpdateDest svc d ∉ flush_calls svc') as Hflush.
  { intros svc'. unfold flush_calls. destruct (bool_decide _);
      rewrite ?list_elem_of_singleton; [done|apply not_elem_of_nil]. }
  intros [([k [isvc ds]] & Hc & Hk%elem_of_btree_iter)|[(x & Hc & _)|(x & Hc & _)]].
  2-3: apply elem_of_cons in Hc as [Hc|Hc]; [done|by apply Hflush in Hc].
  apply elem_of_service_calls in Hc as [Hc|(d' & Hd & Hc)]; cbn [fst snd] in *.
  - exfalso. revert Hc. unfold own_calls.
    repeat case_match; try case_decide; destruct full;
      rewrite ?list_elem_of_singleton, ?elem_of_nil; try done.
  - revert Hc. unfold dest_calls. destruct full; [by rewrite list_elem_of_singleton|].
    destruct (List.find _ _) as [o|] eqn:Hf; [|by rewrite list_elem_of_singleton].
    case_decide as Hne; [by rewrite elem_of_nil|]. rewrite list_elem_of_singleton.
    intros [= -> ->]. split; [done|]. exists o. split; [|done].
    destruct (Hdes k isvc ds Hk) as [<- _]. rewrite same_backend_find in Hf. unfold dest_of.
    destruct (prev !! k) as [[p old]|]; [exact Hf|done].
Qed.

(** The script takes any intermediate view to the desired services. *)
Lemma script_reaches full prev desired v :
  programmed_ok prev → programmed_ok desired →
  (full = true → ∀ k b o d, dest_of prev k b = Some o → dest_of desired k b = Some d → o = d) →
  between prev desired v → shows desired (effects v (script full prev desired)).
Proof.
  intros Hprev Hdes Hchg Hv. split; intros; [by apply service_reached|by apply dest_reached].
Qed.

(** Any part of it stays between. *)
Lemma script_prefix_between full prev desired v done rest :
  programmed_ok prev → programmed_ok desired → script full prev desired = done ++ rest →
  between prev desired v → between prev desired (effects v done).
Proof.
  intros Hprev Hdes Hl Hv. pose proof (script_towards full prev desired Hprev Hdes) as Hall.
  rewrite Hl in Hall. apply Forall_app in Hall as [Hdone _].
  apply (effects_keep desired); [intros c w; apply towards_between|done|done].
Qed.
