(* ===== verification/SyncTheorems.v ===== *)
(** * SyncTheorems: the service sync programs what the services ask for

    Properties of the passes of [ProxySync], for every environment: what the
    kernel shows after a pass, what a failed pass leaves,
    and how draining destinations leave the queue. *)

From stdpp Require Import gmap sets list strings pretty.
From Stdlib Require Import Ascii ZArith Lia.
From S2P Require Import Prelude Text Net IpText Common Netlink Proxy ProxySync SyncFacts.
Import Graceful.

Local Open Scope Z_scope.
#[local] Arguments svc_key : simpl never.

(** ** Calls on the view *)

Section viewed.
Context `{IpNetLib} {W : Type} `{!IpvsOps W, !Clock W}.
Implicit Types (s : SyncState (W := W * View)).

Definition kernel s : View := (sync_world s).2.

Lemma mfor_io_calls l s r s' :
  mfor l io_call s = (r, s') →
  ∃ done rest, l = done ++ rest ∧ kernel s' = effects (kernel s) done ∧
    s' = set_sync_world (sync_world s') s ∧ (r = inr tt → rest = []).
Proof.
  revert s. induction l as [|c l IH]; intros s; cbn [mfor].
  { intros [= <- <-]. exists [], []. by destruct s. }
  unfold mbind, M_bind. unfold io_call at 1, io, mzoom, mmap_err. rewrite run_call_viewed.
  unfold viewing, noting. destruct (run_call c (sync_world s).1) as [[e|[]] w].
  - intros [= <- <-]. exists [], (c :: l). split_and!; [done|by destruct s|by destruct s|done].
  - intros (done & rest & -> & Hk & Hs & Hr)%IH. exists (c :: done), rest.
    split_and!; [done| |rewrite Hs; by destruct s|done]. rewrite Hk. by destruct s.
Qed.

(** A destination that the pass does not update stays as the kernel has it. *)
Lemma dest_kept (cfg : SyncConfig (W := W * View)) full desired s s' r k b d o :
  sc_graceful cfg = false ∨ stale_dests (applied s) desired = [] →
  programmed_ok (applied s) → programmed_ok desired →
  is_Some (desired !! k) → dest_of desired k b = Some d →
  (full = true ∨ dest_of (applied s) k b = None) →
  v_dests (kernel s) !! (k, b) = Some o →
  program_ipvs cfg full desired s = (r, s') → v_dests (kernel s') !! (k, b) = Some o.
Proof.
  intros Hst Hprev Hdes Hk Hd Hu Hv. rewrite program_ipvs_script by done.
  intros (done & rest & Hl & Hk' & _ & _)%mfor_io_calls. rewrite Hk'.
  pose proof (script_towards full (applied s) desired Hprev Hdes) as Hall.
  assert (∀ c, c ∈ done → towards desired c ∧
    (∀ svc d, c = UpdateDest svc d → (svc_key svc, rs_key d) ≠ (k, b))) as Hdone.
  { intros c Hc. assert (c ∈ script full (applied s) desired) as Hin
      by (rewrite Hl; apply elem_of_app; by left).
    rewrite Forall_forall in Hall. split; [by apply Hall|]. intros svc d0 -> [= Hk0 Hb0].
    apply script_updates in Hin as (Hf & o' & Ho & _); [|done]. rewrite Hk0, Hb0 in Ho.
    destruct Hu as [Hu|Hu]; congruence. }
  clear Hl Hk' Hall. revert Hdone. generalize (kernel s), Hv. clear Hv.
  induction done as [|c l IH]; intros v Hv Hdone; [done|]. cbn. apply IH.
  - destruct (Hdone c (list_elem_of_here c l)) as [Hc Hcu].
    by eapply effect_keeps_dest.
  - intros c' Hc'. apply Hdone. by apply list_elem_of_further.
Qed.

(** A full resync does not change the parameters of a destination: it adds what
    is desired, and adding an existing destination changes nothing.  The pass
    succeeds, and the next ones believe the new parameters are programmed. *)
Theorem full_resync_keeps_old_parameters (cfg : SyncConfig (W := W * View)) desired s s' k b o d :
  sc_graceful cfg = false ∨ stale_dests (applied s) desired = [] →
  programmed_ok (applied s) → programmed_ok desired → shows (applied s) (kernel s) →
  dest_of (applied s) k b = Some o → dest_of desired k b = Some d → o ≠ d →
  program_ipvs cfg true desired s = (inr tt, s') →
  ¬ shows desired (kernel s') ∧ v_dests (kernel s') !! (k, b) = Some o.
Proof.
  intros Hst Hprev Hdes [_ Hshow] Ho Hd Hne Hrun.
  assert (is_Some (desired !! k)) as Hk.
  { unfold dest_of in Hd. destruct (desired !! k); [eauto|done]. }
  assert (v_dests (kernel s') !! (k, b) = Some o) as Hkept.
  { eapply (dest_kept cfg true desired s s'); eauto. by rewrite Hshow. }
  split; [|done]. intros [_ Hs]. rewrite Hs in Hkept. congruence.
Qed.

(** C40: A draining destination whose endpoint comes back stays at weight zero: the
    pass adds it, which changes nothing for a destination the kernel still has,
    and the queue then drops the item without a call. *)
Theorem readded_destination_stays_drained (cfg : SyncConfig (W := W * View)) full desired s s'
    svc ds d deadline plan now :
  sc_graceful cfg = false ∨ stale_dests (applied s) desired = [] →
  programmed_ok (applied s) → programmed_ok desired →
  desired !! svc_key svc = Some (svc, ds) → d ∈ ds → rs_weight d ≠ 0 →
  dest_of (applied s) (svc_key svc) (rs_key d) = None →
  v_dests (kernel s) !! (svc_key svc, rs_key d) = Some (drained d) →
  program_ipvs cfg full desired s = (inr tt, s') → p_desired plan = desired →
  let item := {| pr_svc := svc; pr_dst := drained d; pr_deadline := deadline |} in
  v_dests (kernel s') !! (svc_key svc, rs_key d) = Some (drained d) ∧
  process_pending now item (set_programmed plan s') = (inr tt, set_programmed plan s').
Proof.
  intros Hst Hprev Hdes Hk Hd Hw Hnew Hdrained Hrun Hplan. split.
  - eapply (dest_kept cfg full desired s s'); eauto. by eapply desired_dest.
  - unfold process_pending. unfold mbind at 1, M_bind, mget.
    assert (readded (applied (set_programmed plan s'))
      {| pr_svc := svc; pr_dst := drained d; pr_deadline := deadline |} = true) as ->; [|done].
    unfold readded. cbn [applied set_programmed pr_svc pr_dst]. rewrite Hplan, Hk.
    apply existsb_exists. exists d. split; [by apply list_elem_of_In|].
    apply andb_true_iff. split; [by apply bool_decide_eq_true|]. by apply negb_true_iff, Z.eqb_neq.
Qed.

(** ** The queue of draining destinations *)

(** What one item of the queue does to a state. *)
Lemma process_pending_view now p s s' :
  process_pending now p s = (inr tt, s') →
  applied s' = applied s ∧
  (∀ kb, v_dests (kernel s) !! kb = None → v_dests (kernel s') !! kb = None) ∧
  (gqueue s' = gqueue s ∨
   (gqueue s' = gqueue s ++ [p] ∧ now < pr_deadline p ∧ readded (applied s) p = false)) ∧
  (readded (applied s) p = false → pr_deadline p ≤ now →
   gqueue s' = gqueue s ∧ v_dests (kernel s') !! (svc_key (pr_svc p), rs_key (pr_dst p)) = None).
Proof.
  unfold process_pending. unfold mbind at 1, M_bind, mget.
  destruct (readded (applied s) p); [intros [= <-]; naive_solver|].
  unfold mbind at 1, M_bind. unfold io at 1, mzoom, mmap_err.
  cbn [dest_conn_stats viewed_ipvs]. unfold beside, noting.
  destruct (dest_conn_stats (pr_svc p) (pr_dst p) (sync_world s).1) as [[e|stats] w]; [done|].
  destruct (bool_decide _ || _) eqn:Hidle.
  - unfold io, mzoom, mmap_err. cbn [del_destination viewed_ipvs]. unfold viewing, noting.
    cbn [run_call sync_world set_sync_world fst snd].
    destruct (del_destination (pr_svc p) (pr_dst p) w) as [[e|[]] w']; [done|]. intros [= <-].
    unfold kernel. cbn [applied set_sync_world sync_world gqueue snd effect v_dests id].
    split_and!; [done| |by left|intros _ _; split; [done|apply lookup_delete_eq]].
    intros kb Hkb. rewrite lookup_delete_None. by right.
  - apply orb_false_iff in Hidle as [_ Hidle%Z.leb_gt]. intros [= <-].
    unfold kernel. cbn. split_and!; [done|done|right; done|]. lia.
Qed.

(** C13: Every draining destination leaves the queue: after a successful processing
    only items of the queue whose deadline is still ahead remain, and the kernel
    has none of the expired ones that are not desired again. *)
Theorem graceful_queue_drains s s' :
  process_graceful_queue s = (inr tt, s') →
  let now := clock_now (sync_world s) in
  (∀ p, p ∈ gqueue s' → p ∈ gqueue s ∧ now < pr_deadline p ∧ readded (applied s) p = false) ∧
  (∀ p, p ∈ gqueue s → readded (applied s) p = false → pr_deadline p ≤ now →
    (p ∉ gqueue s') ∧ v_dests (kernel s') !! (svc_key (pr_svc p), rs_key (pr_dst p)) = None).
Proof.
  intros Hrun now. unfold process_graceful_queue in Hrun. unfold mbind at 1, M_bind, mget in Hrun.
  destruct (gqueue s) as [|p0 items] eqn:Hq.
  { injection Hrun as <-. rewrite Hq. split; intros p Hp; by apply elem_of_nil in Hp. }
  set (queue := p0 :: items) in *. unfold mbind at 1, M_bind, mmodify in Hrun.
  assert (triple (λ t, t = set_gqueue [] s) (mfor queue (process_pending now))
    (λ _ t, applied t = applied s ∧
      (∀ p, p ∈ gqueue t → p ∈ queue ∧ now < pr_deadline p ∧ readded (applied s) p = false) ∧
      (∀ p, p ∈ queue → readded (applied s) p = false → pr_deadline p ≤ now →
        v_dests (kernel t) !! (svc_key (pr_svc p), rs_key (pr_dst p)) = None)) (λ _ _, True)) as Htr.
  { eapply triple_conseq; [apply (triple_for queue (process_pending now)
      (λ done t, applied t = applied s ∧
        (∀ p, p ∈ gqueue t → p ∈ done ∧ now < pr_deadline p ∧ readded (applied s) p = false) ∧
        (∀ p, p ∈ done → readded (applied s) p = false → pr_deadline p ≤ now →
          v_dests (kernel t) !! (svc_key (pr_svc p), rs_key (pr_dst p)) = None)) (λ _ _, True))
      | |naive_solver|done].
    - intros done x rest _ t (Ha & Hin & Hgone).
      destruct (process_pending now x t) as [[e|[]] t'] eqn:Hx; [done|].
      apply process_pending_view in Hx as (Ha' & Hmono & Hq' & Hexp). rewrite Ha in *.
      split_and!; [congruence| |].
      + intros p Hp. assert (p ∈ gqueue t ∨ (p = x ∧ now < pr_deadline x ∧ readded (applied s) x = false))
          as [Hold|(-> & ? & ?)].
        { destruct Hq' as [Heq|(Heq & ? & ?)]; rewrite Heq in Hp; [by left|].
          apply elem_of_app in Hp as [?|Hp]; [by left|]. right.
          by apply list_elem_of_singleton in Hp as ->. }
        * destruct (Hin p Hold) as (? & ? & ?). rewrite elem_of_app. auto.
        * rewrite elem_of_app, list_elem_of_singleton. auto.
      + intros p Hp Hr Hd. apply elem_of_app in Hp as [Hp|Hp].
        * apply Hmono. by apply Hgone.
        * apply list_elem_of_singleton in Hp as ->. by apply Hexp.
    - intros t ->. split_and!; [by destruct s| |];
        intros p Hp; [by apply elem_of_nil in Hp|by apply elem_of_nil in Hp]. }
  specialize (Htr (set_gqueue [] s) eq_refl). fold now in Hrun. rewrite Hrun in Htr.
  destruct Htr as (Ha & Hin & Hgone). split; [done|].
  intros p Hp Hr Hd. split; [|by apply Hgone]. intros Hin'. apply Hin in Hin' as (_ & ? & _). lia.
Qed.

End viewed.

(** ** Idle passes *)

Section idle.
Context `{IpNetLib} {W : Type} `{!IpvsOps W, !NetlinkOps W, !Clock W}.
Implicit Types (s : SyncState (W := W)).

Lemma mfor_skip {A} (l : list A) (body : A → M (SyncState (W := W)) SyncError unit) s :
  (∀ x, x ∈ l → body x s = (inr tt, s)) → mfor l body s = (inr tt, s).
Proof.
  induction l as [|x l IH]; intros Hb; [done|]. cbn [mfor]. unfold mbind, M_bind.
  rewrite Hb by apply list_elem_of_here. apply IH. intros y Hy. apply Hb. by apply list_elem_of_further.
Qed.

(** Outside a full resync, programming what is programmed makes no call. *)
Lemma idle_program (cfg : SyncConfig (W := W)) s :
  programmed_ok (applied s) →
  program_ipvs cfg false (applied s) s = (inr tt, s) ∧ program_vips (bound_vips s) s = (inr tt, s).
Proof.
  intros Hok. split.
  - unfold program_ipvs. unfold mbind at 1, M_bind, mget. unfold mbind at 1, M_bind.
    rewrite mfor_skip.
    2:{ intros [k [svc ds]] Hin. assert (applied s !! k = Some (svc, ds)) as Hk
          by exact (proj1 (elem_of_btree_iter _ _ _) Hin). unfold program_service. rewrite Hk.
        rewrite decide_True by done. cbn [mwhen]. unfold mbind, M_bind, mret, M_ret.
        apply mfor_skip. intros d Hd. unfold program_dest. change (default [] (snd <$> Some (svc, ds))) with ds.
        destruct (Hok k svc ds Hk) as [_ Hnd].
        rewrite same_backend_find, (find_rs_key ds d Hnd Hd). by rewrite decide_True. }
    unfold mbind, M_bind.
    assert (stale_dests (applied s) (applied s) = []) as ->.
    { destruct (stale_dests _ _) as [|[svc d] l] eqn:Hl; [done|].
      assert ((svc, d) ∈ stale_dests (applied s) (applied s)) as Hin
        by (rewrite Hl; apply list_elem_of_here).
      apply elem_of_stale in Hin as (k & ds & p & old & Hk & Hk' & Hd & Hn).
      rewrite Hk in Hk'. simplify_eq. destruct Hn. by apply list_elem_of_fmap_2. }
    cbn [mfor]. assert (removed_services (applied s) (applied s) = []) as ->; [|done].
    destruct (removed_services _ _) as [|svc l] eqn:Hl; [done|].
    assert (svc ∈ removed_services (applied s) (applied s)) as Hin
      by (rewrite Hl; apply list_elem_of_here).
    apply elem_of_removed in Hin as (k & ds & Hk & Hn). congruence.
  - unfold program_vips. unfold mbind at 1, M_bind, mget. unfold mbind at 1, M_bind.
    rewrite mfor_skip.
    2:{ intros v [Hn Hv%elem_of_bset_iter]%list_elem_of_filter. done. }
    apply mfor_skip. intros v [Hn Hv%elem_of_bset_iter]%list_elem_of_filter. done.
Qed.
End idle.

(** ** Failures of the queue *)

Section failures.
Context `{IpNetLib} {W : Type} `{!IpvsOps W, !Clock W}.
Implicit Types (s : SyncState (W := W)).

(** The queue is taken before it is processed: when the statistics of its first
    destination cannot be read, all its items are forgotten, and the destinations
    stay in the kernel with weight zero. *)
Theorem graceful_failure_forgets_queue s p rest e w :
  gqueue s = p :: rest → readded (applied s) p = false →
  dest_conn_stats (pr_svc p) (pr_dst p) (sync_world s) = (inl e, w) →
  ∃ s', process_graceful_queue s = (inl (SyncIpvs e), s') ∧ gqueue s' = [] ∧ sync_world s' = w.
Proof.
  intros Hq Hr He. unfold process_graceful_queue. unfold mbind at 1, M_bind, mget. rewrite Hq.
  unfold mbind at 1, M_bind, mmodify. cbn [mfor]. unfold mbind at 1, M_bind.
  unfold process_pending at 1. unfold mbind at 1, M_bind, mget.
  change (applied (set_gqueue [] s)) with (applied s). rewrite Hr.
  unfold mbind at 1, M_bind. unfold io at 1, mzoom, mmap_err. cbn [sync_world set_gqueue].
  rewrite He. eexists. split; [done|]. by destruct s.
Qed.
End failures.
