(* ===== verification/PlanTheorems.v ===== *)
(** * PlanTheorems: what a pass wants, and the state it keeps

    The plan of a pass in declarative form: which virtual services each service
    asks for, with which destinations, which addresses are bound and which go to
    the direct-server-return path; and the well-formedness of the state that the
    passes keep. *)

From stdpp Require Import gmap sets list strings pretty.
From Stdlib Require Import Ascii ZArith Lia.
From S2P Require Import Prelude Text Net IpText Common Netlink Proxy ProxySync SyncFacts SyncTheorems.
Import TcpMss Hairpin Masquerade Firewall Dsr NodePortHc LocalIps Graceful Validation.

Local Open Scope Z_scope.
#[local] Arguments svc_key : simpl never.

Section plans.
Context `{IpNetLib} {W : Type}.
Implicit Types (cfg : SyncConfig (W := W)).

(** ** What the services ask for *)

(** Sessions last for the timeout of the service, if it has client affinity. *)
Definition service_at_address (svc : ServiceInfo) (a : IpAddr) (port : Z) : IpvsService :=
  {| vs_addr := a; vs_protocol := si_protocol svc; vs_port := port;
     vs_scheduler := si_scheduler svc; vs_sched_flags := si_sched_flags svc;
     vs_persistent := if si_session_affinity svc then Some (si_affinity_timeout svc) else None |}.

(** The external and load-balancer addresses that may be used: under strict
    validation those of an allowed range and outside the cluster's. *)
Definition usable cfg (allowed : list IpNet) (v : IpAddr) : bool :=
  negb (vr_strict (sc_ranges cfg)) ||
  (forallb (λ n, negb (net_contains n v)) (vr_cluster (sc_ranges cfg)) &&
   existsb (λ n, net_contains n v) allowed).
Definition external_vips cfg (svc : ServiceInfo) : list IpAddr :=
  filter (λ v, usable cfg (vr_external (sc_ranges cfg)) v = true) (si_external_ips svc) ++
  filter (λ v, usable cfg (vr_loadbalancer (sc_ranges cfg)) v = true) (si_load_balancer_ips svc).

(** With a handler for it, the external addresses of an annotated service return
    their traffic directly. *)
Definition direct_return cfg (svc : ServiceInfo) : bool :=
  negb (bool_decide (length (sc_dsr_mangle cfg) = 0%nat)) && si_dsr svc.

(** A virtual service that a service exposes: its traffic may be local, and it may
    be left out where there is no local endpoint. *)
Record Exposure := { ex_service : IpvsService; ex_local : bool; ex_optional : bool }.

Definition expose (svc : ServiceInfo) (local optional : bool) (port : Z) (a : IpAddr) : Exposure :=
  {| ex_service := service_at_address svc a port; ex_local := local; ex_optional := optional |}.

Definition port_in_range cfg (np : Z) : bool :=
  match sc_node_port_range cfg with Some (lo, hi) => bool_decide (lo ≤ np ≤ hi) | None => true end.

(** Cluster addresses follow the internal policy; usable external addresses
    outside the direct-return path, and node ports, the external one. *)
Definition exposed cfg (svc : ServiceInfo) : list Exposure :=
  (expose svc (si_internal_traffic_local svc) false (si_port svc) <$> si_cluster_ips svc) ++
  (if direct_return cfg svc then []
   else expose svc (si_external_traffic_local svc) false (si_port svc) <$> external_vips cfg svc) ++
  (match si_node_port svc with
   | Some np =>
       if port_in_range cfg np
       then expose svc (si_external_traffic_local svc) true np <$> sc_node_ips cfg else []
   | None => []
   end).

Definition exposures cfg (services : list ServiceInfo) : list Exposure := services ≫= exposed cfg.

Definition exposure_key (e : Exposure) : string := svc_key (ex_service e).

(** An endpoint that traffic may go to. *)
Definition serving (eps : list EndpointInfo) (local : bool) (e : EndpointInfo) : Prop :=
  e ∈ eps ∧ ep_ready e = true ∧ (local = true → ep_is_local e = true).

(** The destinations of a service are its serving endpoints, with equal weights. *)
Definition destinations_of (svc : ServiceInfo) (eps : list EndpointInfo) (local : bool)
    (ds : list IpvsDestination) : Prop :=
  ∀ d, d ∈ ds ↔ ∃ e, serving eps local e ∧
    d = {| rs_addr := ep_ip e; rs_port := ep_port e; rs_weight := 1; rs_tunnel := si_dsr svc |}.

(** The addresses a service has on the dummy interface. *)
Definition bound_addresses cfg (svc : ServiceInfo) : list IpAddr :=
  si_cluster_ips svc ++ (if direct_return cfg svc then [] else external_vips cfg svc).

(** The direct-return path serves the other external addresses. *)
Definition dsr_jobs cfg (x : ServiceInfo * list EndpointInfo) : list DsrJob :=
  let '(svc, eps) := x in
  if direct_return cfg svc && negb (bool_decide (external_vips cfg svc = [])) then
    [{| job_vips := external_vips cfg svc; job_protocol := si_protocol svc; job_port := si_port svc;
        job_endpoints := eps; job_scheduler := si_scheduler svc;
        job_persistent := if si_session_affinity svc then Some (si_affinity_timeout svc) else None |}]
  else [].

Lemma usable_validated cfg allowed v :
  validate_external_ip v allowed (vr_cluster (sc_ranges cfg)) (vr_strict (sc_ranges cfg)) = usable cfg allowed v.
Proof.
  unfold validate_external_ip, usable. destruct (vr_strict _); [|done]. cbn [negb orb].
  assert (∀ l, existsb (λ n, net_contains n v) l = negb (forallb (λ n, negb (net_contains n v)) l)) as ->.
  { induction l as [|n l IH]; [done|]. cbn. rewrite IH. by destruct (net_contains n v). }
  by destruct (forallb _ _).
Qed.

Lemma direct_return_enabled cfg svc : direct_return cfg svc = dsr_enabled cfg && si_dsr svc.
Proof. unfold direct_return, dsr_enabled. by destruct (sc_dsr_mangle cfg). Qed.

Lemma port_allowed cfg np : node_port_allowed cfg np = port_in_range cfg np.
Proof.
  unfold node_port_allowed, port_in_range. destruct (sc_node_port_range cfg) as [[lo hi]|]; [|done].
  case_bool_decide; destruct (Z.ltb_spec np lo), (Z.ltb_spec hi np); cbn; done || lia.
Qed.

Lemma plan_dests_spec svc eps local : destinations_of svc eps local (plan_dests svc eps local).
Proof.
  intros d. unfold plan_dests, serving. rewrite list_elem_of_fmap. setoid_rewrite list_elem_of_filter.
  setoid_rewrite andb_true_iff. setoid_rewrite orb_true_iff. destruct local; naive_solver.
Qed.

(** ** The plan in declarative form *)

Definition Wanted : Type := IpvsService * list IpvsDestination.

Definition node_port_wanted cfg (svc : ServiceInfo) (eps : list EndpointInfo) : list Wanted :=
  let dests := plan_dests svc eps (si_external_traffic_local svc) in
  match si_node_port svc with
  | Some np =>
      if port_in_range cfg np && negb (si_external_traffic_local svc && bool_decide (dests = []))
      then (λ nip, (virtual_service svc nip np, dests)) <$> sc_node_ips cfg
      else []
  | None => []
  end.

(** The virtual services of a service, with their destinations. *)
Definition wanted cfg (x : ServiceInfo * list EndpointInfo) : list Wanted :=
  let '(svc, eps) := x in
  ((λ a, (virtual_service svc a (si_port svc), plan_dests svc eps (si_internal_traffic_local svc)))
     <$> si_cluster_ips svc) ++
  (if direct_return cfg svc then []
   else (λ a, (virtual_service svc a (si_port svc),
               plan_dests svc eps (si_external_traffic_local svc))) <$> external_vips cfg svc) ++
  node_port_wanted cfg svc eps.

(** The entry of an exposure in the plan, if it has one. *)
Definition entry_of (svc : ServiceInfo) (eps : list EndpointInfo) (e : Exposure)
    : option (IpvsService * list IpvsDestination) :=
  let dests := plan_dests svc eps (ex_local e) in
  if ex_optional e && ex_local e && bool_decide (dests = []) then None
  else Some (ex_service e, dests).

(** A plan grown by virtual services, addresses and jobs. *)
Definition wanted_key (e : Wanted) : string := svc_key e.1.
Definition plan_grows (p p' : Plan) (ws : list Wanted) (vips : list IpAddr) (jobs : list DsrJob)
    (sloppy : bool) : Prop :=
  p_desired p' = insert_all wanted_key id (p_desired p) ws ∧
  p_vips p' = list_to_set vips ∪ p_vips p ∧
  p_jobs p' = p_jobs p ++ jobs ∧
  p_sloppy p' = p_sloppy p || sloppy.

Lemma plan_grows_refl p : plan_grows p p [] [] [] false.
Proof. unfold plan_grows. rewrite app_nil_r, orb_false_r. split_and!; [done|set_solver|done|done]. Qed.

Lemma plan_grows_trans p p' p'' ws ws' v v' j j' b b' :
  plan_grows p p' ws v j b → plan_grows p' p'' ws' v' j' b' →
  plan_grows p p'' (ws ++ ws') (v ++ v') (j ++ j') (b || b').
Proof.
  intros (Hw & Hv & Hj & Hb) (Hw' & Hv' & Hj' & Hb'). unfold plan_grows.
  rewrite Hw', Hw, Hv', Hv, Hj', Hj, Hb', Hb. unfold insert_all. rewrite foldl_app, app_assoc, orb_assoc.
  split_and!; [done|rewrite list_to_set_app_L; set_solver|done|done].
Qed.

Lemma plan_grows_foldl {A} (step : Plan → A → Plan) ws vips jobs sl l p :
  (∀ p x, plan_grows p (step p x) (ws x) (vips x) (jobs x) (sl x)) →
  plan_grows p (foldl step p l) (l ≫= ws) (l ≫= vips) (l ≫= jobs) (existsb sl l).
Proof.
  intros Hstep. revert p. induction l as [|x l IH]; intros p; [apply plan_grows_refl|].
  rewrite !bind_cons. exact (plan_grows_trans _ _ _ _ _ _ _ _ _ _ _ (Hstep p x) (IH _)).
Qed.

Lemma bind_nils {A B} (l : list A) : l ≫= (λ _, []) = ([] : list B).
Proof. by induction l. Qed.
Lemma existsb_falses {A} (l : list A) : existsb (λ _, false) l = false.
Proof. by induction l. Qed.

(** A loop that only adds virtual services. *)
Lemma plan_grows_services {A} (step : Plan → A → Plan) (f : A → Wanted) (vip : A → list IpAddr) l p :
  (∀ p x, plan_grows p (step p x) [f x] (vip x) [] false) →
  plan_grows p (foldl step p l) (f <$> l) (l ≫= vip) [] false.
Proof.
  intros Hstep. pose proof (plan_grows_foldl step (λ x, [f x]) vip (λ _, []) (λ _, false) l p Hstep) as Hg.
  rewrite bind_nils, existsb_falses in Hg. by rewrite <-bind_singletons.
Qed.

Lemma plan_insert_grows svc isvc dests vips p :
  plan_grows p (plan_insert svc isvc dests (list_to_set vips) p) [(isvc, dests)] vips [] false.
Proof. unfold plan_grows, plan_insert. cbn. rewrite app_nil_r, orb_false_r. split_and!; done. Qed.

Lemma add_vip_grows svc eps local p a :
  plan_grows p (add_vip svc eps local p a)
    [(virtual_service svc a (si_port svc), plan_dests svc eps local)] [a] [] false.
Proof.
  unfold add_vip. pose proof (plan_insert_grows svc (virtual_service svc a (si_port svc))
    (plan_dests svc eps local) [a] p) as Hg. cbn [list_to_set] in Hg.
  by rewrite union_empty_r_L in Hg.
Qed.

(** The external addresses of one kind. *)
Lemma plan_external_grows cfg svc eps allowed l p dsr :
  let vs := filter (λ v, usable cfg allowed v = true) l in
  let '(p', dsr') := foldl (plan_external cfg svc eps allowed) (p, dsr) l in
  if direct_return cfg svc then p' = p ∧ dsr' = dsr ++ vs
  else dsr' = dsr ∧
    plan_grows p p' ((λ a, (virtual_service svc a (si_port svc),
      plan_dests svc eps (si_external_traffic_local svc))) <$> vs) vs [] false.
Proof.
  rewrite direct_return_enabled. revert p dsr. induction l as [|v l IH]; intros p dsr.
  { cbn. destruct (_ && _); [by rewrite app_nil_r|]. split; [done|apply plan_grows_refl]. }
  cbn [foldl]. unfold plan_external at 2. rewrite filter_cons, usable_validated. cbn [fst snd].
  destruct (usable cfg allowed v).
  2:{ rewrite decide_False by done. apply IH. }
  rewrite decide_True by done. destruct (dsr_enabled cfg && si_dsr svc).
  - specialize (IH p (dsr ++ [v])). destruct (foldl _ _ _) as [p' dsr']. cbn zeta in *.
    destruct IH as [-> ->]. by rewrite <-app_assoc.
  - specialize (IH (add_vip svc eps (si_external_traffic_local svc) p v) dsr).
    destruct (foldl _ _ _) as [p' dsr']. cbn zeta in *. destruct IH as [-> Hg]. split; [done|].
    exact (plan_grows_trans _ _ _ _ _ _ _ _ _ _ _ (add_vip_grows svc eps _ p v) Hg).
Qed.

Lemma plan_node_port_grows cfg svc eps p :
  plan_grows p (plan_node_port cfg svc eps p) (node_port_wanted cfg svc eps) [] [] false.
Proof.
  unfold plan_node_port, node_port_wanted. destruct (si_node_port svc) as [np|]; [|apply plan_grows_refl].
  rewrite port_allowed. destruct (port_in_range cfg np); cbn [negb andb]; [|apply plan_grows_refl].
  destruct (_ && _); cbn [negb]; [apply plan_grows_refl|].
  pose proof (plan_grows_services (λ p nip, plan_insert svc (virtual_service svc nip np)
    (plan_dests svc eps (si_external_traffic_local svc)) ∅ p)
    (λ nip, (virtual_service svc nip np, plan_dests svc eps (si_external_traffic_local svc)))
    (λ _, []) (sc_node_ips cfg) p) as Hg. rewrite bind_nils in Hg. apply Hg.
  intros p' nip. apply (plan_insert_grows svc _ _ [] p').
Qed.

Lemma push_job_grows cfg svc eps p :
  plan_grows p (push_job svc eps (if direct_return cfg svc then external_vips cfg svc else []) p)
    [] [] (dsr_jobs cfg (svc, eps)) false.
Proof.
  unfold push_job, dsr_jobs. destruct (direct_return cfg svc); cbn [andb]; [|apply plan_grows_refl].
  destruct (external_vips cfg svc) as [|v vs]; [apply plan_grows_refl|].
  rewrite bool_decide_eq_false_2 by done. unfold plan_grows. cbn.
  rewrite orb_false_r, union_empty_l_L. done.
Qed.

Lemma plan_service_grows cfg p x :
  plan_grows p (plan_service cfg p x) (wanted cfg x) (bound_addresses cfg x.1) (dsr_jobs cfg x)
    (service_wants_sloppy_tcp x.1).
Proof.
  destruct x as [svc eps]. unfold plan_service, wanted, bound_addresses. cbn [fst].
  set (p1 := note_sloppy svc p). set (p2 := foldl (add_vip _ _ _) p1 _).
  assert (plan_grows p p1 [] [] [] (service_wants_sloppy_tcp svc)) as H1
    by (unfold plan_grows, p1, note_sloppy; cbn; rewrite app_nil_r, union_empty_l_L; done).
  assert (plan_grows p1 p2 ((λ a, (virtual_service svc a (si_port svc),
    plan_dests svc eps (si_internal_traffic_local svc))) <$> si_cluster_ips svc)
    (si_cluster_ips svc) [] false) as H2.
  { pose proof (plan_grows_services (add_vip svc eps (si_internal_traffic_local svc))
      (λ a, (virtual_service svc a (si_port svc), plan_dests svc eps (si_internal_traffic_local svc)))
      (λ a, [a]) (si_cluster_ips svc) p1 (add_vip_grows svc eps _)) as Hg.
    by rewrite bind_singletons, list_fmap_id in Hg. }
  pose proof (plan_external_grows cfg svc eps (vr_external (sc_ranges cfg)) (si_external_ips svc) p2 [])
    as H3. cbn zeta in H3. destruct (foldl (plan_external _ _ _ _) (p2, []) _) as [p3 d3].
  pose proof (plan_external_grows cfg svc eps (vr_loadbalancer (sc_ranges cfg))
    (si_load_balancer_ips svc) p3 d3) as H4. cbn zeta in H4.
  destruct (foldl (plan_external _ _ _ _) (p3, d3) _) as [p4 d4].
  pose proof (push_job_grows cfg svc eps p4) as H5.
  pose proof (plan_node_port_grows cfg svc eps
    (push_job svc eps (if direct_return cfg svc then external_vips cfg svc else []) p4)) as H6.
  pose proof (plan_grows_trans _ _ _ _ _ _ _ _ _ _ _ H5 H6) as H56.
  destruct (direct_return cfg svc) eqn:Hdsr.
  - destruct H3 as [-> ->], H4 as [-> ->]. cbn [app].
    pose proof (plan_grows_trans _ _ _ _ _ _ _ _ _ _ _ H1 (plan_grows_trans _ _ _ _ _ _ _ _ _ _ _ H2 H56)) as Hg.
    rewrite ?app_nil_r, ?orb_false_r in Hg. cbn [app] in Hg. rewrite app_nil_r. exact Hg.
  - destruct H3 as [-> H3], H4 as [-> H4]. unfold external_vips in *. rewrite fmap_app.
    pose proof (plan_grows_trans _ _ _ _ _ _ _ _ _ _ _ H1 (plan_grows_trans _ _ _ _ _ _ _ _ _ _ _ H2
      (plan_grows_trans _ _ _ _ _ _ _ _ _ _ _ H3 (plan_grows_trans _ _ _ _ _ _ _ _ _ _ _ H4 H56)))) as Hg.
    rewrite ?app_nil_r, ?orb_false_r in Hg. cbn [app] in Hg. rewrite <-app_assoc. exact Hg.
Qed.

Lemma make_plan_grows cfg services :
  plan_grows empty_plan (make_plan cfg services) (services ≫= wanted cfg)
    (services ≫= λ x, bound_addresses cfg x.1) (services ≫= dsr_jobs cfg)
    (existsb (λ x, service_wants_sloppy_tcp x.1) services).
Proof. apply plan_grows_foldl. apply plan_service_grows. Qed.

Lemma empty_plan_lookup k : p_desired empty_plan !! k = None.
Proof. apply lookup_empty. Qed.

(** What a service wants is what it exposes. *)
Lemma wanted_exposed cfg svc eps : wanted cfg (svc, eps) = omap (entry_of svc eps) (exposed cfg svc).
Proof.
  unfold wanted, exposed. rewrite !omap_app. f_equal; [|f_equal].
  - symmetry. by apply omap_fmap_some.
  - destruct (direct_return cfg svc); [done|]. symmetry. by apply omap_fmap_some.
  - unfold node_port_wanted. destruct (si_node_port svc) as [np|]; [|done].
    destruct (port_in_range cfg np); [|done]. cbn [andb].
    destruct (si_external_traffic_local svc && bool_decide (plan_dests svc eps (si_external_traffic_local svc) = [])) eqn:Hskip;
      cbn [negb]; symmetry.
    + apply omap_fmap_none. intros a. unfold entry_of, expose. cbn [ex_optional ex_local andb]. by rewrite Hskip.
    + apply omap_fmap_some. intros a. unfold entry_of, expose. cbn [ex_optional ex_local andb]. by rewrite Hskip.
Qed.

Lemma entry_service svc eps e vs ds :
  entry_of svc eps e = Some (vs, ds) → vs = ex_service e ∧ ds = plan_dests svc eps (ex_local e).
Proof. unfold entry_of. destruct (_ && _); [done|]. by intros [= <- <-]. Qed.

Lemma planned_from cfg services k vs ds :
  p_desired (make_plan cfg services) !! k = Some (vs, ds) →
  ∃ x e, x ∈ services ∧ e ∈ exposed cfg x.1 ∧ entry_of x.1 x.2 e = Some (vs, ds) ∧ k = svc_key vs.
Proof.
  rewrite (proj1 (make_plan_grows cfg services)).
  intros [(w & Hw & <- & Heq)|[_ Hk]]%insert_all_inv; [|by rewrite empty_plan_lookup in Hk].
  cbn in Heq. subst w. apply list_elem_of_bind in Hw as ([svc eps] & Hin & Hx).
  rewrite wanted_exposed in Hin. apply list_elem_of_omap in Hin as (e & He & Hentry).
  by exists (svc, eps), e.
Qed.

(** An exposure has an entry under its key, unless it may be and is left out. *)
Lemma exposed_planned cfg services x e :
  x ∈ services → e ∈ exposed cfg x.1 →
  is_Some (p_desired (make_plan cfg services) !! exposure_key e) ∨
  entry_of x.1 x.2 e = None.
Proof.
  intros Hx He. destruct (entry_of x.1 x.2 e) as [[vs ds]|] eqn:Hentry; [left|by right].
  destruct (entry_service _ _ _ _ _ Hentry) as [Hvs _].
  rewrite (proj1 (make_plan_grows cfg services)). apply (insert_all_is_Some wanted_key). left.
  apply list_elem_of_fmap. exists (vs, ds). split; [unfold wanted_key; cbn; by subst vs|].
  apply list_elem_of_bind. exists x. split; [|done]. destruct x as [svc eps].
  rewrite wanted_exposed. apply list_elem_of_omap. by exists e.
Qed.

Lemma entry_left_out svc eps e :
  entry_of svc eps e = None → ex_optional e = true ∧ ex_local e = true ∧ ∀ ep, ¬ serving eps true ep.
Proof.
  unfold entry_of. destruct (ex_optional e), (ex_local e); cbn [andb]; try done.
  case_bool_decide as Hnone; [|done]. intros _. split_and!; [done..|]. intros ep Hep.
  assert ({| rs_addr := ep_ip ep; rs_port := ep_port ep; rs_weight := 1; rs_tunnel := si_dsr svc |} ∈
    plan_dests svc eps true) as Hd by (apply plan_dests_spec; eauto).
  rewrite Hnone in Hd. by apply elem_of_nil in Hd.
Qed.

(** C11: The plan of a pass programs what the services expose: every virtual service
    of the plan is one that a service exposes, under its key, and its destinations
    are the ready endpoints, of this node where the traffic policy says so; every
    exposure has a virtual service under its key, unless it is a node port with
    local traffic and no ready local endpoint; an address is bound exactly when a
    service has it as a cluster address or as a usable external one outside the
    direct-return path, whose addresses are the jobs; and sloppy TCP is set when
    some annotated service is scheduled by Maglev hashing. *)
Theorem make_plan_correct cfg services :
  let plan := make_plan cfg services in
  (∀ k sv ds, p_desired plan !! k = Some (sv, ds) →
     k = svc_key sv ∧ ∃ svc eps e, (svc, eps) ∈ services ∧ e ∈ exposed cfg svc ∧
       sv = ex_service e ∧ destinations_of svc eps (ex_local e) ds) ∧
  (∀ svc eps e, (svc, eps) ∈ services → e ∈ exposed cfg svc →
     is_Some (p_desired plan !! exposure_key e) ∨
     ex_optional e = true ∧ ex_local e = true ∧ ∀ ep, ¬ serving eps true ep) ∧
  (∀ a, a ∈ p_vips plan ↔ ∃ svc eps, (svc, eps) ∈ services ∧ a ∈ bound_addresses cfg svc) ∧
  p_jobs plan = services ≫= dsr_jobs cfg ∧
  (p_sloppy plan = true ↔ ∃ svc eps, (svc, eps) ∈ services ∧ si_dsr svc = true ∧ si_scheduler svc = Mh).
Proof.
  intros plan. destruct (make_plan_grows cfg services) as (_ & Hv & Hj & Hs). split_and!.
  - intros k sv ds Hk. apply planned_from in Hk as ([svc eps] & e & Hx & He & Hentry & ->). split; [done|].
    exists svc, eps, e. destruct (entry_service _ _ _ _ _ Hentry) as [-> ->].
    split_and!; [done..|]. apply plan_dests_spec.
  - intros svc eps e Hx He. destruct (exposed_planned cfg services (svc, eps) e Hx He) as [?|Hnone]; [by left|right].
    by eapply entry_left_out.
  - intros a. unfold plan. rewrite Hv. cbn [p_vips empty_plan].
    rewrite union_empty_r_L, elem_of_list_to_set, list_elem_of_bind.
    split; [intros ([svc eps] & ? & ?); by exists svc, eps|intros (svc & eps & ? & ?); by exists (svc, eps)].
  - exact Hj.
  - unfold plan. rewrite Hs. cbn [p_sloppy empty_plan orb]. rewrite existsb_exists.
    setoid_rewrite <-list_elem_of_In. unfold service_wants_sloppy_tcp.
    setoid_rewrite andb_true_iff. setoid_rewrite bool_decide_eq_true.
    split; [intros ([svc eps] & ? & ? & ?); by exists svc, eps|intros (svc & eps & ? & ? & ?); by exists (svc, eps)].
Qed.

(** ** The state *)

(** Slices may list a socket twice, its destinations are then the same. *)
Lemma plan_dests_agree svc eps local : dests_agree (plan_dests svc eps local).
Proof.
  intros d d' (e & -> & _)%list_elem_of_fmap (e' & -> & _)%list_elem_of_fmap. unfold rs_key. cbn. congruence.
Qed.

Lemma wanted_agree cfg x sv ds : (sv, ds) ∈ wanted cfg x → dests_agree ds.
Proof.
  destruct x as [svc eps]. cbn. rewrite !elem_of_app.
  intros [Hin|[Hin|Hin]].
  - apply list_elem_of_fmap in Hin as (a & [= -> ->] & _). by apply plan_dests_agree.
  - destruct (direct_return cfg svc); [by apply elem_of_nil in Hin|].
    apply list_elem_of_fmap in Hin as (a & [= -> ->] & _). by apply plan_dests_agree.
  - unfold node_port_wanted in Hin. destruct (si_node_port svc); [|by apply elem_of_nil in Hin].
    destruct (_ && _); [|by apply elem_of_nil in Hin].
    apply list_elem_of_fmap in Hin as (a & [= -> ->] & _). by apply plan_dests_agree.
Qed.

Lemma plan_programmed_ok cfg services :
  programmed_ok (p_desired (make_plan cfg services)).
Proof.
  intros k sv ds Hk. destruct (make_plan_grows cfg services) as (Heq & _).
  rewrite Heq in Hk. apply insert_all_inv in Hk as [(e & He & <- & He')|[_ Hk]];
    [|by rewrite empty_plan_lookup in Hk].
  cbn in He'. subst e. split; [done|]. apply list_elem_of_bind in He as (x & Hin & Hx).
  by eapply wanted_agree.
Qed.
End plans.

Section state.
Context `{IpNetLib} {W : Type}.
Context `{!IpvsOps W, !NetlinkOps W, !CommandRunner W, !HttpServers W}.
Context `{!ServiceProvider W, !Clock W, !FileOps W, !MetricsOps W, !Heartbeat W}.
Implicit Types (s : SyncState (W := W)).

Definition item_key (p : PendingRemoval) : ServiceKey * (IpAddr * Z) :=
  (vs_key (pr_svc p), rs_key (pr_dst p)).

(** A state of the sync: what is programmed is under its keys with
    destinations that agree, and no destination is in the queue twice. *)
Definition Committed : Type := Programmed * gset IpAddr * gmap string (string * string).
Definition committed s : Committed := (applied s, bound_vips s, meta s).
Definition on_queue (P : Committed → GracefulQueue → Prop) s : Prop := P (committed s) (gqueue s).
Definition queue_ok (c : Committed) (q : GracefulQueue) : Prop :=
  programmed_ok c.1.1 ∧ NoDup (item_key <$> q).
Definition state_ok : SyncState (W := W) → Prop := on_queue queue_ok.

(** A computation that keeps a property, errors included. *)
Definition keeps {A} (P : SyncState (W := W) → Prop) (m : M (SyncState (W := W)) SyncError A) : Prop :=
  ∀ s, P s → P (m s).2.

Lemma keeps_bind {A B} P (m : M (SyncState (W := W)) SyncError A) (k : A → M (SyncState (W := W)) SyncError B) :
  keeps P m → (∀ a, keeps P (k a)) → keeps P (m ≫= k).
Proof.
  intros Hm Hk s Hs. unfold mbind, M_bind. specialize (Hm s Hs).
  destruct (m s) as [[e|a] s']; [exact Hm|]. by apply Hk.
Qed.
Lemma keeps_get {B} P (k : SyncState (W := W) → M (SyncState (W := W)) SyncError B) :
  (∀ s, P s → P (k s s).2) → keeps P (mget ≫= k).
Proof. intros Hk s Hs. by apply Hk. Qed.
Lemma keeps_ret {A} P (a : A) : keeps P (mret a).
Proof. by intros s Hs. Qed.
Lemma keeps_for_in {A} P (l : list A) body : (∀ x, x ∈ l → keeps P (body x)) → keeps P (mfor l body).
Proof.
  induction l as [|x l IH]; intros Hb; [apply keeps_ret|]. cbn [mfor].
  apply keeps_bind; [apply Hb, list_elem_of_here|]. intros _. apply IH. intros y Hy.
  by apply Hb, list_elem_of_further.
Qed.
Lemma keeps_for {A} P (l : list A) body : (∀ x, keeps P (body x)) → keeps P (mfor l body).
Proof. intros Hb. by apply keeps_for_in. Qed.
Lemma keeps_when P c m : keeps P m → keeps P (mwhen c m).
Proof. intros Hm. destruct c; [exact Hm|apply keeps_ret]. Qed.

(** Properties of what is programmed and queued survive the calls of the environment. *)
Lemma keeps_io {A E} P (wrap : E → SyncError) (m : M W E A) : keeps (on_queue P) (io wrap m).
Proof. intros s Hs. unfold io, mzoom. by destruct (mmap_err wrap m (sync_world s)) as [r w]. Qed.
Lemma keeps_zoom {S A E} P (get : SyncState (W := W) → S) set (f : E → SyncError) (m : M S E A) :
  (∀ x s, committed (set x s) = committed s ∧ gqueue (set x s) = gqueue s) →
  keeps (on_queue P) (mzoom get set (mmap_err f m)).
Proof.
  intros Hset s Hs. unfold mzoom. destruct (mmap_err f m (get s)) as [r x]. cbn. unfold on_queue.
  by destruct (Hset x s) as [-> ->].
Qed.

Lemma keeps_flush P svc : keeps (on_queue P) (flush_udp svc).
Proof. apply keeps_when, keeps_io. Qed.

Lemma keeps_program_service P full prev x : keeps (on_queue P) (program_service full prev x).
Proof.
  destruct x as [key [isvc ds]]. unfold program_service. apply keeps_bind.
  - destruct (prev !! key) as [[p old]|]; [|apply keeps_io].
    case_decide; [apply keeps_when, keeps_io|apply keeps_io].
  - intros _. apply keeps_for. intros d. unfold program_dest. destruct full; [apply keeps_io|].
    destruct (List.find _ _); [|apply keeps_io]. case_decide; [apply keeps_ret|apply keeps_io].
Qed.

Lemma keeps_program_vips P want : keeps (on_queue P) (program_vips want).
Proof.
  apply keeps_get. intros s Hs.
  refine (keeps_bind (on_queue P) _ _ _ _ s Hs); [|intros _]; apply keeps_for; intros v; apply keeps_io.
Qed.

Lemma keeps_program_sloppy P want : keeps (on_queue P) (program_sloppy want).
Proof.
  intros s Hs. unfold program_sloppy. destruct (Bool.eqb _ _); [done|].
  by destruct (sysctl_write _ _ _) as [[e|u] w].
Qed.

(** Queueing a destination. *)
Lemma enqueue_NoDup svc d deadline q :
  NoDup (item_key <$> q) → NoDup (item_key <$> enqueue svc d deadline q).
Proof.
  intros Hnd. unfold enqueue. destruct (existsb _ _) eqn:Hin; [done|]. rewrite fmap_app.
  apply NoDup_app. split_and!; [done| |apply NoDup_singleton].
  intros k Hk Hx. apply list_elem_of_singleton in Hx as ->.
  apply list_elem_of_fmap in Hk as (p & Heq & Hp). apply not_true_iff_false in Hin. apply Hin.
  apply existsb_exists. exists p. split; [by apply list_elem_of_In|]. unfold same_dst, same_backend.
  apply andb_true_iff. split; apply bool_decide_eq_true; symmetry;
    [exact (f_equal fst Heq)|exact (f_equal snd Heq)].
Qed.

Lemma keeps_program_ipvs cfg full desired : keeps state_ok (program_ipvs cfg full desired).
Proof.
  apply keeps_get. intros s Hs. refine (keeps_bind state_ok _ _ _ _ s Hs); [|intros _].
  { apply keeps_for. intros x. apply (keeps_program_service queue_ok). }
  apply keeps_bind; [|intros _; apply keeps_for; intros svc; unfold remove_service;
    apply keeps_bind; [apply (keeps_io queue_ok)|intros _; apply (keeps_flush queue_ok)]].
  apply keeps_for. intros [svc d]. unfold remove_destination. apply keeps_bind.
  - destruct (sc_graceful cfg); [|apply (keeps_io queue_ok)].
    apply keeps_bind; [apply (keeps_io queue_ok)|]. intros _ t [Ha Hq].
    split; [exact Ha|]. by apply enqueue_NoDup.
  - intros _. apply (keeps_flush queue_ok).
Qed.

(** The queue is taken and its items are put back at most once each. *)
Lemma keeps_process_graceful_queue : keeps state_ok process_graceful_queue.
Proof.
  apply keeps_get. intros s [Ha Hq]. destruct (gqueue s) as [|p0 rest] eqn:Heq; [split; [exact Ha|]; cbn; rewrite Heq; exact Hq|].
  set (items := p0 :: rest) in *. set (now := clock_now (sync_world s)).
  unfold mbind, M_bind, mmodify.
  assert (triple (λ t, programmed_ok (applied t) ∧ gqueue t = []) (mfor items (process_pending now))
    (λ _ t, programmed_ok (applied t) ∧ sublist (gqueue t) items) (λ _, state_ok)) as Htr.
  { eapply triple_conseq; [apply (triple_for items (process_pending now)
      (λ done t, programmed_ok (applied t) ∧ sublist (gqueue t) done) (λ _, state_ok))
      | |done|done]; [|intros t [? ->]; split; [done|constructor]].
    intros done x l Hl t [Hpa Hsub].
    assert (NoDup (item_key <$> gqueue t)) as Hnd.
    { eapply sublist_NoDup; [exact Hq|]. apply fmap_sublist. etrans; [exact Hsub|].
      rewrite Hl. by apply sublist_inserts_r. }
    unfold process_pending. unfold mbind at 1, M_bind, mget. destruct (readded _ _).
    { split; [done|]. by apply sublist_inserts_r. }
    unfold mbind at 1, M_bind. unfold io at 1, mzoom. destruct (mmap_err _ _ _) as [[e|st] w]; [done|].
    destruct (bool_decide _ || _).
    - unfold io, mzoom. destruct (mmap_err _ _ _) as [[e|u] w']; [done|].
      split; [done|]. by apply sublist_inserts_r.
    - split; [done|]. cbn. unfold requeue. by apply sublist_app. }
  specialize (Htr (set_gqueue [] s) (conj Ha eq_refl)).
  destruct (mfor items _ (set_gqueue [] s)) as [[e|[]] t]; [exact Htr|].
  destruct Htr as [Ht Hsub]. split; [exact Ht|]. eapply sublist_NoDup; [exact Hq|]. by apply fmap_sublist.
Qed.

Lemma keeps_after_commit P cfg jobs :
  keeps (on_queue P) (update_metrics cfg;; process_dsr_jobs cfg jobs;; sync_hairpin_all cfg;;
    sync_masquerade cfg;; sync_nodeport_healthchecks;; sync_firewall cfg).
Proof.
  repeat (apply keeps_bind; [|intros _]).
  - unfold update_metrics. destruct (negb _); [apply keeps_ret|].
    apply keeps_bind; [apply keeps_io|]. intros stats t Ht. exact Ht.
  - unfold process_dsr_jobs. destruct (sc_dsr_mangle cfg), jobs; try apply keeps_ret.
    apply keeps_for. intros job. apply keeps_for. intros [v6 mangle]. unfold process_dsr_job.
    destruct (filter _ _); [apply keeps_ret|]. apply keeps_bind; [by apply keeps_zoom|].
    intros _. apply keeps_for. intros vip. apply keeps_io.
  - unfold sync_hairpin_all. destruct (sc_hairpin_nat cfg); [apply keeps_ret|].
    apply keeps_get. intros t Ht. refine (keeps_for (on_queue P) _ _ _ t Ht). intros x. apply keeps_io.
  - unfold sync_masquerade. destruct (sc_masquerade cfg); [|apply keeps_ret].
    apply keeps_for. intros x. destruct (List.find _ _) as [[b prim]|]; [apply keeps_io|apply keeps_ret].
  - apply keeps_get. intros t Ht. destruct (nphc t); [|done]. by refine (keeps_zoom P _ _ _ _ _ t Ht).
  - unfold sync_firewall. destruct (sc_firewall_ipt cfg) as [|i l]; [apply keeps_ret|].
    destruct (sc_firewall_ipset cfg); [|apply keeps_ret]. apply keeps_get. intros t Ht.
    destruct (all_local_ips (sync_world t)) as [local w].
    refine (keeps_bind (on_queue P) _ _ _ _ t Ht); [by intros u Hu|intros _]. apply keeps_bind; [apply keeps_for; intros x; apply keeps_io|].
    intros _. destruct (firewall_setup_done t); [apply keeps_ret|].
    apply keeps_bind; [apply keeps_for; intros x; apply keeps_io|]. by intros _ u Hu.
Qed.

Lemma keeps_reconcile_inner cfg full :
  keeps state_ok (reconcile_inner cfg full).
Proof.
  unfold reconcile_inner.
  apply keeps_bind; [apply (keeps_io queue_ok)|intros _]. apply keeps_get. intros s Hs.
  refine (keeps_bind state_ok _ _ _ _ s Hs); [apply (keeps_program_sloppy queue_ok)|intros _].
  apply keeps_bind; [apply keeps_program_ipvs|intros _].
  apply keeps_bind; [apply (keeps_program_vips queue_ok)|intros _].
  apply keeps_bind; [|intros _].
  { intros t [_ Hq]. split; [|exact Hq]. apply plan_programmed_ok. }
  apply keeps_bind; [apply keeps_process_graceful_queue|intros _].
  apply (keeps_after_commit queue_ok).
Qed.

(** C12: However the loop of the sync is woken, whatever fails and whatever the
    stores hold, its state stays well-formed: services are recorded under their
    keys, the destinations of one socket agree, although slices may list it twice,
    and no destination is in the queue twice. *)
Theorem sync_run_state_ok cfg wakes s : state_ok s → state_ok (sync_run cfg wakes s).
Proof.
  unfold sync_run. revert s. induction wakes as [|wake wakes IH]; intros s Hs; [done|].
  cbn. apply IH. unfold run_step.
  pose proof (keeps_reconcile_inner cfg (match wake with Ticked => true | Notified => false end)
    s Hs) as Hk.
  by destruct (reconcile_inner _ _ s) as [r t].
Qed.

(** After a call of the environment that succeeded, only the environment differs. *)
Lemma io_bind_eq {A B E} (wrap : E → SyncError) (m : M W E A) (k k' : A → M SyncState SyncError B) s :
  (∀ a w, k a (set_sync_world w s) = k' a (set_sync_world w s)) → (io wrap m ≫= k) s = (io wrap m ≫= k') s.
Proof.
  intros Hk. unfold mbind, M_bind, io, mzoom. destruct (mmap_err wrap m (sync_world s)) as [[e|a] w]; [done|apply Hk].
Qed.

(** C15: A pass after a notification, when the services ask for what is recorded and
    nothing drains, goes from the interface and the plan straight to what comes
    after the commit: it makes no call that adds, edits or removes a virtual service
    or a destination, binds or unbinds an address or sets sloppy TCP.  What is left
    are the link, the metrics, the direct-return jobs and the iptables handlers. *)
Theorem idle_pass_programs_nothing cfg plan s :
  (∀ w : W, make_plan cfg (provider_services w) = plan) →
  applied s = p_desired plan → bound_vips s = p_vips plan → sloppy_tcp s = p_sloppy plan → gqueue s = [] →
  reconcile_inner cfg false s =
  (io SyncNetlink (ensure_dummy_link DUMMY_IF);; mmodify (set_programmed plan);;
   update_metrics cfg;; process_dsr_jobs cfg (p_jobs plan);; sync_hairpin_all cfg;;
   sync_masquerade cfg;; sync_nodeport_healthchecks;; sync_firewall cfg) s.
Proof.
  intros Hplan Ha Hb Hsl Hq. unfold reconcile_inner.
  apply io_bind_eq. intros [] w. set (s1 := set_sync_world w s).
  unfold mbind at 1, M_bind, mget. rewrite Hplan.
  assert (program_sloppy (p_sloppy plan) s1 = (inr tt, s1)) as Hs1
    by (unfold program_sloppy; change (sloppy_tcp s1) with (sloppy_tcp s); by rewrite Hsl, eqb_reflx).
  destruct (idle_program cfg s1) as [Hi Hv].
  { change (applied s1) with (applied s). rewrite Ha, <-(Hplan w). apply plan_programmed_ok. }
  change (applied s1) with (applied s) in Hi. change (bound_vips s1) with (bound_vips s) in Hv.
  rewrite Ha in Hi. rewrite Hb in Hv.
  unfold mbind at 1, M_bind. rewrite Hs1. unfold mbind at 1, M_bind. rewrite Hi.
  unfold mbind at 1, M_bind. rewrite Hv. unfold mbind at 1, M_bind, mmodify.
  unfold mbind at 1, M_bind. unfold process_graceful_queue. unfold mbind at 1, M_bind, mget.
  change (gqueue (set_programmed plan s1)) with (gqueue s). by rewrite Hq.
Qed.

(** ** What a pass commits *)

Section commit.
Variable P : Committed → Prop.
Let on_committed : SyncState (W := W) → Prop := on_queue (λ c _, P c).

Lemma commit_program_ipvs cfg full desired : keeps on_committed (program_ipvs cfg full desired).
Proof.
  apply keeps_get. intros s Hs. refine (keeps_bind on_committed _ _ _ _ s Hs); [|intros _].
  { apply keeps_for. intros x. apply keeps_program_service. }
  apply keeps_bind; [|intros _; apply keeps_for; intros svc; unfold remove_service;
    apply keeps_bind; [apply keeps_io|intros _; apply keeps_flush]].
  apply keeps_for. intros [svc d]. unfold remove_destination. apply keeps_bind; [|intros _; apply keeps_flush].
  destruct (sc_graceful cfg); [|apply keeps_io]. apply keeps_bind; [apply keeps_io|]. by intros _ t Ht.
Qed.

Lemma commit_graceful_queue : keeps on_committed process_graceful_queue.
Proof.
  apply keeps_get. intros s Hs. destruct (gqueue s) as [|p rest]; [done|].
  refine (keeps_bind on_committed _ _ _ _ s Hs); [by intros t Ht|intros _].
  apply keeps_for. intros x. apply keeps_get. intros t Ht. destruct (readded _ _); [done|].
  refine (keeps_bind on_committed _ _ _ _ t Ht); [apply keeps_io|]. intros stats.
  cbn zeta. destruct (bool_decide (stats = Some (0, 0)) || _); [apply keeps_io|]. by intros u Hu.
Qed.
End commit.

(** The record of what is programmed, the bound addresses and the service names
    change together, and only to the plan of the services the pass has read: a
    pass that fails while programming leaves all three, and a pass that succeeds
    replaces all three. *)
Theorem reconcile_commits cfg full s r s' :
  reconcile_inner cfg full s = (r, s') →
  (r ≠ inr tt ∧ committed s' = committed s) ∨
  ∃ w, let plan := make_plan cfg (provider_services w) in
       committed s' = (p_desired plan, p_vips plan, p_meta plan).
Proof.
  assert (∀ c (m : M SyncState SyncError unit) t, keeps (on_queue (λ c' _, c' = c)) m →
    committed t = c → committed (m t).2 = c) as Hkeep by (intros c m t Hm Ht; exact (Hm t Ht)).
  unfold reconcile_inner. unfold mbind at 1, M_bind.
  pose proof (Hkeep (committed s) _ s (keeps_io (λ c' _, c' = committed s) SyncNetlink
    (ensure_dummy_link DUMMY_IF)) eq_refl) as H1.
  destruct (io SyncNetlink _ s) as [[e|[]] s1]; [by intros [= <- <-]; left|]. cbn [snd] in H1.
  unfold mbind at 1, M_bind, mget. set (w := sync_world s1).
  set (plan := make_plan cfg (provider_services w)).
  unfold mbind at 1, M_bind.
  pose proof (Hkeep _ _ s1 (keeps_program_sloppy (λ c' _, c' = committed s) (p_sloppy plan)) H1) as H2.
  destruct (program_sloppy _ s1) as [[e|[]] s2]; [by intros [= <- <-]; left|]. cbn [snd] in H2.
  unfold mbind at 1, M_bind.
  pose proof (Hkeep _ _ s2 (commit_program_ipvs (λ c', c' = committed s) cfg full (p_desired plan)) H2) as H3.
  destruct (program_ipvs _ _ _ s2) as [[e|[]] s3]; [by intros [= <- <-]; left|]. cbn [snd] in H3.
  unfold mbind at 1, M_bind.
  pose proof (Hkeep _ _ s3 (keeps_program_vips (λ c' _, c' = committed s) (p_vips plan)) H3) as H4.
  destruct (program_vips _ s3) as [[e|[]] s4]; [by intros [= <- <-]; left|].
  unfold mbind at 1, M_bind, mmodify. intros Hrun. right. exists w. fold plan.
  set (done := (p_desired plan, p_vips plan, p_meta plan)).
  assert (committed (set_programmed plan s4) = done) as H5 by done.
  assert (∃ m, keeps (on_queue (λ c' _, c' = done)) m ∧ m (set_programmed plan s4) = (r, s'))
    as (m & Hm & Hrun').
  { eexists. split; [|exact Hrun]. exact (keeps_bind _ _ _ (commit_graceful_queue (λ c', c' = done))
      (λ _, keeps_after_commit (λ c' _, c' = done) cfg (p_jobs plan))). }
  specialize (Hm _ H5). rewrite Hrun' in Hm. exact Hm.
Qed.
End state.
