(* ===== verification/DrainFacts.v ===== *)
(** * DrainFacts: passes that drain destinations

    With graceful termination a destination that is no longer desired is not
    deleted but drained: its weight becomes zero, and it waits in a queue.  Such a
    pass is simulated by the one that deletes: the kernel is that of the other pass
    and, beside it, the destinations it drains. *)

From stdpp Require Import gmap sets list strings pretty.
From Stdlib Require Import Ascii ZArith Lia.
From S2P Require Import Prelude Text Net IpText Common Netlink Proxy ProxySync SyncFacts SyncTheorems.
Import Graceful.

Local Open Scope Z_scope.
#[local] Arguments svc_key : simpl never.
#[local] Arguments rs_key : simpl never.

(** ** The relation *)

(** A destination that was programmed and is not desired waits at weight zero. *)
Definition draining (prev desired : Programmed) (v : View) (k : string) (b : IpAddr * Z) : Prop :=
  dest_of desired k b = None ∧
  ∃ o, dest_of prev k b = Some o ∧ v_dests v !! (k, b) = Some (drained o).

(** The kernel [v], and what it is apart from the destinations it drains. *)
Record drains (graceful : bool) (prev desired : Programmed) (v u : View) : Prop := {
  dr_services : v_services v = v_services u;
  dr_dests k b : v_dests v !! (k, b) = v_dests u !! (k, b) ∨
    (graceful = true ∧ draining prev desired v k b ∧ v_dests u !! (k, b) = None);
}.

(** A destination waits in the queue. *)
Definition queued (q : GracefulQueue) (k : string) (b : IpAddr * Z) : Prop :=
  ∃ p, p ∈ q ∧ svc_key (pr_svc p) = k ∧ rs_key (pr_dst p) = b.
Definition all_queued (q : GracefulQueue) (v u : View) : Prop :=
  ∀ k b, v_dests u !! (k, b) = None → is_Some (v_dests v !! (k, b)) → queued q k b.
(** Nothing of the queue is desired. *)
Definition queue_stale (desired : Programmed) (q : GracefulQueue) : Prop :=
  Forall (λ p, dest_of desired (svc_key (pr_svc p)) (rs_key (pr_dst p)) = None) q.

Lemma drains_refl g prev desired v : drains g prev desired v v.
Proof. split; auto. Qed.
Lemma all_queued_refl q v : all_queued q v v.
Proof. intros k b ->. by intros [? ?]. Qed.

Lemma queued_mono q q' k b : q ⊆ q' → queued q k b → queued q' k b.
Proof. intros Hq (p & Hp & Hk). exists p. split; [by apply Hq|done]. Qed.

(** Keys of services and of destinations. *)
Lemma svc_key_vs a b : vs_key a = vs_key b → svc_key a = svc_key b.
Proof. unfold svc_key. by intros ->. Qed.

Lemma enqueue_queued svc d deadline q : queued (enqueue svc d deadline q) (svc_key svc) (rs_key d).
Proof.
  unfold enqueue. destruct (existsb _ q) eqn:Hq.
  - apply existsb_exists in Hq as (p & Hp & [Hs%bool_decide_eq_true Hd%bool_decide_eq_true]%andb_true_iff).
    exists p. split_and!; [by apply list_elem_of_In|by apply svc_key_vs|exact Hd].
  - eexists. split_and!; [apply elem_of_app; right; by left|done..].
Qed.

Lemma enqueue_incl svc d deadline q : q ⊆ enqueue svc d deadline q.
Proof. unfold enqueue. destruct (existsb _ q); [done|]. intros p Hp. apply elem_of_app. by left. Qed.

Lemma enqueue_stale desired svc d deadline q :
  dest_of desired (svc_key svc) (rs_key d) = None →
  queue_stale desired q → queue_stale desired (enqueue svc d deadline q).
Proof.
  intros Hd Hq. unfold enqueue. destruct (existsb _ q); [done|].
  apply Forall_app_2; [done|]. by apply Forall_singleton.
Qed.

(** ** Calls *)

Lemma other_dests_kept {A} (m : gmap (string * (IpAddr * Z)) A) key k b :
  key ≠ k → filter (λ kv, kv.1.1 ≠ key) m !! (k, b) = m !! (k, b).
Proof.
  intros Hk. destruct (m !! (k, b)) as [d|] eqn:Hd.
  - apply map_lookup_filter_Some_2; [done|]. cbn. congruence.
  - apply map_lookup_filter_None_2. by left.
Qed.

Section calls.
Variables (graceful : bool) (prev desired : Programmed).

(** A call towards the desired services does the same on both sides, wherever it
    does something. *)
Lemma effect_agrees c v u k b :
  drains graceful prev desired v u → towards desired c →
  (v_dests (effect v c) !! (k, b) = v_dests v !! (k, b) ∧
   v_dests (effect u c) !! (k, b) = v_dests u !! (k, b)) ∨
  v_dests (effect v c) !! (k, b) = v_dests (effect u c) !! (k, b).
Proof.
  intros [Hs Hd] Hc. specialize (Hd k b).
  assert (∀ svc d, dest_of desired (svc_key svc) (rs_key d) = Some d → (svc_key svc, rs_key d) = (k, b) →
    v_dests v !! (k, b) = v_dests u !! (k, b)) as Hsame.
  { intros svc d Hdes [= <- <-]. destruct Hd as [Hd|(_ & [Hno _] & _)]; [done|congruence]. }
  destruct c as [svc|svc|svc|svc d|svc d|svc d|a p]; cbn in Hc |- *; try by left.
  - destruct (decide (svc_key svc = k)) as [<-|Hk].
    + right. etrans; [|symmetry]; apply map_lookup_filter_None_2; right; cbn; naive_solver.
    + left. split; by apply other_dests_kept.
  - rewrite Hs. destruct (decide ((svc_key svc, rs_key d) = (k, b))) as [Heq|Hne].
    + right. rewrite Heq. rewrite (Hsame svc d Hc Heq).
      destruct (v_services u !! svc_key svc); [|by apply (Hsame svc d)].
      destruct (v_dests u !! (k, b)) eqn:Hu; [by rewrite (Hsame svc d Hc Heq)|].
      by rewrite !lookup_insert_eq.
    + left. split; repeat case_match; rewrite ?lookup_insert_ne by done; done.
  - destruct (decide ((svc_key svc, rs_key d) = (k, b))) as [Heq|Hne].
    + right. rewrite Heq, !lookup_alter_eq. by rewrite (Hsame svc d Hc Heq).
    + left. by rewrite !lookup_alter_ne.
  - destruct (decide ((svc_key svc, rs_key d) = (k, b))) as [Heq|Hne].
    + right. by rewrite Heq, !lookup_delete_eq.
    + left. by rewrite !lookup_delete_ne.
Qed.

Lemma effect_services c v u :
  v_services v = v_services u → v_services (effect v c) = v_services (effect u c).
Proof. intros Hs. destruct c; cbn; rewrite ?Hs; done. Qed.

Lemma effect_drains c v u :
  towards desired c → drains graceful prev desired v u → drains graceful prev desired (effect v c) (effect u c).
Proof.
  intros Hc Hv. split; [apply effect_services, Hv|]. intros k b.
  destruct (effect_agrees c v u k b Hv Hc) as [[Hv' Hu']|Heq]; [|by left].
  rewrite Hv', Hu'. destruct (dr_dests _ _ _ _ _ Hv k b) as [?|(? & [Hno (o & Ho & Hw)] & ?)]; [by left|].
  right. split_and!; [done| |done]. split; [done|]. exists o. by rewrite Hv'.
Qed.

Lemma effect_all_queued c v u q :
  towards desired c → drains graceful prev desired v u → all_queued q v u →
  all_queued q (effect v c) (effect u c).
Proof.
  intros Hc Hv Hq k b. destruct (effect_agrees c v u k b Hv Hc) as [[-> ->]| ->]; [apply Hq|].
  intros ->. by intros [? ?].
Qed.

(** Draining on one side, deleting on the other. *)
Lemma drain_drains svc o v u :
  graceful = true → dest_of prev (svc_key svc) (rs_key o) = Some o →
  dest_of desired (svc_key svc) (rs_key o) = None → drains graceful prev desired v u →
  drains graceful prev desired (effect v (UpdateDest svc (drained o))) (effect u (DelDest svc o)).
Proof.
  intros Hg Ho Hno [Hs Hd]. split; [done|]. intros k b. cbn. change (rs_key (drained o)) with (rs_key o).
  destruct (decide ((svc_key svc, rs_key o) = (k, b))) as [Heq|Hne].
  - rewrite Heq, lookup_alter_eq, lookup_delete_eq. simplify_eq.
    destruct (v_dests v !! (svc_key svc, rs_key o)) as [x|] eqn:Hx; [|by left].
    right. split_and!; [done| |done]. split; [done|]. exists o. split; [done|]. cbn.
    change (rs_key (drained o)) with (rs_key o). by rewrite lookup_alter_eq, Hx.
  - rewrite lookup_alter_ne, lookup_delete_ne by done.
    destruct (Hd k b) as [?|(? & [Hn (x & Hx & Hw)] & ?)]; [by left|]. right.
    split_and!; [done| |done]. split; [done|]. exists x. split; [done|]. cbn.
    change (rs_key (drained o)) with (rs_key o). by rewrite lookup_alter_ne.
Qed.

Lemma drain_queued svc o deadline v u q :
  all_queued q v u →
  all_queued (enqueue svc (drained o) deadline q)
    (effect v (UpdateDest svc (drained o))) (effect u (DelDest svc o)).
Proof.
  intros Hq k b. cbn. change (rs_key (drained o)) with (rs_key o).
  destruct (decide ((svc_key svc, rs_key o) = (k, b))) as [Heq|Hne].
  - simplify_eq. intros _ _. apply (enqueue_queued svc (drained o)).
  - rewrite lookup_alter_ne, lookup_delete_ne by done. intros Hu Hv.
    eapply queued_mono; [apply enqueue_incl|by apply Hq].
Qed.
End calls.

(** ** A pass that drains and one that deletes, in step *)

Section tracks.
Context `{IpNetLib} {W : Type} `{!IpvsOps W, !Clock W}.
Implicit Types (s : SyncState (W := W * View)).
Variables (cfg : SyncConfig (W := W * View)) (prev desired : Programmed).

(** A state of the pass and a kernel of the other one; where no processing of the
    queue has failed, what is drained is in the queue. *)
Record simulates (kept : Prop) (now : Programmed) s (u : View) : Prop := {
  si_applied : applied s = now;
  si_drains : drains (sc_graceful cfg) prev desired (kernel s) u;
  si_stale : queue_stale desired (gqueue s);
  si_queued : kept → all_queued (gqueue s) (kernel s) u;
}.

(** A computation does what a prefix of the calls does to the other kernel, all of
    them when it succeeds. *)
Definition tracks (now : Programmed) (m : M (SyncState (W := W * View)) SyncError unit)
    (l : list IpvsCall) : Prop :=
  ∀ kept s r s' u, simulates kept now s u → m s = (r, s') →
    ∃ done rest, l = done ++ rest ∧ simulates kept now s' (effects u done) ∧ (r = inr tt → rest = []).

Lemma io_call_viewed c s r s' :
  io_call c s = (r, s') →
  s' = set_sync_world (sync_world s') s ∧
  (r = inr tt ∧ kernel s' = effect (kernel s) c ∨ (∃ e, r = inl e) ∧ kernel s' = kernel s).
Proof.
  unfold io_call, io, mzoom, mmap_err. rewrite run_call_viewed. unfold viewing, noting.
  destruct (run_call c (sync_world s).1) as [[e|[]] w]; intros [= <- <-];
    (split; [done|]); [right; split; [by eexists|done]|by left].
Qed.

Lemma tracks_ret now : tracks now (mret tt) [].
Proof. intros kept s r s' u Hs [= <- <-]. by exists [], []. Qed.

Lemma tracks_app now m m' l l' : tracks now m l → tracks now m' l' → tracks now (m ;; m') (l ++ l').
Proof.
  intros Hm Hm' kept s r s' u Hs. unfold mbind, M_bind.
  destruct (m s) as [[e|[]] s1] eqn:Hrun; destruct (Hm kept s _ s1 u Hs Hrun) as (d1 & r1 & -> & Hs1 & Hr1).
  - intros [= <- <-]. exists d1, (r1 ++ l'). split_and!; [by rewrite app_assoc|done|done].
  - specialize (Hr1 eq_refl). subst r1. rewrite app_nil_r. intros Hrun'.
    destruct (Hm' kept s1 r s' _ Hs1 Hrun') as (d2 & r2 & -> & Hs2 & Hr2).
    exists (d1 ++ d2), r2. split_and!; [by rewrite app_assoc| |done]. by rewrite effects_app.
Qed.

Lemma tracks_for now {A} (body : A → M (SyncState (W := W * View)) SyncError unit) f l :
  (∀ x, x ∈ l → tracks now (body x) (f x)) → tracks now (mfor l body) (l ≫= f).
Proof.
  induction l as [|x l IH]; intros Hb; [apply tracks_ret|]. cbn [mfor]. rewrite bind_cons.
  apply tracks_app; [apply Hb; by left|]. apply IH. intros y Hy. apply Hb. by right.
Qed.

Lemma tracks_call now c : towards desired c → tracks now (io_call c) [c].
Proof.
  intros Hc kept s r s' u [Ha Hd Hst Hq] Hrun.
  apply io_call_viewed in Hrun as [Hs' [[-> Hk]|[[e ->] Hk]]].
  - exists [c], []. split_and!; [done| |done]. rewrite Hs'. split; [done| |done|].
    + change (kernel (set_sync_world _ s)) with (kernel s'). rewrite Hk. by apply effect_drains.
    + change (kernel (set_sync_world _ s)) with (kernel s'). rewrite Hk. intros Hkept. cbn.
      eapply effect_all_queued; [done|done|by apply Hq].
  - exists [], [c]. split_and!; [done| |done]. rewrite Hs'. cbn.
    split; [done| |done|]; change (kernel (set_sync_world _ s)) with (kernel s'); by rewrite Hk.
Qed.

Lemma tracks_calls now m l : is_calls m l → Forall (towards desired) l → tracks now m l.
Proof.
  intros Hm Hl. assert (tracks now (mfor l io_call) l) as Ht.
  { clear Hm. induction Hl as [|c l Hc _ IH]; [apply tracks_ret|].
    apply (tracks_app _ _ _ [_]); [by apply tracks_call|exact IH]. }
  intros kept s r s' u Hs. rewrite Hm. by apply Ht.
Qed.

(** A destination that lost its endpoint. *)
Lemma tracks_remove_destination now svc o :
  dest_of prev (svc_key svc) (rs_key o) = Some o → dest_of desired (svc_key svc) (rs_key o) = None →
  tracks now (remove_destination cfg (svc, o)) (DelDest svc o :: flush_calls svc).
Proof.
  intros Ho Hno. unfold remove_destination.
  apply (tracks_app _ _ _ [_]); [|by eapply tracks_calls; [apply is_calls_flush|apply flush_towards]].
  destruct (sc_graceful cfg) eqn:Hg; [|by apply (tracks_call now (DelDest svc o))].
  intros kept s r s' u [Ha Hd Hst Hq]. unfold mbind at 1, M_bind.
  destruct (io SyncIpvs _ s) as [r1 s1] eqn:Hrun.
  apply (io_call_viewed (UpdateDest svc (drained o))) in Hrun as [Hs1 [[-> Hk]|[[e ->] Hk]]].
  - intros [= <- <-]. exists [DelDest svc o], []. split_and!; [done| |done]. cbn [effects foldl].
    assert (gqueue s1 = gqueue s) as Hgq by by rewrite Hs1.
    split; [by rewrite Hs1| | |]; change (kernel (set_gqueue _ s1)) with (kernel s1); rewrite ?Hk;
      cbn [gqueue set_gqueue]; rewrite ?Hgq.
    + rewrite Hg in Hd |- *. by apply drain_drains.
    + by apply enqueue_stale.
    + intros Hkept. by apply drain_queued, Hq.
  - intros [= <- <-]. exists [], [DelDest svc o]. split_and!; [done| |done]. rewrite Hs1. cbn.
    split; [done| |done|]; change (kernel (set_sync_world _ s)) with (kernel s1); by rewrite Hk.
Qed.

(** The IPVS half of a pass, when nothing else has been programmed or what is
    desired is. *)
Lemma tracks_program_ipvs now full :
  programmed_ok now → programmed_ok desired → now = prev ∨ now = desired →
  tracks now (program_ipvs cfg full desired) (script full now desired).
Proof.
  intros Hnow Hdes Heither kept s r s' u Hs. unfold program_ipvs. unfold mbind at 1, M_bind, mget.
  rewrite (si_applied _ _ _ _ Hs). revert Hs.
  enough (tracks now (mfor (btree_iter desired) (program_service full now);;
    mfor (stale_dests now desired) (remove_destination cfg);;
    mfor (removed_services now desired) remove_service) (script full now desired)) as Ht by apply Ht.
  pose proof (script_towards full now desired Hnow Hdes) as Hall.
  unfold script in *. apply Forall_app in Hall as [H1' [_ H3']%Forall_app].
  apply tracks_app; [|apply tracks_app].
  - eapply tracks_calls; [|exact H1']. apply is_calls_for. intros x. apply program_service_calls.
  - apply tracks_for. intros [svc o] Hin. cbn [fst snd].
    apply (elem_of_stale now desired) in Hin as (k & ds & p & old & Hk & Hp & Hold & Hn).
    destruct (Hdes k svc ds Hk) as [-> _].
    destruct (Hnow _ p old Hp) as [_ Hnd].
    assert (dest_of now (svc_key svc) (rs_key o) = Some o) as Ho.
    { unfold dest_of. rewrite Hp. cbn. by apply find_rs_key. }
    assert (dest_of desired (svc_key svc) (rs_key o) = None) as Hno.
    { unfold dest_of. rewrite Hk. cbn. by apply find_rs_key_none. }
    apply tracks_remove_destination; [|done]. destruct Heither as [->| ->]; [done|congruence].
  - eapply tracks_calls; [|exact H3']. apply is_calls_for. intros svc. unfold remove_service.
    apply (is_calls_app _ _ [_]); [apply (is_calls_one (DelService _))|apply is_calls_flush].
Qed.

(** What such a pass reaches. *)
Lemma program_ipvs_drains kept now full s r s' u :
  programmed_ok now → programmed_ok desired → now = prev ∨ now = desired →
  (full = true → ∀ k b o d, dest_of now k b = Some o → dest_of desired k b = Some d → o = d) →
  simulates kept now s u → between now desired u → program_ipvs cfg full desired s = (r, s') →
  ∃ u', simulates kept now s' u' ∧ between now desired u' ∧ (r = inr tt → shows desired u').
Proof.
  intros Hnow Hdes Heither Hchg Hs Hu Hrun.
  destruct (tracks_program_ipvs now full Hnow Hdes Heither kept s r s' u Hs Hrun) as (done & rest & Hl & Hs' & Hr).
  exists (effects u done). split_and!; [done|by eapply script_prefix_between|].
  intros Hok. specialize (Hr Hok). subst rest. rewrite app_nil_r in Hl. subst done. by apply script_reaches.
Qed.

(** *** The queue *)

(** A state while the items of the queue are processed, with those still to come. *)
Record processing (kept : Prop) (todo : GracefulQueue) s (u : View) : Prop := {
  pg_applied : applied s = desired;
  pg_drains : drains (sc_graceful cfg) prev desired (kernel s) u;
  pg_stale : queue_stale desired (gqueue s ++ todo);
  pg_queued : kept → all_queued (gqueue s ++ todo) (kernel s) u;
}.

Lemma stale_not_readded p :
  dest_of desired (svc_key (pr_svc p)) (rs_key (pr_dst p)) = None → readded desired p = false.
Proof.
  intros Hno. unfold readded. unfold dest_of in Hno.
  destruct (desired !! svc_key (pr_svc p)) as [[svc ds]|]; [|done]. cbn in Hno.
  apply find_rs_key_none in Hno. apply not_true_iff_false. rewrite existsb_exists.
  intros (d & Hd & [Hb%bool_decide_eq_true _]%andb_true_iff). apply Hno. rewrite <-Hb.
  by apply list_elem_of_fmap_2, list_elem_of_In.
Qed.

(** A call that is not about the IPVS table. *)
Lemma io_beside {E A} (wrap : E → SyncError) (m : M W E A) s r s' :
  io wrap (beside (G := View) m) s = (r, s') → s' = set_sync_world (sync_world s') s ∧ kernel s' = kernel s.
Proof.
  unfold io, mzoom, mmap_err, beside, noting. by destruct (m (sync_world s).1) as [[e|a] w]; intros [= <- <-].
Qed.

(** Deleting a destination that the other kernel does not have. *)
Lemma delete_drains svc d v u :
  v_dests u !! (svc_key svc, rs_key d) = None →
  drains (sc_graceful cfg) prev desired v u →
  drains (sc_graceful cfg) prev desired (effect v (DelDest svc d)) u.
Proof.
  intros Hu [Hs Hd]. split; [done|]. intros k b. cbn.
  destruct (decide ((svc_key svc, rs_key d) = (k, b))) as [Heq|Hne].
  - left. by rewrite <-Heq, lookup_delete_eq.
  - rewrite lookup_delete_ne by done. destruct (Hd k b) as [?|(? & [Hn (x & Hx & Hw)] & ?)]; [by left|].
    right. split_and!; [done| |done]. split; [done|]. exists x. split; [done|]. cbn. by rewrite lookup_delete_ne.
Qed.

Lemma delete_queued p q todo v u :
  all_queued (q ++ p :: todo) v u → all_queued (q ++ todo) (effect v (DelDest (pr_svc p) (pr_dst p))) u.
Proof.
  intros Hq k b Hu [x Hx]. cbn in Hx. apply lookup_delete_Some in Hx as [Hne Hx].
  destruct (Hq k b Hu) as (p' & Hp' & Hk & Hb); [by eexists|]. exists p'. split; [|done].
  apply elem_of_app. apply elem_of_app in Hp' as [?|[->|?]%elem_of_cons]; [by left| |by right]. congruence.
Qed.

Lemma process_pending_processing kept now p todo s r s' u :
  shows desired u → processing kept (p :: todo) s u → process_pending now p s = (r, s') →
  processing (kept ∧ r = inr tt) todo s' u.
Proof.
  intros [_ Hu] [Ha Hd Hst Hq]. unfold process_pending. unfold mbind at 1, M_bind, mget. rewrite Ha.
  pose proof Hst as Hst'. apply Forall_app in Hst' as [Hst1 [Hp Hst2]%Forall_cons].
  rewrite (stale_not_readded p Hp).
  assert (queue_stale desired (gqueue s ++ todo)) as Hrest by by apply Forall_app_2.
  unfold mbind at 1, M_bind. destruct (io SyncIpvs _ s) as [r1 s1] eqn:Hstats.
  apply io_beside in Hstats as [Hs1 Hk1].
  assert (processing False todo s1 u) as Hsafe.
  { rewrite Hs1. split; [done| |done|done]. change (kernel (set_sync_world _ s)) with (kernel s1). by rewrite Hk1. }
  assert (∀ (P : Prop) t (e : SyncError), processing False todo t u →
    processing (P ∧ inl e = inr (A := SyncError) tt) todo t u) as Hfailed
    by (intros P t e [??? _]; split; [done..|by intros [_ ?]]).
  destruct r1 as [e|stats]; [intros [= <- <-]; by apply Hfailed|].
  destruct (_ || _).
  - intros Hdel. apply (io_call_viewed (DelDest (pr_svc p) (pr_dst p))) in Hdel as [Hs' [[-> Hk]|[[e ->] Hk]]].
    + assert (v_dests u !! (svc_key (pr_svc p), rs_key (pr_dst p)) = None) as Hnone by by rewrite Hu.
      rewrite Hs'. split; change (kernel (set_sync_world _ s1)) with (kernel s'); rewrite ?Hk, ?Hk1.
      * by rewrite Hs1.
      * by apply delete_drains.
      * by rewrite Hs1.
      * intros [Hkept _]. rewrite Hs1. by apply delete_queued, Hq.
    + apply Hfailed. rewrite Hs'. destruct Hsafe as [Ha1 Hd1 Hq1 _].
      split; [done| |done|done]. change (kernel (set_sync_world _ s1)) with (kernel s'). by rewrite Hk.
  - intros [= <- <-]. destruct Hsafe as [Ha1 Hd1 _ _]. assert (gqueue s1 = gqueue s) as Hgq by by rewrite Hs1.
    split; [done|done| |]; cbn [gqueue set_gqueue]; rewrite Hgq; unfold requeue; rewrite <-app_assoc; cbn [app].
    + done.
    + intros [Hkept _]. change (kernel (set_gqueue _ s1)) with (kernel s1). rewrite Hk1. by apply Hq.
Qed.

Lemma process_items kept now todo s r s' u :
  shows desired u → processing kept todo s u → mfor todo (process_pending now) s = (r, s') →
  simulates (kept ∧ r = inr tt) desired s' u.
Proof.
  intros Hu. revert kept s. induction todo as [|p todo IH]; intros kept s Hs; cbn [mfor].
  - intros [= <- <-]. destruct Hs as [Ha Hd Hst Hq]. rewrite app_nil_r in *.
    split; [done..|]. intros [Hkept _]. by apply Hq.
  - unfold mbind, M_bind. destruct (process_pending now p s) as [r1 s1] eqn:Hrun.
    apply (process_pending_processing kept now p todo s r1 s1 u Hu Hs) in Hrun.
    destruct r1 as [e|[]].
    + intros [= <- <-]. destruct Hrun as [Ha Hd [Hst _]%Forall_app Hq]. split; [done..|by intros [_ ?]].
    + intros Hrest. destruct (IH _ _ Hrun Hrest) as [Ha Hd Hst Hq]. split; [done..|].
      intros [Hkept Hr]. by apply Hq.
Qed.

(** Processing the queue removes only what is drained; when it fails, what it has
    not come to is forgotten. *)
Lemma process_queue_simulates kept s r s' u :
  shows desired u → simulates kept desired s u → process_graceful_queue s = (r, s') →
  simulates (kept ∧ r = inr tt) desired s' u.
Proof.
  intros Hu [Ha Hd Hst Hq]. unfold process_graceful_queue. unfold mbind at 1, M_bind, mget.
  destruct (gqueue s) as [|p0 rest] eqn:Hgq.
  { intros [= <- <-]. split; [done|done|by rewrite Hgq|]. intros [Hkept _]. rewrite Hgq. by apply Hq. }
  unfold mbind at 1, M_bind, mmodify. apply process_items; [done|]. split; [done|done|done|exact Hq].
Qed.
End tracks.

(** ** What is seen of the kernel *)

(** As desired, apart from what is drained. *)
Definition settled (graceful : bool) (prev desired : Programmed) (v : View) : Prop :=
  (∀ k, v_services v !! k = svc_of desired k) ∧
  (∀ k b, v_dests v !! (k, b) = dest_of desired k b ∨ (graceful = true ∧ draining prev desired v k b)).

(** As programmed or as desired, apart from what is drained. *)
Definition midway (graceful : bool) (prev desired : Programmed) (v : View) : Prop :=
  (∀ k, v_services v !! k = svc_of prev k ∨ v_services v !! k = svc_of desired k) ∧
  (∀ k b, v_dests v !! (k, b) = dest_of prev k b ∨ v_dests v !! (k, b) = dest_of desired k b ∨
    (graceful = true ∧ draining prev desired v k b)).

Lemma drains_settled g prev desired v u :
  drains g prev desired v u → shows desired u → settled g prev desired v.
Proof.
  intros [Hs Hd] [Hsu Hdu]. split; [intros k; by rewrite Hs|]. intros k b.
  destruct (Hd k b) as [->|(? & ? & _)]; [left; by apply Hdu|by right].
Qed.

Lemma drains_midway g prev desired v u :
  drains g prev desired v u → between prev desired u → midway g prev desired v.
Proof.
  intros [Hs Hd] [Hsu Hdu]. split; [intros k; by rewrite Hs|]. intros k b.
  destruct (Hd k b) as [->|(? & ? & _)]; [|by auto]. destruct (Hdu k b); auto.
Qed.

(** Nothing is drained without graceful termination, or when nothing was
    programmed before. *)
Lemma settled_shows g prev desired v :
  g = false ∨ prev = ∅ → settled g prev desired v → shows desired v.
Proof.
  intros Hnone [Hs Hd]. split; [done|]. intros k b.
  destruct (Hd k b) as [?|(Hg & _ & o & Ho & _)]; [done|].
  destruct Hnone as [?| ->]; [congruence|done].
Qed.

(** Nor when nothing waits in the queue. *)
Lemma all_queued_beyond desired q v u k b :
  shows desired u → all_queued q v u → dest_of desired k b = None → is_Some (v_dests v !! (k, b)) →
  queued q k b.
Proof. intros [_ Hu] Hq Hno. apply Hq. by rewrite Hu. Qed.
