(* ===== verification/ProxyExamples.v ===== *)
(** * ProxyExamples: the service sync on a small cluster

    An environment whose calls all succeed and one service with two endpoints,
    on which the theorems about passes are instantiated. *)

From stdpp Require Import gmap sets list strings pretty.
From Stdlib Require Import Ascii ZArith Lia.
From S2P Require Import Prelude Text Net IpText Common Netlink Proxy ProxySync SyncFacts SyncTheorems.
From S2P Require Import PlanTheorems.
Import Graceful NodePortHc.

Local Open Scope Z_scope.

(** ** The environment *)

Definition ok_call {W E A} (a : A) : M W E A := mret a.

#[local] Instance ok_ipvs : IpvsOps unit := {|
  add_service _ := ok_call tt; edit_service _ := ok_call tt; del_service _ := ok_call tt;
  add_destination _ _ := ok_call tt; del_destination _ _ := ok_call tt;
  update_destination _ _ := ok_call tt; dest_conn_stats _ _ := ok_call None;
  flush_conntrack_udp _ _ := ok_call tt; service_stats := ok_call [];
  add_fwmark_service _ _ _ := ok_call tt; add_fwmark_destination _ _ := ok_call tt |}.

(** The same, but connection statistics cannot be read. *)
Definition blind_ipvs : IpvsOps unit := {|
  add_service _ := ok_call tt; edit_service _ := ok_call tt; del_service _ := ok_call tt;
  add_destination _ _ := ok_call tt; del_destination _ _ := ok_call tt;
  update_destination _ _ := ok_call tt; dest_conn_stats _ _ := mfail (IpvsErr "no such device");
  flush_conntrack_udp _ _ := ok_call tt; service_stats := ok_call [];
  add_fwmark_service _ _ _ := ok_call tt; add_fwmark_destination _ _ := ok_call tt |}.

#[local] Instance ok_netlink : NetlinkOps unit := {|
  ensure_dummy_link _ := ok_call tt; addr_add _ _ _ := ok_call tt; addr_del _ _ _ := ok_call tt;
  route_replace _ := ok_call tt; route_del _ := ok_call tt; route_list _ := ok_call [] |}.
#[local] Instance ok_commands : CommandRunner unit := {|
  run_command _ _ _ w := (inr (true, "", ""), w) |}.
#[local] Instance ok_http : HttpServers unit := {| http_bind _ := ok_call tt; http_abort _ w := w |}.
#[local] Instance ok_clock : Clock unit := {| clock_now _ := 1000 |}.
#[local] Instance ok_files : FileOps unit := {| fs_write _ _ := ok_call tt |}.
#[local] Instance ok_metrics : MetricsOps unit := {| metrics_update _ _ w := w |}.
#[local] Instance ok_heartbeat : Heartbeat unit := {| services_heartbeat w := w |}.

(** ** One service *)

Definition vip : IpAddr := V4 174063617.        (* 10.96.0.1 *)
Definition end_a : EndpointInfo :=
  {| ep_ip := V4 167772161; ep_port := 8080; ep_is_local := true; ep_ready := true |}.
Definition end_b : EndpointInfo :=
  {| ep_ip := V4 167772162; ep_port := 8080; ep_is_local := false; ep_ready := true |}.

Definition web (dsr : bool) : ServiceInfo :=
  {| si_namespace := "default"; si_name := "web"; si_port_name := "http"; si_protocol := Tcp;
     si_port := 80; si_node_port := None; si_cluster_ips := [vip]; si_external_ips := [];
     si_load_balancer_ips := []; si_scheduler := Rr; si_sched_flags := no_flags;
     si_session_affinity := false; si_affinity_timeout := 0; si_dsr := dsr;
     si_internal_traffic_local := false; si_external_traffic_local := false;
     si_hairpin := false; si_hairpin_external_ips := false; si_health_check_node_port := None |}.

#[local] Instance one_service : ServiceProvider unit := {|
  provider_services _ := [(web false, [end_a; end_b])] |}.

Definition cfg {W} : SyncConfig (W := W) :=
  {| sc_ranges := {| vr_external := []; vr_loadbalancer := []; vr_cluster := []; vr_strict := false |};
     sc_node_ips := []; sc_graceful := false; sc_graceful_period := 30000; sc_metrics := false;
     sc_hairpin_global := false; sc_hairpin_nat := []; sc_node_port_range := None;
     sc_masquerade := None; sc_firewall_permit_all := false; sc_firewall_ipt := [];
     sc_firewall_ipset := None; sc_dsr_mangle := []; sc_dsr_mtu := 1500 |}.

Definition plan_of (dsr : bool) (eps : list EndpointInfo) : Plan := make_plan (W := unit) cfg [(web dsr, eps)].

Definition no_view : View := {| v_services := ∅; v_dests := ∅ |}.

Definition state {W} (p : Plan) (q : GracefulQueue) (w : W) : SyncState (W := W) :=
  {| gqueue := q; nphc := None; firewall_setup_done := false; dsr_registry := ∅;
     applied := p_desired p; meta := p_meta p; bound_vips := p_vips p; sloppy_tcp := false;
     sync_world := w |}.

Lemma plan_of_ok dsr eps : programmed_ok (p_desired (plan_of dsr eps)).
Proof. apply plan_programmed_ok. Qed.

(** A computation that succeeds has a state to go on from. *)
Lemma ok_result {S E A} (m : M S E A) s a : (m s).1 = inr a → ∃ s', m s = (inr a, s').
Proof. destruct (m s) as [r s']. cbn. intros ->. by exists s'. Qed.

Ltac runs m s :=
  let s' := fresh "s'" in let Hrun := fresh "Hrun" in
  destruct (ok_result m s tt ltac:(vm_compute; reflexivity)) as [s' Hrun]; exists s'; split; [exact Hrun|].

Ltac agree := apply plan_of_ok.

(** The next pass on the same services collects metrics and runs the handlers. *)
Lemma idle_pass_programs_nothing_witness :
  let plan := plan_of false [end_a; end_b] in
  let s := state plan [] tt in
  reconcile_inner cfg false s =
  (io SyncNetlink (ensure_dummy_link DUMMY_IF);; mmodify (set_programmed plan);;
   update_metrics cfg;; process_dsr_jobs cfg (p_jobs plan);; sync_hairpin_all cfg;;
   sync_masquerade cfg;; sync_nodeport_healthchecks;; sync_firewall cfg) s.
Proof.
  intros plan s. apply (idle_pass_programs_nothing cfg plan s); reflexivity.
Defined.

(** The kernel after the plan of a service. *)
Definition view_of (p : Plan) : View :=
  effects no_view (script true ∅ (p_desired p)).

Lemma view_of_shows dsr eps :
  NoDup ((λ e, (ep_ip e, ep_port e)) <$> eps) →
  shows (p_desired (plan_of dsr eps)) (view_of (plan_of dsr eps)).
Proof.
  intros Hnd. apply script_reaches; [by intros ???|by apply plan_of_ok|done|].
  apply shows_between. split; intros; reflexivity.
Qed.

Definition dest (e : EndpointInfo) (weight : Z) (tunnel : bool) : IpvsDestination :=
  {| rs_addr := ep_ip e; rs_port := ep_port e; rs_weight := weight; rs_tunnel := tunnel |}.

Definition web_service : IpvsService := virtual_service (web false) vip 80.

Lemma full_resync_keeps_old_parameters_witness :
  let s := state (plan_of false [end_a]) [] (tt, view_of (plan_of false [end_a])) in
  let desired := p_desired (plan_of true [end_a]) in
  ∃ s', program_ipvs cfg true desired s = (inr tt, s') ∧ ¬ shows desired (kernel s') ∧
    v_dests (kernel s') !! (svc_key web_service, rs_key (dest end_a 1 true)) = Some (dest end_a 1 false).
Proof.
  intros s desired. runs (program_ipvs (W := unit * View) cfg true desired) s.
  apply (full_resync_keeps_old_parameters cfg desired s _ (svc_key web_service)
    (rs_key (dest end_a 1 true)) (dest end_a 1 false) (dest end_a 1 true)).
  - by left.
  - agree.
  - agree.
  - apply view_of_shows. apply (bool_decide_unpack _). vm_compute. exact I.
  - vm_compute. reflexivity.
  - vm_compute. reflexivity.
  - done.
  - exact Hrun.
Defined.

(** [end_b] drains while only [end_a] is programmed, and then comes back. *)
Definition draining_view : View :=
  let v := view_of (plan_of false [end_a]) in
  {| v_services := v_services v;
     v_dests := <[(svc_key web_service, rs_key (dest end_b 0 false)) := dest end_b 0 false]> (v_dests v) |}.

Lemma readded_destination_stays_drained_witness :
  let s := state (plan_of false [end_a]) [] (tt, draining_view) in
  let plan := plan_of false [end_a; end_b] in
  let item := {| pr_svc := web_service; pr_dst := drained (dest end_b 1 false); pr_deadline := 31000 |} in
  ∃ s', program_ipvs cfg false (p_desired plan) s = (inr tt, s') ∧
    v_dests (kernel s') !! (svc_key web_service, rs_key (dest end_b 1 false)) =
      Some (drained (dest end_b 1 false)) ∧
    process_pending 1000 item (set_programmed plan s') = (inr tt, set_programmed plan s').
Proof.
  intros s plan item. runs (program_ipvs (W := unit * View) cfg false (p_desired plan)) s.
  apply (readded_destination_stays_drained cfg false (p_desired plan) s _ web_service
    [dest end_a 1 false; dest end_b 1 false] (dest end_b 1 false) 31000 plan 1000).
  - by left.
  - agree.
  - agree.
  - vm_compute. reflexivity.
  - apply list_elem_of_further, list_elem_of_here.
  - done.
  - vm_compute. reflexivity.
  - vm_compute. reflexivity.
  - exact Hrun.
  - reflexivity.
Defined.

Lemma graceful_queue_drains_witness :
  let expired := {| pr_svc := web_service; pr_dst := dest end_b 0 false; pr_deadline := 900 |} in
  let s := state (plan_of false [end_a]) [expired] (tt, draining_view) in
  ∃ s', process_graceful_queue s = (inr tt, s') ∧ (expired ∉ gqueue s') ∧
    v_dests (kernel s') !! (svc_key web_service, rs_key (dest end_b 0 false)) = None.
Proof.
  intros expired s. runs (process_graceful_queue (W := unit * View)) s.
  apply (graceful_queue_drains s _ Hrun); [apply list_elem_of_here|vm_compute; reflexivity|by vm_compute].
Defined.

Lemma graceful_failure_forgets_queue_witness :
  let item := {| pr_svc := web_service; pr_dst := dest end_b 0 false; pr_deadline := 900 |} in
  let s := state (plan_of false [end_a]) [item; item] tt in
  ∃ s', process_graceful_queue (IpvsOps0 := blind_ipvs) s =
          (inl (SyncIpvs (IpvsErr "no such device")), s') ∧ gqueue s' = [] ∧ sync_world s' = tt.
Proof.
  intros item s.
  apply (graceful_failure_forgets_queue (IpvsOps0 := blind_ipvs) s item [item]);
    [reflexivity|vm_compute; reflexivity|reflexivity].
Defined.

Lemma sync_run_state_ok_witness :
  state_ok (sync_run cfg [Ticked; Notified] (state empty_plan [] tt)).
Proof.
  apply sync_run_state_ok. split; [by intros ???|apply NoDup_nil_2].
Defined.

Lemma reconcile_commits_witness :
  ∃ s', reconcile_inner cfg true (state empty_plan [] tt) = (inr tt, s') ∧
    ((@inr SyncError unit tt ≠ inr tt ∧ committed s' = committed (state empty_plan [] tt)) ∨
     ∃ w, let plan := make_plan (W := unit) cfg (provider_services w) in
          committed s' = (p_desired plan, p_vips plan, p_meta plan)).
Proof.
  runs (reconcile_inner cfg true) (state (W := unit) empty_plan [] tt).
  by apply (reconcile_commits cfg true (state empty_plan [] tt)).
Defined.
