(* ===== verification/SyncLoop.v ===== *)
(** * SyncLoop: the whole loop of the service proxy

    The theorems about the IPVS half of a pass, carried over to whole passes and to
    any run of the loop: the other steps of a pass leave the IPVS table alone. *)

From stdpp Require Import gmap sets list strings pretty.
From Stdlib Require Import Ascii ZArith Lia.
From S2P Require Import Prelude Text Net IpText Common Netlink Proxy ProxySync SyncFacts SyncTheorems.
From S2P Require Import PlanTheorems DrainFacts ProxyExamples.
Import TcpMss Hairpin Masquerade Firewall Dsr NodePortHc LocalIps Graceful Validation.

Local Open Scope Z_scope.
#[local] Arguments svc_key : simpl never.
#[local] Arguments rs_key : simpl never.

(** ** Computations that leave a part of the state as it is *)

Definition leaves {S G E A} (part : S → G) (m : M S E A) : Prop := ∀ s, part (m s).2 = part s.

Create HintDb leaves.

Section leaves.
Context {S G : Type} (part : S → G).

Lemma leaves_ret {E A} (a : A) : leaves part (mret a : M S E A).
Proof. done. Qed.
Lemma leaves_fail {E A} (e : E) : leaves part (mfail e : M S E A).
Proof. done. Qed.
Lemma leaves_bind {E A B} (m : M S E A) (k : A → M S E B) :
  leaves part m → (∀ a, leaves part (k a)) → leaves part (m ≫= k).
Proof.
  intros Hm Hk s. unfold mbind, M_bind. specialize (Hm s).
  destruct (m s) as [[e|a] s']; [exact Hm|]. rewrite Hk. exact Hm.
Qed.
Lemma leaves_get {E B} (k : S → M S E B) : (∀ s, leaves part (k s)) → leaves part (mget ≫= k).
Proof. intros Hk s. apply Hk. Qed.
Lemma leaves_modify {E} (f : S → S) : (∀ s, part (f s) = part s) → leaves part (mmodify f : M S E unit).
Proof. intros Hf s. apply Hf. Qed.
Lemma leaves_for {E A} (l : list A) (body : A → M S E unit) :
  (∀ x, x ∈ l → leaves part (body x)) → leaves part (mfor l body).
Proof.
  induction l as [|x l IH]; intros Hb; [apply leaves_ret|]. cbn [mfor].
  apply leaves_bind; [apply Hb; by left|]. intros _. apply IH. intros y Hy. apply Hb. by right.
Qed.
Lemma leaves_when {E} c (m : M S E unit) : leaves part m → leaves part (mwhen c m).
Proof. intros Hm. destruct c; [exact Hm|apply leaves_ret]. Qed.
Lemma leaves_map_err {E E' A} (f : E → E') (m : M S E A) : leaves part m → leaves part (mmap_err f m).
Proof. intros Hm s. unfold mmap_err. specialize (Hm s). by destruct (m s) as [[e|a] s']. Qed.

(** A computation on another state, into which the part goes. *)
Lemma leaves_zoom {T G' E A} (part' : T → G') (get : S → T) set (m : M T E A) (build : S → G' → G) :
  (∀ s, build s (part' (get s)) = part s) → (∀ x s, part (set x s) = build s (part' x)) →
  leaves part' m → leaves part (mzoom get set m).
Proof.
  intros Hget Hset Hm s. unfold mzoom. specialize (Hm (get s)). destruct (m (get s)) as [r x].
  cbn in *. by rewrite Hset, Hm.
Qed.
End leaves.

#[export] Hint Resolve leaves_ret leaves_fail leaves_bind leaves_when leaves_map_err : leaves.

(** ** An environment beside the view of its IPVS calls *)

#[export] Instance viewed_netlink `{NetlinkOps W} : NetlinkOps (W * View) := {|
  ensure_dummy_link name := beside (ensure_dummy_link name);
  addr_add name a p := beside (addr_add name a p);
  addr_del name a p := beside (addr_del name a p);
  route_replace r := beside (route_replace r);
  route_del r := beside (route_del r);
  route_list t := beside (route_list t);
|}.
#[export] Instance viewed_commands `{CommandRunner W} : CommandRunner (W * View) := {|
  run_command cmd args stdin w := let '(r, w') := run_command cmd args stdin w.1 in (r, (w', w.2));
|}.
#[export] Instance viewed_http `{HttpServers W} : HttpServers (W * View) := {|
  http_bind a := beside (http_bind a);
  http_abort p w := (http_abort p w.1, w.2);
|}.
#[export] Instance viewed_provider `{ServiceProvider W} : ServiceProvider (W * View) := {|
  provider_services w := provider_services w.1;
|}.
#[export] Instance viewed_files `{FileOps W} : FileOps (W * View) := {|
  fs_write path value := beside (fs_write path value);
|}.
#[export] Instance viewed_metrics `{MetricsOps W} : MetricsOps (W * View) := {|
  metrics_update samples n w := (metrics_update samples n w.1, w.2);
|}.
#[export] Instance viewed_heartbeat `{Heartbeat W} : Heartbeat (W * View) := {|
  services_heartbeat w := (services_heartbeat w.1, w.2);
|}.

Lemma leaves_beside {W G E A} (m : M W E A) : leaves snd (beside (G := G) m).
Proof. intros [w g]. unfold beside, noting. cbn. by destruct (m w) as [[e|a] w']. Qed.
#[export] Hint Resolve leaves_beside : leaves.

(** ** The steps of a pass around its IPVS half *)

Section loop.
Context `{IpNetLib} {W : Type}.
Context `{!IpvsOps W, !NetlinkOps W, !CommandRunner W, !HttpServers W}.
Context `{!ServiceProvider W, !Clock W, !FileOps W, !MetricsOps W, !Heartbeat W}.
Implicit Types (s : SyncState (W := W * View)) (cfg : SyncConfig (W := W * View)).

(** The handlers of iptables and of ipset do not touch the IPVS table. *)
Record quiet_handlers cfg : Prop := {
  qh_nat h : h ∈ sc_hairpin_nat cfg →
    (∀ c, leaves snd (nat_ensure_chain h.2 c)) ∧ (∀ c r, leaves snd (nat_append_unique h.2 c r)) ∧
    (∀ c, leaves snd (nat_flush_chain h.2 c)) ∧ (∀ c r, leaves snd (nat_delete h.2 c r));
  qh_mangle h : h ∈ sc_dsr_mangle cfg → ∀ c r, leaves snd (mangle_append_unique h.2 c r);
  qh_firewall h : h ∈ sc_firewall_ipt cfg →
    (∀ c, leaves snd (fw_clear_chain h.2 c)) ∧ (∀ c r, leaves snd (fw_append_unique h.2 c r)) ∧
    (∀ c r, leaves snd (fw_ensure_top h.2 c r)) ∧ (∀ c r, leaves snd (fw_delete h.2 c r));
  qh_ipset ops : sc_firewall_ipset cfg = Some ops → ∀ payload, leaves snd (fw_restore ops payload);
}.

(** What the theorems are about: what is recorded, the queue and the IPVS table. *)
Definition seen s : Committed * GracefulQueue * View := (committed s, gqueue s, kernel s).

Lemma leaves_seen {T A E} (view : T → View) get set (f : E → SyncError) (m : M T E A) :
  (∀ s, view (get s) = kernel s) →
  (∀ x s, seen (set x s) = (committed s, gqueue s, view x)) →
  leaves view m → leaves seen (mzoom get set (mmap_err f m)).
Proof.
  intros Hget Hset Hm.
  apply (leaves_zoom seen view get set _ (λ s v, (committed s, gqueue s, v))); [|done|by apply leaves_map_err].
  intros s. by rewrite Hget.
Qed.

Lemma leaves_io {A E} (wrap : E → SyncError) (m : M (W * View) E A) :
  leaves snd m → leaves seen (io wrap m).
Proof. by apply leaves_seen. Qed.

Lemma leaves_world (f : SyncState (W := W * View) → W * View) :
  (∀ s, (f s).2 = kernel s) → leaves seen (mmodify (λ s, set_sync_world (f s) s) : M _ SyncError unit).
Proof. intros Hf. apply leaves_modify. intros s. unfold seen, kernel. cbn. by rewrite Hf. Qed.

Lemma leaves_ensure_dummy name : leaves seen (io SyncNetlink (ensure_dummy_link (W := W * View) name)).
Proof. apply leaves_io, leaves_beside. Qed.

Lemma leaves_program_vips want : leaves seen (program_vips (W := W * View) want).
Proof.
  apply leaves_get. intros s. apply leaves_bind; [|intros _]; apply leaves_for; intros v _;
    apply leaves_io, leaves_beside.
Qed.

Lemma leaves_program_sloppy want : leaves seen (program_sloppy (W := W * View) want).
Proof.
  intros s. unfold program_sloppy. destruct (Bool.eqb _ _); [done|].
  pose proof (leaves_beside (G := View) (fs_write (W := W) (Sysctl.key_to_path "net.ipv4.vs.sloppy_tcp")
    (if want then "1" else "0")) (sync_world s)) as Hw.
  unfold sysctl_write. change (fs_write (W := W * View)) with (λ p v, beside (G := View) (fs_write (W := W) p v)).
  cbn beta. destruct (beside _ _) as [[e|u] w]; unfold seen, kernel; cbn in *; by rewrite Hw.
Qed.

Lemma leaves_update_metrics cfg : leaves seen (update_metrics cfg).
Proof.
  unfold update_metrics. destruct (negb _); [apply leaves_ret|].
  apply leaves_bind; [apply leaves_io, leaves_beside|]. intros stats. by apply leaves_world.
Qed.

Lemma leaves_dsr_io {A E} (wrap : E → DsrError) (m : M (W * View) E A) :
  leaves snd m → leaves (λ rw : FwMarkRegistry * (W * View), rw.2.2) (dsr_io wrap m).
Proof.
  intros Hm. apply (leaves_zoom _ (snd : W * View → View) _ _ _ (λ _ v, v)); [done|done|by apply leaves_map_err].
Qed.

Lemma leaves_configure (mangle : MangleOps (W * View)) vips proto port endpoints scheduler persistent :
  (∀ c r, leaves snd (mangle_append_unique mangle c r)) →
  leaves (λ rw : FwMarkRegistry * (W * View), rw.2.2)
    (configure_dsr_host mangle vips proto port endpoints scheduler persistent).
Proof.
  intros Hm. induction vips as [|vip vips IH]; [apply leaves_ret|]. cbn [configure_dsr_host].
  apply leaves_bind; [|intros mark; apply leaves_bind; [exact IH|intros marks; apply leaves_ret]].
  unfold configure_dsr_vip. apply leaves_bind; [|intros mark].
  { intros rw. unfold reg. by destruct (assign _ _ _ rw.1). }
  repeat (apply leaves_bind; [|intros _]); try apply leaves_ret.
  - apply leaves_dsr_io, leaves_beside.
  - apply leaves_for. intros ep _. apply leaves_dsr_io, leaves_beside.
  - apply leaves_dsr_io, Hm.
  - apply leaves_dsr_io, Hm.
Qed.

Lemma leaves_dsr cfg jobs : quiet_handlers cfg → leaves seen (process_dsr_jobs cfg jobs).
Proof.
  intros Hq. unfold process_dsr_jobs.
  destruct (sc_dsr_mangle cfg) as [|h0 hs] eqn:Hcfg; [apply leaves_ret|]. destruct jobs; [apply leaves_ret|].
  apply leaves_for. intros job _. apply leaves_for. intros [v6 mangle] Hh. rewrite <-Hcfg in Hh.
  pose proof (qh_mangle cfg Hq _ Hh) as Hm. cbn [snd] in Hm. unfold process_dsr_job.
  destruct (filter _ _); [apply leaves_ret|]. apply leaves_bind.
  - apply (leaves_seen (λ rw : FwMarkRegistry * (W * View), rw.2.2)); [done|done|].
    by apply leaves_configure.
  - intros _. apply leaves_for. intros vip _. apply leaves_io, Hm.
Qed.

Lemma leaves_hairpin cfg : quiet_handlers cfg → leaves seen (sync_hairpin_all cfg).
Proof.
  intros Hq. unfold sync_hairpin_all. destruct (sc_hairpin_nat cfg) as [|h0 hs] eqn:Hcfg; [apply leaves_ret|].
  apply leaves_get. intros s. apply leaves_for. intros h Hh. rewrite <-Hcfg in Hh.
  destruct (qh_nat cfg Hq h Hh) as (Hc & Ha & Hf & _). apply leaves_io. unfold sync_hairpin.
  repeat (apply leaves_bind; [auto|intros _]). apply leaves_for. auto.
Qed.

Lemma leaves_masquerade cfg : quiet_handlers cfg → leaves seen (sync_masquerade cfg).
Proof.
  intros Hq. unfold sync_masquerade. destruct (sc_masquerade cfg) as [mq|]; [|apply leaves_ret].
  apply leaves_for. intros h Hh. destruct (qh_nat cfg Hq h Hh) as (_ & Ha & _ & Hd).
  destruct (List.find _ _) as [[v6 primary]|]; [|apply leaves_ret]. apply leaves_io.
  unfold sync_masquerade_rules. apply leaves_bind; [destruct (mq_all mq); auto|].
  intros _. apply leaves_for. auto.
Qed.

Lemma leaves_nphc (desired : Counts) :
  leaves (λ s : HcState (W := W * View), s.2.2) (nphc_sync desired).
Proof.
  unfold nphc_sync. apply leaves_bind; [by apply leaves_modify|intros _]. apply leaves_get. intros s.
  apply leaves_bind; [|intros _]; apply leaves_for; intros p _.
  - by apply leaves_modify.
  - unfold start_server. apply leaves_get. intros t. destruct (bool_decide _); [apply leaves_ret|].
    apply leaves_bind; [|intros _; by apply leaves_modify].
    apply (leaves_zoom _ (snd : W * View → View) _ _ _ (λ _ v, v)); [done|done|apply leaves_beside].
Qed.

Lemma leaves_healthchecks : leaves seen (sync_nodeport_healthchecks (W := W * View)).
Proof.
  apply leaves_get. intros s. destruct (nphc s) as [hc|]; [|apply leaves_ret].
  apply (leaves_seen (λ s : HcState (W := W * View), s.2.2)); [done|done|apply leaves_nphc].
Qed.

Lemma local_ips_view (w : W * View) : (all_local_ips w).2.2 = w.2.
Proof.
  unfold all_local_ips. cbn. destruct (run_command _ _ _ w.1) as [[e|[[ok out] err]] w']; [done|].
  by destruct ok.
Qed.

Lemma leaves_firewall cfg : quiet_handlers cfg → leaves seen (sync_firewall cfg).
Proof.
  intros Hq. unfold sync_firewall. destruct (sc_firewall_ipt cfg) as [|h0 hs] eqn:Hcfg; [apply leaves_ret|].
  destruct (sc_firewall_ipset cfg) as [ops|] eqn:Hset; [|apply leaves_ret]. rewrite <-Hcfg.
  intros s. unfold mbind at 1, M_bind, mget. pose proof (local_ips_view (sync_world s)) as Hlocal.
  destruct (all_local_ips (sync_world s)) as [local w]. cbn in Hlocal.
  enough (leaves seen (mfor (sc_firewall_ipt cfg) (λ h : bool * FwIptables (W * View),
      io SyncFirewall (sync_firewall_sets ops local
        ((λ x, (vs_addr x.1, vs_protocol x.1, vs_port x.1)) <$> btree_values (applied s)) h.1));;
    (if firewall_setup_done s then mret tt
     else mfor (sc_firewall_ipt cfg) (λ h : bool * FwIptables (W * View),
            io SyncFirewall (setup_firewall h.2 h.1 (sc_firewall_permit_all cfg)));;
          mmodify set_setup_done))) as Hrest.
  { etrans; [apply Hrest|]. unfold seen, kernel. cbn. by rewrite Hlocal. }
  apply leaves_bind; [|intros _].
  - apply leaves_for. intros h _. apply leaves_io, (qh_ipset cfg Hq ops Hset).
  - destruct (firewall_setup_done s); [apply leaves_ret|]. apply leaves_bind; [|intros _; by apply leaves_modify].
    apply leaves_for. intros h Hh. destruct (qh_firewall cfg Hq h Hh) as (Hc & Ha & Ht & Hd).
    apply leaves_io. unfold setup_firewall. apply leaves_bind; [auto|intros _].
    destruct (sc_firewall_permit_all cfg); [auto|]. apply leaves_bind; [by apply leaves_for; auto|intros _].
    repeat (apply leaves_bind; [auto|intros _]). auto.
Qed.

Lemma leaves_after_commit cfg jobs :
  quiet_handlers cfg →
  leaves seen (update_metrics cfg;; process_dsr_jobs cfg jobs;; sync_hairpin_all cfg;;
    sync_masquerade cfg;; sync_nodeport_healthchecks;; sync_firewall cfg).
Proof.
  intros Hq. repeat (apply leaves_bind; [|intros _]).
  - apply leaves_update_metrics.
  - by apply leaves_dsr.
  - by apply leaves_hairpin.
  - by apply leaves_masquerade.
  - apply leaves_healthchecks.
  - by apply leaves_firewall.
Qed.

(** ** A whole pass *)

Lemma seen_inv s s' :
  seen s' = seen s → committed s' = committed s ∧ gqueue s' = gqueue s ∧ kernel s' = kernel s.
Proof. intros Heq. split_and!; [exact (f_equal (fst ∘ fst) Heq)|exact (f_equal (snd ∘ fst) Heq)|exact (f_equal snd Heq)]. Qed.

(** What is recorded and what the kernel has, on the way to the desired services. *)
Definition reached cfg (A D : Programmed) s : Prop :=
  (applied s = A ∧ midway (sc_graceful cfg) A D (kernel s)) ∨
  (applied s = D ∧ settled (sc_graceful cfg) A D (kernel s)).

Lemma seen_simulates cfg A D kept now s s' u :
  seen s' = seen s → simulates cfg A D kept now s u → simulates cfg A D kept now s' u.
Proof.
  intros ([= Ha _ _] & Hq & Hk)%seen_inv [Ha' Hd Hst Hqd].
  split; rewrite ?Ha, ?Hq, ?Hk; done.
Qed.

Lemma simulates_weaken cfg A D (kept kept' : Prop) now s u :
  (kept' → kept) → simulates cfg A D kept now s u → simulates cfg A D kept' now s u.
Proof. intros Hk [Ha Hd Hst Hq]. split; auto. Qed.

Lemma between_same D v : between D D v → shows D v.
Proof. intros [Hs Hd]. split; [intros k; by destruct (Hs k)|intros k b; by destruct (Hd k b)]. Qed.

Definition full_of (wake : Wake) : bool := match wake with Ticked => true | Notified => false end.

Section steady.
Variables (cfg : SyncConfig (W := W * View)) (services : list (ServiceInfo * list EndpointInfo)).
Hypothesis Hquiet : quiet_handlers cfg.
Hypothesis Hstore : ∀ w : W, provider_services w = services.
Variable A : Programmed.
Let desired : Programmed := p_desired (make_plan cfg services).

(** Destinations that stay keep their parameters, where full resyncs need it. *)
Definition parameters_kept (full : bool) (now : Programmed) : Prop :=
  full = true → ∀ k b o d, dest_of now k b = Some o → dest_of desired k b = Some d → o = d.

(** A state of the loop: before the first pass that committed, and after it. *)
Inductive stage (kept : Prop) s : Prop :=
| stage_before u : simulates cfg A desired kept A s u → between A desired u → stage kept s
| stage_after u : simulates cfg A desired kept desired s u → shows desired u → stage kept s.

Definition arrived (kept : Prop) s : Prop := ∃ u, simulates cfg A desired kept desired s u ∧ shows desired u.

(** One pass from either stage. *)
Lemma pass_reaches kept now full s u r s' :
  programmed_ok now → now = A ∨ now = desired → parameters_kept full now →
  simulates cfg A desired kept now s u → between now desired u → reconcile_inner cfg full s = (r, s') →
  let kept' := kept ∧ r = inr tt in
  (r ≠ inr tt ∧ ∃ u', simulates cfg A desired kept' now s' u' ∧ between now desired u') ∨ arrived kept' s'.
Proof.
  intros Hnow Heither Hkept Hsim Hu. unfold reconcile_inner.
  assert (∀ (e : SyncError) t u', simulates cfg A desired kept now t u' → between now desired u' →
    inl e ≠ inr (A := SyncError) tt ∧ ∃ u', simulates cfg A desired (kept ∧ inl e = inr (A := SyncError) tt) now t u' ∧
      between now desired u') as Hstop.
  { intros e t u' Ht Hb. split; [done|]. exists u'. split; [|done]. eapply simulates_weaken; [|done]. by intros [? ?]. }
  unfold mbind at 1, M_bind. pose proof (leaves_ensure_dummy DUMMY_IF s) as H1'.
  destruct (io SyncNetlink _ s) as [[e|[]] s1]; cbn [snd] in H1'; apply (seen_simulates _ _ _ _ _ _ _ _ H1') in Hsim.
  { intros [= <- <-]. left. by eapply Hstop. }
  unfold mbind at 1, M_bind, mget. cbn beta iota. change (provider_services (sync_world s1)) with
    (provider_services (sync_world s1).1). rewrite Hstore. set (plan := make_plan cfg services).
  unfold mbind at 1, M_bind. pose proof (leaves_program_sloppy (p_sloppy plan) s1) as H2'.
  destruct (program_sloppy _ s1) as [[e|[]] s2]; cbn [snd] in H2'; apply (seen_simulates _ _ _ _ _ _ _ _ H2') in Hsim.
  { intros [= <- <-]. left. by eapply Hstop. }
  unfold mbind at 1, M_bind. destruct (program_ipvs cfg full (p_desired plan) s2) as [r3 s3] eqn:Hrun.
  destruct (program_ipvs_drains cfg A desired kept now full s2 r3 s3 u) as (u3 & Hsim3 & Hb3 & Hs3); try done.
  { by apply plan_programmed_ok. }
  destruct r3 as [e|[]].
  { intros [= <- <-]. left. by eapply Hstop. }
  specialize (Hs3 eq_refl).
  unfold mbind at 1, M_bind. pose proof (leaves_program_vips (p_vips plan) s3) as H4'.
  destruct (program_vips _ s3) as [[e|[]] s4]; cbn [snd] in H4'; apply (seen_simulates _ _ _ _ _ _ _ _ H4') in Hsim3.
  { intros [= <- <-]. left. by eapply Hstop. }
  unfold mbind at 1, M_bind, mmodify. cbn beta iota. set (s5 := set_programmed plan s4).
  assert (simulates cfg A desired kept desired s5 u3) as Hsim5 by (destruct Hsim3 as [_ Hd Hst Hq]; by split).
  unfold mbind at 1, M_bind. destruct (process_graceful_queue s5) as [r6 s6] eqn:Hqueue.
  pose proof (process_queue_simulates cfg A desired kept s5 r6 s6 u3 Hs3 Hsim5 Hqueue) as Hsim6.
  destruct r6 as [e|[]].
  { intros [= <- <-]. right. exists u3. split; [|done]. eapply simulates_weaken; [|done]. by intros [? ?]. }
  intros Hlast. right. exists u3. split; [|done].
  apply (seen_simulates _ _ _ _ _ s6); [|eapply simulates_weaken; [|done]; by intros [? _]].
  etrans; [exact (f_equal (λ x, seen x.2) (eq_sym Hlast))|exact (leaves_after_commit cfg (p_jobs plan) Hquiet s6)].
Qed.

(** ** The loop *)

Definition after_heartbeat s : SyncState (W := W * View) :=
  set_sync_world (services_heartbeat (sync_world s)) s.

Lemma run_step_is s wake : run_step cfg s wake = after_heartbeat (reconcile_inner cfg (full_of wake) s).2.
Proof. unfold run_step, full_of. by destruct (reconcile_inner _ _ s). Qed.

Lemma sync_run_app l1 l2 s : sync_run cfg (l1 ++ l2) s = sync_run cfg l2 (sync_run cfg l1 s).
Proof. apply foldl_app. Qed.

(** The pass of a wake succeeds. *)
Definition passes s (wake : Wake) : Prop := (reconcile_inner cfg (full_of wake) s).1 = inr tt.

Fixpoint all_pass s (wakes : list Wake) : Prop :=
  match wakes with
  | [] => True
  | wake :: wakes => passes s wake ∧ all_pass (run_step cfg s wake) wakes
  end.

Lemma step_arrived kept s wake :
  arrived kept s → arrived (kept ∧ passes s wake) (run_step cfg s wake).
Proof.
  intros (u & Hsim & Hu). rewrite run_step_is. unfold passes.
  destruct (reconcile_inner cfg (full_of wake) s) as [r s1] eqn:Hrun. cbn [fst snd].
  enough (arrived (kept ∧ r = inr tt) s1) as (u' & [? ? ? ?] & ?) by (exists u'; by split).
  destruct (pass_reaches kept desired (full_of wake) s u r s1) as [(_ & u' & Hsim' & Hb)|Hdone]; try done.
  - by apply plan_programmed_ok.
  - by right.
  - intros _ k b o d Ho Hd. congruence.
  - by apply shows_between.
  - exists u'. split; [done|by apply between_same].
Qed.

Lemma step_stage kept s wake :
  programmed_ok A → parameters_kept (full_of wake) A → stage kept s →
  let kept' := kept ∧ passes s wake in
  stage kept' (run_step cfg s wake) ∧ (passes s wake → arrived kept' (run_step cfg s wake)).
Proof.
  intros HA Hkept [u Hsim Hu|u Hsim Hu].
  - rewrite run_step_is. unfold passes.
    destruct (reconcile_inner cfg (full_of wake) s) as [r s1] eqn:Hrun. cbn [fst snd].
    destruct (pass_reaches kept A (full_of wake) s u r s1) as [(Hr & u' & [????] & Hb)|(u' & [????] & Hs')]; try done.
    + by left.
    + split; [|done]. by apply (stage_before _ _ u').
    + split; [by apply (stage_after _ _ u')|]. intros _. exists u'. by split.
  - pose proof (step_arrived kept s wake (ex_intro _ u (conj Hsim Hu))) as Hdone.
    split; [|done]. destruct Hdone as (u' & Hsim' & Hu'). by apply (stage_after _ _ u').
Qed.

Lemma run_arrived kept s wakes :
  arrived kept s → arrived (kept ∧ all_pass s wakes) (sync_run cfg wakes s).
Proof.
  revert kept s. induction wakes as [|wake wakes IH]; intros kept s Hs.
  - destruct Hs as (u & Hsim & Hu). exists u. split; [|done]. eapply simulates_weaken; [|done]. by intros [? _].
  - pose proof (IH _ _ (step_arrived kept s wake Hs)) as (u & Hsim & Hu). exists u. split; [|done].
    eapply simulates_weaken; [|exact Hsim]. cbn. tauto.
Qed.

Lemma run_stage kept s wakes :
  programmed_ok A → (∀ wake, wake ∈ wakes → parameters_kept (full_of wake) A) → stage kept s →
  stage (kept ∧ all_pass s wakes) (sync_run cfg wakes s).
Proof.
  intros HA. revert kept s. induction wakes as [|wake wakes IH]; intros kept s Hkept Hs.
  - destruct Hs as [u Hsim Hu|u Hsim Hu]; [apply (stage_before _ _ u)|apply (stage_after _ _ u)]; try done;
      (eapply simulates_weaken; [|exact Hsim]; by intros [? _]).
  - destruct (step_stage kept s wake HA) as [Hs1 _]; [apply Hkept; by left|done|].
    pose proof (IH _ _ (λ w Hw, Hkept w (list_elem_of_further _ _ _ Hw)) Hs1) as Hrun.
    destruct Hrun as [u Hsim Hu|u Hsim Hu]; [apply (stage_before _ _ u)|apply (stage_after _ _ u)]; try done;
      (eapply simulates_weaken; [|exact Hsim]; cbn; tauto).
Qed.

Lemma stage_reached kept s : stage kept s → reached cfg A desired s.
Proof.
  intros [u [Ha Hd _ _] Hu|u [Ha Hd _ _] Hu]; [left|right]; (split; [done|]).
  - by eapply drains_midway.
  - by eapply drains_settled.
Qed.

(** Any run of the loop. *)
Lemma run_outcome wakes s :
  applied s = A → gqueue s = [] → programmed_ok A → between A desired (kernel s) →
  (∀ wake, wake ∈ wakes → parameters_kept (full_of wake) A) →
  let s' := sync_run cfg wakes s in
  reached cfg A desired s' ∧
  ((∃ before wake after, wakes = before ++ wake :: after ∧ passes (sync_run cfg before s) wake) →
   applied s' = desired ∧ settled (sc_graceful cfg) A desired (kernel s')) ∧
  (wakes ≠ [] → all_pass s wakes →
   ∀ k b, dest_of desired k b = None → is_Some (v_dests (kernel s') !! (k, b)) → queued (gqueue s') k b).
Proof.
  intros Ha Hq HA Hv Hkept s'.
  assert (stage True s) as Hstart.
  { apply (stage_before _ _ (kernel s)); [|done].
    split; [done|apply drains_refl|rewrite Hq; apply Forall_nil_2|intros _; apply all_queued_refl]. }
  split_and!.
  - eapply stage_reached, run_stage; done.
  - intros (before & wake & after & Heq & Hpass). unfold s'. rewrite Heq, sync_run_app.
    assert (∀ w, w ∈ before ++ [wake] → parameters_kept (full_of w) A) as Hkept1.
    { intros w Hw. apply Hkept. rewrite Heq, cons_middle, app_assoc, elem_of_app. by left. }
    pose proof (run_stage True s before HA (λ w Hw, Hkept1 w (proj2 (elem_of_app _ _ _) (or_introl Hw))) Hstart) as Hs1.
    destruct (step_stage (True ∧ all_pass s before) (sync_run cfg before s) wake HA) as [_ Hdone];
      [apply Hkept1, elem_of_app; right; by left|exact Hs1|]. specialize (Hdone Hpass).
    destruct (run_arrived _ _ after Hdone) as (u & [Ha' Hd _ _] & Hu).
    split; [exact Ha'|]. by eapply drains_settled.
  - intros Hne Hall k b Hno Hsome. destruct wakes as [|wake wakes]; [done|]. destruct Hall as [Hpass Hall].
    destruct (step_stage True s wake HA) as [_ Hdone]; [apply Hkept; by left|done|]. specialize (Hdone Hpass).
    destruct (run_arrived _ _ wakes Hdone) as (u & [_ _ _ Hqueued] & Hu).
    eapply all_queued_beyond; [exact Hu|by apply Hqueued|done|exact Hsome].
Qed.

(** C10: The loop converges, from an empty queue and a kernel that has every service
    and destination as it is recorded or as it is desired, while the stores hold the
    same services; where full resyncs come in, the destinations that stay must keep
    their parameters ([full_resync_keeps_old_parameters] shows one that does not).
    Whatever fails, every virtual service and destination in the kernel is as it was
    recorded at the start or as desired, or is drained; from the first pass that
    succeeds on, the kernel has exactly the desired ones, apart from those it
    drains, through all later passes, failed ones included; and as long as every
    pass succeeds, what the kernel has beyond the desired destinations waits in the
    queue.  Without graceful termination nothing is drained.  The kernel is the table
    that the calls which report success describe ([effect]). *)
Theorem sync_run_converges wakes s :
  applied s = A → gqueue s = [] → programmed_ok A → between A desired (kernel s) →
  (∀ wake, wake ∈ wakes → parameters_kept (full_of wake) A) →
  let s' := sync_run cfg wakes s in
  reached cfg A desired s' ∧
  ((∃ before wake after, wakes = before ++ wake :: after ∧ passes (sync_run cfg before s) wake) →
   applied s' = desired ∧ settled (sc_graceful cfg) A desired (kernel s') ∧
   (sc_graceful cfg = false → shows desired (kernel s'))) ∧
  (wakes ≠ [] → all_pass s wakes →
   ∀ k b, dest_of desired k b = None → is_Some (v_dests (kernel s') !! (k, b)) → queued (gqueue s') k b).
Proof.
  intros Ha Hq HA Hv Hkept s'. destruct (run_outcome wakes s) as (Hr & Hdone & Hqueue); try done.
  split_and!; [done| |done]. intros Hpass. destruct (Hdone Hpass) as [Ha' Hs].
  split_and!; [done..|]. intros Hg. eapply settled_shows; [|exact Hs]. by left.
Qed.
End steady.

(** ** What no pass removes *)

Section orphans.
Variables (k : string) (o : option IpvsService).

(** The kernel has what it has under the key. *)
Definition service_at s : Prop := v_services (kernel s) !! k = o.

Definition elsewhere (c : IpvsCall) : Prop :=
  match c with AddService svc | EditService svc | DelService svc => svc_key svc ≠ k | _ => True end.

Lemma keeps_elsewhere c : elsewhere c → keeps service_at (io_call c).
Proof.
  intros Hc s Hs. unfold io_call, io, mzoom, mmap_err. rewrite run_call_viewed. unfold viewing, noting.
  destruct (run_call c (sync_world s).1) as [[e|[]] w]; [exact Hs|].
  unfold service_at, kernel. cbn [snd sync_world set_sync_world].
  rewrite <-Hs. unfold kernel. destruct c as [svc|svc|svc|svc d|svc d|svc d|a p]; cbn in Hc |- *; try done.
  - destruct (v_services _ !! svc_key svc); [done|]. by rewrite lookup_insert_ne.
  - by rewrite lookup_alter_ne.
  - by rewrite lookup_delete_ne.
Qed.

Lemma keeps_flush_at svc : keeps service_at (flush_udp svc).
Proof. apply keeps_when, (keeps_elsewhere (FlushUdp _ _)). done. Qed.

(** The IPVS half of a pass, graceful or not, leaves alone what was neither
    programmed nor is desired. *)
Lemma keeps_orphan (cfg : SyncConfig (W := W * View)) full desired s :
  programmed_ok (applied s) → programmed_ok desired → applied s !! k = None → desired !! k = None →
  service_at s → service_at (program_ipvs cfg full desired s).2.
Proof.
  intros Hprev Hdes Hno Hno' Hs. unfold program_ipvs. unfold mbind at 1, M_bind, mget.
  assert (∀ m kk svc ds, programmed_ok m → m !! k = None → m !! kk = Some (svc, ds) → svc_key svc ≠ k) as Hkey.
  { intros m kk svc ds Hok Hn Hm Heq. destruct (Hok kk svc ds Hm) as [-> _]. congruence. }
  refine (keeps_bind service_at _ _ _ _ s Hs); [|intros _; refine (keeps_bind service_at _ _ _ _); [|intros _]].
  - apply keeps_for_in. intros [kk [svc ds]] Hin%elem_of_btree_iter.
    pose proof (Hkey desired kk svc ds Hdes Hno' Hin) as Hne. unfold program_service.
    apply keeps_bind.
    + destruct (applied s !! kk) as [[p old]|]; [|by apply (keeps_elsewhere (AddService svc))].
      case_decide; [apply keeps_when|]; [by apply (keeps_elsewhere (AddService svc))|by apply (keeps_elsewhere (EditService svc))].
    + intros _. apply keeps_for. intros d. unfold program_dest. destruct full.
      { by apply (keeps_elsewhere (AddDest svc d)). }
      destruct (List.find _ _); [|by apply (keeps_elsewhere (AddDest svc d))].
      case_decide; [apply keeps_ret|by apply (keeps_elsewhere (UpdateDest svc d))].
  - apply keeps_for. intros [svc d]. unfold remove_destination. apply keeps_bind; [|intros _; apply keeps_flush_at].
    destruct (sc_graceful cfg); [|by apply (keeps_elsewhere (DelDest svc d))].
    apply keeps_bind; [by apply (keeps_elsewhere (UpdateDest svc (drained d)))|]. by intros _ t Ht.
  - apply keeps_for_in. intros svc Hin. unfold removed_services in Hin.
    apply list_elem_of_fmap in Hin as ([kk [svc' ds]] & -> & [_ Hin%elem_of_btree_iter]%list_elem_of_filter).
    unfold remove_service. apply keeps_bind; [|intros _; apply keeps_flush_at].
    apply (keeps_elsewhere (DelService _)). cbn. exact (Hkey (applied s) kk svc' ds Hprev Hno Hin).
Qed.

(** The rest of a pass. *)
Definition orphaned s : Prop := programmed_ok (applied s) ∧ applied s !! k = None ∧ service_at s.

Lemma keeps_seen {A} (m : M (SyncState (W := W * View)) SyncError A) : leaves seen m → keeps orphaned m.
Proof.
  intros Hm s (Hok & Hno & Hs). specialize (Hm s). apply seen_inv in Hm as (Hc & _ & Hk).
  unfold orphaned, service_at. rewrite Hk.
  assert (applied (m s).2 = applied s) as -> by exact (f_equal (fst ∘ fst) Hc). done.
Qed.

Lemma orphaned_ipvs cfg full desired :
  programmed_ok desired → desired !! k = None → keeps orphaned (program_ipvs cfg full desired).
Proof.
  intros Hdes Hno' s (Hok & Hno & Hs).
  pose proof (keeps_orphan cfg full desired s Hok Hdes Hno Hno' Hs) as Hkeep.
  pose proof (commit_program_ipvs (λ c, c.1.1 = applied s) cfg full desired s eq_refl) as Hsame.
  assert (applied (program_ipvs cfg full desired s).2 = applied s) as Ha by exact Hsame.
  unfold orphaned. by rewrite Ha.
Qed.

Lemma orphaned_graceful : keeps orphaned process_graceful_queue.
Proof.
  apply keeps_get. intros s Hs. destruct (gqueue s) as [|p0 rest]; [done|].
  refine (keeps_bind orphaned _ _ _ _ s Hs); [by intros t Ht|intros _]. apply keeps_for. intros p.
  unfold process_pending. apply keeps_get. intros t Ht. destruct (readded _ _); [done|].
  refine (keeps_bind orphaned _ _ _ _ t Ht); [apply keeps_seen, leaves_io, leaves_beside|].
  intros stats. destruct (_ || _); [|by intros u Hu].
  intros u (Hok & Hno & Hu).
  pose proof (keeps_elsewhere (DelDest (pr_svc p) (pr_dst p)) I u Hu) as Hkeep.
  unfold io_call in Hkeep. cbn [run_call] in Hkeep.
  unfold orphaned. split_and!; [| |exact Hkeep]; unfold io, mzoom; by destruct (mmap_err _ _ _) as [r w].
Qed.

Lemma orphaned_pass cfg full :
  quiet_handlers cfg →
  (∀ w : W, p_desired (make_plan cfg (provider_services w)) !! k = None) →
  keeps orphaned (reconcile_inner cfg full).
Proof.
  intros Hq Hstore. unfold reconcile_inner. apply keeps_bind; [apply keeps_seen, leaves_ensure_dummy|intros _].
  apply keeps_get. intros s Hs. pose proof (Hstore (sync_world s).1) as Hno.
  change (provider_services (sync_world s).1) with (provider_services (sync_world s)) in Hno.
  assert (programmed_ok (p_desired (make_plan cfg (provider_services (sync_world s))))) as Hdes
    by apply plan_programmed_ok.
  refine (keeps_bind orphaned _ _ _ _ s Hs); [apply keeps_seen, leaves_program_sloppy|intros _].
  apply keeps_bind; [by apply orphaned_ipvs|intros _].
  apply keeps_bind; [apply keeps_seen, leaves_program_vips|intros _].
  apply keeps_bind; [by intros t (_ & _ & Ht)|intros _].
  apply keeps_bind; [apply orphaned_graceful|intros _]. by apply keeps_seen, leaves_after_commit.
Qed.
End orphans.

(** C39: Passes compare what is desired with what this process has programmed, and
    never with the kernel: a virtual service that is neither stays in the kernel
    through any run of the loop, full resyncs included, such as one left by the
    process before a restart or by a pass that failed. *)
Theorem orphaned_service_stays cfg wakes s k :
  quiet_handlers cfg → programmed_ok (applied s) → applied s !! k = None →
  (∀ w : W, p_desired (make_plan cfg (provider_services w)) !! k = None) →
  v_services (kernel (sync_run cfg wakes s)) !! k = v_services (kernel s) !! k.
Proof.
  intros Hq Hok Hno Hstore.
  enough (orphaned k (v_services (kernel s) !! k) (sync_run cfg wakes s)) as (_ & _ & Hs) by exact Hs.
  assert (orphaned k (v_services (kernel s) !! k) s) as Hs by done. revert Hs.
  generalize (v_services (kernel s) !! k) as o. intros o. revert s Hok Hno.
  induction wakes as [|wake wakes IH]; intros s Hok Hno Hs; [done|]. cbn. rewrite run_step_is.
  pose proof (orphaned_pass k o cfg (full_of wake) Hq Hstore s Hs) as Hs1. apply IH; apply Hs1.
Qed.
End loop.

(** ** Concrete runs *)

Module Runs.
Local Existing Instance ref_net_lib.
Local Existing Instances ok_ipvs ok_netlink ok_commands ok_http ok_clock ok_files ok_metrics ok_heartbeat.

Lemma no_handlers enabled period :
  quiet_handlers (with_graceful enabled period (cfg (W := unit * View))).
Proof. split; [by intros h ?%elem_of_nil..|done]. Qed.

(** One of two endpoints goes away, with graceful termination: it is drained, and
    waits in the queue. *)
Definition one_end : ServiceProvider unit := {| provider_services _ := [(web false, [end_a])] |}.

Lemma sync_run_converges_witness :
  let source := one_end in
  let cfg := with_graceful true 30000 (cfg (W := unit * View)) in
  let before := plan_of false [end_a; end_b] in
  let desired := p_desired (make_plan cfg [(web false, [end_a])]) in
  let s := sync_run cfg [Notified; Notified] (state before [] (tt, view_of before)) in
  settled true (p_desired before) desired (kernel s) ∧
  v_dests (kernel s) !! (svc_key web_service, rs_key (dest end_b 1 false)) = Some (dest end_b 0 false) ∧
  queued (gqueue s) (svc_key web_service) (rs_key (dest end_b 1 false)).
Proof.
  intros source cfg before desired s.
  assert (v_dests (kernel s) !! (svc_key web_service, rs_key (dest end_b 1 false)) = Some (dest end_b 0 false))
    as Hdrained by (vm_compute; reflexivity).
  destruct (sync_run_converges (W := unit) cfg [(web false, [end_a])]) with (A := p_desired before)
    (wakes := [Notified; Notified]) (s := state before [] (tt, view_of before)) as (_ & Hdone & Hqueue).
  - apply no_handlers.
  - done.
  - reflexivity.
  - reflexivity.
  - agree.
  - apply shows_between, view_of_shows. apply (bool_decide_unpack _). vm_compute. exact I.
  - intros wake Hwake Hfull. apply elem_of_cons in Hwake as [->|Hwake]; [done|].
    apply list_elem_of_singleton in Hwake as ->. done.
  - split_and!; [|exact Hdrained|].
    + apply Hdone. exists [], Notified, [Notified]. split; [done|]. vm_compute. reflexivity.
    + apply Hqueue; [done| | |exists (dest end_b 0 false); exact Hdrained].
      * split; [|split; [|done]]; vm_compute; reflexivity.
      * vm_compute. reflexivity.
Defined.

(** The agent restarts, and the service was deleted meanwhile. *)
Definition nothing_served : ServiceProvider unit := {| provider_services _ := [] |}.

Lemma orphaned_service_stays_witness :
  let source := nothing_served in
  let left_over := view_of (plan_of false [end_a; end_b]) in
  let restarted : SyncState (W := unit * View) := state empty_plan [] (tt, left_over) in
  let k := svc_key (virtual_service (web false) vip 80) in
  v_services (kernel (sync_run cfg [Ticked; Notified; Ticked] restarted)) !! k =
    Some (virtual_service (web false) vip 80).
Proof.
  intros source left_over restarted k.
  etrans; [apply (orphaned_service_stays (W := unit) cfg [Ticked; Notified; Ticked] restarted k)|vm_compute; reflexivity].
  - exact (no_handlers false 30000).
  - by intros ???.
  - reflexivity.
  - intros w. reflexivity.
Defined.
End Runs.
