(* ===== verification/Genetlink.v ===== *)
(** * Genetlink: IPVS over generic netlink ([crates/proxy/src/genetlink.rs])

    The byte encoding of services, destinations and requests, the socket
    conversation of [Genl], and [SystemIpvs] of [ipvs.rs], which tries the socket
    and falls back to the [ipvsadm] command.  The byte order of the machine is
    [ne_big]; the socket calls are [NetlinkSockets], and what netlink(7) says
    about them is [NetlinkLaws]. *)

From stdpp Require Import gmap sets list strings pretty.
From Stdlib Require Import Ascii ZArith Lia.
From S2P Require Import Prelude Text Net Netlink Proxy.

Local Open Scope Z_scope.

(** ** Native byte order *)

Class Endian := { ne_big : bool }.

Section ne.
Context `{!Endian}.

(** [to_ne_bytes] of an [n]-byte integer, [from_ne_bytes], [&l[i..i + n]] *)
Definition ne_bytes (n : nat) (v : Z) : list Z :=
  if ne_big then be_digits 256 n v else le_digits 256 n v.
Definition from_ne (l : list Z) : Z := if ne_big then be_value 256 l else le_value 256 l.
End ne.

Definition slice (l : list Z) (i n : nat) : list Z := take n (drop i l).

(** [v as i32] of a 32-bit value *)
Definition as_i32 (v : Z) : Z := (v + 2 ^ 31) `mod` 2 ^ 32 - 2 ^ 31.

(** ** Constants *)

Definition GENL_ID_CTRL : Z := 16.
Definition CTRL_CMD_GETFAMILY : Z := 3.
Definition CTRL_ATTR_FAMILY_ID : Z := 1.
Definition CTRL_ATTR_FAMILY_NAME : Z := 2.
Definition NLM_F_REQUEST : Z := 1.
Definition NLM_F_ACK : Z := 4.
Definition NLMSG_ERROR : Z := 2.
Definition IPVS_CMD_NEW_SERVICE : Z := 1.
Definition IPVS_CMD_SET_SERVICE : Z := 2.
Definition IPVS_CMD_DEL_SERVICE : Z := 3.
Definition IPVS_CMD_NEW_DEST : Z := 5.
Definition IPVS_CMD_DEL_DEST : Z := 7.
Definition IPVS_CMD_ATTR_SERVICE : Z := 1.
Definition IPVS_CMD_ATTR_DEST : Z := 2.
Definition SVC_ATTR_AF : Z := 1.
Definition SVC_ATTR_PROTOCOL : Z := 2.
Definition SVC_ATTR_ADDRESS : Z := 3.
Definition SVC_ATTR_PORT : Z := 4.
Definition SVC_ATTR_FWMARK : Z := 5.
Definition SVC_ATTR_SCHED_NAME : Z := 6.
Definition SVC_ATTR_FLAGS : Z := 7.
Definition SVC_ATTR_TIMEOUT : Z := 8.
Definition SVC_ATTR_NETMASK : Z := 9.
Definition DEST_ATTR_ADDRESS : Z := 1.
Definition DEST_ATTR_PORT : Z := 2.
Definition DEST_ATTR_FWD_METHOD : Z := 3.
Definition DEST_ATTR_WEIGHT : Z := 4.
Definition DEST_ATTR_U_THRESH : Z := 5.
Definition DEST_ATTR_L_THRESH : Z := 6.
Definition DEST_ATTR_ADDR_FAMILY : Z := 11.
Definition FWD_MASQ : Z := 0.
Definition FWD_TUNNEL : Z := 2.
Definition SVC_F_PERSISTENT : Z := 1.
Definition SVC_F_SCHED1 : Z := 8.
Definition SVC_F_SCHED2 : Z := 16.
Definition SVC_F_SCHED3 : Z := 32.
Definition AF_INET : Z := 2.
Definition AF_INET6 : Z := 10.

(** ** Encoding *)

Definition proto_num (p : Protocol) : Z := match p with Tcp => 6 | Udp => 17 | Sctp => 132 end.

Definition addr_bytes (ip : IpAddr) : list Z := octets ip.

Definition af (ip : IpAddr) : Z := if is_ipv6 ip then AF_INET6 else AF_INET.

(** [(n + 3) & !3] *)
Definition align4 (n : nat) : nat := Z.to_nat (Z.land (Z.of_nat n + 3) (Z.lnot 3)).

Definition zero_terminated (s : string) : list Z := Dsr.as_bytes s ++ [0].

Section encode.
Context `{!Endian}.

(** The [while] loop pads to a multiple of four. *)
Definition nla (attr_type : Z) (payload : list Z) : list Z :=
  let total := (4 + length payload)%nat in
  let out := ne_bytes 2 (Z.of_nat total `mod` 2 ^ 16) ++ ne_bytes 2 attr_type ++ payload in
  out ++ replicate (align4 (length out) - length out) 0.

Definition nla_u16 (t v : Z) : list Z := nla t (ne_bytes 2 v).
Definition nla_u32 (t v : Z) : list Z := nla t (ne_bytes 4 v).

Definition service_flags (svc : IpvsService) : Z :=
  let flags := match vs_persistent svc with Some _ => SVC_F_PERSISTENT | None => 0 end in
  let flags := if flag1 (vs_sched_flags svc) then Z.lor flags SVC_F_SCHED1 else flags in
  let flags := if flag2 (vs_sched_flags svc) then Z.lor flags SVC_F_SCHED2 else flags in
  if flag3 (vs_sched_flags svc) then Z.lor flags SVC_F_SCHED3 else flags.

(** [{flags u32, mask u32}] *)
Definition flags_payload (flags : Z) : list Z := ne_bytes 4 flags ++ ne_bytes 4 0xFFFFFFFF.

Definition netmask (ip : IpAddr) : Z := if is_ipv6 ip then 128 else 0xFFFFFFFF.

Definition service_attr (svc : IpvsService) : list Z :=
  nla IPVS_CMD_ATTR_SERVICE (
    nla_u16 SVC_ATTR_AF (af (vs_addr svc)) ++
    nla_u16 SVC_ATTR_PROTOCOL (proto_num (vs_protocol svc)) ++
    nla SVC_ATTR_ADDRESS (addr_bytes (vs_addr svc)) ++
    nla SVC_ATTR_PORT (be_digits 256 2 (vs_port svc)) ++
    nla SVC_ATTR_SCHED_NAME (zero_terminated (ipvs_name (vs_scheduler svc))) ++
    nla SVC_ATTR_FLAGS (flags_payload (service_flags svc)) ++
    nla_u32 SVC_ATTR_TIMEOUT (default 0 (vs_persistent svc)) ++
    nla_u32 SVC_ATTR_NETMASK (netmask (vs_addr svc))).

Definition service_identity_attr (svc : IpvsService) : list Z :=
  nla IPVS_CMD_ATTR_SERVICE (
    nla_u16 SVC_ATTR_AF (af (vs_addr svc)) ++
    nla_u16 SVC_ATTR_PROTOCOL (proto_num (vs_protocol svc)) ++
    nla SVC_ATTR_ADDRESS (addr_bytes (vs_addr svc)) ++
    nla SVC_ATTR_PORT (be_digits 256 2 (vs_port svc)) ++
    nla_u32 SVC_ATTR_NETMASK (netmask (vs_addr svc))).

Definition fwmark_service_attr (fwmark : Z) (scheduler : Scheduler) (persistent : option Z)
    : list Z :=
  nla IPVS_CMD_ATTR_SERVICE (
    nla_u16 SVC_ATTR_AF AF_INET ++
    nla_u32 SVC_ATTR_FWMARK fwmark ++
    nla SVC_ATTR_SCHED_NAME (zero_terminated (ipvs_name scheduler)) ++
    nla SVC_ATTR_FLAGS
      (flags_payload (match persistent with Some _ => SVC_F_PERSISTENT | None => 0 end)) ++
    nla_u32 SVC_ATTR_TIMEOUT (default 0 persistent) ++
    nla_u32 SVC_ATTR_NETMASK 0xFFFFFFFF).

(** [dst.weight as u32] *)
Definition dest_attr (dst : IpvsDestination) : list Z :=
  nla IPVS_CMD_ATTR_DEST (
    nla DEST_ATTR_ADDRESS (addr_bytes (rs_addr dst)) ++
    nla DEST_ATTR_PORT (be_digits 256 2 (rs_port dst)) ++
    nla_u32 DEST_ATTR_FWD_METHOD (if rs_tunnel dst then FWD_TUNNEL else FWD_MASQ) ++
    nla_u32 DEST_ATTR_WEIGHT (rs_weight dst `mod` 2 ^ 32) ++
    nla_u32 DEST_ATTR_U_THRESH 0 ++
    nla_u32 DEST_ATTR_L_THRESH 0 ++
    nla_u16 DEST_ATTR_ADDR_FAMILY (af (rs_addr dst))).
End encode.

(** ** The socket ([Genl]) *)

(** [std::io::Error]: from the operating system, or made by the program. *)
Inductive IoError := OsError (errno : Z) | CustomError (message : string).

Definition raw_os_error (e : IoError) : option Z :=
  match e with OsError n => Some n | CustomError _ => None end.

(** socket(2), bind(2), send(2), recv(2) and close(2) on netlink sockets. *)
Class NetlinkSockets (W : Type) := {
  nl_socket : M W IoError Z;
  nl_bind : Z → M W IoError unit;
  nl_send : Z → list Z → M W IoError unit;
  nl_recv : Z → Z → M W IoError (list Z);
  nl_close : Z → W → W;
}.

Record Genl := { fd : Z; seq : Z; family : Z }.

Section genl.
Context `{!Endian} {W : Type} `{!NetlinkSockets W}.

(** [&mut self] beside the world. *)
Definition world {A} (m : M W IoError A) : M (Genl * W) IoError A :=
  mzoom snd (λ w s, (s.1, w)) m.

Definition next_seq : M (Genl * W) IoError Z := λ s,
  let n := (seq s.1 + 1) `mod` 2 ^ 32 in
  (inr n, ({| fd := fd s.1; seq := n; family := family s.1 |}, s.2)).

(** nlmsghdr, genlmsghdr and payload *)
Definition message (family cmd seq : Z) (payload : list Z) : list Z :=
  let body := [cmd; 1; 0; 0] ++ payload in
  let total := (16 + length body)%nat in
  ne_bytes 4 (Z.of_nat total `mod` 2 ^ 32) ++ ne_bytes 2 family ++
  ne_bytes 2 (Z.lor NLM_F_REQUEST NLM_F_ACK) ++ ne_bytes 4 seq ++ ne_bytes 4 0 ++ body.

(** The error a received buffer carries, if any. *)
Definition reply_error (buf : list Z) : option IoError :=
  if (20 <=? length buf)%nat && (from_ne (slice buf 4 2) =? NLMSG_ERROR) then
    let err := as_i32 (from_ne (slice buf 16 4)) in
    if err =? 0 then None else Some (OsError (as_i32 (- err)))
  else None.

Definition request (family cmd : Z) (payload : list Z) : M (Genl * W) IoError (list Z) :=
  seq ← next_seq;
  s ← mget;
  world (nl_send (fd s.1) (message family cmd seq payload));;
  buf ← world (nl_recv (fd s.1) 8192);
  match reply_error buf with
  | Some e => mfail e
  | None => mret buf
  end.

(** The [while] loop of [resolve_family]: [None] when the fuel runs out,
    [Some None] when the loop ends without the attribute. *)
Fixpoint scan_family (fuel : nat) (attrs : list Z) (i : nat) : option (option Z) :=
  match fuel with
  | O => None
  | S fuel =>
      if (i + 4 <=? length attrs)%nat then
        let len := Z.to_nat (from_ne (slice attrs i 2)) in
        let t := from_ne (slice attrs (i + 2) 2) in
        if (len <? 4)%nat || (length attrs <? i + len)%nat then Some None
        else if (t =? CTRL_ATTR_FAMILY_ID) && (6 <=? len)%nat
        then Some (Some (from_ne (slice attrs (i + 4) 2)))
        else scan_family fuel attrs (i + align4 len)
      else Some None
  end.

Definition family_payload : list Z := nla CTRL_ATTR_FAMILY_NAME (zero_terminated "IPVS").

Definition resolve_family : M (Genl * W) IoError Z :=
  resp ← request GENL_ID_CTRL CTRL_CMD_GETFAMILY family_payload;
  let attrs := drop 20 resp in
  match scan_family (S (length attrs)) attrs 0 with
  | Some (Some id) => mret id
  | _ => mfail (CustomError "IPVS genl family not found")
  end.

(** [Genl::open]; the socket is closed when [bind] or the resolution fails. *)
Definition genl_open : M W IoError Genl := λ w,
  match nl_socket w with
  | (inl e, w) => (inl e, w)
  | (inr sock, w) =>
      match nl_bind sock w with
      | (inl e, w) => (inl e, nl_close sock w)
      | (inr _, w) =>
          match resolve_family ({| fd := sock; seq := 0; family := 0 |}, w) with
          | (inl e, (_, w)) => (inl e, nl_close sock w)
          | (inr id, (g, w)) => (inr {| fd := fd g; seq := seq g; family := id |}, w)
          end
      end
  end.

(** [self.request(self.family, cmd, &p).map(|_| ())] *)
Definition command (cmd : Z) (p : list Z) : M (Genl * W) IoError unit :=
  s ← mget;
  (λ _, tt) <$> request (family s.1) cmd p.

Definition genl_add_service (svc : IpvsService) : M (Genl * W) IoError unit :=
  command IPVS_CMD_NEW_SERVICE (service_attr svc).
Definition genl_set_service (svc : IpvsService) : M (Genl * W) IoError unit :=
  command IPVS_CMD_SET_SERVICE (service_attr svc).
Definition genl_del_service (svc : IpvsService) : M (Genl * W) IoError unit :=
  command IPVS_CMD_DEL_SERVICE (service_identity_attr svc).
Definition genl_add_destination (svc : IpvsService) (dst : IpvsDestination)
    : M (Genl * W) IoError unit :=
  command IPVS_CMD_NEW_DEST (service_identity_attr svc ++ dest_attr dst).
Definition genl_del_destination (svc : IpvsService) (dst : IpvsDestination)
    : M (Genl * W) IoError unit :=
  command IPVS_CMD_DEL_DEST (service_identity_attr svc ++ dest_attr dst).
Definition genl_add_fwmark_service (fwmark : Z) (scheduler : Scheduler) (persistent : option Z)
    : M (Genl * W) IoError unit :=
  command IPVS_CMD_NEW_SERVICE (fwmark_service_attr fwmark scheduler persistent).
Definition genl_add_fwmark_destination (fwmark : Z) (dst : IpvsDestination)
    : M (Genl * W) IoError unit :=
  command IPVS_CMD_NEW_DEST (fwmark_service_attr fwmark Rr None ++ dest_attr dst).

End genl.

(** ** [SystemIpvs] ([ipvs.rs]) *)

Section system_ipvs.
Context `{!Endian} {W : Type} `{!NetlinkSockets W, !CommandRunner W}.

(** Whether the socket handled the operation; the socket is closed when [g] is
    dropped. *)
Definition via_genl (f : M (Genl * W) IoError unit) (w : W) : bool * W :=
  match genl_open w with
  | (inl _, w) => (false, w)
  | (inr g, w) =>
      let '(r, (g', w)) := f (g, w) in
      let w := nl_close (fd g') w in
      match r with
      | inr _ => (true, w)
      | inl e => (bool_decide (raw_os_error e = Some 17 ∨ raw_os_error e = Some 2), w)
      end
  end.

Definition ipvsadm_run (args : list string) : M W IpvsError unit := λ w,
  match run_command "ipvsadm" args None w with
  | (inl e, w) => (inl (IpvsErr ("spawn ipvsadm " +:+ debug_strings args +:+ ": " +:+ e)), w)
  | (inr (true, _, _), w) => (inr tt, w)
  | (inr (false, _, stderr), w) =>
      if str_contains "already exists" stderr || str_contains "No such" stderr then (inr tt, w)
      else (inl (IpvsErr ("ipvsadm " +:+ debug_strings args +:+ ": " +:+ trim stderr)), w)
  end.

Definition ipvsadm_run_out (args : list string) : M W IpvsError string := λ w,
  match run_command "ipvsadm" args None w with
  | (inl e, w) => (inl (IpvsErr ("spawn ipvsadm " +:+ debug_strings args +:+ ": " +:+ e)), w)
  | (inr (false, _, stderr), w) =>
      (inl (IpvsErr ("ipvsadm " +:+ debug_strings args +:+ ": " +:+ trim stderr)), w)
  | (inr (true, stdout, _), w) => (inr stdout, w)
  end.

(** [if self.via_genl(f) { return Ok(()); } self.run(args).await] *)
Definition genl_or (f : M (Genl * W) IoError unit) (args : list string) : M W IpvsError unit :=
  λ w, match via_genl f w with
       | (true, w) => (inr tt, w)
       | (false, w) => ipvsadm_run args w
       end.

Definition system_flush_conntrack_udp (addr : IpAddr) (port : Z) : M W IpvsError unit := λ w,
  let args := IpvsArgs.conntrack_flush_udp_args addr port in
  match run_command "conntrack" args None w with
  | (inl e, w) => (inl (IpvsErr ("spawn conntrack " +:+ debug_strings args +:+ ": " +:+ e)), w)
  | (inr (true, _, _), w) => (inr tt, w)
  | (inr (false, stdout, stderr), w) =>
      let combined := stdout +:+ stderr in
      if str_contains "0 flow entries" combined then (inr tt, w)
      else (inl (IpvsErr ("conntrack " +:+ debug_strings args +:+ ": " +:+ trim combined)), w)
  end.

Definition system_service_stats : M W IpvsError (list (IpvsService * ServiceStats)) :=
  stats ← ipvsadm_run_out ["-Ln"; "--stats"; "--exact"];
  rate ← ipvsadm_run_out ["-Ln"; "--rate"; "--exact"];
  mret (IpvsStats.parse_ipvsadm_stats stats rate).

Definition system_ipvs_ops : IpvsOps W := {|
  add_service svc := genl_or (genl_add_service svc) (IpvsArgs.add_service_args svc);
  edit_service svc := genl_or (genl_set_service svc) (IpvsArgs.edit_service_args svc);
  del_service svc := genl_or (genl_del_service svc) (IpvsArgs.del_service_args svc);
  add_destination svc dst :=
    genl_or (genl_add_destination svc dst) (IpvsArgs.add_dest_args svc dst);
  del_destination svc dst :=
    genl_or (genl_del_destination svc dst) (IpvsArgs.del_dest_args svc dst);
  update_destination svc dst := ipvsadm_run (IpvsArgs.edit_dest_args svc dst);
  dest_conn_stats _ _ := mret None;
  flush_conntrack_udp := system_flush_conntrack_udp;
  service_stats := system_service_stats;
  add_fwmark_service fwmark scheduler persistent :=
    genl_or (genl_add_fwmark_service fwmark scheduler persistent)
            (IpvsArgs.add_fwmark_service_args fwmark scheduler persistent);
  add_fwmark_destination fwmark dst :=
    genl_or (genl_add_fwmark_destination fwmark dst) (IpvsArgs.add_fwmark_dest_args fwmark dst);
|}.
End system_ipvs.
