(* ===== verification/GenlFacts.v ===== *)
(** * GenlFacts: what the kernel reads

    Netlink attributes as netlink(7) defines them, the IPVS requests they
    describe, and the proof that decoding undoes the encoding of [Genetlink]. *)

From stdpp Require Import gmap sets list strings pretty.
From Stdlib Require Import Ascii ZArith Lia.
From S2P Require Import Prelude Text Net Netlink Proxy Genetlink.

Local Open Scope Z_scope.

(** ** Native integers *)

Section ne_facts.
Context `{!Endian}.

Lemma length_ne_bytes n v : length (ne_bytes n v) = n.
Proof. unfold ne_bytes. case_match; [apply length_be_digits|apply length_le_digits]. Qed.

Lemma from_ne_bytes n v : 0 ≤ v < 256 ^ Z.of_nat n → from_ne (ne_bytes n v) = v.
Proof.
  intros Hv. unfold ne_bytes, from_ne. case_match; [by apply be_value_digits|].
  rewrite le_value_digits by done. by apply Z.mod_small.
Qed.
End ne_facts.

Lemma align4_spec n : (align4 n = 4 * ((n + 3) / 4))%nat.
Proof.
  unfold align4. change (Z.lnot 3) with (Z.lnot (Z.ones 2)).
  rewrite <- Z.ldiff_land, Z.ldiff_ones_r by lia.
  rewrite Z.shiftl_mul_pow2, Z.shiftr_div_pow2 by lia. change (2 ^ 2) with 4.
  apply Nat2Z.inj. rewrite Z2Nat.id by (apply Z.mul_nonneg_nonneg; [apply Z.div_pos|]; lia).
  rewrite Nat2Z.inj_mul, Nat2Z.inj_div, Nat2Z.inj_add. lia.
Qed.

Lemma align4_bounds n : (n ≤ align4 n < n + 4)%nat.
Proof.
  rewrite align4_spec. pose proof (Nat.div_mod_eq (n + 3) 4).
  pose proof (Nat.mod_upper_bound (n + 3) 4). lia.
Qed.

(** ** Attributes *)

Section attrs.
Context `{!Endian}.

(** A sequence of attributes: length and type, the payload, and padding. *)
Fixpoint parse_attrs (fuel : nat) (l : list Z) : option (list (Z * list Z)) :=
  match l, fuel with
  | [], _ => Some []
  | _, O => None
  | _, S fuel =>
      let len := Z.to_nat (from_ne (slice l 0 2)) in
      if (length l <? 4)%nat || (len <? 4)%nat || (length l <? len)%nat then None
      else rest ← parse_attrs fuel (drop (align4 len) l);
           Some ((from_ne (slice l 2 2), slice l 4 (len - 4)) :: rest)
  end.

Definition attrs_of (l : list Z) : option (list (Z * list Z)) := parse_attrs (length l) l.

Fixpoint find_attr (t : Z) (l : list (Z * list Z)) : option (list Z) :=
  match l with
  | [] => None
  | (t', p) :: l => if decide (t' = t) then Some p else find_attr t l
  end.

Lemma nla_shape t p : Z.of_nat (4 + length p) < 65536 → 0 ≤ t < 65536 →
  ∃ pad, nla t p = ne_bytes 2 (Z.of_nat (4 + length p)) ++ ne_bytes 2 t ++ p ++ pad ∧
         length (nla t p) = align4 (4 + length p).
Proof.
  intros Hp Ht. unfold nla. rewrite Z.mod_small by lia.
  eexists (replicate _ 0). split; [by rewrite <- !(assoc_L (++))|].
  rewrite length_app, length_replicate, !length_app, !length_ne_bytes.
  pose proof (align4_bounds (4 + length p)). cbn [Nat.add] in *. lia.
Qed.

Lemma parse_attrs_nla fuel t p l :
  Z.of_nat (4 + length p) < 65536 → 0 ≤ t < 65536 →
  parse_attrs (S fuel) (nla t p ++ l) = ((t, p) ::.) <$> parse_attrs fuel l.
Proof.
  intros Hp Ht. destruct (nla_shape t p Hp Ht) as (pad & Hn & Hl).
  pose proof (align4_bounds (4 + length p)) as Ha.
  assert (length (nla t p ++ l) = (align4 (4 + length p) + length l)%nat) as Hlen.
  { by rewrite length_app, Hl. }
  assert (from_ne (slice (nla t p ++ l) 0 2) = Z.of_nat (4 + length p)) as H0.
  { unfold slice. rewrite drop_0, Hn, <- (assoc_L (++)).
    rewrite (take_app_length' _ _ 2) by (by rewrite length_ne_bytes).
    apply from_ne_bytes. lia. }
  assert (from_ne (slice (nla t p ++ l) 2 2) = t) as H2.
  { unfold slice. rewrite Hn, <- !(assoc_L (++)).
    rewrite (drop_app_length' _ _ 2), (take_app_length' _ _ 2) by (by rewrite length_ne_bytes).
    apply from_ne_bytes. lia. }
  assert (slice (nla t p ++ l) 4 (length p) = p) as H4.
  { unfold slice. rewrite Hn, (assoc_L (++) (ne_bytes _ _)), <- !(assoc_L (++)), (assoc_L (++) (ne_bytes _ _)).
    rewrite (drop_app_length' _ _ 4) by (rewrite length_app, !length_ne_bytes; done).
    by apply take_app_length'. }
  assert (drop (align4 (4 + length p)) (nla t p ++ l) = l) as Hd by (by apply drop_app_length').
  destruct (nla t p ++ l) as [|x k] eqn:Hk; [rewrite length_nil in Hlen; lia|].
  cbn [parse_attrs]. rewrite H0, H2, Nat2Z.id, Hd.
  destruct (Nat.ltb_spec (length (x :: k)) 4); [lia|].
  destruct (Nat.ltb_spec (4 + length p) 4); [lia|].
  destruct (Nat.ltb_spec (length (x :: k)) (4 + length p)); [lia|]. cbn [orb].
  replace (4 + length p - 4)%nat with (length p) by lia. rewrite H4.
  by destruct (parse_attrs fuel l).
Qed.

Lemma parse_attrs_more fuel fuel' l r :
  (fuel ≤ fuel')%nat → parse_attrs fuel l = Some r → parse_attrs fuel' l = Some r.
Proof.
  revert fuel' l r. induction fuel as [|fuel IH]; intros fuel' l r Hle.
  { destruct l; cbn; [|done]. intros [= <-]. by destruct fuel'. }
  destruct l as [|x l]; [by destruct fuel'|]. destruct fuel' as [|fuel']; [lia|].
  cbn [parse_attrs]. case_match; [done|].
  destruct (parse_attrs fuel (drop _ (x :: l))) as [rest|] eqn:Hr; [|done]. cbn [mbind option_bind]. intros [= <-].
  by rewrite (IH fuel' _ rest ltac:(lia) Hr).
Qed.

Lemma attrs_of_nla_app t p l r :
  Z.of_nat (4 + length p) < 65536 → 0 ≤ t < 65536 → attrs_of l = Some r →
  attrs_of (nla t p ++ l) = Some ((t, p) :: r).
Proof.
  intros Hp Ht Hl. destruct (nla_shape t p Hp Ht) as (pad & _ & Hn).
  pose proof (align4_bounds (4 + length p)).
  unfold attrs_of. rewrite length_app, Hn.
  destruct (align4 (4 + length p) + length l)%nat as [|fuel] eqn:Hf; [lia|].
  rewrite parse_attrs_nla by done. unfold attrs_of in Hl.
  by rewrite (parse_attrs_more (length l) fuel l r ltac:(lia) Hl).
Qed.

Lemma length_nla t p : Z.of_nat (4 + length p) < 65536 → 0 ≤ t < 65536 →
  length (nla t p) = align4 (4 + length p).
Proof. intros Hp Ht. by destruct (nla_shape t p Hp Ht) as (? & _ & ?). Qed.

End attrs.

(** ** Sequences of short attributes *)

Section nlas.
Context `{!Endian}.

Definition nlas (l : list (Z * list Z)) : list Z := l ≫= λ x, nla x.1 x.2.

Definition short (x : Z * list Z) : Prop := 0 ≤ x.1 < 65536 ∧ (length x.2 ≤ 64)%nat.

Lemma attrs_of_nlas l : Forall short l → attrs_of (nlas l) = Some l.
Proof.
  induction 1 as [|[t p] l [Ht Hp] _ IH]; [done|].
  cbn [nlas mbind list_bind fst snd] in *. apply attrs_of_nla_app; [lia|done|exact IH].
Qed.

Lemma length_nlas l : Forall short l → (length (nlas l) ≤ 72 * length l)%nat.
Proof.
  induction 1 as [|[t p] l [Ht Hp] _ IH]; [done|]. cbn [fst snd] in *.
  change (nlas ((t, p) :: l)) with (nla t p ++ nlas l).
  rewrite length_app, length_nla by (done || lia). cbn [length].
  pose proof (align4_bounds (4 + length p)). lia.
Qed.

Lemma attrs_of_nested t l k r :
  0 ≤ t < 65536 → Forall short l → (length l ≤ 900)%nat → attrs_of k = Some r →
  attrs_of (nla t (nlas l) ++ k) = Some ((t, nlas l) :: r).
Proof.
  intros Ht Hl Hn Hk. apply attrs_of_nla_app; [|done|done].
  pose proof (length_nlas l Hl). lia.
Qed.
End nlas.

(** ** IPVS requests *)

Inductive IpvsCommand :=
  | NewService (svc : IpvsService)
  | SetService (svc : IpvsService)
  | DelService (key : ServiceKey)
  | NewDest (key : ServiceKey) (dst : IpvsDestination)
  | DelDest (key : ServiceKey) (dst : IpvsDestination)
  | NewFwService (af fwmark : Z) (scheduler : Scheduler) (persistent : option Z)
  | NewFwDest (af fwmark : Z) (dst : IpvsDestination).

Section decode.
Context `{!Endian}.

Definition int_attr (t : Z) (l : list (Z * list Z)) : option Z := from_ne <$> find_attr t l.

Definition decode_addr (family : Z) (bytes : list Z) : option IpAddr :=
  if decide (family = AF_INET) then Some (V4 (be_value 256 bytes))
  else if decide (family = AF_INET6) then Some (V6 (be_value 256 bytes))
  else None.

Definition decode_protocol (n : Z) : option Protocol :=
  if decide (n = 6) then Some Tcp
  else if decide (n = 17) then Some Udp
  else if decide (n = 132) then Some Sctp
  else None.

(** The scheduler of a NUL-terminated name. *)
Definition decode_scheduler (name : list Z) : option Scheduler :=
  find (λ s, bool_decide (zero_terminated (ipvs_name s) = name)) [Rr; Lc; Sh; Dh; Mh].

Definition decode_key (l : list (Z * list Z)) : option ServiceKey :=
  family ← int_attr SVC_ATTR_AF l;
  n ← int_attr SVC_ATTR_PROTOCOL l;
  bytes ← find_attr SVC_ATTR_ADDRESS l;
  port ← find_attr SVC_ATTR_PORT l;
  protocol ← decode_protocol n;
  addr ← decode_addr family bytes;
  Some (addr, protocol, be_value 256 port).

Definition decode_params (l : list (Z * list Z)) : option (Scheduler * Z * option Z) :=
  name ← find_attr SVC_ATTR_SCHED_NAME l;
  scheduler ← decode_scheduler name;
  flags ← find_attr SVC_ATTR_FLAGS l;
  timeout ← int_attr SVC_ATTR_TIMEOUT l;
  let flags := from_ne (take 4 flags) in
  Some (scheduler, flags, if Z.testbit flags 0 then Some timeout else None).

Definition decode_service (l : list (Z * list Z)) : option IpvsService :=
  '(addr, protocol, port) ← decode_key l;
  '(scheduler, flags, persistent) ← decode_params l;
  Some {| vs_addr := addr; vs_protocol := protocol; vs_port := port;
          vs_scheduler := scheduler;
          vs_sched_flags := {| flag1 := Z.testbit flags 3; flag2 := Z.testbit flags 4;
                               flag3 := Z.testbit flags 5 |};
          vs_persistent := persistent |}.

Definition decode_dest (l : list (Z * list Z)) : option IpvsDestination :=
  family ← int_attr DEST_ATTR_ADDR_FAMILY l;
  bytes ← find_attr DEST_ATTR_ADDRESS l;
  addr ← decode_addr family bytes;
  port ← find_attr DEST_ATTR_PORT l;
  fwd ← int_attr DEST_ATTR_FWD_METHOD l;
  weight ← int_attr DEST_ATTR_WEIGHT l;
  Some {| rs_addr := addr; rs_port := be_value 256 port; rs_weight := as_i32 weight;
          rs_tunnel := bool_decide (fwd = FWD_TUNNEL) |}.

Definition decode_fwmark (l : list (Z * list Z)) : option (Z * Z) :=
  family ← int_attr SVC_ATTR_AF l;
  mark ← int_attr SVC_ATTR_FWMARK l;
  Some (family, mark).

(** A command and the payload that follows its generic netlink header. *)
Definition decode_command (cmd : Z) (payload : list Z) : option IpvsCommand :=
  top ← attrs_of payload;
  inner ← find_attr IPVS_CMD_ATTR_SERVICE top;
  svc ← attrs_of inner;
  let dst := inner ← find_attr IPVS_CMD_ATTR_DEST top; attrs_of inner ≫= decode_dest in
  if decide (cmd = IPVS_CMD_NEW_SERVICE) then
    match decode_fwmark svc with
    | Some (family, mark) =>
        '(scheduler, _, persistent) ← decode_params svc;
        Some (NewFwService family mark scheduler persistent)
    | None => NewService <$> decode_service svc
    end
  else if decide (cmd = IPVS_CMD_SET_SERVICE) then SetService <$> decode_service svc
  else if decide (cmd = IPVS_CMD_DEL_SERVICE) then DelService <$> decode_key svc
  else if decide (cmd = IPVS_CMD_NEW_DEST) then
    match decode_fwmark svc with
    | Some (family, mark) => NewFwDest family mark <$> dst
    | None => key ← decode_key svc; NewDest key <$> dst
    end
  else if decide (cmd = IPVS_CMD_DEL_DEST) then key ← decode_key svc; DelDest key <$> dst
  else None.

(** A request message: its family, command, sequence number and payload. *)
Definition decode_message (msg : list Z) : option (Z * Z * Z * list Z) :=
  if decide (from_ne (slice msg 0 4) = Z.of_nat (length msg) ∧
             from_ne (slice msg 6 2) = Z.lor NLM_F_REQUEST NLM_F_ACK) then
    match drop 16 msg with
    | cmd :: 1 :: 0 :: 0 :: payload =>
        Some (from_ne (slice msg 4 2), cmd, from_ne (slice msg 8 4), payload)
    | _ => None
    end
  else None.
End decode.

Definition service_wf (svc : IpvsService) : Prop :=
  ip_wf (vs_addr svc) ∧ 0 ≤ vs_port svc < 2 ^ 16 ∧
  match vs_persistent svc with Some t => 0 ≤ t < 2 ^ 32 | None => True end.
Definition dest_wf (dst : IpvsDestination) : Prop :=
  ip_wf (rs_addr dst) ∧ 0 ≤ rs_port dst < 2 ^ 16 ∧ - 2 ^ 31 ≤ rs_weight dst < 2 ^ 31.

Section roundtrip.
Context `{!Endian}.

(** The attributes of each payload. *)
Definition identity_attrs (svc : IpvsService) : list (Z * list Z) :=
  [(SVC_ATTR_AF, ne_bytes 2 (af (vs_addr svc)));
   (SVC_ATTR_PROTOCOL, ne_bytes 2 (proto_num (vs_protocol svc)));
   (SVC_ATTR_ADDRESS, addr_bytes (vs_addr svc));
   (SVC_ATTR_PORT, be_digits 256 2 (vs_port svc))].
Definition param_attrs (scheduler : Scheduler) (flags : Z) (persistent : option Z) (mask : Z)
    : list (Z * list Z) :=
  [(SVC_ATTR_SCHED_NAME, zero_terminated (ipvs_name scheduler));
   (SVC_ATTR_FLAGS, flags_payload flags);
   (SVC_ATTR_TIMEOUT, ne_bytes 4 (default 0 persistent));
   (SVC_ATTR_NETMASK, ne_bytes 4 mask)].
Definition service_attrs (svc : IpvsService) : list (Z * list Z) :=
  identity_attrs svc ++
  param_attrs (vs_scheduler svc) (service_flags svc) (vs_persistent svc) (netmask (vs_addr svc)).
Definition key_attrs (svc : IpvsService) : list (Z * list Z) :=
  identity_attrs svc ++ [(SVC_ATTR_NETMASK, ne_bytes 4 (netmask (vs_addr svc)))].
Definition fwmark_attrs (mark : Z) (scheduler : Scheduler) (persistent : option Z)
    : list (Z * list Z) :=
  [(SVC_ATTR_AF, ne_bytes 2 AF_INET); (SVC_ATTR_FWMARK, ne_bytes 4 mark)] ++
  param_attrs scheduler (match persistent with Some _ => SVC_F_PERSISTENT | None => 0 end)
              persistent 0xFFFFFFFF.
Definition dest_attrs (dst : IpvsDestination) : list (Z * list Z) :=
  [(DEST_ATTR_ADDRESS, addr_bytes (rs_addr dst));
   (DEST_ATTR_PORT, be_digits 256 2 (rs_port dst));
   (DEST_ATTR_FWD_METHOD, ne_bytes 4 (if rs_tunnel dst then FWD_TUNNEL else FWD_MASQ));
   (DEST_ATTR_WEIGHT, ne_bytes 4 (rs_weight dst `mod` 2 ^ 32));
   (DEST_ATTR_U_THRESH, ne_bytes 4 0);
   (DEST_ATTR_L_THRESH, ne_bytes 4 0);
   (DEST_ATTR_ADDR_FAMILY, ne_bytes 2 (af (rs_addr dst)))].

Lemma service_attr_eq svc : service_attr svc = nla IPVS_CMD_ATTR_SERVICE (nlas (service_attrs svc)).
Proof. unfold service_attr, nlas. cbn. by rewrite app_nil_r. Qed.
Lemma service_identity_attr_eq svc :
  service_identity_attr svc = nla IPVS_CMD_ATTR_SERVICE (nlas (key_attrs svc)).
Proof. unfold service_identity_attr, nlas. cbn. by rewrite app_nil_r. Qed.
Lemma fwmark_service_attr_eq mark scheduler persistent :
  fwmark_service_attr mark scheduler persistent =
  nla IPVS_CMD_ATTR_SERVICE (nlas (fwmark_attrs mark scheduler persistent)).
Proof. unfold fwmark_service_attr, nlas. cbn. by rewrite app_nil_r. Qed.
Lemma dest_attr_eq dst : dest_attr dst = nla IPVS_CMD_ATTR_DEST (nlas (dest_attrs dst)).
Proof. unfold dest_attr, nlas. cbn. by rewrite app_nil_r. Qed.

Lemma short_int t n v : 0 ≤ t < 65536 → (n ≤ 64)%nat → short (t, ne_bytes n v).
Proof. intros. split; [done|]. cbn. by rewrite length_ne_bytes. Qed.

Lemma short_addr t a : 0 ≤ t < 65536 → short (t, addr_bytes a).
Proof.
  intros. split; [done|]. unfold addr_bytes. destruct a; cbn [octets snd];
    rewrite length_be_digits; lia.
Qed.

Lemma short_port t v : 0 ≤ t < 65536 → short (t, be_digits 256 2 v).
Proof. intros. split; [done|]. cbn [snd]. rewrite length_be_digits. lia. Qed.

Lemma short_name t s : 0 ≤ t < 65536 → short (t, zero_terminated (ipvs_name s)).
Proof. intros. split; [done|]. destruct s; vm_compute; lia. Qed.

Lemma short_flags t v : 0 ≤ t < 65536 → short (t, flags_payload v).
Proof.
  intros. split; [done|]. unfold flags_payload. cbn [snd]. rewrite length_app, !length_ne_bytes. lia.
Qed.

Ltac shorts :=
  repeat (apply Forall_cons; split); try apply Forall_nil_2;
  first [apply short_int | apply short_addr | apply short_port | apply short_name
        | apply short_flags]; solve [lia | cbv; split; congruence].

Lemma service_attrs_short svc : Forall short (service_attrs svc).
Proof. unfold service_attrs, identity_attrs, param_attrs. cbn [app]. shorts. Qed.
Lemma key_attrs_short svc : Forall short (key_attrs svc).
Proof. unfold key_attrs, identity_attrs. cbn [app]. shorts. Qed.
Lemma fwmark_attrs_short m s p : Forall short (fwmark_attrs m s p).
Proof. unfold fwmark_attrs, param_attrs. cbn [app]. shorts. Qed.
Lemma dest_attrs_short d : Forall short (dest_attrs d).
Proof. unfold dest_attrs. shorts. Qed.

(** Looking attributes up in an explicit sequence. *)
Lemma find_attr_here t p l : find_attr t ((t, p) :: l) = Some p.
Proof. cbn. by destruct (decide (t = t)). Qed.
Lemma find_attr_next t t' p l : t' ≠ t → find_attr t ((t', p) :: l) = find_attr t l.
Proof. intros. cbn. by destruct (decide (t' = t)). Qed.

Ltac find_attrs :=
  unfold int_attr; repeat first [rewrite find_attr_here | rewrite find_attr_next by done];
  cbn [fmap option_fmap option_map mbind option_bind].

Lemma from_ne_af a : from_ne (ne_bytes 2 (af a)) = af a.
Proof. apply from_ne_bytes. by destruct a. Qed.

Lemma decode_addr_bytes a : ip_wf a → decode_addr (af a) (addr_bytes a) = Some a.
Proof.
  intros Ha. unfold decode_addr, af, addr_bytes.
  destruct a as [b|b]; cbn [is_ipv6 octets]; rewrite be_value_digits by (done || exact Ha); done.
Qed.

Lemma decode_protocol_num p : decode_protocol (proto_num p) = Some p.
Proof. by destruct p. Qed.

Lemma decode_scheduler_name s : decode_scheduler (zero_terminated (ipvs_name s)) = Some s.
Proof. by destruct s; vm_compute. Qed.

Lemma as_i32_of_u32 w : - 2 ^ 31 ≤ w < 2 ^ 31 → as_i32 (w `mod` 2 ^ 32) = w.
Proof.
  intros. unfold as_i32. rewrite Zplus_mod_idemp_l, Z.mod_small; lia.
Qed.

Lemma decode_key_identity svc rest :
  service_wf svc → decode_key (identity_attrs svc ++ rest) = Some (vs_key svc).
Proof.
  intros (Ha & Hp & _). unfold decode_key, identity_attrs. cbn [app]. find_attrs.
  rewrite from_ne_af, from_ne_bytes by (by destruct (vs_protocol svc)).
  rewrite decode_protocol_num. cbn [mbind option_bind]. rewrite decode_addr_bytes by done.
  cbn [mbind option_bind]. by rewrite be_value_digits.
Qed.

Lemma decode_params_attrs pre s flags persistent mask :
  (∀ t, SVC_ATTR_SCHED_NAME ≤ t → find_attr t (pre ++ param_attrs s flags persistent mask) =
                                  find_attr t (param_attrs s flags persistent mask)) →
  0 ≤ flags < 2 ^ 32 → 0 ≤ default 0 persistent < 2 ^ 32 →
  decode_params (pre ++ param_attrs s flags persistent mask) =
  Some (s, flags, if Z.testbit flags 0 then Some (default 0 persistent) else None).
Proof.
  intros Hpre Hf Ht. unfold decode_params, int_attr. rewrite !Hpre by done.
  unfold param_attrs. find_attrs. rewrite decode_scheduler_name. cbn [mbind option_bind].
  unfold flags_payload. rewrite (take_app_length' _ _ 4) by (by rewrite length_ne_bytes).
  by rewrite !from_ne_bytes.
Qed.

Lemma find_attr_app t l k : (∀ x, x ∈ l → x.1 ≠ t) → find_attr t (l ++ k) = find_attr t k.
Proof.
  induction l as [|[t' p] l IH]; intros Hl; [done|]. cbn [app].
  rewrite find_attr_next; [|exact (Hl (t', p) ltac:(by left))].
  apply IH. intros x Hx. apply Hl. by right.
Qed.

Ltac absent :=
  let x := fresh "x" in let H := fresh "Hx" in
  intros ? ?; apply find_attr_app; intros x H;
  repeat (apply elem_of_cons in H as [->|H]); [..|by apply elem_of_nil in H];
  cbn [fst]; unfold SVC_ATTR_SCHED_NAME, SVC_ATTR_AF, SVC_ATTR_PROTOCOL, SVC_ATTR_ADDRESS,
    SVC_ATTR_PORT, SVC_ATTR_FWMARK in *; lia.

Lemma service_flags_range svc : 0 ≤ service_flags svc < 2 ^ 32.
Proof.
  unfold service_flags. destruct (vs_persistent svc), (vs_sched_flags svc) as [[] [] []]; by vm_compute.
Qed.

Lemma service_flags_bits svc :
  Z.testbit (service_flags svc) 0 = bool_decide (is_Some (vs_persistent svc)) ∧
  Z.testbit (service_flags svc) 3 = flag1 (vs_sched_flags svc) ∧
  Z.testbit (service_flags svc) 4 = flag2 (vs_sched_flags svc) ∧
  Z.testbit (service_flags svc) 5 = flag3 (vs_sched_flags svc).
Proof.
  unfold service_flags. destruct (vs_persistent svc), (vs_sched_flags svc) as [[] [] []]; by vm_compute.
Qed.

Lemma decode_service_attrs svc : service_wf svc → decode_service (service_attrs svc) = Some svc.
Proof.
  intros Hwf. unfold decode_service, service_attrs. rewrite decode_key_identity by done.
  cbn [mbind option_bind vs_key].
  rewrite decode_params_attrs; [|absent|apply service_flags_range|].
  2:{ destruct Hwf as (_ & _ & Ht). by destruct (vs_persistent svc). }
  cbn [mbind option_bind]. destruct (service_flags_bits svc) as (-> & -> & -> & ->).
  destruct svc as [? ? ? ? [] [?|]]; done.
Qed.

Lemma decode_dest_attrs dst : dest_wf dst → decode_dest (dest_attrs dst) = Some dst.
Proof.
  intros (Ha & Hp & Hw). unfold decode_dest, dest_attrs. find_attrs. rewrite from_ne_af.
  rewrite decode_addr_bytes by done. cbn [mbind option_bind].
  rewrite be_value_digits, !from_ne_bytes by
    (done || (split; apply Z.mod_pos_bound; done) || by destruct (rs_tunnel dst)).
  rewrite as_i32_of_u32 by done. by destruct dst as [? ? ? []].
Qed.
(** *** Whole requests *)

Lemma attrs_of_one t l :
  0 ≤ t < 65536 → Forall short l → (length l ≤ 900)%nat →
  attrs_of (nla t (nlas l)) = Some [(t, nlas l)].
Proof. intros. rewrite <- (app_nil_r (nla t _)). by apply attrs_of_nested. Qed.

Lemma service_payload_attrs svc :
  attrs_of (service_attr svc) = Some [(IPVS_CMD_ATTR_SERVICE, nlas (service_attrs svc))].
Proof. rewrite service_attr_eq. apply attrs_of_one; [done|apply service_attrs_short|cbn; lia]. Qed.

Lemma identity_payload_attrs svc :
  attrs_of (service_identity_attr svc) = Some [(IPVS_CMD_ATTR_SERVICE, nlas (key_attrs svc))].
Proof. rewrite service_identity_attr_eq. apply attrs_of_one; [done|apply key_attrs_short|cbn; lia]. Qed.

Lemma fwmark_payload_attrs m s p :
  attrs_of (fwmark_service_attr m s p) = Some [(IPVS_CMD_ATTR_SERVICE, nlas (fwmark_attrs m s p))].
Proof. rewrite fwmark_service_attr_eq. apply attrs_of_one; [done|apply fwmark_attrs_short|cbn; lia]. Qed.

Lemma dest_payload_attrs dst :
  attrs_of (dest_attr dst) = Some [(IPVS_CMD_ATTR_DEST, nlas (dest_attrs dst))].
Proof. rewrite dest_attr_eq. apply attrs_of_one; [done|apply dest_attrs_short|cbn; lia]. Qed.

Lemma identity_dest_payload_attrs svc dst :
  attrs_of (service_identity_attr svc ++ dest_attr dst) =
  Some [(IPVS_CMD_ATTR_SERVICE, nlas (key_attrs svc)); (IPVS_CMD_ATTR_DEST, nlas (dest_attrs dst))].
Proof.
  rewrite service_identity_attr_eq. apply attrs_of_nested; [done|apply key_attrs_short|cbn; lia|].
  apply dest_payload_attrs.
Qed.

Lemma fwmark_dest_payload_attrs m s p dst :
  attrs_of (fwmark_service_attr m s p ++ dest_attr dst) =
  Some [(IPVS_CMD_ATTR_SERVICE, nlas (fwmark_attrs m s p)); (IPVS_CMD_ATTR_DEST, nlas (dest_attrs dst))].
Proof.
  rewrite fwmark_service_attr_eq. apply attrs_of_nested; [done|apply fwmark_attrs_short|cbn; lia|].
  apply dest_payload_attrs.
Qed.

Lemma decode_fwmark_service svc : decode_fwmark (service_attrs svc) = None.
Proof. unfold decode_fwmark, service_attrs, identity_attrs, param_attrs. cbn [app]. by find_attrs. Qed.

Lemma decode_fwmark_key svc : decode_fwmark (key_attrs svc) = None.
Proof. unfold decode_fwmark, key_attrs, identity_attrs. cbn [app]. by find_attrs. Qed.

Lemma decode_fwmark_attrs m s p :
  0 ≤ m < 2 ^ 32 → decode_fwmark (fwmark_attrs m s p) = Some (AF_INET, m).
Proof.
  intros. unfold decode_fwmark, fwmark_attrs. cbn [app]. find_attrs. by rewrite !from_ne_bytes.
Qed.

Lemma decode_params_fwmark m s p :
  match p with Some t => 0 ≤ t < 2 ^ 32 | None => True end →
  ∃ flags, decode_params (fwmark_attrs m s p) = Some (s, flags, p).
Proof.
  intros Hp. unfold fwmark_attrs. exists (match p with Some _ => SVC_F_PERSISTENT | None => 0 end).
  rewrite decode_params_attrs;
    [|absent|by destruct p|by destruct p].
  by destruct p.
Qed.

Lemma decode_key_attrs svc : service_wf svc → decode_key (key_attrs svc) = Some (vs_key svc).
Proof. intros. by apply decode_key_identity. Qed.

(** The requests of the program and the commands they stand for. *)
Inductive asks : Z → list Z → IpvsCommand → Prop :=
  | asks_add_service svc : service_wf svc →
      asks IPVS_CMD_NEW_SERVICE (service_attr svc) (NewService svc)
  | asks_set_service svc : service_wf svc →
      asks IPVS_CMD_SET_SERVICE (service_attr svc) (SetService svc)
  | asks_del_service svc : service_wf svc →
      asks IPVS_CMD_DEL_SERVICE (service_identity_attr svc) (DelService (vs_key svc))
  | asks_add_destination svc dst : service_wf svc → dest_wf dst →
      asks IPVS_CMD_NEW_DEST (service_identity_attr svc ++ dest_attr dst) (NewDest (vs_key svc) dst)
  | asks_del_destination svc dst : service_wf svc → dest_wf dst →
      asks IPVS_CMD_DEL_DEST (service_identity_attr svc ++ dest_attr dst) (DelDest (vs_key svc) dst)
  | asks_add_fwmark_service m s p :
      0 ≤ m < 2 ^ 32 → match p with Some t => 0 ≤ t < 2 ^ 32 | None => True end →
      asks IPVS_CMD_NEW_SERVICE (fwmark_service_attr m s p) (NewFwService AF_INET m s p)
  | asks_add_fwmark_destination m dst : 0 ≤ m < 2 ^ 32 → dest_wf dst →
      asks IPVS_CMD_NEW_DEST (fwmark_service_attr m Rr None ++ dest_attr dst)
           (NewFwDest AF_INET m dst).

Lemma asks_decodes cmd p c : asks cmd p c → decode_command cmd p = Some c.
Proof.
  intros Ha. unfold decode_command. destruct Ha;
    rewrite ?service_payload_attrs, ?identity_payload_attrs, ?fwmark_payload_attrs,
      ?identity_dest_payload_attrs, ?fwmark_dest_payload_attrs;
    cbn [mbind option_bind]; find_attrs;
    rewrite ?(attrs_of_nlas (service_attrs _)), ?(attrs_of_nlas (key_attrs _)),
      ?(attrs_of_nlas (fwmark_attrs _ _ _)), ?(attrs_of_nlas (dest_attrs _))
      by first [apply service_attrs_short | apply key_attrs_short
               | apply fwmark_attrs_short | apply dest_attrs_short];
    cbn [mbind option_bind];
    rewrite ?decode_fwmark_service, ?decode_fwmark_key, ?decode_fwmark_attrs,
      ?decode_service_attrs, ?decode_dest_attrs by done;
    rewrite ?decode_key_attrs by done; try done.
  match goal with |- context [decode_params (fwmark_attrs ?m ?s ?p)] =>
    destruct (decode_params_fwmark m s p) as [flags ->]; [done|] end.
  done.
Qed.

Lemma decode_message_message family cmd seq payload :
  0 ≤ family < 2 ^ 16 → 0 ≤ seq < 2 ^ 32 → Z.of_nat (20 + length payload) < 2 ^ 32 →
  decode_message (message family cmd seq payload) = Some (family, cmd, seq, payload).
Proof.
  intros Hf Hs Hl. unfold decode_message, message. cbn [app length].
  rewrite Z.mod_small by (cbn [Nat.add] in *; lia).
  set (n := (16 + _)%nat). set (flags := Z.lor NLM_F_REQUEST NLM_F_ACK).
  set (body := cmd :: _).
  set (msg := ne_bytes 4 (Z.of_nat n) ++ ne_bytes 2 family ++ ne_bytes 2 flags ++ ne_bytes 4 seq ++
              ne_bytes 4 0 ++ body).
  assert (length msg = n) as Hn.
  { subst msg. rewrite !length_app, !length_ne_bytes. done. }
  assert (∀ pre v post i k, msg = pre ++ ne_bytes k v ++ post → length pre = i →
            0 ≤ v < 256 ^ Z.of_nat k → from_ne (slice msg i k) = v) as Hslice.
  { intros pre v post i k -> <- Hv. unfold slice. rewrite drop_app_length.
    rewrite (take_app_length' _ _ k) by (by rewrite length_ne_bytes). by apply from_ne_bytes. }
  assert (from_ne (slice msg 0 4) = Z.of_nat n) as H0.
  { eapply (Hslice []); [done..|]. subst n. cbn [Nat.add] in *. lia. }
  assert (from_ne (slice msg 4 2) = family) as H4.
  { eapply (Hslice (ne_bytes 4 _)); [done|by rewrite length_ne_bytes|lia]. }
  assert (from_ne (slice msg 6 2) = flags) as H6.
  { eapply (Hslice (ne_bytes 4 (Z.of_nat n) ++ ne_bytes 2 family));
      [by rewrite <- (assoc_L (++))|by rewrite length_app, !length_ne_bytes|done]. }
  assert (from_ne (slice msg 8 4) = seq) as H8.
  { eapply (Hslice (ne_bytes 4 (Z.of_nat n) ++ ne_bytes 2 family ++ ne_bytes 2 flags));
      [by rewrite <- !(assoc_L (++))|by rewrite !length_app, !length_ne_bytes|lia]. }
  assert (drop 16 msg = body) as ->.
  { subst msg. rewrite !(assoc_L (++)). apply drop_app_length'.
    rewrite !length_app, !length_ne_bytes. done. }
  rewrite H0, H4, H6, H8, Hn. by rewrite decide_True.
Qed.
End roundtrip.
