(* ===== verification/GenlTheorems.v ===== *)
(** * GenlTheorems: IPVS commands reach the kernel, their refusals do not come back

    The conversation of [SystemIpvs] with a kernel whose sockets behave as
    netlink(7) says ([NetlinkLaws]): which command the kernel performs, and which
    acknowledgement the program reads. *)

From stdpp Require Import gmap sets list strings pretty.
From Stdlib Require Import Ascii ZArith Lia.
From S2P Require Import Prelude Text Net Netlink Proxy Genetlink GenlFacts.

Local Open Scope Z_scope.

(** ** The scan for the family identifier *)

Section scan.
Context `{!Endian}.

(** What the scan should find: the first family attribute that holds a number. *)
Definition family_of (l : list (Z * list Z)) : option Z :=
  (λ x, from_ne (take 2 x.2)) <$>
    find (λ x, (x.1 =? CTRL_ATTR_FAMILY_ID) && (2 <=? length x.2)%nat) l.

Lemma scan_family_ends fuel attrs i :
  (length attrs < i + fuel)%nat → (0 < fuel)%nat → is_Some (scan_family fuel attrs i).
Proof.
  revert i. induction fuel as [|fuel IH]; intros i Hi Hf; [lia|]. cbn [scan_family].
  destruct (Nat.leb_spec (i + 4) (length attrs)); [|by eexists].
  destruct (Nat.ltb_spec (Z.to_nat (from_ne (slice attrs i 2))) 4); cbn [orb]; [by eexists|].
  case_match; [by eexists|]. case_match; [by eexists|]. apply IH.
  all: pose proof (align4_bounds (Z.to_nat (from_ne (slice attrs i 2)))); lia.
Qed.

Lemma slice_drop l i j n : slice (drop i l) j n = slice l (i + j) n.
Proof. unfold slice. by rewrite drop_drop. Qed.

Lemma scan_family_parses fuel fuel' attrs i l :
  (length attrs < i + fuel)%nat → (0 < fuel)%nat → parse_attrs fuel' (drop i attrs) = Some l →
  scan_family fuel attrs i = Some (family_of l).
Proof.
  revert i fuel' l. induction fuel as [|fuel IH]; intros i fuel' l Hi Hf Hp; [lia|].
  cbn [scan_family]. pose proof (length_drop attrs i) as Hl.
  destruct (drop i attrs) as [|x r] eqn:Hd.
  { cbn in Hl. destruct (Nat.leb_spec (i + 4) (length attrs)); [lia|].
    destruct fuel'; injection Hp as <-; done. }
  destruct fuel' as [|fuel']; [done|]. cbn [parse_attrs] in Hp. rewrite <- Hd in Hp.
  rewrite !slice_drop, Nat.add_0_r in Hp. rewrite drop_drop, length_drop in Hp.
  destruct (Nat.ltb_spec (length attrs - i) 4); [done|].
  destruct (Nat.leb_spec (i + 4) (length attrs)); [|lia].
  set (len := Z.to_nat (from_ne (slice attrs i 2))) in *.
  destruct (Nat.ltb_spec len 4); cbn [orb] in *; [done|].
  destruct (Nat.ltb_spec (length attrs - i) len); cbn [orb] in *; [done|].
  destruct (Nat.ltb_spec (length attrs) (i + len)); [lia|].
  destruct (parse_attrs fuel' _) as [rest|] eqn:Hr; [|done].
  cbn [mbind option_bind] in Hp. injection Hp as <-.
  unfold family_of. cbn [find fst snd].
  assert (length (slice attrs (i + 4) (len - 4)) = (len - 4)%nat) as ->.
  { unfold slice. rewrite length_take, length_drop. lia. }
  replace (2 <=? len - 4)%nat with (6 <=? len)%nat by (destruct (Nat.leb_spec 6 len), (Nat.leb_spec 2 (len - 4)); (done || lia)).
  destruct (_ =? _); cbn [andb]; [destruct (Nat.leb_spec 6 len)|].
  - cbn [fmap option_fmap option_map snd]. unfold slice.
    by rewrite take_take, Nat.min_l by lia.
  - pose proof (align4_bounds len). apply (IH _ fuel'); [lia..|done].
  - pose proof (align4_bounds len). apply (IH _ fuel'); [lia..|done].
Qed.

Lemma scan_attrs attrs l :
  attrs_of attrs = Some l → scan_family (S (length attrs)) attrs 0 = Some (family_of l).
Proof. intros Hl. eapply scan_family_parses; [lia..|]. by rewrite drop_0. Qed.

(** The scan of [resolve_family] ends on every reply, and on well-formed
    attributes it returns the first family identifier, as a reader of the whole
    attribute list would. *)
Theorem scan_family_correct attrs :
  is_Some (scan_family (S (length attrs)) attrs 0) ∧
  ∀ l, attrs_of attrs = Some l →
       scan_family (S (length attrs)) attrs 0 = Some (family_of l).
Proof. split; [apply scan_family_ends; lia|]. intros l. apply scan_attrs. Qed.
End scan.

(** ** The kernel's end of a netlink socket *)

(** An acknowledgement that carries the error number [e] (0 for success), and a
    reply to CTRL_CMD_GETFAMILY that names the family [id]. *)
Definition is_ack `{!Endian} (e : Z) (d : list Z) : Prop :=
  (20 ≤ length d)%nat ∧ Z.of_nat (length d) ≤ 8192 ∧
  from_ne (slice d 4 2) = NLMSG_ERROR ∧ as_i32 (from_ne (slice d 16 4)) = - e.
Definition is_family_reply `{!Endian} (id : Z) (d : list Z) : Prop :=
  (20 ≤ length d)%nat ∧ Z.of_nat (length d) ≤ 8192 ∧
  from_ne (slice d 4 2) = GENL_ID_CTRL ∧
  ∃ l, attrs_of (drop 20 d) = Some l ∧ family_of l = Some id.

(** A world in which sockets can be opened and IPVS is loaded under the family
    [id].  [kernel] is the state of IPVS, [perform] what it does on a command with
    the error number it answers (0 for success), [pending] the datagrams that
    wait in the receive queue of the open socket.  A request that asks for an
    acknowledgement is answered by its replies, if any, and then by the
    acknowledgement, each a datagram of its own, and recv(2) takes the oldest. *)
Class NetlinkLaws `{!Endian} {W K : Type} `{!NetlinkSockets W} (kernel : W → K)
    (pending : W → list (list Z)) (perform : IpvsCommand → K → Z * K) (id : Z) : Prop := {
  id_range : 0 ≤ id < 2 ^ 16;
  socket_opens w : ∃ sock w', nl_socket w = (inr sock, w') ∧ pending w' = [] ∧ kernel w' = kernel w;
  bind_succeeds sock w : ∃ w', nl_bind sock w = (inr tt, w') ∧ pending w' = pending w ∧
                               kernel w' = kernel w;
  send_family sock msg seq w :
    decode_message msg = Some (GENL_ID_CTRL, CTRL_CMD_GETFAMILY, seq, family_payload) →
    ∃ reply ack w', nl_send sock msg w = (inr tt, w') ∧
      is_family_reply id reply ∧ is_ack 0 ack ∧
      pending w' = pending w ++ [reply; ack] ∧ kernel w' = kernel w;
  send_command sock msg cmd seq p c w :
    decode_message msg = Some (id, cmd, seq, p) → decode_command cmd p = Some c →
    ∃ ack w', nl_send sock msg w = (inr tt, w') ∧
      is_ack (perform c (kernel w)).1 ack ∧
      pending w' = pending w ++ [ack] ∧ kernel w' = (perform c (kernel w)).2;
  recv_takes sock n w d q :
    pending w = d :: q → Z.of_nat (length d) ≤ n →
    ∃ w', nl_recv sock n w = (inr d, w') ∧ pending w' = q ∧ kernel w' = kernel w;
  close_keeps sock w : kernel (nl_close sock w) = kernel w;
}.

Section kernel.
Context `{!Endian} {W K : Type} `{!NetlinkSockets W} {kernel : W → K}
  {pending : W → list (list Z)} {perform : IpvsCommand → K → Z * K} {id : Z}.
Context `{HL : !NetlinkLaws kernel pending perform id} `{!CommandRunner W}.

Lemma ack_success d : is_ack 0 d → reply_error d = None.
Proof.
  intros (Hl & _ & Ht & He). unfold reply_error. rewrite Ht, He.
  by destruct (Nat.leb_spec 20 (length d)).
Qed.

Lemma family_reply_success d : is_family_reply id d → reply_error d = None.
Proof. intros (Hl & _ & Ht & _). unfold reply_error. rewrite Ht. by rewrite andb_false_r. Qed.

(** A request whose send succeeds and leaves [d] first in the queue. *)
Lemma request_run (g : Genl) (w w1 : W) family cmd p d q :
  let n := (seq g + 1) `mod` 2 ^ 32 in
  nl_send (fd g) (message family cmd n p) w = (inr tt, w1) →
  pending w1 = d :: q → Z.of_nat (length d) ≤ 8192 → reply_error d = None →
  ∃ w2, request family cmd p (g, w) =
          (inr d, ({| fd := fd g; seq := n; family := Genetlink.family g |}, w2)) ∧
        pending w2 = q ∧ kernel w2 = kernel w1.
Proof.
  intros n Hs Hq Hl Hr. destruct (recv_takes (fd g) 8192 w1 d q Hq Hl) as (w2 & Hv & Hp & Hk).
  exists w2. split; [|done]. unfold request, mbind, M_bind, next_seq, mget, world, mzoom.
  cbn [fst snd fd]. fold n. rewrite Hs. cbn [fst snd fd]. rewrite Hv. by rewrite Hr.
Qed.

(** Opening resolves the family and leaves the acknowledgement of that request
    in the queue. *)
Lemma genl_open_run w :
  ∃ g ack w', genl_open w = (inr g, w') ∧ family g = id ∧ seq g = 1 ∧
    is_ack 0 ack ∧ pending w' = [ack] ∧ kernel w' = kernel w.
Proof.
  destruct (socket_opens w) as (sock & w1 & Hs & Hp1 & Hk1).
  destruct (bind_succeeds sock w1) as (w2 & Hb & Hp2 & Hk2).
  destruct (send_family sock (message GENL_ID_CTRL CTRL_CMD_GETFAMILY 1 family_payload) 1 w2)
    as (reply & ack & w3 & Hd & Hreply & Hack & Hp3 & Hk3).
  { apply decode_message_message; [done|done|]. by destruct ne_big eqn:E; unfold family_payload, nla, ne_bytes; rewrite E. }
  rewrite Hp2, Hp1 in Hp3. cbn [app] in Hp3.
  destruct (request_run {| fd := sock; seq := 0; family := 0 |} w2 w3 GENL_ID_CTRL
              CTRL_CMD_GETFAMILY family_payload reply [ack]) as (w4 & Hr & Hp4 & Hk4);
    [done|done|apply Hreply|by apply family_reply_success|].
  exists {| fd := sock; seq := 1; family := id |}, ack, w4.
  split; [|split_and!; [done..|congruence]].
  destruct Hreply as (_ & _ & _ & l & Hl & Hid).
  unfold genl_open. rewrite Hs, Hb. unfold resolve_family, mbind, M_bind. rewrite Hr.
  by rewrite (scan_attrs _ l Hl), Hid.
Qed.

Lemma asks_length cmd p c : asks cmd p c → (length p ≤ 4000)%nat.
Proof.
  assert (∀ t l, 0 ≤ t < 65536 → Forall short l → (length l ≤ 10)%nat →
            (length (nla t (nlas l)) ≤ 2000)%nat) as Hn.
  { intros t l Ht Hl Hlen. pose proof (length_nlas l Hl). rewrite length_nla by (done || lia).
    pose proof (align4_bounds (4 + length (nlas l))). lia. }
  assert (∀ svc, (length (service_attr svc) ≤ 2000)%nat) as H1.
  { intros. rewrite service_attr_eq. apply Hn; [done|apply service_attrs_short|cbn; lia]. }
  assert (∀ svc, (length (service_identity_attr svc) ≤ 2000)%nat) as H2.
  { intros. rewrite service_identity_attr_eq. apply Hn; [done|apply key_attrs_short|cbn; lia]. }
  assert (∀ m s q, (length (fwmark_service_attr m s q) ≤ 2000)%nat) as H3.
  { intros. rewrite fwmark_service_attr_eq. apply Hn; [done|apply fwmark_attrs_short|cbn; lia]. }
  assert (∀ d, (length (dest_attr d) ≤ 2000)%nat) as H4.
  { intros. rewrite dest_attr_eq. apply Hn; [done|apply dest_attrs_short|cbn; lia]. }
  intros Ha. destruct Ha as [svc|svc|svc|svc dst|svc dst|m s q|m dst]; rewrite ?length_app;
    try pose proof (H4 dst); first
    [pose proof (H1 svc); lia | pose proof (H2 svc); lia
    | pose proof (H3 m s q); lia | pose proof (H3 m Rr None); lia].
Qed.

(** The operations of [SystemIpvs] that go through the socket, by the command. *)
Lemma socket_command_run cmd p c args w :
  asks cmd p c →
  ∃ w', genl_or (command cmd p) args w = (inr tt, w') ∧ kernel w' = (perform c (kernel w)).2.
Proof.
  intros Ha. destruct (genl_open_run w) as (g & ack & w1 & Ho & Hf & Hseq & Hack & Hp1 & Hk1).
  pose proof (asks_length _ _ _ Ha).
  destruct (send_command (fd g) (message id cmd 2 p) cmd 2 p c w1) as (ack' & w2 & Hs & _ & Hp2 & Hk2).
  { apply decode_message_message; [apply id_range|done|lia]. }
  { by apply asks_decodes. }
  rewrite Hp1 in Hp2. cbn [app] in Hp2.
  destruct (request_run g w1 w2 id cmd p ack [ack']) as (w3 & Hr & _ & Hk3);
    [by rewrite Hseq|done|apply Hack|by apply ack_success|].
  eexists. split.
  - unfold genl_or, via_genl, command, mbind, M_bind, mget, fmap, M_fmap. rewrite Ho. cbn [fst].
    rewrite Hf, Hr. done.
  - rewrite close_keeps, Hk3, Hk2, Hk1. done.
Qed.

(** The operations of [IpvsOps] that [SystemIpvs] tries on the socket, and the
    commands they stand for; a firewall-mark service is always of IPv4. *)
Inductive op_asks : M W IpvsError unit → IpvsCommand → Prop :=
  | op_add_service svc : service_wf svc →
      op_asks (add_service (IpvsOps := system_ipvs_ops) svc) (NewService svc)
  | op_edit_service svc : service_wf svc →
      op_asks (edit_service (IpvsOps := system_ipvs_ops) svc) (SetService svc)
  | op_del_service svc : service_wf svc →
      op_asks (del_service (IpvsOps := system_ipvs_ops) svc) (DelService (vs_key svc))
  | op_add_destination svc dst : service_wf svc → dest_wf dst →
      op_asks (add_destination (IpvsOps := system_ipvs_ops) svc dst) (NewDest (vs_key svc) dst)
  | op_del_destination svc dst : service_wf svc → dest_wf dst →
      op_asks (del_destination (IpvsOps := system_ipvs_ops) svc dst) (DelDest (vs_key svc) dst)
  | op_add_fwmark_service m s p :
      0 ≤ m < 2 ^ 32 → match p with Some t => 0 ≤ t < 2 ^ 32 | None => True end →
      op_asks (add_fwmark_service (IpvsOps := system_ipvs_ops) m s p) (NewFwService AF_INET m s p)
  | op_add_fwmark_destination m dst : 0 ≤ m < 2 ^ 32 → dest_wf dst →
      op_asks (add_fwmark_destination (IpvsOps := system_ipvs_ops) m dst) (NewFwDest AF_INET m dst).

(** C16: Where IPVS is available over the socket, every operation makes the kernel
    perform exactly its command, once, and then reports success whatever the
    kernel answered: what it reads is the acknowledgement of the request that
    resolved the family. *)
Theorem kernel_refusals_unseen m c w :
  op_asks m c →
  ∃ w', m w = (inr tt, w') ∧ kernel w' = (perform c (kernel w)).2.
Proof.
  intros Hm. destruct Hm as [svc H1|svc H1|svc H1|svc dst H1 H2|svc dst H1 H2|fm s p H1 H2|fm dst H1 H2].
  - exact (socket_command_run _ _ _ (IpvsArgs.add_service_args svc) w (asks_add_service svc H1)).
  - exact (socket_command_run _ _ _ (IpvsArgs.edit_service_args svc) w (asks_set_service svc H1)).
  - exact (socket_command_run _ _ _ (IpvsArgs.del_service_args svc) w (asks_del_service svc H1)).
  - exact (socket_command_run _ _ _ (IpvsArgs.add_dest_args svc dst) w
             (asks_add_destination svc dst H1 H2)).
  - exact (socket_command_run _ _ _ (IpvsArgs.del_dest_args svc dst) w
             (asks_del_destination svc dst H1 H2)).
  - exact (socket_command_run _ _ _ (IpvsArgs.add_fwmark_service_args fm s p) w
             (asks_add_fwmark_service fm s p H1 H2)).
  - exact (socket_command_run _ _ _ (IpvsArgs.add_fwmark_dest_args fm dst) w
             (asks_add_fwmark_destination fm dst H1 H2)).
Qed.
End kernel.

(** C17: What the program sends decodes to what it means: the message to its family,
    command, sequence number and payload, and the payload to the service,
    destination or firewall mark it was built from. *)
Theorem ipvs_requests_decode `{!Endian} family cmd seq p c :
  asks cmd p c → 0 ≤ family < 2 ^ 16 → 0 ≤ seq < 2 ^ 32 →
  decode_message (message family cmd seq p) = Some (family, cmd, seq, p) ∧
  decode_command cmd p = Some c.
Proof.
  intros Ha Hf Hs. pose proof (asks_length _ _ _ Ha). split; [|by apply asks_decodes].
  apply decode_message_message; [done|done|lia].
Qed.

(** ** A kernel that refuses *)

Module Refusing.

#[local] Instance little : Endian := {| ne_big := false |}.

(** Destinations are accepted, everything else is refused with EPERM. *)
Definition perform (c : IpvsCommand) (k : list IpvsCommand) : Z * list IpvsCommand :=
  match c with NewDest _ _ => (0, k ++ [c]) | _ => (1, k) end.

Record World := { log : list IpvsCommand; queue : list (list Z) }.

Definition push (ds : list (list Z)) (w : World) : World :=
  {| log := log w; queue := queue w ++ ds |}.

Definition ack (e : Z) : list Z :=
  ne_bytes 4 36 ++ ne_bytes 2 NLMSG_ERROR ++ ne_bytes 2 0 ++ ne_bytes 4 0 ++ ne_bytes 4 0 ++
  ne_bytes 4 ((- e) `mod` 2 ^ 32) ++ replicate 16 0.
Definition family_reply : list Z :=
  ne_bytes 4 28 ++ ne_bytes 2 GENL_ID_CTRL ++ replicate 14 0 ++ nla_u16 CTRL_ATTR_FAMILY_ID 28.

#[local] Instance sockets : NetlinkSockets World := {|
  nl_socket w := (inr 3, {| log := log w; queue := [] |});
  nl_bind _ w := (inr tt, w);
  nl_send _ msg w :=
    match decode_message msg with
    | Some (family, cmd, _, p) =>
        if decide (family = GENL_ID_CTRL) then (inr tt, push [family_reply; ack 0] w)
        else
          match decode_command cmd p with
          | Some c => let '(e, k) := perform c (log w) in
                      (inr tt, {| log := k; queue := queue w ++ [ack e] |})
          | None => (inr tt, push [ack 22] w)
          end
    | None => (inr tt, w)
    end;
  nl_recv _ _ w :=
    match queue w with
    | d :: q => (inr d, {| log := log w; queue := q |})
    | [] => (inl (OsError 11), w)
    end;
  nl_close _ w := w;
|}.

#[local] Instance no_commands : CommandRunner World := {|
  run_command _ _ _ w := (inl "no such file", w)
|}.

Lemma acks e : e = 0 ∨ e = 1 → is_ack e (ack e).
Proof. intros [-> | ->]; repeat split; vm_compute; try done; lia. Qed.

#[local] Instance laws : NetlinkLaws log queue perform 28.
Proof.
  split.
  - done.
  - intros w. by eexists _, _.
  - intros sock w. by eexists.
  - intros sock msg seq w Hd. eexists family_reply, (ack 0), _. split; [cbn; by rewrite Hd|].
    split_and!; [|by apply acks; left|done|done].
    split_and!; [vm_compute; lia|vm_compute; done|done|]. by eexists.
  - intros sock msg cmd seq p c w Hd Hc.
    exists (ack (perform c (log w)).1),
      {| log := (perform c (log w)).2; queue := queue w ++ [ack (perform c (log w)).1] |}.
    split; [cbn; rewrite Hd, Hc; cbn; by destruct (perform c (log w))|].
    split_and!; [|done..].
    apply acks. by destruct c; cbn; auto.
  - intros sock n w d q Hq _. eexists. split; [cbn; by rewrite Hq|done].
  - done.
Defined.

Definition svc : IpvsService :=
  {| vs_addr := V4 174063626; vs_protocol := Tcp; vs_port := 80; vs_scheduler := Mh;
     vs_sched_flags := {| flag1 := true; flag2 := false; flag3 := true |};
     vs_persistent := Some 10800 |}.
Definition start : World := {| log := []; queue := [] |}.

Lemma svc_wf : service_wf svc.
Proof. split_and!; done. Qed.

Lemma kernel_refusals_unseen_witness :
  perform (NewService svc) [] = (1, []) ∧
  ∃ w', add_service (IpvsOps := system_ipvs_ops) svc start = (inr tt, w') ∧ log w' = [].
Proof.
  split; [done|].
  exact (kernel_refusals_unseen (kernel := log) (pending := queue) (perform := perform)
           (id := 28) _ (NewService svc) start (op_add_service svc svc_wf)).
Defined.

Lemma ipvs_requests_decode_witness :
  decode_message (message 28 IPVS_CMD_NEW_SERVICE 2 (service_attr svc)) =
    Some (28, IPVS_CMD_NEW_SERVICE, 2, service_attr svc) ∧
  decode_command IPVS_CMD_NEW_SERVICE (service_attr svc) = Some (NewService svc).
Proof.
  apply (ipvs_requests_decode 28 IPVS_CMD_NEW_SERVICE 2 (service_attr svc) (NewService svc));
    [exact (asks_add_service svc svc_wf)|lia|lia].
Defined.

Lemma scan_family_correct_witness :
  scan_family 9 (nla_u16 CTRL_ATTR_FAMILY_ID 28) 0 = Some (Some 28).
Proof.
  exact (proj2 (scan_family_correct (nla_u16 CTRL_ATTR_FAMILY_ID 28))
           [(CTRL_ATTR_FAMILY_ID, ne_bytes 2 28)] eq_refl).
Defined.

End Refusing.
