(* ===== verification/Netpol.v ===== *)
(** * Netpol: network policies ([crates/netpol], except [synth.rs])

    The projected policy objects and selectors ([model.rs]) are at the top of
    the file; [Names] is [naming.rs], [Translate] is [translate.rs], [Ipset] is
    [ipset.rs] and [Iptables] is [iptables.rs]. *)

From stdpp Require Import gmap sets list strings pretty.
From Stdlib Require Import Ascii ZArith.
From S2P Require Import Prelude Text Net Common Netlink.

Local Open Scope Z_scope.

(** ** Policy objects ([model.rs]) *)

Inductive SelectorOp := In | NotIn | Exists | DoesNotExist.

Record SelectorRequirement := {
  sr_key : string;
  sr_operator : option SelectorOp;   (* [None]: an operator that is not recognised *)
  sr_values : list string;
}.

Record LabelSelector := {
  match_labels : gmap string string;
  match_expressions : list SelectorRequirement;
}.

Definition from_labels (labels : gmap string string) : LabelSelector :=
  {| match_labels := labels; match_expressions := [] |}.

Definition requirement_holds (labels : gmap string string) (req : SelectorRequirement) : bool :=
  let value := labels !! sr_key req in
  match sr_operator req with
  | Some In => match value with Some v => list_contains (sr_values req) v | None => false end
  | Some NotIn => match value with Some v => negb (list_contains (sr_values req) v) | None => true end
  | Some Exists => match value with Some _ => true | None => false end
  | Some DoesNotExist => match value with Some _ => false | None => true end
  | None => false
  end.

Definition selector_matches (selector : LabelSelector) (labels : gmap string string) : bool :=
  forallb (λ kv, match labels !! kv.1 with
                 | Some lv => bool_decide (lv = kv.2)
                 | None => false
                 end) (btree_iter (match_labels selector)) &&
  forallb (requirement_holds labels) (match_expressions selector).

Record ContainerPort := { cp_name : option string; cp_protocol : string; cp_port : Z }.

Record Pod := {
  pod_namespace : string;
  pod_name : string;
  pod_labels : gmap string string;
  pod_ips : list IpAddr;
  pod_node_name : string;
  pod_host_network : bool;
  pod_container_ports : list ContainerPort;
}.

Record Namespace := { ns_name : string; ns_labels : gmap string string }.

Inductive Peer `{IpNetLib} :=
| PeerSelector (namespace_selector pod_selector : option LabelSelector)
| PeerIpBlock (cidr : IpNet) (except : list IpNet).

Inductive PortRef := PortAll | PortNumber (n : Z) | PortName (name : string).

Record PortSpec := { ps_protocol : string; ps_port : PortRef }.

Record PolicyRule `{IpNetLib} := { pr_peers : list Peer; pr_ports : list PortSpec }.

Record PolicyTypes := { pt_ingress : bool; pt_egress : bool }.

Record NetworkPolicy `{IpNetLib} := {
  np_namespace : string;
  np_name : string;
  np_pod_selector : LabelSelector;
  np_policy_types : PolicyTypes;
  np_ingress : list PolicyRule;
  np_egress : list PolicyRule;
}.

Definition selected_local_pods `{IpNetLib} (self : NetworkPolicy) (pods : list Pod)
    (node_name : string) : list Pod :=
  filter (λ p,
    bool_decide (pod_namespace p = np_namespace self) &&
    bool_decide (pod_node_name p = node_name) && negb (pod_host_network p) &&
    negb (bool_decide (pod_ips p = [])) &&
    selector_matches (np_pod_selector self) (pod_labels p) = true) pods.

(** ** Chain and set names ([naming.rs]) *)

Module Names.
Import Naming.

Definition ROUTER_INPUT : string := "KUBE-ROUTER-INPUT".
Definition ROUTER_FORWARD : string := "KUBE-ROUTER-FORWARD".
Definition ROUTER_OUTPUT : string := "KUBE-ROUTER-OUTPUT".
Definition NWPLCY_COMMON : string := "KUBE-NWPLCY-COMMON".
Definition NWPLCY_DEFAULT : string := "KUBE-NWPLCY-DEFAULT".
Definition NWPLCY_TAIL : string := "KUBE-NWPLCY-TAIL".
Definition MARK_MATCHED : string := "0x10000/0x10000".
Definition MARK_ACCEPTED : string := "0x20000/0x20000".
Definition LOCAL_PODS_SET : string := "kube-router-local-pods".

Definition local_pods_set (family : IpFamily) : string :=
  match family with
  | FamV4 => LOCAL_PODS_SET
  | FamV6 => LOCAL_PODS_SET +:+ "-inet6"
  end.

Definition fam (family : IpFamily) : string :=
  match family with FamV4 => "IPv4" | FamV6 => "IPv6" end.

Section names.
Context `{HashLib}.

Definition src_set (namespace policy : string) (family : IpFamily) : string :=
  SRC_PREFIX +:+ hash16 (namespace +:+ policy +:+ fam family).

Definition dst_set (namespace policy : string) (family : IpFamily) : string :=
  DST_PREFIX +:+ hash16 (namespace +:+ policy +:+ fam family).

Definition indexed_src_set (namespace policy : string) (rule : nat) (family : IpFamily) : string :=
  SRC_PREFIX +:+ hash16 (namespace +:+ policy +:+ "ingress" +:+ pretty rule +:+ fam family).

Definition indexed_dst_set (namespace policy : string) (rule : nat) (family : IpFamily) : string :=
  DST_PREFIX +:+ hash16 (namespace +:+ policy +:+ "egress" +:+ pretty rule +:+ fam family).

Definition indexed_src_pod_set (namespace policy : string) (rule : nat) (family : IpFamily)
    : string :=
  SRC_PREFIX +:+
  hash16 (namespace +:+ policy +:+ "ingressrule" +:+ pretty rule +:+ fam family +:+ "pod").

Definition indexed_src_ipblock_set (namespace policy : string) (rule : nat) (family : IpFamily)
    : string :=
  SRC_PREFIX +:+
  hash16 (namespace +:+ policy +:+ "ingressrule" +:+ pretty rule +:+ fam family +:+ "ipblock").

Definition indexed_dst_pod_set (namespace policy : string) (rule : nat) (family : IpFamily)
    : string :=
  DST_PREFIX +:+
  hash16 (namespace +:+ policy +:+ "egressrule" +:+ pretty rule +:+ fam family +:+ "pod").

Definition indexed_dst_ipblock_set (namespace policy : string) (rule : nat) (family : IpFamily)
    : string :=
  DST_PREFIX +:+
  hash16 (namespace +:+ policy +:+ "egressrule" +:+ pretty rule +:+ fam family +:+ "ipblock").

Definition indexed_ingress_named_port_set (namespace policy : string) (rule ep : nat)
    (family : IpFamily) : string :=
  DST_PREFIX +:+
  hash16 (namespace +:+ policy +:+ "ingressrule" +:+ pretty rule +:+ pretty ep +:+ fam family
          +:+ "namedport").

Definition indexed_egress_named_port_set (namespace policy : string) (rule ep : nat)
    (family : IpFamily) : string :=
  DST_PREFIX +:+
  hash16 (namespace +:+ policy +:+ "egressrule" +:+ pretty rule +:+ pretty ep +:+ fam family
          +:+ "namedport").
End names.

Definition validate_node_port_range (range : string) : option string :=
  '(a, b) ← split_once_by (λ c, bool_decide (c = "-"%char) || bool_decide (c = ":"%char)) range;
  lo ← parse_u16 (trim a);
  hi ← parse_u16 (trim b);
  if hi <=? lo then None else Some (pretty lo +:+ ":" +:+ pretty hi).
End Names.

(** ** Resolution of peers ([translate.rs]) *)

Module Translate.

Record ResolvedPeers := {
  ip_entries : list string;
  net_entries : list string;
  match_all : bool;
}.

Definition ip_in_family (ip : IpAddr) (family : IpFamily) : bool :=
  match ip, family with V4 _, FamV4 | V6 _, FamV6 => true | _, _ => false end.

Definition matched_namespaces (selector : option LabelSelector) (namespaces : list Namespace)
    (default_ns : string) : gset string :=
  match selector with
  | None => {[default_ns]}
  | Some sel => list_to_set (ns_name <$> filter (λ n, selector_matches sel (ns_labels n) = true) namespaces)
  end.

Section resolve.
Context `{IpNetLib}.

(** [IpNet::V4] or [IpNet::V6] against the family. *)
Definition net_in_family (net : IpNet) (family : IpFamily) : bool :=
  bool_decide (of_net net = family).

Definition peer_pods (pods : list Pod) (nss : gset string) (pod_selector : option LabelSelector)
    : list Pod :=
  filter (λ p,
    bool_decide (pod_namespace p ∈ nss) && negb (pod_host_network p) &&
    match pod_selector with Some s => selector_matches s (pod_labels p) | None => true end = true)
    pods.

Definition family_strings (ips : list IpAddr) (family : IpFamily) : list string :=
  ip_to_string <$> filter (λ ip, ip_in_family ip family = true) ips.

(** The body of the loop over the peers, on the entries collected so far. *)
Definition resolve_peer (pods : list Pod) (namespaces : list Namespace) (policy_ns : string)
    (family : IpFamily) (acc : gset string * list string) (peer : Peer)
    : gset string * list string :=
  match peer with
  | PeerSelector namespace_selector pod_selector =>
      let nss := matched_namespaces namespace_selector namespaces policy_ns in
      (list_to_set (peer_pods pods nss pod_selector ≫= λ p, family_strings (pod_ips p) family)
         ∪ acc.1, acc.2)
  | PeerIpBlock cidr except =>
      if negb (net_in_family cidr family) then acc
      else (acc.1, acc.2 ++ net_to_string cidr ::
                   ((λ ex, net_to_string ex +:+ " nomatch") <$> except))
  end.

Definition resolve_peers (peers : list Peer) (pods : list Pod) (namespaces : list Namespace)
    (policy_ns : string) (family : IpFamily) : ResolvedPeers :=
  match peers with
  | [] => {| ip_entries := []; net_entries := []; match_all := true |}
  | _ =>
      let '(ips, nets) :=
        foldl (resolve_peer pods namespaces policy_ns family) (∅, []) peers in
      {| ip_entries := bset_iter ips; net_entries := nets; match_all := false |}
  end.
End resolve.
End Translate.

(** ** ipset ([ipset.rs]) *)

Module Ipset.

Inductive SetType := HashIp | HashNet.

#[export] Instance SetType_eq_dec : EqDecision SetType.
Proof. solve_decision. Defined.

Definition set_type_str (t : SetType) : string :=
  match t with HashIp => "hash:ip" | HashNet => "hash:net" end.

Definition family_kw (family : IpFamily) : string :=
  match family with FamV4 => "inet" | FamV6 => "inet6" end.

Definition build_restore_payload (set : string) (set_type : SetType) (family : IpFamily)
    (entries : list string) : string :=
  let tmp := "TMP-" +:+ set in
  let typ := set_type_str set_type in
  let fam := family_kw family in
  "create " +:+ set +:+ " " +:+ typ +:+ " family " +:+ fam +:+ " -exist" +:+ newline +:+
  "create " +:+ tmp +:+ " " +:+ typ +:+ " family " +:+ fam +:+ " -exist" +:+ newline +:+
  "flush " +:+ tmp +:+ newline +:+
  str_concat ((λ e, "add " +:+ tmp +:+ " " +:+ e +:+ " -exist" +:+ newline) <$> entries) +:+
  "swap " +:+ tmp +:+ " " +:+ set +:+ newline +:+
  "destroy " +:+ tmp +:+ newline.

Record IpsetError := IpsetErr { ipset_why : string }.

Class IpsetOps (W : Type) := {
  ipset_restore : string → M W IpsetError unit;
  ipset_destroy : string → M W IpsetError unit;
}.

(** [SystemIpset]: the messages of spawning, writing and waiting are not told apart. *)
Definition system_ipset {W} `{!CommandRunner W} : IpsetOps W := {|
  ipset_restore payload := λ w,
    match run_command "ipset" ["restore"; "-exist"] (Some payload) w with
    | (inl e, w) => (inl (IpsetErr ("spawn ipset restore: " +:+ e)), w)
    | (inr (false, _, stderr), w) => (inl (IpsetErr (trim stderr)), w)
    | (inr (true, _, _), w) => (inr tt, w)
    end;
  ipset_destroy name := λ w,
    match run_command "ipset" ["destroy"; name] None w with
    | (inl e, w) => (inl (IpsetErr ("spawn ipset destroy: " +:+ e)), w)
    | (inr (success, _, stderr), w) =>
        if success || str_contains "does not exist" stderr then (inr tt, w)
        else (inl (IpsetErr (trim stderr)), w)
    end;
|}.

Record MockIpset := { restores : list string; destroyed : list string }.

Definition mock_ipset : IpsetOps MockIpset := {|
  ipset_restore payload := λ w,
    (inr tt, {| restores := restores w ++ [payload]; destroyed := destroyed w |});
  ipset_destroy name := λ w,
    (inr tt, {| restores := restores w; destroyed := destroyed w ++ [name] |});
|}.
End Ipset.

(** ** iptables ([iptables.rs]) *)

Module Iptables.

Record IptablesError := IptablesErr { iptables_why : string }.

(** One instance per family, so a record. *)
Record IptablesOps (W : Type) := {
  save_filter : M W IptablesError string;
  restore_filter : string → M W IptablesError unit;
  ensure_jump : string → string → M W IptablesError unit;
}.
Arguments save_filter {W}.
Arguments restore_filter {W}.
Arguments ensure_jump {W}.

Definition filter_restore_doc (decls rules : list string) : string :=
  "*filter" +:+ newline +:+
  str_concat ((λ d, d +:+ newline) <$> decls) +:+
  str_concat ((λ r, r +:+ newline) <$> rules) +:+
  "COMMIT" +:+ newline.

Definition base_of (family : IpFamily) : string :=
  match family with FamV4 => "iptables" | FamV6 => "ip6tables" end.

(** [SystemIptables] *)
Definition system_iptables {W} `{!CommandRunner W} (family : IpFamily) : IptablesOps W :=
  let base := base_of family in {|
  save_filter := λ w,
    match run_command (base +:+ "-save") ["-t"; "filter"] None w with
    | (inl e, w) => (inl (IptablesErr ("spawn " +:+ base +:+ "-save: " +:+ e)), w)
    | (inr (false, _, stderr), w) => (inl (IptablesErr (trim stderr)), w)
    | (inr (true, stdout, _), w) => (inr stdout, w)
    end;
  restore_filter table_doc := λ w,
    match run_command (base +:+ "-restore") ["--wait"; "-T"; "filter"; "--noflush"]
            (Some table_doc) w with
    | (inl e, w) => (inl (IptablesErr ("spawn " +:+ base +:+ "-restore: " +:+ e)), w)
    | (inr (false, _, stderr), w) => (inl (IptablesErr (trim stderr)), w)
    | (inr (true, _, _), w) => (inr tt, w)
    end;
  ensure_jump builtin target := λ w,
    match run_command base ["-w"; "-C"; builtin; "-j"; target] None w with
    | (inl e, w) => (inl (IptablesErr ("spawn " +:+ base +:+ " -C: " +:+ e)), w)
    | (inr (true, _, _), w) => (inr tt, w)
    | (inr (false, _, _), w) =>
        match run_command base ["-w"; "-I"; builtin; "1"; "-j"; target] None w with
        | (inl e, w) => (inl (IptablesErr ("spawn " +:+ base +:+ " -I: " +:+ e)), w)
        | (inr (false, _, stderr), w) => (inl (IptablesErr (trim stderr)), w)
        | (inr (true, _, _), w) => (inr tt, w)
        end
    end;
|}.

Record MockIptables := {
  save_output : string;
  doc_restores : list string;
  jumps : list (string * string);
}.

Definition mock_iptables : IptablesOps MockIptables := {|
  save_filter := λ w, (inr (save_output w), w);
  restore_filter table_doc := λ w,
    (inr tt, {| save_output := save_output w; doc_restores := doc_restores w ++ [table_doc];
                jumps := jumps w |});
  ensure_jump builtin target := λ w,
    (inr tt, {| save_output := save_output w; doc_restores := doc_restores w;
                jumps := jumps w ++ [(builtin, target)] |});
|}.
End Iptables.
