(* ===== verification/Synth.v ===== *)
(** * Synth: firewall synthesis and the policy controller

    [crates/netpol/src/synth.rs]: policies, pods and namespaces to ipsets and
    the rule lines of an [iptables-restore] document for one family; and
    [controller.rs], which applies them. *)

From stdpp Require Import gmap sets list strings pretty sorting.
From Stdlib Require Import Ascii ZArith.
From S2P Require Import Prelude Text Net Common Netlink Netpol.
Import Naming Names Translate Ipset.

Local Open Scope Z_scope.

Record IpsetPlan := {
  ipl_name : string;
  ipl_type : SetType;
  ipl_family : IpFamily;
  ipl_entries : list string;
}.

Record FirewallPlan := {
  fp_ipsets : list IpsetPlan;
  fp_decls : list string;
  fp_rules : list string;
}.

Definition push_ipset (x : IpsetPlan) (p : FirewallPlan) : FirewallPlan :=
  {| fp_ipsets := fp_ipsets p ++ [x]; fp_decls := fp_decls p; fp_rules := fp_rules p |}.
Definition push_decl (d : string) (p : FirewallPlan) : FirewallPlan :=
  {| fp_ipsets := fp_ipsets p; fp_decls := fp_decls p ++ [d]; fp_rules := fp_rules p |}.
Definition push_rules (l : list string) (p : FirewallPlan) : FirewallPlan :=
  {| fp_ipsets := fp_ipsets p; fp_decls := fp_decls p; fp_rules := fp_rules p ++ l |}.

Definition reject_target (family : IpFamily) : string :=
  match family with
  | FamV4 => "REJECT --reject-with icmp-port-unreachable"
  | FamV6 => "REJECT --reject-with icmp6-port-unreachable"
  end.

Definition common_icmp_rules (family : IpFamily) : list (string * string * string) :=
  match family with
  | FamV4 =>
      [("icmp", "--icmp-type", "echo-request");
       ("icmp", "--icmp-type", "destination-unreachable");
       ("icmp", "--icmp-type", "time-exceeded")]
  | FamV6 =>
      [("icmpv6", "--icmpv6-type", "echo-request");
       ("icmpv6", "--icmpv6-type", "destination-unreachable");
       ("icmpv6", "--icmpv6-type", "time-exceeded");
       ("icmpv6", "--icmpv6-type", "neighbor-solicitation");
       ("icmpv6", "--icmpv6-type", "neighbor-advertisement");
       ("icmpv6", "--icmpv6-type", "echo-reply")]
  end.

Inductive Direction := Ingress | Egress.

(** [v.dedup()]: adjacent duplicates. *)
Fixpoint dedup (l : list string) : list string :=
  match l with
  | [] => []
  | x :: l' =>
      match dedup l' with
      | y :: r => if decide (x = y) then y :: r else x :: y :: r
      | [] => [x]
      end
  end.

(** The MARK and RETURN pair of one matching rule. *)
Definition push_policy_verdict (pchain src_match target_match port_match : string)
    (plan : FirewallPlan) : FirewallPlan :=
  push_rules
    ["-A " +:+ pchain +:+ src_match +:+ target_match +:+ port_match +:+
       " -j MARK --set-xmark " +:+ MARK_MATCHED;
     "-A " +:+ pchain +:+ src_match +:+ target_match +:+ port_match +:+
       " -m mark --mark " +:+ MARK_MATCHED +:+ " -j RETURN"] plan.

Definition pod_family_ips (pod : Pod) (family : IpFamily) : list string :=
  family_strings (pod_ips pod) family.

(** The receiver addresses of a named port, grouped by the number the name
    resolves to. *)
Definition named_groups (receivers : list Pod) (name protocol : string) (family : IpFamily)
    : gmap Z (list string) :=
  foldl (λ groups pod,
    foldl (λ groups cp,
      if bool_decide (cp_name cp = Some name) && bool_decide (cp_protocol cp = protocol)
      then <[cp_port cp := default [] (groups !! cp_port cp) ++ pod_family_ips pod family]> groups
      else groups) groups (pod_container_ports pod)) ∅ receivers.

Section synth.
Context `{IpNetLib} `{HashLib}.

Definition policy_selects (policy : NetworkPolicy) (pod : Pod) : bool :=
  bool_decide (pod_namespace pod = np_namespace policy) &&
  selector_matches (np_pod_selector policy) (pod_labels pod).

(** The source or destination set match of the policy's own pods or of peers. *)
Definition set_match (set side : string) : string :=
  " -m set --match-set " +:+ set +:+ " " +:+ side.

Definition target_side (dir : Direction) : string :=
  match dir with Ingress => "dst" | Egress => "src" end.
Definition peer_side (dir : Direction) : string :=
  match dir with Ingress => "src" | Egress => "dst" end.

Definition peer_sets (dir : Direction) (pol : NetworkPolicy) (idx : nat) (family : IpFamily)
    : string * string :=
  match dir with
  | Ingress => (indexed_src_pod_set (np_namespace pol) (np_name pol) idx family,
                indexed_src_ipblock_set (np_namespace pol) (np_name pol) idx family)
  | Egress => (indexed_dst_pod_set (np_namespace pol) (np_name pol) idx family,
               indexed_dst_ipblock_set (np_namespace pol) (np_name pol) idx family)
  end.

(** The peer sets of a rule, and the matches on them. *)
Definition push_peer_sets (dir : Direction) (pol : NetworkPolicy) (idx : nat)
    (family : IpFamily) (resolved : ResolvedPeers) (plan : FirewallPlan)
    : FirewallPlan * list string :=
  let '(pod_set, ipblock_set) := peer_sets dir pol idx family in
  if match_all resolved then (plan, [""])
  else
    let '(plan, matches) :=
      match ip_entries resolved with
      | [] => (plan, [])
      | es => (push_ipset {| ipl_name := pod_set; ipl_type := HashIp; ipl_family := family;
                             ipl_entries := es |} plan, [set_match pod_set (peer_side dir)])
      end in
    match net_entries resolved with
    | [] => (plan, matches)
    | es => (push_ipset {| ipl_name := ipblock_set; ipl_type := HashNet; ipl_family := family;
                           ipl_entries := es |} plan,
             matches ++ [set_match ipblock_set (peer_side dir)])
    end.

(** The pods a named port is resolved against. *)
Definition port_receivers (dir : Direction) (pol : NetworkPolicy) (pods : list Pod)
    (family : IpFamily) (resolved : ResolvedPeers) : list Pod :=
  match dir with
  | Ingress => filter (λ p, policy_selects pol p = true) pods
  | Egress =>
      if match_all resolved then filter (λ p, pod_namespace p = np_namespace pol) pods
      else filter (λ p, existsb (λ ip, list_contains (ip_entries resolved) ip)
                          (pod_family_ips p family) = true) pods
  end.

Definition named_port_set (dir : Direction) (pol : NetworkPolicy) (idx ep : nat)
    (family : IpFamily) : string :=
  match dir with
  | Ingress => indexed_ingress_named_port_set (np_namespace pol) (np_name pol) idx ep family
  | Egress => indexed_egress_named_port_set (np_namespace pol) (np_name pol) idx ep family
  end.

(** One group of a named port: its set, and the verdict on it. *)
Definition emit_group (pchain : string) (dir : Direction) (target_match : string)
    (pol : NetworkPolicy) (idx : nat) (family : IpFamily) (peer_match protocol : string)
    (plan : FirewallPlan) (x : nat * (Z * list string)) : FirewallPlan :=
  let '(ep, (resolved_port, ips)) := x in
  let set := named_port_set dir pol idx ep family in
  let plan := push_ipset {| ipl_name := set; ipl_type := HashIp; ipl_family := family;
                            ipl_entries := dedup (merge_sort String.le ips) |} plan in
  let other := match dir with Ingress => peer_match | Egress => target_match end in
  push_policy_verdict pchain other (set_match set "dst")
    (" -p " +:+ protocol +:+ " --dport " +:+ pretty resolved_port) plan.

(** One port of a rule, under one peer match. *)
Definition emit_port (pchain : string) (dir : Direction) (target_match : string)
    (pol : NetworkPolicy) (idx : nat) (family : IpFamily) (receivers : list Pod)
    (peer_match : string) (plan : FirewallPlan) (port : PortSpec) : FirewallPlan :=
  match ps_port port with
  | PortAll =>
      push_policy_verdict pchain peer_match target_match (" -p " +:+ ps_protocol port) plan
  | PortNumber n =>
      push_policy_verdict pchain peer_match target_match
        (" -p " +:+ ps_protocol port +:+ " --dport " +:+ pretty n) plan
  | PortName name =>
      let groups := named_groups receivers name (ps_protocol port) family in
      foldl (emit_group pchain dir target_match pol idx family peer_match (ps_protocol port))
        plan (imap pair (btree_iter groups))
  end.

(** One rule of a policy. *)
Definition emit_rule (pchain : string) (dir : Direction) (target_set : string)
    (pol : NetworkPolicy) (pods : list Pod) (namespaces : list Namespace) (family : IpFamily)
    (plan : FirewallPlan) (x : nat * PolicyRule) : FirewallPlan :=
  let '(idx, rule) := x in
  let target_match := set_match target_set (target_side dir) in
  let resolved := resolve_peers (pr_peers rule) pods namespaces (np_namespace pol) family in
  let '(plan, peer_matches) := push_peer_sets dir pol idx family resolved plan in
  let receivers := port_receivers dir pol pods family resolved in
  foldl (λ plan peer_match,
    match pr_ports rule with
    | [] => push_policy_verdict pchain peer_match target_match "" plan
    | ports =>
        foldl (emit_port pchain dir target_match pol idx family receivers peer_match) plan ports
    end) plan peer_matches.

Definition emit_policy_rules (pchain : string) (rules : list PolicyRule) (dir : Direction)
    (target_set : string) (pol : NetworkPolicy) (pods : list Pod) (namespaces : list Namespace)
    (family : IpFamily) (plan : FirewallPlan) : FirewallPlan :=
  foldl (emit_rule pchain dir target_set pol pods namespaces family) plan (imap pair rules).

(** ** [build_plan] *)

Definition chain_decl (chain : string) : string := ":" +:+ chain +:+ " - [0:0]".

Definition initial_plan : FirewallPlan :=
  {| fp_ipsets := [];
     fp_decls := chain_decl <$>
       [ROUTER_INPUT; ROUTER_FORWARD; ROUTER_OUTPUT; NWPLCY_COMMON; NWPLCY_DEFAULT; NWPLCY_TAIL];
     fp_rules := [] |}.

Definition common_rules (family : IpFamily) : list string :=
  ["-A " +:+ NWPLCY_COMMON +:+ " -m conntrack --ctstate INVALID -j DROP";
   "-A " +:+ NWPLCY_COMMON +:+ " -m conntrack --ctstate RELATED,ESTABLISHED -j ACCEPT"] ++
  ((λ x, "-A " +:+ NWPLCY_COMMON +:+ " -p " +:+ x.1.1 +:+ " " +:+ x.1.2 +:+ " " +:+ x.2 +:+
         " -j ACCEPT") <$> common_icmp_rules family).

Definition default_rules : list string :=
  ["-A " +:+ NWPLCY_DEFAULT +:+ " -j MARK --set-xmark " +:+ MARK_MATCHED].

(** Service addresses and node ports leave the input chain untouched. *)
Definition service_return_rules (family : IpFamily) (service_cluster_ip_ranges : list IpNet)
    (node_port_range : option string) : list string :=
  ((λ range, "-A " +:+ ROUTER_INPUT +:+ " -d " +:+ net_to_string range +:+ " -j RETURN")
     <$> filter (λ c, net_in_family c family = true) service_cluster_ip_ranges) ++
  match node_port_range with
  | Some ports =>
      (λ proto, "-A " +:+ ROUTER_INPUT +:+ " -p " +:+ proto +:+
         " -m addrtype --dst-type LOCAL -m multiport --dports " +:+ ports +:+ " -j RETURN")
        <$> ["tcp"; "udp"; "sctp"]
  | None => []
  end.

Definition policy_applies (p : NetworkPolicy) : bool :=
  pt_ingress (np_policy_types p) || pt_egress (np_policy_types p).

Definition policy_chain (pol : NetworkPolicy) (sync_version : string) (family : IpFamily)
    : string := network_policy_chain (np_namespace pol) (np_name pol) sync_version family.

Definition selected_ips (pol : NetworkPolicy) (pods : list Pod) (family : IpFamily)
    : list string :=
  filter (λ p, policy_selects pol p = true) pods ≫= λ p, pod_family_ips p family.

Definition target_set (dir : Direction) (pol : NetworkPolicy) (family : IpFamily) : string :=
  match dir with
  | Ingress => dst_set (np_namespace pol) (np_name pol) family
  | Egress => src_set (np_namespace pol) (np_name pol) family
  end.

Definition policy_rules (dir : Direction) (pol : NetworkPolicy) : list PolicyRule :=
  match dir with Ingress => np_ingress pol | Egress => np_egress pol end.

Definition policy_has (dir : Direction) (pol : NetworkPolicy) : bool :=
  match dir with
  | Ingress => pt_ingress (np_policy_types pol)
  | Egress => pt_egress (np_policy_types pol)
  end.

(** One direction of a policy: its target set and its rules. *)
Definition emit_direction (pchain : string) (dir : Direction) (pol : NetworkPolicy)
    (pods : list Pod) (namespaces : list Namespace) (family : IpFamily) (plan : FirewallPlan)
    : FirewallPlan :=
  if policy_has dir pol then
    let target := target_set dir pol family in
    emit_policy_rules pchain (policy_rules dir pol) dir target pol pods namespaces family
      (push_ipset {| ipl_name := target; ipl_type := HashIp; ipl_family := family;
                     ipl_entries := selected_ips pol pods family |} plan)
  else plan.

Definition emit_policy (pods : list Pod) (namespaces : list Namespace) (family : IpFamily)
    (sync_version : string) (plan : FirewallPlan) (pol : NetworkPolicy) : FirewallPlan :=
  let pchain := policy_chain pol sync_version family in
  emit_direction pchain Egress pol pods namespaces family
    (emit_direction pchain Ingress pol pods namespaces family
       (push_decl (chain_decl pchain) plan)).

(** The jumps of a pod chain to the policies that select the pod, for one
    address of the pod. *)
Definition policy_jump (podchain ip sync_version : string) (family : IpFamily)
    (pol : NetworkPolicy) : list string :=
  let pc := policy_chain pol sync_version family in
  match pt_ingress (np_policy_types pol), pt_egress (np_policy_types pol) with
  | true, true => ["-A " +:+ podchain +:+ " -j " +:+ pc]
  | true, false => ["-A " +:+ podchain +:+ " -d " +:+ ip +:+ " -j " +:+ pc]
  | false, true => ["-A " +:+ podchain +:+ " -s " +:+ ip +:+ " -j " +:+ pc]
  | false, false => []   (* unreachable: filtered by the caller *)
  end.

Definition pod_dispatch (podchain sync_version : string) (family : IpFamily)
    (selecting : list NetworkPolicy) (ip : string) : list string :=
  (selecting ≫= policy_jump podchain ip sync_version family) ++
  (if existsb (policy_has Ingress) selecting then []
   else ["-A " +:+ podchain +:+ " -d " +:+ ip +:+ " -j " +:+ NWPLCY_DEFAULT]) ++
  (if existsb (policy_has Egress) selecting then []
   else ["-A " +:+ podchain +:+ " -s " +:+ ip +:+ " -j " +:+ NWPLCY_DEFAULT]).

Definition pod_verdict (podchain : string) (family : IpFamily) : list string :=
  ["-A " +:+ podchain +:+ " -m mark ! --mark " +:+ MARK_MATCHED +:+
     " -j NFLOG --nflog-group 100 -m limit --limit 10/minute --limit-burst 10";
   "-A " +:+ podchain +:+ " -m mark ! --mark " +:+ MARK_MATCHED +:+ " -j " +:+
     reject_target family;
   "-A " +:+ podchain +:+ " -j MARK --set-mark 0/0x10000";
   "-A " +:+ podchain +:+ " -j MARK --set-mark " +:+ MARK_ACCEPTED].

Definition pod_entry (podchain ip : string) : list string :=
  ["-A " +:+ ROUTER_FORWARD +:+ " -d " +:+ ip +:+ " -j " +:+ podchain;
   "-A " +:+ ROUTER_OUTPUT +:+ " -d " +:+ ip +:+ " -j " +:+ podchain;
   "-A " +:+ ROUTER_FORWARD +:+ " -m physdev --physdev-is-bridged -d " +:+ ip +:+ " -j " +:+
     podchain] ++
  ((λ chain, "-A " +:+ chain +:+ " -s " +:+ ip +:+ " -j " +:+ podchain)
     <$> [ROUTER_INPUT; ROUTER_FORWARD; ROUTER_OUTPUT]) ++
  ["-A " +:+ ROUTER_FORWARD +:+ " -m physdev --physdev-is-bridged -s " +:+ ip +:+ " -j " +:+
     podchain].

Definition pod_chain (pod : Pod) (sync_version : string) : string :=
  pod_firewall_chain (pod_namespace pod) (pod_name pod) sync_version.

(** All the rules of one pod that some policy selects. *)
Definition pod_rules (sync_version : string) (family : IpFamily)
    (selecting : list NetworkPolicy) (pod : Pod) : list string :=
  let podchain := pod_chain pod sync_version in
  let ips := pod_family_ips pod family in
  ["-A " +:+ podchain +:+ " -j " +:+ NWPLCY_COMMON] ++
  ((λ ip, "-A " +:+ podchain +:+ " -m addrtype --src-type LOCAL -d " +:+ ip +:+ " -j ACCEPT")
     <$> ips) ++
  (ips ≫= pod_dispatch podchain sync_version family selecting) ++
  pod_verdict podchain family ++
  (ips ≫= pod_entry podchain).

Definition selecting_policies (policies : list NetworkPolicy) (pod : Pod) : list NetworkPolicy :=
  filter (λ p, policy_applies p && policy_selects p pod = true) policies.

Definition pod_actionable (node : string) (family : IpFamily) (p : Pod) : bool :=
  bool_decide (pod_node_name p = node) && negb (pod_host_network p) &&
  negb (bool_decide (pod_family_ips p family = [])).

(** One pod: no chain at all when no policy selects it. *)
Definition emit_pod (policies : list NetworkPolicy) (family : IpFamily) (sync_version : string)
    (st : FirewallPlan * list string) (pod : Pod) : FirewallPlan * list string :=
  match selecting_policies policies pod with
  | [] => st
  | selecting =>
      (push_rules (pod_rules sync_version family selecting pod)
         (push_decl (chain_decl (pod_chain pod sync_version)) st.1),
       st.2 ++ pod_family_ips pod family)
  end.

(** The accept and reject decision. *)
Definition tail_rules (default_deny : bool) (family : IpFamily) (pod_cidrs : list IpNet)
    : list string :=
  let set := local_pods_set family in
  let cidrs := net_to_string <$> filter (λ c, net_in_family c family = true) pod_cidrs in
  let reject := reject_target family in
  (if default_deny then
     cidrs ≫= λ cidr,
       ["-A " +:+ NWPLCY_TAIL +:+ " -s " +:+ cidr +:+ " -m set ! --match-set " +:+ set +:+
          " src -j " +:+ reject;
        "-A " +:+ NWPLCY_TAIL +:+ " -d " +:+ cidr +:+ " -m set ! --match-set " +:+ set +:+
          " dst -j " +:+ reject]
   else []) ++
  ["-A " +:+ NWPLCY_TAIL +:+ " -m mark --mark " +:+ MARK_ACCEPTED +:+ " -j ACCEPT"] ++
  (if default_deny then
     cidrs ≫= λ cidr,
       ["-A " +:+ NWPLCY_TAIL +:+ " -s " +:+ cidr +:+ " -j " +:+ reject;
        "-A " +:+ NWPLCY_TAIL +:+ " -d " +:+ cidr +:+ " -j " +:+ reject]
   else []).

Definition tail_jumps : list string :=
  (λ chain, "-A " +:+ chain +:+ " -j " +:+ NWPLCY_TAIL)
    <$> [ROUTER_INPUT; ROUTER_FORWARD; ROUTER_OUTPUT].

Definition build_plan (policies : list NetworkPolicy) (pods : list Pod)
    (namespaces : list Namespace) (node : string) (family : IpFamily) (sync_version : string)
    (default_deny : bool) (pod_cidrs service_cluster_ip_ranges : list IpNet)
    (node_port_range : option string) : FirewallPlan :=
  let plan := push_rules
    (common_rules family ++ default_rules ++
     service_return_rules family service_cluster_ip_ranges node_port_range) initial_plan in
  let plan := foldl (emit_policy pods namespaces family sync_version) plan
                (filter (λ p, policy_applies p = true) policies) in
  let '(plan, programmed_ips) :=
    foldl (emit_pod policies family sync_version) (plan, [])
      (filter (λ p, pod_actionable node family p = true) pods) in
  let plan :=
    if default_deny then
      push_ipset {| ipl_name := local_pods_set family; ipl_type := HashIp; ipl_family := family;
                    ipl_entries := programmed_ips |} plan
    else plan in
  push_rules (tail_rules default_deny family pod_cidrs ++ tail_jumps) plan.
End synth.

(** ** The controller ([controller.rs]) *)

Module PolicyController.
Import Iptables.

Section controller.
Context `{IpNetLib} `{HashLib} {W : Type} `{!IpsetOps W}.

Record PolicyWorld := {
  w_policies : list NetworkPolicy;
  w_pods : list Pod;
  w_namespaces : list Namespace;
}.

Record FirewallController := {
  fc_families : list (IpFamily * IptablesOps W);
  fc_node : string;
  fc_sync_version : string;
  fc_default_deny : bool;
  fc_pod_cidrs : list IpNet;
  fc_service_cluster_ip_ranges : list IpNet;
  fc_node_port_range : option string;
}.

(** [FirewallController::new]: the version of chain names is fixed.  The ipset
    handler and the policy source are the classes below. *)
Definition controller_new (families : list (IpFamily * IptablesOps W)) (node : string)
    (default_deny : bool) (pod_cidrs service_cluster_ip_ranges : list IpNet)
    (node_port_range : option string) : FirewallController :=
  {| fc_families := families; fc_node := node; fc_sync_version := "kr";
     fc_default_deny := default_deny; fc_pod_cidrs := pod_cidrs;
     fc_service_cluster_ip_ranges := service_cluster_ip_ranges;
     fc_node_port_range := node_port_range |}.

Inductive PolicySyncError :=
| PolicyIpset (e : IpsetError)
| PolicyIptables (e : IptablesError).

Definition controller_plan (self : FirewallController) (world : PolicyWorld) (family : IpFamily)
    : FirewallPlan :=
  build_plan (w_policies world) (w_pods world) (w_namespaces world) (fc_node self) family
    (fc_sync_version self) (fc_default_deny self) (fc_pod_cidrs self)
    (fc_service_cluster_ip_ranges self) (fc_node_port_range self).

Definition restore_set (set : IpsetPlan) : M W PolicySyncError unit :=
  mmap_err PolicyIpset (ipset_restore
    (build_restore_payload (ipl_name set) (ipl_type set) (ipl_family set) (ipl_entries set))).

Definition apply_family (self : FirewallController) (world : PolicyWorld)
    (x : IpFamily * IptablesOps W) : M W PolicySyncError unit :=
  let '(family, ipt) := x in
  let plan := controller_plan self world family in
  mfor (fp_ipsets plan) restore_set;;
  mmap_err PolicyIptables
    (restore_filter ipt (filter_restore_doc (fp_decls plan) (fp_rules plan)));;
  mmap_err PolicyIptables (ensure_jump ipt "INPUT" ROUTER_INPUT);;
  mmap_err PolicyIptables (ensure_jump ipt "FORWARD" ROUTER_FORWARD);;
  mmap_err PolicyIptables (ensure_jump ipt "OUTPUT" ROUTER_OUTPUT).

(** [reconcile], on the snapshot of the source. *)
Definition policy_reconcile (self : FirewallController) (world : PolicyWorld)
    : M W PolicySyncError unit :=
  mfor (fc_families self) (apply_family self world).
End controller.

(** [PolicySource] and the heartbeat of the loop. *)
Class PolicySource `{IpNetLib} (W : Type) := { snapshot : W → PolicyWorld }.
Class PolicyHeartbeat (W : Type) := { policy_heartbeat : W → W }.

Section run.
Context `{IpNetLib} `{HashLib} {W : Type} `{!IpsetOps W, !PolicySource W, !PolicyHeartbeat W}.

(** One tick of [run]: a failed sync is logged, and the heartbeat is sent. *)
Definition policy_tick (self : FirewallController) (w : W) : W :=
  let '(_, w) := policy_reconcile self (snapshot w) w in policy_heartbeat w.
End run.
End PolicyController.
