(* ===== verification/Filter.v ===== *)
(** * Filter: the meaning of an emitted filter document

    The abstract specification of the firewall: what the rule lines and sets of
    a plan do to a packet.  The lines are read back as iptables rules and run as
    the netfilter documentation describes: a chain is a list of rules, tests are
    conjoined, a jump continues after the jump when the chain returns, and marks
    are set under a mask.  Set lookups and address matches are operations of
    [FilterLib], with their documented behaviour in [FilterLaws]. *)

From stdpp Require Import gmap sets list strings pretty.
From Stdlib Require Import Ascii ZArith.
From S2P Require Import Prelude Text Net IpText Netpol Synth.
Import Ipset.

Local Open Scope Z_scope.

(** ** Packets *)

Inductive CtState := CtNew | CtEstablished | CtRelated | CtInvalid.

#[export] Instance CtState_eq_dec : EqDecision CtState.
Proof. solve_decision. Defined.

Definition ct_name (s : CtState) : string :=
  match s with
  | CtNew => "NEW" | CtEstablished => "ESTABLISHED" | CtRelated => "RELATED"
  | CtInvalid => "INVALID"
  end.

Record Packet := {
  pk_src : IpAddr;
  pk_dst : IpAddr;
  pk_proto : string;
  pk_dport : Z;
  pk_icmp : string;          (* the ICMP type, empty for other protocols *)
  pk_ct : CtState;
  pk_src_local : bool;       (* the source is an address of the node *)
  pk_dst_local : bool;
  pk_bridged : bool;
}.

(** ** The kernel's matches *)

Class FilterLib := {
  (** a lookup in an ipset with these entries *)
  set_test : SetType → list string → IpAddr → bool;
  (** [-s] and [-d] *)
  addr_test : string → IpAddr → bool;
  (** [-m multiport --dports] *)
  ports_test : string → Z → bool;
}.

(** An address of one of the pods, as it is written. *)
Definition written_ip (e : string) : Prop := ∃ a, ip_wf a ∧ e = ip_to_string a.

Class FilterLaws `{FilterLib} : Prop := {
  set_test_ip entries a :
    Forall written_ip entries → ip_wf a →
    set_test HashIp entries a = bool_decide (ip_to_string a ∈ entries);
  addr_test_ip a b :
    ip_wf a → ip_wf b → addr_test (ip_to_string a) b = bool_decide (a = b);
}.

(** ** Reading a rule line *)

(** A word of a line: not empty, and without blanks and newlines. *)
Definition nonblank (c : ascii) : bool :=
  negb (bool_decide (c = " "%char)) && negb (bool_decide (c = "010"%char)).
Definition word (s : string) : bool := negb (str_is_empty s) && str_all nonblank s.


(** An entry of a [hash:net] set, an exception or not, as it is written. *)
Definition net_text `{IpNetLib} (x : IpNet * bool) : string :=
  if x.2 then net_to_string x.1 +:+ " nomatch" else net_to_string x.1.

(** The written form of networks: a word that [-s] and [-d] understand; and a
    [hash:net] set, in which the most specific network that contains the address
    decides (ipset(8)). *)
Class FilterNetLaws `{IpNetLib} `{FilterLib} : Prop := {
  net_word n : word (net_to_string n) = true;
  addr_test_net n a : ip_wf a → addr_test (net_to_string n) a = net_contains n a;
  set_test_most_specific nets n nomatch a :
    ip_wf a → (n, nomatch) ∈ nets → net_contains n a = true →
    (∀ m x, (m, x) ∈ nets → net_contains m a = true →
       net_prefix_len m ≤ net_prefix_len n ∧ (net_prefix_len m = net_prefix_len n → x = nomatch)) →
    set_test HashNet (net_text <$> nets) a = negb nomatch;
  set_test_outside nets a :
    ip_wf a → (∀ m x, (m, x) ∈ nets → net_contains m a = false) →
    set_test HashNet (net_text <$> nets) a = false;
}.

(** The words of a line. *)
Fixpoint tokens_go (cur : string) (s : string) : list string :=
  match s with
  | EmptyString => if str_is_empty cur then [] else [cur]
  | String c s =>
      if bool_decide (c = " "%char)
      then if str_is_empty cur then tokens_go "" s else cur :: tokens_go "" s
      else tokens_go (cur +:+ String c "") s
  end.
Definition tokens (s : string) : list string := tokens_go "" s.

Inductive Test :=
| TSrc (a : string) | TDst (a : string) | TProto (p : string) | TDport (n : string)
| TIcmp (kind : string) | TCtState (states : string) | TSet (set side : string)
| TMark (vm : string) | TSrcType (t : string) | TDstType (t : string)
| TDports (ports : string) | TBridged.

Inductive Target :=
| Jump (chain : string) | Accept | Drop | Reject | Return | Log
| SetXmark (vm : string) | SetMark (vm : string).

(** A test with its negation flag. *)
Record FilterRule := { fr_tests : list (bool * Test); fr_target : Target }.

Definition simple_test (opt arg : string) : option Test :=
  if String.eqb opt "-s" then Some (TSrc arg)
  else if String.eqb opt "-d" then Some (TDst arg)
  else if String.eqb opt "-p" then Some (TProto arg)
  else if String.eqb opt "--dport" then Some (TDport arg)
  else if String.eqb opt "--icmp-type" then Some (TIcmp arg)
  else if String.eqb opt "--icmpv6-type" then Some (TIcmp arg)
  else if String.eqb opt "--ctstate" then Some (TCtState arg)
  else if String.eqb opt "--mark" then Some (TMark arg)
  else if String.eqb opt "--src-type" then Some (TSrcType arg)
  else if String.eqb opt "--dst-type" then Some (TDstType arg)
  else if String.eqb opt "--dports" then Some (TDports arg)
  else None.

Definition parse_target (target : string) (opts : list string) : option Target :=
  if String.eqb target "ACCEPT" then Some Accept
  else if String.eqb target "DROP" then Some Drop
  else if String.eqb target "REJECT" then Some Reject
  else if String.eqb target "RETURN" then Some Return
  else if String.eqb target "NFLOG" then Some Log
  else if String.eqb target "MARK" then
    match opts with
    | [o; vm] => if String.eqb o "--set-xmark" then Some (SetXmark vm)
                 else if String.eqb o "--set-mark" then Some (SetMark vm) else None
    | _ => None
    end
  else Some (Jump target).

Definition with_test (t : bool * Test) (r : option FilterRule) : option FilterRule :=
  match r with
  | Some r => Some {| fr_tests := t :: fr_tests r; fr_target := fr_target r |}
  | None => None
  end.

(** The tests and the target of a rule.  The options that follow the target of a
    logging rule only limit its rate. *)
Fixpoint parse_rule (neg : bool) (ts : list string) : option FilterRule :=
  match ts with
  | [] => None
  | t :: ts1 =>
      if String.eqb t "!" then parse_rule true ts1
      else if String.eqb t "--physdev-is-bridged" then
        with_test (neg, TBridged) (parse_rule false ts1)
      else
        match ts1 with
        | [] => None
        | a :: ts2 =>
            if String.eqb t "-j" then
              match parse_target a ts2 with
              | Some g => Some {| fr_tests := []; fr_target := g |}
              | None => None
              end
            else if String.eqb t "-m" then parse_rule neg ts2
            else if String.eqb t "--match-set" then
              match ts2 with
              | [] => None
              | side :: ts3 => with_test (neg, TSet a side) (parse_rule false ts3)
              end
            else
              match simple_test t a with
              | Some k => with_test (neg, k) (parse_rule false ts2)
              | None => None
              end
        end
  end.

(** A line [-A chain ...], by its words. *)
Definition parse_words (ws : list string) : option (string * FilterRule) :=
  match ws with
  | a :: chain :: ts =>
      if String.eqb a "-A"
      then match parse_rule false ts with Some r => Some (chain, r) | None => None end
      else None
  | _ => None
  end.
Definition parse_line (line : string) : option (string * FilterRule) := parse_words (tokens line).

(** The rules of a chain, in the order of the document. *)
Definition line_rule (chain line : string) : option FilterRule :=
  match parse_line line with
  | Some (c, r) => if decide (c = chain) then Some r else None
  | None => None
  end.
Definition chain_rules (lines : list string) (chain : string) : list FilterRule :=
  omap (line_rule chain) lines.

(** ** Marks: [value/mask] *)

Fixpoint hex_number (acc : Z) (s : string) : option Z :=
  match s with
  | EmptyString => Some acc
  | String c s => match hex_val c with Some d => hex_number (acc * 16 + d) s | None => None end
  end.
Definition mark_number (s : string) : option Z :=
  match strip_prefix "0x" s with Some h => hex_number 0 h | None => parse_u32 s end.
Definition value_mask (vm : string) : Z * Z :=
  match split_once "/" vm with
  | Some (v, m) => (default 0 (mark_number v), default 0 (mark_number m))
  | None => (default 0 (mark_number vm), 4294967295)
  end.

(** [--set-xmark] clears the mask and exclusive-ors the value; [--set-mark]
    clears the mask and ors it; [--mark] compares under the mask. *)
Definition set_xmark (vm : string) (mark : Z) : Z :=
  let '(v, m) := value_mask vm in Z.lxor (Z.land mark (Z.lnot m)) v.
Definition set_mark (vm : string) (mark : Z) : Z :=
  let '(v, m) := value_mask vm in Z.lor (Z.land mark (Z.lnot m)) v.
Definition has_mark (vm : string) (mark : Z) : bool :=
  let '(v, m) := value_mask vm in Z.land mark m =? v.

(** ** Running a chain *)

Inductive Outcome := Returned (mark : Z) | Accepted | Dropped | Rejected.

(** The contents of the sets after the restores of a plan, in order. *)
Definition SetEnv : Type := gmap string (SetType * list string).
Definition set_env (ipsets : list IpsetPlan) : SetEnv :=
  insert_all ipl_name (λ x, (ipl_type x, ipl_entries x)) ∅ ipsets.

Section run.
Context `{FilterLib} (env : SetEnv) (lines : list string) (p : Packet).

Definition test_holds (mark : Z) (t : Test) : bool :=
  match t with
  | TSrc a => addr_test a (pk_src p)
  | TDst a => addr_test a (pk_dst p)
  | TProto q => bool_decide (pk_proto p = q)
  | TDport n => bool_decide (parse_u16 n = Some (pk_dport p))
  | TIcmp k => bool_decide (pk_icmp p = k)
  | TCtState l => list_contains (split_char "," l) (ct_name (pk_ct p))
  | TSet set side =>
      match env !! set with
      | Some (typ, entries) =>
          set_test typ entries (if decide (side = "src") then pk_src p else pk_dst p)
      | None => false
      end
  | TMark vm => has_mark vm mark
  | TSrcType _ => pk_src_local p
  | TDstType _ => pk_dst_local p
  | TDports r => ports_test r (pk_dport p)
  | TBridged => pk_bridged p
  end.

Definition tests_hold (mark : Z) (ts : list (bool * Test)) : bool :=
  forallb (λ t, xorb t.1 (test_holds mark t.2)) ts.

(** [fuel] bounds the depth of jumps; [None] when it runs out. *)
Fixpoint run_rules (fuel : nat) : list FilterRule → Z → option Outcome :=
  fix go (rs : list FilterRule) (mark : Z) : option Outcome :=
    match rs with
    | [] => Some (Returned mark)
    | r :: rs =>
        if tests_hold mark (fr_tests r) then
          match fr_target r with
          | Jump c =>
              match fuel with
              | O => None
              | S fuel =>
                  match run_rules fuel (chain_rules lines c) mark with
                  | Some (Returned mark) => go rs mark
                  | o => o
                  end
              end
          | Accept => Some Accepted
          | Drop => Some Dropped
          | Reject => Some Rejected
          | Return => Some (Returned mark)
          | Log => go rs mark
          | SetXmark vm => go rs (set_xmark vm mark)
          | SetMark vm => go rs (set_mark vm mark)
          end
        else go rs mark
    end.

Definition run_chain (fuel : nat) (chain : string) (mark : Z) : option Outcome :=
  run_rules fuel (chain_rules lines chain) mark.
End run.

(** What a plan does to a packet that enters [chain] with [mark].  Chains jump at
    most from a top chain to a pod chain to a policy chain. *)
Definition JUMP_DEPTH : nat := 3.

Definition plan_run `{FilterLib} (plan : FirewallPlan) (p : Packet) (chain : string) (mark : Z)
    : option Outcome :=
  run_chain (set_env (fp_ipsets plan)) (fp_rules plan) p JUMP_DEPTH chain mark.

(** ** A concrete library *)

(** The most specific network of a set that contains the address decides. *)
Definition net_entry `{IpNetLib} (e : string) : option (IpNet * bool) :=
  match split_once " " e with
  | Some (n, _) => n ← net_parse n; Some (n, true)
  | None => n ← net_parse e; Some (n, false)
  end.

Definition most_specific `{IpNetLib} (a : IpAddr) (best : option (IpNet * bool)) (e : string)
    : option (IpNet * bool) :=
  match net_entry e with
  | Some (n, nomatch) =>
      if net_contains n a then
        match best with
        | Some (m, _) => if net_prefix_len m <=? net_prefix_len n then Some (n, nomatch) else best
        | None => Some (n, nomatch)
        end
      else best
  | None => best
  end.

#[export] Instance ref_filter_lib : FilterLib := {|
  set_test typ entries a :=
    match typ with
    | HashIp => existsb (λ e, bool_decide (parse_ipaddr e = Some a)) entries
    | HashNet =>
        match foldl (most_specific (H := ref_net_lib) a) None entries with
        | Some (_, nomatch) => negb nomatch
        | None => false
        end
    end;
  addr_test s a :=
    match net_parse (IpNetLib := ref_net_lib) s with
    | Some n => net_contains n a
    | None => bool_decide (parse_ipaddr s = Some a)
    end;
  ports_test s n :=
    match split_once ":" s with
    | Some (lo, hi) =>
        match parse_u16 lo, parse_u16 hi with
        | Some lo, Some hi => (lo <=? n) && (n <=? hi)
        | _, _ => false
        end
    | None => false
    end;
|}.

#[export] Instance ref_filter_laws : FilterLaws.
Proof.
  split.
  - intros entries a He Ha. cbn. rewrite Forall_forall in He.
    apply eq_true_iff_eq. rewrite existsb_exists, bool_decide_eq_true. split.
    + intros (e & Hin%list_elem_of_In & Hp%bool_decide_eq_true).
      destruct (He e Hin) as (b & Hb & ->).
      rewrite parse_ip_to_string in Hp by done. by injection Hp as <-.
    + intros Hin. exists (ip_to_string a). split; [by apply list_elem_of_In|].
      apply bool_decide_eq_true. by apply parse_ip_to_string.
  - intros a b Ha Hb. cbn. unfold ref_parse.
    rewrite split_once_none by by apply ip_no_char. cbn [mbind option_bind].
    rewrite parse_ip_to_string by done. apply bool_decide_ext. split; [by intros [= ->]|by intros ->].
Qed.

Lemma ref_parse_print (n : RefNet) : ref_parse (net_to_string (IpNetLib := ref_net_lib) n) = Some n.
Proof.
  destruct n as [[a p] Hn]. pose proof (proj1 (ref_ok_spec _) Hn) as [Hp Ha]. cbn in Hp, Ha.
  change (ref_parse (ip_to_string a +:+ String "/" (pretty p)) = Some (exist _ (a, p) Hn)).
  unfold ref_parse.
  rewrite split_once_spec by by apply ip_no_char. cbn [mbind option_bind].
  rewrite parse_ip_to_string by done. cbn [mbind option_bind].
  assert (forallb (λ x, prints 10 128 3 false (pretty x) x) (seqZ 0 129) = true) as Hall
    by (vm_compute; reflexivity).
  assert (prints 10 128 3 false (pretty p) p = true) as Hprints.
  { rewrite forallb_forall in Hall. apply Hall, list_elem_of_In, elem_of_seqZ.
    unfold ip_width in Hp. destruct (is_ipv6 a); lia. }
  rewrite <-(str_app_nil_r (pretty p)).
  rewrite (read_number_prints _ _ _ _ _ p) by done. cbn [mbind option_bind str_is_empty].
  unfold ref_new. destruct (decide _) as [h|h]; [|by destruct h].
  f_equal. by apply (sig_eq_pi _).
Qed.

Lemma no_char_nonblank s :
  no_char " " s = true → no_char "010" s = true → str_all nonblank s = true.
Proof.
  unfold no_char. induction s as [|c s IH]; [done|]. cbn. rewrite !andb_true_iff.
  intros [Hb Hbs] [Hn Hns]. split; [|by apply IH]. unfold nonblank.
  rewrite negb_true_iff, bool_decide_eq_false in Hb, Hn.
  rewrite !bool_decide_eq_false_2 by congruence. done.
Qed.

Lemma ref_net_text (n : RefNet) :
  word (net_to_string (IpNetLib := ref_net_lib) n) = true ∧
  no_char " " (net_to_string (IpNetLib := ref_net_lib) n) = true.
Proof.
  destruct n as [[a p] Hn]. pose proof (proj1 (ref_ok_spec _) Hn) as [Hp Ha]. cbn in Hp, Ha |- *.
  assert (∀ c, hex_val c = None → is_digit c = false → c ≠ ":"%char → c ≠ "."%char → c ≠ "/"%char →
    no_char c (ip_to_string a +:+ "/" +:+ pretty p) = true) as Hno.
  { intros c Hx Hd H1 H2 H3. rewrite !no_char_app, ip_no_char by done. cbn [andb].
    rewrite (digits_no_char c (pretty p)) by (done || apply pretty_digits; lia).
    unfold no_char. cbn. by rewrite bool_decide_eq_false_2. }
  split; [|by apply Hno]. unfold word. apply andb_true_iff. split; [by destruct (ip_to_string a)|].
  by apply no_char_nonblank; apply Hno.
Qed.

(** The entries of a set, one after the other. *)
Lemma net_entry_text (x : RefNet * bool) :
  net_entry (H := ref_net_lib) (net_text (H := ref_net_lib) x) = Some x.
Proof.
  destruct x as [n [|]]; unfold net_entry, net_text; cbn [fst snd];
    change (net_parse (IpNetLib := ref_net_lib)) with ref_parse.
  - change (net_to_string (IpNetLib := ref_net_lib) n +:+ " nomatch") with
      (net_to_string (IpNetLib := ref_net_lib) n +:+ String " " "nomatch").
    rewrite split_once_spec by apply (ref_net_text n). cbn [mbind option_bind]. by rewrite ref_parse_print.
  - rewrite split_once_none by apply (ref_net_text n). by rewrite ref_parse_print.
Qed.

(** A network that contains the address and is not less specific than others. *)
Definition best_of (a : IpAddr) (nets : list (RefNet * bool)) (r : option (RefNet * bool)) : Prop :=
  match r with
  | Some (n, x) => (n, x) ∈ nets ∧ net_contains (IpNetLib := ref_net_lib) n a = true ∧
      ∀ m y, (m, y) ∈ nets → net_contains (IpNetLib := ref_net_lib) m a = true → (`m).2 ≤ (`n).2
  | None => ∀ m y, (m, y) ∈ nets → net_contains (IpNetLib := ref_net_lib) m a = false
  end.

Lemma most_specific_best a done rest best :
  best_of a done best →
  best_of a (done ++ rest)
    (foldl (most_specific (H := ref_net_lib) a) best (net_text (H := ref_net_lib) <$> rest)).
Proof.
  revert done best. induction rest as [|[n x] rest IH]; intros done best Hbest; [by rewrite app_nil_r|].
  rewrite fmap_cons. cbn [foldl]. rewrite cons_middle, app_assoc. apply IH.
  unfold most_specific. rewrite net_entry_text.
  assert (∀ m y, (m, y) ∈ done ++ [(n, x)] ↔ (m, y) ∈ done ∨ (m = n ∧ y = x)) as Hin.
  { intros m y. rewrite elem_of_app, list_elem_of_singleton. naive_solver. }
  destruct (net_contains (IpNetLib := ref_net_lib) n a) eqn:Hn; cycle 1.
  { destruct best as [[b y]|]; cbn in *.
    - destruct Hbest as (Hb & Hc & Hmax). split_and!; [apply Hin; by left|done|].
      intros m z [?|[-> ->]]%Hin ?; [by eapply Hmax|congruence].
    - intros m z [?|[-> ->]]%Hin; [by eapply Hbest|done]. }
  destruct best as [[b y]|]; cbn in *.
  - destruct Hbest as (Hb & Hc & Hmax). destruct (Z.leb_spec (`b).2 (`n).2) as [Hle|Hlt].
    + split_and!; [apply Hin; by right|done|]. intros m z [Hm|[-> ->]]%Hin Hmc; [|done].
      etrans; [by eapply Hmax|done].
    + split_and!; [apply Hin; by left|done|]. intros m z [Hm|[-> ->]]%Hin Hmc; [by eapply Hmax|lia].
  - split_and!; [apply Hin; by right|done|]. intros m z [Hm|[-> ->]]%Hin Hmc; [|done].
    rewrite (Hbest m z Hm) in Hmc. done.
Qed.

#[export] Instance ref_filter_net_laws : FilterNetLaws (H := ref_net_lib).
Proof.
  assert (∀ a nets, best_of a nets
    (foldl (most_specific (H := ref_net_lib) a) None (net_text (H := ref_net_lib) <$> nets))) as Hfold.
  { intros a nets. apply (most_specific_best a [] nets None). by intros m y ?%elem_of_nil. }
  split.
  - intros n. apply ref_net_text.
  - intros n a Ha. cbn [addr_test ref_filter_lib].
    change (net_parse (IpNetLib := ref_net_lib)) with ref_parse. by rewrite ref_parse_print.
  - intros nets n nomatch a Ha Hin Hn Hmax. cbn [set_test ref_filter_lib]. specialize (Hfold a nets).
    destruct (foldl _ _ _) as [[m x]|]; unfold best_of in Hfold; [|by rewrite (Hfold _ _ Hin) in Hn].
    destruct Hfold as (Hm & Hmc & Hbest). destruct (Hmax m x Hm Hmc) as [Hle Heq].
    rewrite Heq; [done|]. specialize (Hbest _ _ Hin Hn).
    change (net_prefix_len m) with (`m).2 in *. change (net_prefix_len n) with (`n).2 in *. lia.
  - intros nets a Ha Hout. cbn [set_test ref_filter_lib]. specialize (Hfold a nets).
    destruct (foldl _ _ _) as [[m x]|]; unfold best_of in Hfold; [|done].
    destruct Hfold as (Hm & Hmc & _). by rewrite (Hout _ _ Hm) in Hmc.
Qed.
