(* ===== verification/FilterFacts.v ===== *)
(** * FilterFacts: reading and running filter documents

    Lemmas on the specification of [Filter]: a line of separated words parses to
    its rule, marks behave as bits, and runs distribute over rule lists. *)

From stdpp Require Import gmap sets list strings pretty.
From Stdlib Require Import Ascii ZArith Lia.
From S2P Require Import Prelude Text Net IpText Common Netpol Synth Filter.
Import Naming Names Ipset.

Local Open Scope Z_scope.

(** ** Words *)

Create HintDb words.

Lemma tokens_go_word cur w s :
  str_all nonblank w = true → tokens_go cur (w +:+ s) = tokens_go (cur +:+ w) s.
Proof.
  revert cur. induction w as [|c w IH]; intros cur Hw.
  - by rewrite append_nil_l, str_app_nil_r.
  - cbn in Hw. apply andb_true_iff in Hw as [Hc Hw]. unfold nonblank in Hc.
    apply andb_true_iff in Hc as [Hc _].
    rewrite append_cons. cbn [tokens_go]. apply negb_true_iff in Hc. rewrite Hc, IH by done.
    by rewrite str_app_assoc.
Qed.

Lemma tokens_word w s : word w = true → tokens (w +:+ " " +:+ s) = w :: tokens s.
Proof.
  unfold word, tokens. intros [Hne Hw]%andb_true_iff. rewrite tokens_go_word by done.
  rewrite append_nil_l. rewrite (append_cons " " "" s), append_nil_l. cbn [tokens_go].
  rewrite bool_decide_eq_true_2 by done. by destruct w.
Qed.

Lemma tokens_last w : word w = true → tokens w = [w].
Proof.
  unfold word, tokens. intros [Hne Hw]%andb_true_iff.
  rewrite <-(str_app_nil_r w) at 1. rewrite tokens_go_word by done. rewrite append_nil_l.
  by destruct w.
Qed.

Lemma tokens_join ws : Forall (λ w, word w = true) ws → tokens (str_join " " ws) = ws.
Proof.
  induction 1 as [|w ws Hw Hws IH]; [done|]. destruct ws as [|v ws]; [by apply tokens_last|].
  change (str_join " " (w :: v :: ws)) with (w +:+ " " +:+ str_join " " (v :: ws)).
  by rewrite tokens_word, IH.
Qed.

(** A line that is the given words. *)
Lemma parse_line_join line ws :
  line = str_join " " ws → Forall (λ w, word w = true) ws → parse_line line = parse_words ws.
Proof. intros -> Hws. unfold parse_line. by rewrite tokens_join. Qed.

Lemma word_app p s : word p = true → str_all nonblank s = true → word (p +:+ s) = true.
Proof.
  unfold word. intros [Hp Hps]%andb_true_iff Hs. rewrite str_all_app, Hps, Hs.
  by destruct p.
Qed.

Lemma word_digits z : 0 ≤ z → word (pretty z) = true.
Proof.
  intros Hz. unfold word. rewrite andb_true_iff. split.
  - pose proof (pretty_starts_digit z Hz) as Hs. by destruct (pretty z).
  - eapply str_all_impl; [|by apply pretty_digits]. intros c Hc. unfold nonblank.
    rewrite !bool_decide_eq_false_2 by (intros ->; done). done.
Qed.

Lemma word_ip a : ip_wf a → word (ip_to_string a) = true.
Proof.
  intros Ha. unfold word. rewrite andb_true_iff. split.
  - pose proof (parse_ip_to_string a Ha) as Hp. by destruct (ip_to_string a).
  - by apply no_char_nonblank; apply ip_no_char.
Qed.

Lemma word_hash16 `{HashLaws} p s : word p = true → word (p +:+ hash16 s) = true.
Proof.
  intros Hp. apply word_app; [done|]. unfold hash16.
  pose proof (base32_alphabet s) as Ha.
  assert (∀ n m t, (n ≤ m)%nat →
    forallb base32_char (String.list_ascii_of_string (String.substring 0 m t)) = true →
    str_all nonblank (String.substring 0 n t) = true) as Hgen.
  { clear. induction n as [|n IH]; intros m t Hnm Ht; [by destruct t|].
    destruct m as [|m]; [lia|]. destruct t as [|c t]; [done|]. cbn in Ht |- *.
    apply andb_true_iff in Ht as [Hc Ht]. rewrite (IH m) by (lia || done).
    rewrite andb_true_r. unfold nonblank. rewrite !bool_decide_eq_false_2 by (intros ->; done). done. }
  eapply Hgen; [|exact Ha]. unfold HASH_LEN. lia.
Qed.

#[export] Hint Resolve word_digits word_ip word_hash16 : words.
#[export] Hint Extern 1 (word _ = true) => reflexivity : words.

(** Prove that a line has the given words. *)
Ltac line_words ws :=
  apply (parse_line_join _ ws);
  [rewrite ?str_app_assoc; reflexivity
  |repeat (apply Forall_cons; split); try apply Forall_nil_2; auto with words].

(** The chain of a line, without reading the rest. *)
Definition line_of (chain line : string) : Prop :=
  ∃ rest, line = "-A " +:+ chain +:+ " " +:+ rest.

Lemma line_rule_other chain d line :
  line_of chain line → word chain = true → chain ≠ d → line_rule d line = None.
Proof.
  intros [rest ->] Hc Hne. unfold line_rule, parse_line.
  change ("-A " +:+ chain +:+ " " +:+ rest) with ("-A" +:+ " " +:+ chain +:+ " " +:+ rest).
  rewrite tokens_word, tokens_word by done. unfold parse_words. cbn [String.eqb].
  change (String.eqb "-A" "-A") with true. cbn iota.
  destruct (parse_rule _ _); [|done]. cbn. by rewrite decide_False.
Qed.

Lemma line_rule_parse chain line r : parse_line line = Some (chain, r) → line_rule chain line = Some r.
Proof. unfold line_rule. intros ->. by rewrite decide_True. Qed.

Lemma chain_rules_app l k chain :
  chain_rules (l ++ k) chain = chain_rules l chain ++ chain_rules k chain.
Proof. unfold chain_rules. by rewrite omap_app. Qed.

Lemma chain_rules_bind {A} (f : A → list string) l chain :
  chain_rules (l ≫= f) chain = l ≫= λ x, chain_rules (f x) chain.
Proof. induction l as [|x l IH]; [done|]. by rewrite !bind_cons, chain_rules_app, IH. Qed.

Lemma chain_rules_other lines chain :
  (∀ l, l ∈ lines → ∃ d, line_of d l ∧ word d = true ∧ d ≠ chain) → chain_rules lines chain = [].
Proof.
  intros Hl. unfold chain_rules. induction lines as [|l lines IH]; [done|]. cbn.
  destruct (Hl l) as (d & Hd & Hw & Hne); [by apply elem_of_cons; left|].
  rewrite (line_rule_other d) by done. apply IH. intros k Hk. apply Hl, elem_of_cons. by right.
Qed.

(** ** Marks *)

Definition matched (mark : Z) : bool := Z.testbit mark 16.
Definition accepted (mark : Z) : bool := Z.testbit mark 17.

Lemma land_bit_eqb mark i : 0 ≤ i → (Z.land mark (2 ^ i) =? 2 ^ i) = Z.testbit mark i.
Proof.
  intros Hi. destruct (Z.testbit mark i) eqn:Hb.
  - apply Z.eqb_eq. apply Z.bits_inj'. intros j Hj. rewrite Z.land_spec.
    destruct (Z.eq_dec i j) as [<-|Hne]; [by rewrite Hb|].
    rewrite Z.pow2_bits_false by lia. apply andb_false_r.
  - apply Z.eqb_neq. intros Heq. assert (Z.testbit (Z.land mark (2 ^ i)) i = true) as Ht.
    { rewrite Heq. by apply Z.pow2_bits_true. }
    rewrite Z.land_spec, Hb in Ht. done.
Qed.

Lemma has_mark_matched mark : has_mark MARK_MATCHED mark = matched mark.
Proof. exact (land_bit_eqb mark 16 ltac:(lia)). Qed.
Lemma has_mark_accepted mark : has_mark MARK_ACCEPTED mark = accepted mark.
Proof. exact (land_bit_eqb mark 17 ltac:(lia)). Qed.

(** The marking of a matched packet, and the end of a pod chain. *)
Definition mark_matched (mark : Z) : Z := set_xmark MARK_MATCHED mark.
Definition mark_passed (mark : Z) : Z := set_mark MARK_ACCEPTED (set_mark "0/0x10000" mark).

Lemma matched_mark mark : matched (mark_matched mark) = true.
Proof.
  change (Z.testbit (Z.lxor (Z.land mark (Z.lnot (2 ^ 16))) (2 ^ 16)) 16 = true).
  rewrite Z.lxor_spec, Z.land_spec, Z.lnot_spec, Z.pow2_bits_true by lia.
  by rewrite andb_false_r.
Qed.

Lemma matched_passed mark : matched (mark_passed mark) = false.
Proof.
  change (Z.testbit (Z.lor (Z.land (Z.lor (Z.land mark (Z.lnot (2 ^ 16))) 0) (Z.lnot (2 ^ 17)))
                       (2 ^ 17)) 16 = false).
  rewrite Z.lor_spec, Z.land_spec, Z.lor_spec, Z.land_spec, !Z.lnot_spec, Z.bits_0 by lia.
  rewrite Z.pow2_bits_true, (Z.pow2_bits_false 17 16) by lia. by rewrite andb_false_r.
Qed.

Lemma accepted_passed mark : accepted (mark_passed mark) = true.
Proof.
  change (Z.testbit (Z.lor (Z.land (Z.lor (Z.land mark (Z.lnot (2 ^ 16))) 0) (Z.lnot (2 ^ 17)))
                       (2 ^ 17)) 17 = true).
  rewrite Z.lor_spec, Z.pow2_bits_true by lia. apply orb_true_r.
Qed.

(** ** Runs *)

(** Tests that do not look at the mark. *)
Definition mark_free (ts : list (bool * Test)) : bool :=
  forallb (λ t, match t.2 with TMark _ => false | _ => true end) ts.

Section runs.
Context `{FilterLib} (env : SetEnv) (lines : list string) (p : Packet).

Lemma tests_hold_free ts mark mark' :
  mark_free ts = true → tests_hold env p mark ts = tests_hold env p mark' ts.
Proof.
  unfold mark_free, tests_hold. induction ts as [|[b t] ts IH]; [done|]. cbn.
  intros [Ht Hts]%andb_true_iff. rewrite (IH Hts). by destruct t.
Qed.

Lemma tests_hold_app ts ts' mark :
  tests_hold env p mark (ts ++ ts') = tests_hold env p mark ts && tests_hold env p mark ts'.
Proof. unfold tests_hold. apply forallb_app. Qed.

(** Rules are run in sequence, while they return. *)
Definition then_rules (fuel : nat) (rs : list FilterRule) (o : option Outcome) : option Outcome :=
  match o with
  | Some (Returned mark) => run_rules env lines p fuel rs mark
  | _ => o
  end.

Lemma run_rules_cons fuel r rs mark :
  run_rules env lines p fuel (r :: rs) mark =
  if tests_hold env p mark (fr_tests r) then
    match fr_target r with
    | Jump c =>
        match fuel with
        | O => None
        | S fuel' => then_rules fuel rs (run_chain env lines p fuel' c mark)
        end
    | Accept => Some Accepted
    | Drop => Some Dropped
    | Reject => Some Rejected
    | Return => Some (Returned mark)
    | Log => run_rules env lines p fuel rs mark
    | SetXmark vm => run_rules env lines p fuel rs (set_xmark vm mark)
    | SetMark vm => run_rules env lines p fuel rs (set_mark vm mark)
    end
  else run_rules env lines p fuel rs mark.
Proof.
  destruct fuel as [|fuel]; cbn [run_rules]; [by destruct (fr_target r)|].
  destruct (tests_hold _ _ _ _); [|done]. destruct (fr_target r) as [c| | | | | | |]; try done.
  unfold then_rules, run_chain. by destruct (run_rules env lines p fuel _ mark) as [[]|].
Qed.

Lemma run_rules_nil fuel mark : run_rules env lines p fuel [] mark = Some (Returned mark).
Proof. by destruct fuel. Qed.

(** Rule lists without RETURN compose. *)
Definition no_return (rs : list FilterRule) : bool :=
  forallb (λ r, match fr_target r with Return => false | _ => true end) rs.

Lemma run_rules_app fuel rs rs' mark :
  no_return rs = true →
  run_rules env lines p fuel (rs ++ rs') mark =
  then_rules fuel rs' (run_rules env lines p fuel rs mark).
Proof.
  revert mark. induction rs as [|r rs IH]; intros mark Hnr.
  { cbn [app]. by rewrite run_rules_nil. }
  cbn [app]. cbn in Hnr. apply andb_true_iff in Hnr as [Hr Hnr]. rewrite !run_rules_cons.
  destruct (tests_hold _ _ _ _); [|by apply IH].
  destruct (fr_target r) as [c| | | | | |vm|vm]; try done; try by apply IH.
  destruct fuel as [|fuel]; [done|].
  destruct (run_chain env lines p fuel c mark) as [[m| | |]|]; try done. cbn [then_rules].
  by apply IH.
Qed.

(** A MARK and RETURN pair per list of tests. *)
Definition verdict_pair (ts : list (bool * Test)) : list FilterRule :=
  [{| fr_tests := ts; fr_target := SetXmark MARK_MATCHED |};
   {| fr_tests := ts ++ [(false, TMark MARK_MATCHED)]; fr_target := Return |}].

Lemma run_verdict_pairs fuel tss mark :
  Forall (λ ts, mark_free ts = true) tss →
  run_rules env lines p fuel (tss ≫= verdict_pair) mark =
  Some (Returned (if existsb (tests_hold env p 0) tss then mark_matched mark else mark)).
Proof.
  induction 1 as [|ts tss Hts _ IH]; [apply run_rules_nil|]. rewrite bind_cons.
  cbn [existsb]. unfold verdict_pair at 1. cbn [app]. rewrite !run_rules_cons. cbn [fr_tests fr_target].
  fold (mark_matched mark). rewrite !tests_hold_app.
  rewrite !(tests_hold_free ts mark 0) by done.
  destruct (tests_hold env p 0 ts) eqn:Ht; cbn [andb orb].
  - rewrite run_rules_cons. cbn [fr_tests fr_target]. rewrite tests_hold_app.
    rewrite (tests_hold_free ts _ 0), Ht by done. unfold tests_hold.
    cbn [forallb fst snd test_holds]. by rewrite has_mark_matched, matched_mark.
  - exact IH.
Qed.
End runs.

(** A set whose name determines it among those of a plan holds its entries. *)
Lemma set_env_lookup ipsets x :
  (∀ y, y ∈ ipsets → ipl_name y = ipl_name x → y = x) → x ∈ ipsets →
  set_env ipsets !! ipl_name x = Some (ipl_type x, ipl_entries x).
Proof.
  intros Hc Hx. unfold set_env.
  destruct (insert_all_is_Some ipl_name (λ x, (ipl_type x, ipl_entries x)) ∅ ipsets (ipl_name x))
    as [v Hv]; [left; by apply list_elem_of_fmap_2|].
  etrans; [exact Hv|]. destruct (insert_all_inv _ _ _ _ _ _ Hv) as [(y & Hy & Hk & <-)|[Hn _]].
  - by destruct (Hc y Hy Hk).
  - destruct Hn. by apply list_elem_of_fmap_2.
Qed.
