(* ===== verification/SynthFacts.v ===== *)
(** * SynthFacts: the contents of a synthesized plan

    What [build_plan] emits, as equations: the sets, the declarations and the
    rule lines of a plan are those of its policies and pods in order; the rule
    lines of a policy chain read as MARK and RETURN pairs, and those of a pod
    chain as its dispatch. *)

From stdpp Require Import gmap sets list strings pretty sorting.
From Stdlib Require Import Ascii ZArith Lia.
From S2P Require Import Prelude Text Net IpText Common Netpol Synth Filter FilterFacts.
Import Naming Names Translate Ipset.

Local Open Scope Z_scope.

(** ** Verdicts: the matches of a MARK and RETURN pair *)

Definition SetRef : Type := option (string * string).

Definition ref_str (r : SetRef) : string :=
  match r with Some (set, side) => set_match set side | None => "" end.
Definition ref_tests (r : SetRef) : list (bool * Test) :=
  match r with Some (set, side) => [(false, TSet set side)] | None => [] end.

Inductive PortMatch := AnyPort | ProtoOnly (q : string) | ProtoPort (q : string) (n : Z).

Definition port_str (c : PortMatch) : string :=
  match c with
  | AnyPort => ""
  | ProtoOnly q => " -p " +:+ q
  | ProtoPort q n => " -p " +:+ q +:+ " --dport " +:+ pretty n
  end.
Definition port_tests (c : PortMatch) : list (bool * Test) :=
  match c with
  | AnyPort => []
  | ProtoOnly q => [(false, TProto q)]
  | ProtoPort q n => [(false, TProto q); (false, TDport (pretty n))]
  end.

Definition Verdict : Type := SetRef * SetRef * PortMatch.

Definition verdict_tests (v : Verdict) : list (bool * Test) :=
  ref_tests v.1.1 ++ ref_tests v.1.2 ++ port_tests v.2.

Definition verdict_lines (pchain : string) (v : Verdict) : list string :=
  ["-A " +:+ pchain +:+ ref_str v.1.1 +:+ ref_str v.1.2 +:+ port_str v.2 +:+
     " -j MARK --set-xmark " +:+ MARK_MATCHED;
   "-A " +:+ pchain +:+ ref_str v.1.1 +:+ ref_str v.1.2 +:+ port_str v.2 +:+
     " -m mark --mark " +:+ MARK_MATCHED +:+ " -j RETURN"].

(** The words of the matches. *)
Definition ref_list (r : SetRef) : list string :=
  match r with Some (set, side) => ["-m"; "set"; "--match-set"; set; side] | None => [] end.
Definition port_list (c : PortMatch) : list string :=
  match c with
  | AnyPort => []
  | ProtoOnly q => ["-p"; q]
  | ProtoPort q n => ["-p"; q; "--dport"; pretty n]
  end.
Definition verdict_words (v : Verdict) : Prop :=
  Forall (λ w, word w = true) (ref_list v.1.1 ++ ref_list v.1.2 ++ port_list v.2).

Lemma verdict_tests_free v : mark_free (verdict_tests v) = true.
Proof. destruct v as [[[[]|] [[]|]] []]; done. Qed.

Lemma verdict_lines_rules pchain v :
  word pchain = true → verdict_words v →
  chain_rules (verdict_lines pchain v) pchain = verdict_pair (verdict_tests v).
Proof.
  intros Hp Hw. unfold chain_rules, verdict_lines. cbn [omap list_omap].
  rewrite (line_rule_parse pchain _ {| fr_tests := verdict_tests v;
    fr_target := SetXmark MARK_MATCHED |}).
  2:{ rewrite (parse_line_join _ (["-A"; pchain] ++
        (ref_list v.1.1 ++ ref_list v.1.2 ++ port_list v.2) ++
        ["-j"; "MARK"; "--set-xmark"; MARK_MATCHED])).
      - destruct v as [[[[]|] [[]|]] []]; reflexivity.
      - destruct v as [[[[]|] [[]|]] []]; cbn; unfold set_match; by rewrite ?str_app_assoc.
      - apply Forall_app_2; [by repeat constructor|].
        apply Forall_app_2; [exact Hw|by repeat constructor]. }
  rewrite (line_rule_parse pchain _ {| fr_tests := verdict_tests v ++ [(false, TMark MARK_MATCHED)];
    fr_target := Return |}); [done|].
  rewrite (parse_line_join _ (["-A"; pchain] ++
    (ref_list v.1.1 ++ ref_list v.1.2 ++ port_list v.2) ++
    ["-m"; "mark"; "--mark"; MARK_MATCHED; "-j"; "RETURN"])).
  - destruct v as [[[[]|] [[]|]] []]; reflexivity.
  - destruct v as [[[[]|] [[]|]] []]; cbn; unfold set_match; by rewrite ?str_app_assoc.
  - apply Forall_app_2; [by repeat constructor|].
        apply Forall_app_2; [exact Hw|by repeat constructor].
Qed.

Lemma verdicts_rules pchain vs :
  word pchain = true → Forall verdict_words vs →
  chain_rules (vs ≫= verdict_lines pchain) pchain = (verdict_tests <$> vs) ≫= verdict_pair.
Proof.
  intros Hp. induction 1 as [|v vs Hv _ IH]; [done|].
  rewrite fmap_cons, !bind_cons, chain_rules_app, verdict_lines_rules by done. by rewrite IH.
Qed.

(** ** The contents of a policy chain *)

Section contents.
Context `{IpNetLib} `{HashLib}.

(** The sets of a rule's peers, and the references to them. *)
Definition peer_refs (dir : Direction) (pol : NetworkPolicy) (idx : nat) (family : IpFamily)
    (resolved : ResolvedPeers) : list SetRef :=
  let '(pod_set, ipblock_set) := peer_sets dir pol idx family in
  if match_all resolved then [None]
  else
    (match ip_entries resolved with [] => [] | _ => [Some (pod_set, peer_side dir)] end) ++
    (match net_entries resolved with [] => [] | _ => [Some (ipblock_set, peer_side dir)] end).

Definition peer_ipsets (dir : Direction) (pol : NetworkPolicy) (idx : nat) (family : IpFamily)
    (resolved : ResolvedPeers) : list IpsetPlan :=
  let '(pod_set, ipblock_set) := peer_sets dir pol idx family in
  if match_all resolved then []
  else
    (match ip_entries resolved with
     | [] => []
     | es => [{| ipl_name := pod_set; ipl_type := HashIp; ipl_family := family;
                 ipl_entries := es |}]
     end) ++
    (match net_entries resolved with
     | [] => []
     | es => [{| ipl_name := ipblock_set; ipl_type := HashNet; ipl_family := family;
                 ipl_entries := es |}]
     end).

Lemma push_peer_sets_eq dir pol idx family resolved plan :
  push_peer_sets dir pol idx family resolved plan =
  ({| fp_ipsets := fp_ipsets plan ++ peer_ipsets dir pol idx family resolved;
      fp_decls := fp_decls plan; fp_rules := fp_rules plan |},
   ref_str <$> peer_refs dir pol idx family resolved).
Proof.
  unfold push_peer_sets, peer_ipsets, peer_refs.
  destruct (peer_sets dir pol idx family) as [s1 s2].
  destruct plan as [sets decls rules]. unfold push_ipset.
  destruct (match_all resolved); cbn; [by rewrite app_nil_r|].
  destruct (ip_entries resolved), (net_entries resolved); cbn; rewrite ?app_nil_r; try done.
  by rewrite <-app_assoc.
Qed.

(** The groups of a named port, numbered. *)
Definition port_groups (dir : Direction) (pol : NetworkPolicy) (pods : list Pod)
    (family : IpFamily) (resolved : ResolvedPeers) (name q : string)
    : list (nat * (Z * list string)) :=
  imap pair (btree_iter (named_groups (port_receivers dir pol pods family resolved) name q family)).

Definition group_ipset (dir : Direction) (pol : NetworkPolicy) (idx : nat) (family : IpFamily)
    (x : nat * (Z * list string)) : IpsetPlan :=
  {| ipl_name := named_port_set dir pol idx x.1 family; ipl_type := HashIp;
     ipl_family := family; ipl_entries := dedup (merge_sort String.le x.2.2) |}.

Definition group_verdict (dir : Direction) (pol : NetworkPolicy) (idx : nat) (family : IpFamily)
    (target peer : SetRef) (q : string) (x : nat * (Z * list string)) : Verdict :=
  (match dir with Ingress => peer | Egress => target end,
   Some (named_port_set dir pol idx x.1 family, "dst"), ProtoPort q x.2.1).

Definition port_verdicts (dir : Direction) (pol : NetworkPolicy) (idx : nat) (pods : list Pod)
    (family : IpFamily) (resolved : ResolvedPeers) (target peer : SetRef) (port : PortSpec)
    : list Verdict :=
  match ps_port port with
  | PortAll => [(peer, target, ProtoOnly (ps_protocol port))]
  | PortNumber n => [(peer, target, ProtoPort (ps_protocol port) n)]
  | PortName name =>
      group_verdict dir pol idx family target peer (ps_protocol port)
        <$> port_groups dir pol pods family resolved name (ps_protocol port)
  end.

Definition port_ipsets (dir : Direction) (pol : NetworkPolicy) (idx : nat) (pods : list Pod)
    (family : IpFamily) (resolved : ResolvedPeers) (port : PortSpec) : list IpsetPlan :=
  match ps_port port with
  | PortName name =>
      group_ipset dir pol idx family
        <$> port_groups dir pol pods family resolved name (ps_protocol port)
  | _ => []
  end.

Definition rule_resolved (pol : NetworkPolicy) (pods : list Pod) (namespaces : list Namespace)
    (family : IpFamily) (rule : PolicyRule) : ResolvedPeers :=
  resolve_peers (pr_peers rule) pods namespaces (np_namespace pol) family.

Definition own_ref (dir : Direction) (pol : NetworkPolicy) (family : IpFamily) : SetRef :=
  Some (target_set dir pol family, target_side dir).

Definition rule_verdicts (dir : Direction) (pol : NetworkPolicy) (pods : list Pod)
    (namespaces : list Namespace) (family : IpFamily) (x : nat * PolicyRule) : list Verdict :=
  let resolved := rule_resolved pol pods namespaces family x.2 in
  peer_refs dir pol x.1 family resolved ≫= λ peer,
    match pr_ports x.2 with
    | [] => [(peer, own_ref dir pol family, AnyPort)]
    | ports => ports ≫= port_verdicts dir pol x.1 pods family resolved (own_ref dir pol family) peer
    end.

Definition rule_ipsets (dir : Direction) (pol : NetworkPolicy) (pods : list Pod)
    (namespaces : list Namespace) (family : IpFamily) (x : nat * PolicyRule) : list IpsetPlan :=
  let resolved := rule_resolved pol pods namespaces family x.2 in
  peer_ipsets dir pol x.1 family resolved ++
  (peer_refs dir pol x.1 family resolved ≫= λ _,
     pr_ports x.2 ≫= port_ipsets dir pol x.1 pods family resolved).

Definition dir_verdicts (dir : Direction) (pol : NetworkPolicy) (pods : list Pod)
    (namespaces : list Namespace) (family : IpFamily) : list Verdict :=
  if policy_has dir pol
  then imap pair (policy_rules dir pol) ≫= rule_verdicts dir pol pods namespaces family
  else [].

Definition own_ipset (dir : Direction) (pol : NetworkPolicy) (pods : list Pod)
    (family : IpFamily) : IpsetPlan :=
  {| ipl_name := target_set dir pol family; ipl_type := HashIp; ipl_family := family;
     ipl_entries := selected_ips pol pods family |}.

Definition dir_ipsets (dir : Direction) (pol : NetworkPolicy) (pods : list Pod)
    (namespaces : list Namespace) (family : IpFamily) : list IpsetPlan :=
  if policy_has dir pol
  then own_ipset dir pol pods family ::
       (imap pair (policy_rules dir pol) ≫= rule_ipsets dir pol pods namespaces family)
  else [].

Definition policy_verdicts (pods : list Pod) (namespaces : list Namespace) (family : IpFamily)
    (pol : NetworkPolicy) : list Verdict :=
  dir_verdicts Ingress pol pods namespaces family ++ dir_verdicts Egress pol pods namespaces family.

Definition policy_ipsets (pods : list Pod) (namespaces : list Namespace) (family : IpFamily)
    (pol : NetworkPolicy) : list IpsetPlan :=
  dir_ipsets Ingress pol pods namespaces family ++ dir_ipsets Egress pol pods namespaces family.

(** *** The emitters append exactly these *)

(** The three lists of a plan grow by the given ones. *)
Definition grows (plan plan' : FirewallPlan) (sets : list IpsetPlan) (decls rules : list string)
    : Prop :=
  fp_ipsets plan' = fp_ipsets plan ++ sets ∧ fp_decls plan' = fp_decls plan ++ decls ∧
  fp_rules plan' = fp_rules plan ++ rules.

Lemma grows_nil plan : grows plan plan [] [] [].
Proof. unfold grows. by rewrite !app_nil_r. Qed.

Lemma grows_trans plan plan' plan'' s d r s' d' r' :
  grows plan plan' s d r → grows plan' plan'' s' d' r' →
  grows plan plan'' (s ++ s') (d ++ d') (r ++ r').
Proof.
  intros (Hs & Hd & Hr) (Hs' & Hd' & Hr'). unfold grows.
  rewrite Hs', Hd', Hr', Hs, Hd, Hr. by rewrite !app_assoc.
Qed.

Lemma grows_sets plan plan' plan'' s s' d r :
  grows plan plan' s [] [] → grows plan' plan'' s' d r → grows plan plan'' (s ++ s') d r.
Proof. apply (grows_trans plan plan' plan'' s [] [] s' d r). Qed.

Lemma foldl_grows {A} (step : FirewallPlan → A → FirewallPlan) sets rules plan l :
  (∀ plan x, grows plan (step plan x) (sets x) [] (rules x)) →
  grows plan (foldl step plan l) (l ≫= sets) [] (l ≫= rules).
Proof.
  intros Hstep. revert plan. induction l as [|x l IH]; intros plan; [apply grows_nil|].
  cbn [foldl]. rewrite !bind_cons. apply (grows_trans _ (step plan x) _ _ [] _ _ []); auto.
Qed.

Lemma emit_group_grows pchain dir pol idx family target peer q plan x :
  grows plan (emit_group pchain dir (ref_str target) pol idx family (ref_str peer) q plan x)
    [group_ipset dir pol idx family x] []
    (verdict_lines pchain (group_verdict dir pol idx family target peer q x)).
Proof.
  destruct x as [ep [n ips]]. unfold grows, emit_group, push_policy_verdict, push_rules, push_ipset.
  cbn. rewrite app_nil_r. by destruct dir.
Qed.

Lemma emit_port_grows pchain dir pol idx pods family resolved target peer plan port :
  grows plan (emit_port pchain dir (ref_str target) pol idx family
    (port_receivers dir pol pods family resolved) (ref_str peer) plan port)
    (port_ipsets dir pol idx pods family resolved port) []
    (port_verdicts dir pol idx pods family resolved target peer port ≫= verdict_lines pchain).
Proof.
  unfold emit_port, port_ipsets, port_verdicts. destruct (ps_port port) as [|n|name].
  1, 2: unfold grows; cbn; by rewrite !app_nil_r.
  fold (port_groups dir pol pods family resolved name (ps_protocol port)).
  rewrite <-!bind_singletons, bind_assoc.
  apply foldl_grows. intros plan' x. cbn [mbind list_bind]. rewrite app_nil_r.
  apply emit_group_grows.
Qed.

Lemma emit_rule_grows pchain dir pol pods namespaces family plan x :
  grows plan (emit_rule pchain dir (target_set dir pol family) pol pods namespaces family plan x)
    (rule_ipsets dir pol pods namespaces family x) []
    (rule_verdicts dir pol pods namespaces family x ≫= verdict_lines pchain).
Proof.
  destruct x as [idx rule]. unfold emit_rule, rule_ipsets, rule_verdicts, rule_resolved. cbn [fst snd].
  set (resolved := resolve_peers _ _ _ _ _). rewrite push_peer_sets_eq.
  set (plan1 := {| fp_ipsets := _; fp_decls := _; fp_rules := _ |}).
  apply (grows_sets plan plan1); [by unfold grows; cbn; rewrite !app_nil_r|].
  rewrite bind_assoc. generalize (peer_refs dir pol idx family resolved) as refs.
  intros refs. generalize plan1 as plan'.
  induction refs as [|peer refs IH]; intros plan'; [apply grows_nil|].
  rewrite fmap_cons, !bind_cons. cbn [foldl]. eapply (grows_trans _ _ _ _ [] _ _ []); [|apply IH].
  destruct (pr_ports rule) as [|port ports].
  - unfold grows. cbn. by rewrite !app_nil_r.
  - rewrite bind_assoc.
    refine (foldl_grows (emit_port pchain dir (ref_str (own_ref dir pol family)) pol idx family
      (port_receivers dir pol pods family resolved) (ref_str peer)) _ _ plan' (port :: ports) _).
    intros plan'' port'.
    apply (emit_port_grows pchain dir pol idx pods family resolved (own_ref dir pol family)).
Qed.

Lemma emit_direction_grows pchain dir pol pods namespaces family plan :
  grows plan (emit_direction pchain dir pol pods namespaces family plan)
    (dir_ipsets dir pol pods namespaces family) []
    (dir_verdicts dir pol pods namespaces family ≫= verdict_lines pchain).
Proof.
  unfold emit_direction, dir_ipsets, dir_verdicts. destruct (policy_has dir pol); [|apply grows_nil].
  apply (grows_sets plan (push_ipset (own_ipset dir pol pods family) plan) _
    [own_ipset dir pol pods family]); [by unfold grows; cbn; rewrite !app_nil_r|].
  rewrite bind_assoc. apply foldl_grows. intros plan' x. apply emit_rule_grows.
Qed.

Lemma emit_policy_grows pods namespaces family ver plan pol :
  grows plan (emit_policy pods namespaces family ver plan pol)
    (policy_ipsets pods namespaces family pol) [chain_decl (policy_chain pol ver family)]
    (policy_verdicts pods namespaces family pol ≫= verdict_lines (policy_chain pol ver family)).
Proof.
  unfold emit_policy, policy_ipsets, policy_verdicts. rewrite bind_app.
  set (pchain := policy_chain pol ver family). set (plan1 := push_decl (chain_decl pchain) plan).
  pose proof (emit_direction_grows pchain Ingress pol pods namespaces family plan1) as Hin.
  pose proof (emit_direction_grows pchain Egress pol pods namespaces family
    (emit_direction pchain Ingress pol pods namespaces family plan1)) as Heg.
  destruct (grows_trans _ _ _ _ _ _ _ _ _ Hin Heg) as (Hs & Hd & Hr).
  split; [exact Hs|]. split; [by rewrite Hd, app_nil_r|exact Hr].
Qed.

(** ** The contents of a plan *)

Definition pod_lines (policies : list NetworkPolicy) (family : IpFamily) (ver : string) (pod : Pod)
    : list string :=
  match selecting_policies policies pod with
  | [] => []
  | selecting => pod_rules ver family selecting pod
  end.

Definition firewalled (policies : list NetworkPolicy) (pod : Pod) : bool :=
  match selecting_policies policies pod with [] => false | _ => true end.

(** The pods that get a chain. *)
Definition chained_pods (policies : list NetworkPolicy) (pods : list Pod) (node : string)
    (family : IpFamily) : list Pod :=
  filter (λ p, firewalled policies p = true) (filter (λ p, pod_actionable node family p = true) pods).

Lemma emit_pod_eq policies family ver st pod :
  emit_pod policies family ver st pod =
  if firewalled policies pod
  then (push_rules (pod_lines policies family ver pod)
          (push_decl (chain_decl (pod_chain pod ver)) st.1), st.2 ++ pod_family_ips pod family)
  else st.
Proof.
  unfold emit_pod, firewalled, pod_lines. by destruct (selecting_policies policies pod).
Qed.

Lemma emit_pods_grow policies family ver pods plan ips :
  let chained := filter (λ p, firewalled policies p = true) pods in
  let '(plan', ips') := foldl (emit_pod policies family ver) (plan, ips) pods in
  grows plan plan' [] ((λ p, chain_decl (pod_chain p ver)) <$> chained)
    (chained ≫= pod_lines policies family ver) ∧
  ips' = ips ++ (chained ≫= λ p, pod_family_ips p family).
Proof.
  revert plan ips. induction pods as [|pod pods IH]; intros plan ips.
  { split; [apply grows_nil|by rewrite app_nil_r]. }
  cbn [foldl]. rewrite filter_cons, emit_pod_eq. cbn [fst snd].
  destruct (firewalled policies pod) eqn:Hf; [rewrite decide_True by done|
    rewrite decide_False by done; apply IH].
  set (plan1 := push_rules _ _). specialize (IH plan1 (ips ++ pod_family_ips pod family)).
  destruct (foldl _ _ _) as [plan' ips']. destruct IH as [IH ->].
  rewrite fmap_cons, !bind_cons. split; [|by rewrite app_assoc].
  assert (grows plan plan1 [] [chain_decl (pod_chain pod ver)] (pod_lines policies family ver pod))
    as Hpod by (unfold grows; cbn; by rewrite app_nil_r).
  exact (grows_trans _ _ _ _ _ _ _ _ _ Hpod IH).
Qed.

(** A whole plan. *)
Section plan.
Variables (policies : list NetworkPolicy) (pods : list Pod) (namespaces : list Namespace).
Variables (node : string) (family : IpFamily) (ver : string) (dd : bool).
Variables (pod_cidrs ranges : list IpNet) (npr : option string).

Let plan := build_plan policies pods namespaces node family ver dd pod_cidrs ranges npr.
Let applied := filter (λ p, policy_applies p = true) policies.
Let chained := chained_pods policies pods node family.

Lemma plan_contents :
  fp_ipsets plan = (applied ≫= policy_ipsets pods namespaces family) ++
    (if dd then [{| ipl_name := local_pods_set family; ipl_type := HashIp; ipl_family := family;
                    ipl_entries := chained ≫= λ p, pod_family_ips p family |}] else []) ∧
  fp_decls plan = fp_decls initial_plan ++
    ((λ pol, chain_decl (policy_chain pol ver family)) <$> applied) ++
    ((λ p, chain_decl (pod_chain p ver)) <$> chained) ∧
  fp_rules plan =
    (common_rules family ++ default_rules ++ service_return_rules family ranges npr) ++
    (applied ≫= λ pol, policy_verdicts pods namespaces family pol
                         ≫= verdict_lines (policy_chain pol ver family)) ++
    (chained ≫= pod_lines policies family ver) ++
    (tail_rules dd family pod_cidrs ++ tail_jumps).
Proof.
  unfold plan, build_plan. set (plan0 := push_rules _ initial_plan).
  assert (∀ l plan1, grows plan1 (foldl (emit_policy pods namespaces family ver) plan1 l)
    (l ≫= policy_ipsets pods namespaces family)
    ((λ pol, chain_decl (policy_chain pol ver family)) <$> l)
    (l ≫= λ pol, policy_verdicts pods namespaces family pol
                   ≫= verdict_lines (policy_chain pol ver family))) as Hpols.
  { induction l as [|pol l IH]; intros plan1; [apply grows_nil|].
    exact (grows_trans _ _ _ _ _ _ _ _ _
      (emit_policy_grows pods namespaces family ver plan1 pol) (IH _)). }
  destruct (Hpols applied plan0) as (Hs & Hd & Hr). fold applied.
  set (plan1 := foldl (emit_policy pods namespaces family ver) plan0 applied) in *.
  pose proof (emit_pods_grow policies family ver
    (filter (λ p, pod_actionable node family p = true) pods) plan1 []) as Hpods.
  cbn zeta in Hpods. fold (chained_pods policies pods node family) in Hpods. fold chained in Hpods.
  destruct (foldl (emit_pod policies family ver) _ _) as [plan2 ips].
  destruct Hpods as [(Hs' & Hd' & Hr') ->]. rewrite app_nil_r in Hs'.
  split_and!; destruct dd; cbn [fp_ipsets fp_decls fp_rules push_rules push_ipset app];
    rewrite ?Hs', ?Hd', ?Hr', ?Hs, ?Hd, ?Hr; cbn [plan0 push_rules fp_ipsets fp_decls fp_rules];
    rewrite ?app_nil_r, <-?app_assoc; done.
Qed.
End plan.
End contents.
