(* ===== verification/PlanChains.v ===== *)
(** * PlanChains: the chains of a synthesized plan, as rules

    Reading the rule lines of [build_plan] back chain by chain: the fixed chains,
    the chain of a policy, the chain of a pod and the three top chains.  Chain
    names are taken to be distinct, that is, the truncated hashes do not collide
    on the policies and pods at hand. *)

From stdpp Require Import gmap sets list strings pretty sorting.
From Stdlib Require Import Ascii ZArith Lia.
From S2P Require Import Prelude Text Net IpText Common Netpol Synth Filter FilterFacts SynthFacts.
Import Naming Names Translate Ipset.

Local Open Scope Z_scope.

(** ** Lines that belong to given chains *)

Definition in_chains (cs : list string) (line : string) : Prop := ∃ c, c ∈ cs ∧ line_of c line.

Lemma chain_rules_outside cs lines chain :
  Forall (in_chains cs) lines → Forall (λ c, word c = true) cs → (chain ∉ cs) →
  chain_rules lines chain = [].
Proof.
  rewrite !Forall_forall. intros Hl Hcs Hc. apply chain_rules_other. intros l Hin.
  destruct (Hl l Hin) as (c & Hcin & Hline). exists c. split_and!; [done|by apply Hcs|].
  intros ->. done.
Qed.

Lemma Forall_bind {A B} (P : B → Prop) (f : A → list B) l :
  (∀ x, x ∈ l → Forall P (f x)) → Forall P (l ≫= f).
Proof.
  intros Hf. rewrite Forall_forall. intros y (x & Hy & Hx)%list_elem_of_bind.
  specialize (Hf x Hx). rewrite Forall_forall in Hf. by apply Hf.
Qed.

Lemma Forall_map_intro {A B} (P : B → Prop) (f : A → B) l : (∀ x, P (f x)) → Forall P (f <$> l).
Proof. intros Hf. apply Forall_fmap, Forall_true. exact Hf. Qed.

(** Each line of an explicit list starts with its chain. *)
Ltac chain_lines :=
  repeat (apply Forall_app_2 || (apply Forall_cons; split) || apply Forall_nil_2);
  try (eexists; split; [|eexists; reflexivity]; repeat first [apply list_elem_of_here | apply list_elem_of_further]).

Section chains.
Context `{IpNetLib} `{HashLaws}.

Lemma verdict_lines_in pchain v : Forall (in_chains [pchain]) (verdict_lines pchain v).
Proof.
  destruct v as [[a b] c]. unfold verdict_lines. cbn [fst snd].
  assert (∀ s, ∃ rest, ref_str a +:+ ref_str b +:+ port_str c +:+ " " +:+ s = " " +:+ rest) as Hsp.
  { intros s. destruct a as [[]|], b as [[]|], c; cbn [ref_str port_str];
      unfold set_match; rewrite ?append_nil_l, ?str_app_assoc; eexists; reflexivity. }
  apply Forall_cons. split; [|apply Forall_cons; split; [|apply Forall_nil_2]].
  - destruct (Hsp ("-j MARK --set-xmark " +:+ MARK_MATCHED)) as [rest Hrest].
    exists pchain. split; [apply list_elem_of_here|]. exists rest. rewrite <-Hrest. done.
  - destruct (Hsp ("-m mark --mark " +:+ MARK_MATCHED +:+ " -j RETURN")) as [rest Hrest].
    exists pchain. split; [apply list_elem_of_here|]. exists rest. rewrite <-Hrest. done.
Qed.

Definition top_chains : list string := [ROUTER_INPUT; ROUTER_FORWARD; ROUTER_OUTPUT].

Lemma common_rules_in family : Forall (in_chains [NWPLCY_COMMON]) (common_rules family).
Proof. destruct family; chain_lines. Qed.

Lemma default_rules_in : Forall (in_chains [NWPLCY_DEFAULT]) default_rules.
Proof. chain_lines. Qed.

Lemma service_return_rules_in family ranges npr :
  Forall (in_chains top_chains) (service_return_rules family ranges npr).
Proof.
  unfold service_return_rules. apply Forall_app_2.
  - apply Forall_map_intro. intros x. chain_lines.
  - destruct npr; [|chain_lines]. apply Forall_map_intro. intros x. chain_lines.
Qed.

Lemma tail_rules_in dd family cidrs : Forall (in_chains [NWPLCY_TAIL]) (tail_rules dd family cidrs).
Proof.
  unfold tail_rules. destruct dd; repeat apply Forall_app_2;
    try (apply Forall_bind; intros x _; chain_lines); chain_lines.
Qed.

Lemma tail_jumps_in : Forall (in_chains top_chains) tail_jumps.
Proof. chain_lines. Qed.

Lemma pod_entry_in podchain ip : Forall (in_chains top_chains) (pod_entry podchain ip).
Proof. unfold pod_entry. chain_lines. Qed.

(** The rules of the pod's own chain. *)
Definition pod_own_lines (ver : string) (family : IpFamily) (selecting : list NetworkPolicy)
    (pod : Pod) : list string :=
  let podchain := pod_chain pod ver in
  let ips := pod_family_ips pod family in
  ["-A " +:+ podchain +:+ " -j " +:+ NWPLCY_COMMON] ++
  ((λ ip, "-A " +:+ podchain +:+ " -m addrtype --src-type LOCAL -d " +:+ ip +:+ " -j ACCEPT")
     <$> ips) ++
  (ips ≫= pod_dispatch podchain ver family selecting) ++
  pod_verdict podchain family.

Lemma pod_rules_split ver family selecting pod :
  pod_rules ver family selecting pod =
  pod_own_lines ver family selecting pod ++
  (pod_family_ips pod family ≫= pod_entry (pod_chain pod ver)).
Proof. unfold pod_rules, pod_own_lines. by rewrite <-!app_assoc. Qed.

Lemma pod_own_lines_in ver family selecting pod :
  Forall (in_chains [pod_chain pod ver]) (pod_own_lines ver family selecting pod).
Proof.
  unfold pod_own_lines. repeat apply Forall_app_2; [chain_lines|..].
  - apply Forall_map_intro. intros ip. chain_lines.
  - apply Forall_bind. intros ip _. unfold pod_dispatch. repeat apply Forall_app_2.
    + apply Forall_bind. intros pol _. unfold policy_jump. repeat case_match; chain_lines.
    + case_match; chain_lines.
    + case_match; chain_lines.
  - unfold pod_verdict. destruct family; chain_lines.
Qed.

(** ** Names of chains *)

Definition fixed_chains : list string :=
  [NWPLCY_COMMON; NWPLCY_DEFAULT; NWPLCY_TAIL; ROUTER_INPUT; ROUTER_FORWARD; ROUTER_OUTPUT].

Lemma length_policy_chain pol ver family : String.length (policy_chain pol ver family) = 28%nat.
Proof. unfold policy_chain, network_policy_chain. by rewrite length_append, length_hash16. Qed.

Lemma length_pod_chain pod ver : String.length (pod_chain pod ver) = 28%nat.
Proof. unfold pod_chain, pod_firewall_chain. by rewrite length_append, length_hash16. Qed.

Lemma word_policy_chain pol ver family : word (policy_chain pol ver family) = true.
Proof. by apply word_hash16. Qed.

Lemma word_pod_chain pod ver : word (pod_chain pod ver) = true.
Proof. by apply word_hash16. Qed.

Lemma fixed_length c : c ∈ fixed_chains → String.length c ≠ 28%nat.
Proof.
  assert (Forall (λ c, String.length c ≠ 28%nat) fixed_chains) as Hall by (by repeat constructor).
  rewrite Forall_forall in Hall. apply Hall.
Qed.

Lemma policy_chain_not_fixed pol ver family : policy_chain pol ver family ∉ fixed_chains.
Proof. intros Hin%fixed_length. by rewrite length_policy_chain in Hin. Qed.

Lemma pod_chain_not_fixed pod ver : pod_chain pod ver ∉ fixed_chains.
Proof. intros Hin%fixed_length. by rewrite length_pod_chain in Hin. Qed.

Lemma policy_pod_chain pol ver family pod ver' : policy_chain pol ver family ≠ pod_chain pod ver'.
Proof. intros Heq%(f_equal (String.get 5)). done. Qed.

Lemma top_fixed c : c ∈ top_chains → c ∈ fixed_chains.
Proof. unfold top_chains, fixed_chains. rewrite !elem_of_cons. tauto. Qed.

(** ** The chains of a plan *)

Section plan.
Variables (policies : list NetworkPolicy) (pods : list Pod) (namespaces : list Namespace).
Variables (node : string) (family : IpFamily) (ver : string) (dd : bool).
Variables (pod_cidrs ranges : list IpNet) (npr : option string).

Definition applied_policies : list NetworkPolicy := filter (λ p, policy_applies p = true) policies.

Let plan := build_plan policies pods namespaces node family ver dd pod_cidrs ranges npr.
Let chained := chained_pods policies pods node family.

(** No two policies and no two pods share a chain name: the hashes of their
    names do not collide. *)
Definition chains_distinct : Prop :=
  NoDup ((λ pol, policy_chain pol ver family) <$> applied_policies) ∧
  NoDup ((λ pod, pod_chain pod ver) <$> chained).

Hypothesis Hdistinct : chains_distinct.

Lemma top_words : Forall (λ c, word c = true) top_chains.
Proof. by repeat constructor. Qed.

Lemma policy_lines_outside pol c :
  c ≠ policy_chain pol ver family →
  chain_rules (policy_verdicts pods namespaces family pol
                 ≫= verdict_lines (policy_chain pol ver family)) c = [].
Proof.
  intros Hne. apply (chain_rules_outside [policy_chain pol ver family]).
  - apply Forall_bind. intros v _. apply verdict_lines_in.
  - apply Forall_singleton, word_policy_chain.
  - by rewrite list_elem_of_singleton.
Qed.

Lemma pod_lines_chained pod :
  pod ∈ chained →
  pod_lines policies family ver pod = pod_rules ver family (selecting_policies policies pod) pod.
Proof.
  unfold chained, chained_pods. rewrite list_elem_of_filter. unfold firewalled, pod_lines.
  intros [Hf _]. by destruct (selecting_policies policies pod).
Qed.

Lemma pod_lines_rules pod c :
  pod ∈ chained →
  chain_rules (pod_lines policies family ver pod) c =
  (if decide (c = pod_chain pod ver)
   then chain_rules (pod_own_lines ver family (selecting_policies policies pod) pod) c else []) ++
  (if decide (c ∈ top_chains)
   then chain_rules (pod_family_ips pod family ≫= pod_entry (pod_chain pod ver)) c else []).
Proof.
  intros Hpod. rewrite (pod_lines_chained _ Hpod), pod_rules_split, chain_rules_app. f_equal.
  - case_decide; [done|]. apply (chain_rules_outside [pod_chain pod ver]);
      [apply pod_own_lines_in|apply Forall_singleton, word_pod_chain|by rewrite list_elem_of_singleton].
  - case_decide; [done|]. apply (chain_rules_outside top_chains); [|apply top_words|done].
    apply Forall_bind. intros ip _. apply pod_entry_in.
Qed.

(** The rules of any chain, by part. *)
Lemma plan_chain_rules c :
  chain_rules (fp_rules plan) c =
  chain_rules (common_rules family) c ++ chain_rules default_rules c ++
  chain_rules (service_return_rules family ranges npr) c ++
  (applied_policies ≫= λ pol, chain_rules (policy_verdicts pods namespaces family pol
                                ≫= verdict_lines (policy_chain pol ver family)) c) ++
  (chained ≫= λ pod, chain_rules (pod_lines policies family ver pod) c) ++
  chain_rules (tail_rules dd family pod_cidrs) c ++ chain_rules tail_jumps c.
Proof.
  destruct (plan_contents policies pods namespaces node family ver dd pod_cidrs ranges npr)
    as (_ & _ & Hr).
  unfold plan. rewrite Hr. by rewrite !chain_rules_app, !chain_rules_bind, <-!app_assoc.
Qed.

Lemma common_outside c : c ≠ NWPLCY_COMMON → chain_rules (common_rules family) c = [].
Proof.
  intros Hc. apply (chain_rules_outside [NWPLCY_COMMON]);
    [apply common_rules_in|by repeat constructor|by rewrite list_elem_of_singleton].
Qed.
Lemma default_outside c : c ≠ NWPLCY_DEFAULT → chain_rules default_rules c = [].
Proof.
  intros Hc. apply (chain_rules_outside [NWPLCY_DEFAULT]);
    [apply default_rules_in|by repeat constructor|by rewrite list_elem_of_singleton].
Qed.
Lemma service_outside c :
  c ∉ top_chains → chain_rules (service_return_rules family ranges npr) c = [].
Proof.
  apply chain_rules_outside; [apply service_return_rules_in|apply top_words].
Qed.
Lemma tail_outside c : c ≠ NWPLCY_TAIL → chain_rules (tail_rules dd family pod_cidrs) c = [].
Proof.
  intros Hc. apply (chain_rules_outside [NWPLCY_TAIL]);
    [apply tail_rules_in|by repeat constructor|by rewrite list_elem_of_singleton].
Qed.
Lemma jumps_outside c : c ∉ top_chains → chain_rules tail_jumps c = [].
Proof. apply chain_rules_outside; [apply tail_jumps_in|apply top_words]. Qed.

Lemma policies_outside c :
  (∀ pol, c ≠ policy_chain pol ver family) →
  (applied_policies ≫= λ pol, chain_rules (policy_verdicts pods namespaces family pol
                                ≫= verdict_lines (policy_chain pol ver family)) c) = [].
Proof. intros Hc. apply bind_none. intros pol _. by apply policy_lines_outside. Qed.

Lemma pods_outside c :
  (∀ pod, c ≠ pod_chain pod ver) → (c ∉ top_chains) →
  (chained ≫= λ pod, chain_rules (pod_lines policies family ver pod) c) = [].
Proof.
  intros Hc Ht. apply bind_none. intros pod Hpod.
  by rewrite pod_lines_rules, !decide_False by done.
Qed.

(** The chain of a policy. *)
Lemma policy_chain_rules pol :
  pol ∈ applied_policies → Forall verdict_words (policy_verdicts pods namespaces family pol) →
  chain_rules (fp_rules plan) (policy_chain pol ver family) =
  (verdict_tests <$> policy_verdicts pods namespaces family pol) ≫= verdict_pair.
Proof.
  intros Hpol Hw. rewrite plan_chain_rules.
  pose proof (policy_chain_not_fixed pol ver family) as Hnf.
  assert (policy_chain pol ver family ∉ top_chains) as Hnt by (intros ?%top_fixed; done).
  assert (∀ c, c ∈ fixed_chains → policy_chain pol ver family ≠ c) as Hne by (intros c Hc <-; done).
  rewrite common_outside, default_outside, service_outside, tail_outside, jumps_outside
    by (done || apply Hne; unfold fixed_chains; rewrite !elem_of_cons; tauto).
  rewrite pods_outside by (done || (intros; apply policy_pod_chain)).
  rewrite (bind_unique (λ pol, policy_chain pol ver family) _ _ pol (proj1 Hdistinct) Hpol).
  - cbn [app]. rewrite !app_nil_r. apply verdicts_rules; [apply word_policy_chain|done].
  - intros pol' _ Hne'. apply policy_lines_outside. done.
Qed.

(** The chain of a pod. *)
Lemma pod_chain_rules pod :
  pod ∈ chained →
  chain_rules (fp_rules plan) (pod_chain pod ver) =
  chain_rules (pod_own_lines ver family (selecting_policies policies pod) pod) (pod_chain pod ver).
Proof.
  intros Hpod. rewrite plan_chain_rules.
  pose proof (pod_chain_not_fixed pod ver) as Hnf.
  assert (pod_chain pod ver ∉ top_chains) as Hnt by (intros ?%top_fixed; done).
  assert (∀ c, c ∈ fixed_chains → pod_chain pod ver ≠ c) as Hne by (intros c Hc <-; done).
  rewrite common_outside, default_outside, service_outside, tail_outside, jumps_outside
    by (done || apply Hne; unfold fixed_chains; rewrite !elem_of_cons; tauto).
  rewrite policies_outside by (intros pol Heq; symmetry in Heq; by apply policy_pod_chain in Heq).
  rewrite (bind_unique (λ pod, pod_chain pod ver) _ _ pod (proj2 Hdistinct) Hpod).
  - cbn [app]. rewrite !app_nil_r, (pod_lines_rules pod) by done.
    by rewrite decide_True, decide_False, app_nil_r by done.
  - intros pod' Hpod' Hne'. rewrite (pod_lines_rules pod') by done.
    by rewrite !decide_False by done.
Qed.

(** The fixed chains. *)
Lemma common_chain_rules :
  chain_rules (fp_rules plan) NWPLCY_COMMON = chain_rules (common_rules family) NWPLCY_COMMON.
Proof.
  rewrite plan_chain_rules.
  assert (NWPLCY_COMMON ∉ top_chains) as Hnt
    by (eapply bool_decide_unpack; vm_compute; exact I).
  rewrite default_outside, service_outside, tail_outside, jumps_outside by done.
  rewrite policies_outside, pods_outside; rewrite ?app_nil_r; try done.
  intros pol Heq. apply (policy_chain_not_fixed pol ver family). rewrite <-Heq. apply list_elem_of_here.
Qed.

Lemma default_chain_rules :
  chain_rules (fp_rules plan) NWPLCY_DEFAULT = chain_rules default_rules NWPLCY_DEFAULT.
Proof.
  rewrite plan_chain_rules.
  assert (NWPLCY_DEFAULT ∉ top_chains) as Hnt
    by (eapply bool_decide_unpack; vm_compute; exact I).
  rewrite common_outside, service_outside, tail_outside, jumps_outside by done.
  rewrite policies_outside, pods_outside; rewrite ?app_nil_r; try done.
  intros pol Heq. apply (policy_chain_not_fixed pol ver family). rewrite <-Heq.
  apply list_elem_of_further, list_elem_of_here.
Qed.
End plan.
End chains.
