(* ===== verification/PolicySpec.v ===== *)
(** * PolicySpec: what a network policy permits

    The rules of a policy on addresses and ports, with the blocks of a rule in one
    set as the program merges them ([KubeSpec] has their meaning to Kubernetes), and
    the proof that the MARK and RETURN pairs of the policy's chain express it:
    a packet matches some pair exactly when some rule of the policy permits it. *)

From stdpp Require Import gmap sets list strings pretty sorting.
From Stdlib Require Import Ascii ZArith Lia.
From S2P Require Import Prelude Text Net IpText Common Netpol Synth Filter FilterFacts SynthFacts.
Import Naming Names Translate Ipset.

Local Open Scope Z_scope.

(** ** The specification *)

Section spec.
Context `{IpNetLib} `{HashLib} `{FilterLib}.
Variables (pods : list Pod) (namespaces : list Namespace) (family : IpFamily) (p : Packet).

Definition has_ip (pod : Pod) (a : IpAddr) : bool := list_contains (pod_ips pod) a.

Definition exposes (pod : Pod) (name q : string) (n : Z) : bool :=
  existsb (λ cp, bool_decide (cp_name cp = Some name) && bool_decide (cp_protocol cp = q) &&
                 (cp_port cp =? n)) (pod_container_ports pod).

(** The policy's own end of a packet, and the other end. *)
Definition own_ip (dir : Direction) : IpAddr :=
  match dir with Ingress => pk_dst p | Egress => pk_src p end.
Definition peer_ip (dir : Direction) : IpAddr :=
  match dir with Ingress => pk_src p | Egress => pk_dst p end.

Definition selects_ip (pol : NetworkPolicy) (a : IpAddr) : bool :=
  existsb (λ pod, policy_selects pol pod && has_ip pod a) pods.

(** A selector peer: some pod of the selected namespaces and labels has the
    address.  Host-network pods are never peers. *)
Definition peer_selects (pol : NetworkPolicy) (a : IpAddr) (peer : Peer) : bool :=
  match peer with
  | PeerSelector namespace_selector pod_selector =>
      existsb (λ pod, has_ip pod a)
        (peer_pods pods (matched_namespaces namespace_selector namespaces (np_namespace pol))
           pod_selector)
  | PeerIpBlock _ _ => false
  end.

(** The ipBlock peers of a rule, as the program merges them in one [hash:net] set;
    [KubeSpec.peer_matches] is what a block means. *)
Definition block_entries (peers : list Peer) : list string :=
  peers ≫= λ peer,
    match peer with
    | PeerIpBlock cidr except =>
        if net_in_family cidr family
        then net_to_string cidr :: ((λ ex, net_to_string ex +:+ " nomatch") <$> except)
        else []
    | PeerSelector _ _ => []
    end.
Definition blocks_admit (peers : list Peer) (a : IpAddr) : bool :=
  match block_entries peers with [] => false | es => set_test HashNet es a end.

Definition peers_admit (pol : NetworkPolicy) (rule : PolicyRule) (a : IpAddr) : bool :=
  match pr_peers rule with
  | [] => true
  | peers => existsb (peer_selects pol a) peers || blocks_admit peers a
  end.

(** The pods whose port a port name stands for: the policy's own pods for
    ingress; for egress the peers, or the pods of the namespace without peers. *)
Definition receives (dir : Direction) (pol : NetworkPolicy) (rule : PolicyRule) (pod : Pod)
    : bool :=
  match dir with
  | Ingress => policy_selects pol pod
  | Egress =>
      match pr_peers rule with
      | [] => bool_decide (pod_namespace pod = np_namespace pol)
      | peers =>
          existsb (λ a, ip_in_family a family && existsb (peer_selects pol a) peers) (pod_ips pod)
      end
  end.

Definition named_port_admits (dir : Direction) (pol : NetworkPolicy) (rule : PolicyRule)
    (name q : string) : bool :=
  existsb (λ pod, receives dir pol rule pod && exposes pod name q (pk_dport p) &&
                  has_ip pod (pk_dst p)) pods.

Definition port_admits (dir : Direction) (pol : NetworkPolicy) (rule : PolicyRule)
    (port : PortSpec) : bool :=
  bool_decide (pk_proto p = ps_protocol port) &&
  match ps_port port with
  | PortAll => peers_admit pol rule (peer_ip dir) && selects_ip pol (own_ip dir)
  | PortNumber n =>
      (pk_dport p =? n) && peers_admit pol rule (peer_ip dir) && selects_ip pol (own_ip dir)
  | PortName name =>
      named_port_admits dir pol rule name (ps_protocol port) &&
      match dir with
      | Ingress => peers_admit pol rule (pk_src p)
      | Egress => selects_ip pol (pk_src p)
      end
  end.

Definition rule_permits (dir : Direction) (pol : NetworkPolicy) (rule : PolicyRule) : bool :=
  match pr_ports rule with
  | [] => peers_admit pol rule (peer_ip dir) && selects_ip pol (own_ip dir)
  | ports => existsb (port_admits dir pol rule) ports
  end.

Definition policy_permits (dir : Direction) (pol : NetworkPolicy) : bool :=
  policy_has dir pol && existsb (rule_permits dir pol) (policy_rules dir pol).
End spec.

(** ** Well-formed inputs *)

Definition port_ok (port : PortSpec) : Prop :=
  word (ps_protocol port) = true ∧
  match ps_port port with PortNumber n => 0 ≤ n ≤ u16_max | _ => True end.

Definition pod_ok (pod : Pod) : Prop :=
  Forall ip_wf (pod_ips pod) ∧
  Forall (λ cp, 0 ≤ cp_port cp ≤ u16_max) (pod_container_ports pod).

Definition policy_ok `{IpNetLib} (pol : NetworkPolicy) : Prop :=
  ∀ dir rule, rule ∈ policy_rules dir pol → Forall port_ok (pr_ports rule).

Definition packet_ok (family : IpFamily) (p : Packet) : Prop :=
  ip_wf (pk_src p) ∧ ip_wf (pk_dst p) ∧ of_addr (pk_src p) = family ∧ of_addr (pk_dst p) = family.

(** ** Addresses as they are written *)

Lemma of_addr_in_family a family : of_addr a = family ↔ ip_in_family a family = true.
Proof. by destruct a, family. Qed.

Lemma elem_of_family_strings ips family e :
  e ∈ family_strings ips family ↔ ∃ a, a ∈ ips ∧ ip_in_family a family = true ∧ e = ip_to_string a.
Proof.
  unfold family_strings. rewrite list_elem_of_fmap. setoid_rewrite list_elem_of_filter.
  split; [intros (a & -> & ? & ?)|intros (a & ? & ? & ->)]; eauto.
Qed.

Lemma ip_in_family_strings ips family a :
  Forall ip_wf ips → ip_wf a → of_addr a = family →
  ip_to_string a ∈ family_strings ips family ↔ a ∈ ips.
Proof.
  rewrite Forall_forall. intros Hips Ha Hf. rewrite elem_of_family_strings. split.
  - intros (b & Hb & _ & Heq). apply ip_to_string_inj in Heq as ->; auto.
  - intros Hin. exists a. split_and!; [done|by apply of_addr_in_family|done].
Qed.

Lemma family_strings_written ips family :
  Forall ip_wf ips → Forall written_ip (family_strings ips family).
Proof.
  rewrite !Forall_forall. intros Hips e (a & Ha & _ & ->)%elem_of_family_strings.
  exists a. auto.
Qed.

(** ** Named ports *)

Lemma elem_of_dedup l e : e ∈ dedup l ↔ e ∈ l.
Proof.
  induction l as [|x l IH]; [done|]. cbn [dedup]. rewrite elem_of_cons, <-IH.
  destruct (dedup l) as [|y r]; [by rewrite list_elem_of_singleton, elem_of_nil; tauto|].
  destruct (decide (x = y)) as [->|]; rewrite !elem_of_cons; tauto.
Qed.

Lemma elem_of_sorted_dedup l e : e ∈ dedup (merge_sort String.le l) ↔ e ∈ l.
Proof. by rewrite elem_of_dedup, merge_sort_Permutation. Qed.

(** The groups of a named port: a number has a group when some receiver exposes
    it, and the group holds the addresses of the receivers that do. *)
Definition group_has (groups : gmap Z (list string)) (n : Z) (e : string) : Prop :=
  e ∈ default [] (groups !! n).

Lemma named_groups_spec receivers name q family n :
  let groups := named_groups receivers name q family in
  (is_Some (groups !! n) ↔ ∃ pod, pod ∈ receivers ∧ exposes pod name q n = true) ∧
  ∀ e, group_has groups n e ↔
    ∃ pod, pod ∈ receivers ∧ exposes pod name q n = true ∧ e ∈ pod_family_ips pod family.
Proof.
  set (declares := λ cp, bool_decide (cp_name cp = Some name) && bool_decide (cp_protocol cp = q)).
  assert (∀ ips cps (g : gmap Z (list string)),
    let g' := foldl (λ groups cp, if declares cp
                then <[cp_port cp := default [] (groups !! cp_port cp) ++ ips]> groups
                else groups) g cps in
    (is_Some (g' !! n) ↔
       is_Some (g !! n) ∨ existsb (λ cp, declares cp && (cp_port cp =? n)) cps = true) ∧
    ∀ e, group_has g' n e ↔ group_has g n e ∨
      (existsb (λ cp, declares cp && (cp_port cp =? n)) cps = true ∧ e ∈ ips)) as Hinner.
  { intros ips. induction cps as [|cp cps IH]; intros g; [cbn; split; intros; naive_solver|].
    cbn [foldl existsb]. destruct (declares cp); [|apply IH]. cbn [andb].
    destruct (IH (<[cp_port cp := default [] (g !! cp_port cp) ++ ips]> g)) as [IHs IHe].
    unfold group_has in *. destruct (Z.eqb_spec (cp_port cp) n) as [<-|Hne].
    - rewrite lookup_insert_eq in IHs, IHe. cbn [default from_option id orb] in IHs, IHe |- *.
      split; [rewrite IHs; naive_solver|]. intros e. rewrite IHe, elem_of_app. naive_solver.
    - rewrite lookup_insert_ne in IHs, IHe by done. cbn [orb]. auto. }
  assert (∀ rs (g : gmap Z (list string)),
    let g' := foldl (λ groups pod, foldl (λ groups cp, if declares cp
                then <[cp_port cp := default [] (groups !! cp_port cp) ++ pod_family_ips pod family]>
                       groups
                else groups) groups (pod_container_ports pod)) g rs in
    (is_Some (g' !! n) ↔
       is_Some (g !! n) ∨ ∃ pod, pod ∈ rs ∧ exposes pod name q n = true) ∧
    ∀ e, group_has g' n e ↔ group_has g n e ∨
      ∃ pod, pod ∈ rs ∧ exposes pod name q n = true ∧ e ∈ pod_family_ips pod family) as Houter.
  { induction rs as [|pod rs IH]; intros g.
    { cbn [foldl]. split; [|intros e]; (split; [by left|]);
        (intros [?|(? & Hx & _)]; [done|by apply elem_of_nil in Hx]). }
    cbn [foldl]. specialize (Hinner (pod_family_ips pod family) (pod_container_ports pod) g).
    cbn zeta in Hinner. destruct Hinner as [His Hie].
    set (g1 := foldl _ g (pod_container_ports pod)) in *. destruct (IH g1) as [IHs IHe].
    fold (exposes pod name q n) in His, Hie.
    split; [rewrite IHs, His|intros e; rewrite IHe, Hie]; setoid_rewrite elem_of_cons;
      naive_solver. }
  specialize (Houter receivers ∅). unfold group_has in *. rewrite lookup_empty in Houter.
  cbn zeta. destruct Houter as [Hs He]. split; [|intros e].
  - etrans; [exact Hs|]. split; [intros [[? [=]]|?]; done|by right].
  - etrans; [exact (He e)|]. split; [|by right].
    intros [Hx|?]; [by apply elem_of_nil in Hx|done].
Qed.

(** ** Resolution of peers *)

Section resolution.
Context `{IpNetLib}.
Variables (pods : list Pod) (namespaces : list Namespace) (policy_ns : string) (family : IpFamily).

Definition peer_strings (peer : Peer) : list string :=
  match peer with
  | PeerSelector namespace_selector pod_selector =>
      peer_pods pods (matched_namespaces namespace_selector namespaces policy_ns) pod_selector
        ≫= λ pod, family_strings (pod_ips pod) family
  | PeerIpBlock _ _ => []
  end.

Lemma resolve_fold peers S N :
  let r := foldl (resolve_peer pods namespaces policy_ns family) (S, N) peers in
  r.2 = N ++ block_entries family peers ∧
  ∀ e, e ∈ r.1 ↔ e ∈ S ∨ e ∈ (peers ≫= peer_strings).
Proof.
  revert S N. induction peers as [|peer peers IH]; intros S N.
  { cbn. split; [by rewrite app_nil_r|]. intros e. rewrite elem_of_nil. tauto. }
  cbn [foldl]. unfold block_entries. rewrite !bind_cons. fold (block_entries family peers).
  destruct peer as [nss ps|cidr except]; cbn [resolve_peer fst snd].
  - set (S' := list_to_set _ ∪ S). destruct (IH S' N) as [-> He]. split; [done|]. intros e.
    rewrite He, elem_of_app. subst S'. rewrite elem_of_union, elem_of_list_to_set.
    cbn [peer_strings]. tauto.
  - destruct (net_in_family cidr family); cbn [negb].
    + set (N' := N ++ _). destruct (IH S N') as [-> He].
      split; [subst N'; by rewrite <-app_assoc|]. intros e. rewrite He.
      cbn [peer_strings app]. done.
    + destruct (IH S N) as [-> He]. split; [done|]. intros e. rewrite He. done.
Qed.

Lemma resolve_peers_spec peers :
  let r := resolve_peers peers pods namespaces policy_ns family in
  match_all r = bool_decide (peers = []) ∧
  net_entries r = block_entries family peers ∧
  ∀ e, e ∈ ip_entries r ↔ e ∈ (peers ≫= peer_strings).
Proof.
  destruct peers as [|peer peers]; [by rewrite bool_decide_eq_true_2|].
  unfold resolve_peers. rewrite bool_decide_eq_false_2 by done.
  destruct (resolve_fold (peer :: peers) ∅ []) as [Hn He].
  destruct (foldl _ _ _) as [ips nets]. cbn [fst snd match_all net_entries ip_entries] in *.
  split_and!; [done|exact Hn|]. intros e. rewrite elem_of_bset_iter, He.
  rewrite elem_of_empty. tauto.
Qed.
End resolution.

Lemma elem_of_peer_pods `{IpNetLib} pods nss sel pod : pod ∈ peer_pods pods nss sel → pod ∈ pods.
Proof. unfold peer_pods. rewrite list_elem_of_filter. tauto. Qed.

(** ** The verdicts of a rule *)

Section verdicts.
Context `{IpNetLib} `{HashLib} `{FilterLaws}.
Variables (pods : list Pod) (namespaces : list Namespace) (family : IpFamily) (p : Packet).
Variable env : SetEnv.
Hypothesis Hpods : Forall pod_ok pods.
Hypothesis Hp : packet_ok family p.

Definition env_has (x : IpsetPlan) : Prop :=
  env !! ipl_name x = Some (ipl_type x, ipl_entries x).

Definition holds (ts : list (bool * Test)) : bool := tests_hold env p 0 ts.

Lemma holds_app ts ts' : holds (ts ++ ts') = holds ts && holds ts'.
Proof. apply tests_hold_app. Qed.

Lemma pod_ips_wf pod : pod ∈ pods → Forall ip_wf (pod_ips pod).
Proof. intros Hin. rewrite Forall_forall in Hpods. by apply Hpods. Qed.

Lemma has_ip_string pod a :
  pod ∈ pods → ip_wf a → of_addr a = family →
  ip_to_string a ∈ pod_family_ips pod family ↔ has_ip pod a = true.
Proof.
  intros Hin Ha Hf. unfold pod_family_ips, has_ip. rewrite list_contains_true.
  apply ip_in_family_strings; [by apply pod_ips_wf|done|done].
Qed.

Lemma side_ip_ok side :
  let a := if decide (side = "src") then pk_src p else pk_dst p in ip_wf a ∧ of_addr a = family.
Proof. destruct Hp as (? & ? & ? & ?). by destruct (decide (side = "src")). Qed.

Lemma holds_ip_set set side es :
  env !! set = Some (HashIp, es) → Forall written_ip es →
  holds (ref_tests (Some (set, side))) =
  bool_decide (ip_to_string (if decide (side = "src") then pk_src p else pk_dst p) ∈ es).
Proof.
  intros Hset Hes. unfold holds, tests_hold. cbn [ref_tests forallb fst snd test_holds].
  rewrite Hset. rewrite set_test_ip by (done || apply side_ip_ok).
  by destruct (bool_decide _).
Qed.

Lemma strings_written (l : list Pod) :
  (∀ pod, pod ∈ l → pod ∈ pods) → Forall written_ip (l ≫= λ pod, pod_family_ips pod family).
Proof.
  intros Hl. rewrite Forall_forall. intros e (pod & He & Hin)%list_elem_of_bind.
  pose proof (family_strings_written (pod_ips pod) family (pod_ips_wf pod (Hl pod Hin))) as Hw.
  rewrite Forall_forall in Hw. by apply Hw.
Qed.

Lemma own_holds dir pol :
  env_has (own_ipset dir pol pods family) →
  holds (ref_tests (own_ref dir pol family)) = selects_ip pods pol (own_ip p dir).
Proof.
  intros Henv. unfold own_ref. rewrite (holds_ip_set _ _ (selected_ips pol pods family)).
  2: exact Henv.
  2:{ apply strings_written. intros pod. rewrite list_elem_of_filter. tauto. }
  assert ((if decide (target_side dir = "src") then pk_src p else pk_dst p) = own_ip p dir) as ->
    by by destruct dir.
  assert (ip_wf (own_ip p dir) ∧ of_addr (own_ip p dir) = family) as [Ha Hf]
    by (destruct Hp as (? & ? & ? & ?); by destruct dir).
  apply eq_true_iff_eq. rewrite bool_decide_eq_true. unfold selected_ips, selects_ip.
  rewrite list_elem_of_bind, existsb_exists. split.
  - intros (pod & He & [Hsel Hin]%list_elem_of_filter). exists pod.
    split; [by apply list_elem_of_In|]. rewrite Hsel. by apply has_ip_string.
  - intros (pod & Hin%list_elem_of_In & [Hsel Hip]%andb_true_iff). exists pod.
    split; [by apply has_ip_string|]. by apply list_elem_of_filter.
Qed.

(** Peers by pod address. *)
Lemma peer_strings_selects pol peer a :
  ip_wf a → of_addr a = family →
  ip_to_string a ∈ peer_strings pods namespaces (np_namespace pol) family peer ↔
  peer_selects pods namespaces pol a peer = true.
Proof.
  intros Ha Hf. destruct peer as [nss ps|cidr except]; cbn [peer_strings peer_selects].
  - rewrite list_elem_of_bind, existsb_exists. split.
    + intros (pod & He & Hin). exists pod. split; [by apply list_elem_of_In|].
      apply has_ip_string; [by eapply elem_of_peer_pods|done|done|exact He].
    + intros (pod & Hin%list_elem_of_In & Hip). exists pod. split; [|done].
      apply has_ip_string; [by eapply elem_of_peer_pods|done|done|exact Hip].
  - by rewrite elem_of_nil.
Qed.

Lemma entries_selects pol rule a :
  ip_wf a → of_addr a = family →
  ip_to_string a ∈ ip_entries (rule_resolved pol pods namespaces family rule) ↔
  existsb (peer_selects pods namespaces pol a) (pr_peers rule) = true.
Proof.
  intros Ha Hf. unfold rule_resolved.
  destruct (resolve_peers_spec pods namespaces (np_namespace pol) family (pr_peers rule))
    as (_ & _ & ->).
  rewrite list_elem_of_bind, existsb_exists. split.
  - intros (peer & He & Hin). exists peer. split; [by apply list_elem_of_In|].
    by apply peer_strings_selects.
  - intros (peer & Hin%list_elem_of_In & Hs). exists peer. split; [|done].
    by apply peer_strings_selects.
Qed.

Lemma entries_written pol rule :
  Forall written_ip (ip_entries (rule_resolved pol pods namespaces family rule)).
Proof.
  rewrite Forall_forall. intros e. unfold rule_resolved.
  destruct (resolve_peers_spec pods namespaces (np_namespace pol) family (pr_peers rule))
    as (_ & _ & ->).
  intros ([nss ps|] & He & _)%list_elem_of_bind; [|by apply elem_of_nil in He].
  revert e He. apply Forall_forall. apply strings_written. intros pod. apply elem_of_peer_pods.
Qed.

Lemma peers_hold dir pol idx rule :
  Forall env_has (peer_ipsets dir pol idx family (rule_resolved pol pods namespaces family rule)) →
  existsb (λ r, holds (ref_tests r))
    (peer_refs dir pol idx family (rule_resolved pol pods namespaces family rule)) =
  peers_admit pods namespaces family pol rule (peer_ip p dir).
Proof.
  pose proof (entries_written pol rule) as Hw.
  pose proof (entries_selects pol rule (peer_ip p dir)) as He.
  destruct Hp as (Hs & Hd & Hfs & Hfd).
  specialize (He ltac:(by destruct dir) ltac:(by destruct dir)).
  destruct (resolve_peers_spec pods namespaces (np_namespace pol) family (pr_peers rule))
    as (Hall & Hnet & _).
  fold (rule_resolved pol pods namespaces family rule) in Hall, Hnet.
  unfold peer_refs, peer_ipsets, peers_admit, blocks_admit. rewrite Hall.
  destruct (peer_sets dir pol idx family) as [s1 s2].
  destruct (pr_peers rule) as [|peer peers]; [by rewrite bool_decide_eq_true_2|].
  rewrite bool_decide_eq_false_2 by done. rewrite <-Hnet.
  set (r := rule_resolved pol pods namespaces family rule) in *.
  assert ((if decide (peer_side dir = "src") then pk_src p else pk_dst p) = peer_ip p dir) as Hside
    by by destruct dir.
  intros [Hips Hnets]%Forall_app. rewrite existsb_app. f_equal.
  - apply eq_true_iff_eq. rewrite <-He. destruct (ip_entries r) as [|e es]; [by rewrite elem_of_nil|].
    apply Forall_cons in Hips as [Henv _]. cbn [existsb].
    rewrite orb_false_r, (holds_ip_set _ _ _ Henv Hw), Hside. apply bool_decide_eq_true.
  - destruct (net_entries r) as [|e es]; [done|]. apply Forall_cons in Hnets as [Henv _].
    cbn [existsb]. rewrite orb_false_r. unfold holds, tests_hold.
    cbn [ref_tests forallb fst snd test_holds]. unfold env_has in Henv.
    cbn [ipl_name ipl_type ipl_entries] in Henv. rewrite Henv, Hside. by destruct (set_test _ _ _).
Qed.

(** Ports. *)
Lemma holds_proto q : holds (port_tests (ProtoOnly q)) = bool_decide (pk_proto p = q).
Proof.
  unfold holds, tests_hold. cbn [port_tests forallb fst snd test_holds].
  by destruct (bool_decide _).
Qed.

Lemma holds_port q n :
  0 ≤ n ≤ u16_max →
  holds (port_tests (ProtoPort q n)) = bool_decide (pk_proto p = q) && (pk_dport p =? n).
Proof.
  intros Hn. unfold holds, tests_hold. cbn [port_tests forallb fst snd test_holds].
  assert (parse_u16 (pretty n) = Some n) as -> by by apply parse_uint_pretty.
  rewrite andb_true_r, !xorb_false_l. f_equal. apply eq_true_iff_eq.
  rewrite bool_decide_eq_true, Z.eqb_eq. split; [by intros [= ->]|by intros ->].
Qed.

Lemma receivers_spec dir pol rule pod :
  pod ∈ port_receivers dir pol pods family (rule_resolved pol pods namespaces family rule) ↔
  pod ∈ pods ∧ receives pods namespaces family dir pol rule pod = true.
Proof.
  unfold port_receivers, receives. destruct dir; [rewrite list_elem_of_filter; tauto|].
  destruct (resolve_peers_spec pods namespaces (np_namespace pol) family (pr_peers rule))
    as (Hall & _ & _).
  fold (rule_resolved pol pods namespaces family rule) in Hall. rewrite Hall.
  pose proof (entries_selects pol rule) as Hent.
  destruct (pr_peers rule) as [|peer peers].
  { rewrite bool_decide_eq_true_2 by done. rewrite list_elem_of_filter, bool_decide_eq_true. tauto. }
  rewrite bool_decide_eq_false_2 by done. rewrite list_elem_of_filter.
  assert (pod ∈ pods →
    existsb (λ ip, list_contains (ip_entries (rule_resolved pol pods namespaces family rule)) ip)
      (pod_family_ips pod family) =
    existsb (λ a, ip_in_family a family &&
                  existsb (peer_selects pods namespaces pol a) (peer :: peers)) (pod_ips pod)) as Heq.
  { intros Hin. pose proof (pod_ips_wf pod Hin) as Hwf. rewrite Forall_forall in Hwf.
    apply eq_true_iff_eq. rewrite !existsb_exists. split.
    - intros (e & He%list_elem_of_In & Hc). apply list_contains_true in Hc.
      apply elem_of_family_strings in He as (a & Ha & Hf & ->). exists a.
      split; [by apply list_elem_of_In|]. rewrite Hf. apply Hent; [by apply Hwf| |done].
      by apply of_addr_in_family.
    - intros (a & Ha%list_elem_of_In & [Hf Hsel]%andb_true_iff). exists (ip_to_string a). split.
      + apply list_elem_of_In, elem_of_family_strings. eauto.
      + apply list_contains_true, Hent; [by apply Hwf|by apply of_addr_in_family|done]. }
  split; [intros [Hx Hin]; split; [done|by rewrite <-Heq]|].
  intros [Hin Hx]. split; [by rewrite Heq|done].
Qed.

(** A group holds written addresses, and its number is a port. *)
Lemma group_facts receivers name q n es :
  (∀ pod, pod ∈ receivers → pod ∈ pods) →
  named_groups receivers name q family !! n = Some es →
  0 ≤ n ≤ u16_max ∧ Forall written_ip es ∧
  ∀ e, e ∈ es ↔ ∃ pod, pod ∈ receivers ∧ exposes pod name q n = true ∧ e ∈ pod_family_ips pod family.
Proof.
  intros Hrec Hn. destruct (named_groups_spec receivers name q family n) as [Hs He].
  unfold group_has in He. rewrite Hn in Hs, He. cbn in He. split; [|split; [|exact He]].
  - destruct Hs as [Hs _]. destruct Hs as (pod & Hin & Hex); [done|].
    unfold exposes in Hex. apply existsb_exists in Hex as (cp & Hcp%list_elem_of_In & Hx).
    rewrite !andb_true_iff, Z.eqb_eq in Hx. destruct Hx as [_ <-].
    rewrite Forall_forall in Hpods. destruct (Hpods pod (Hrec pod Hin)) as [_ Hports].
    rewrite Forall_forall in Hports. by apply Hports.
  - rewrite Forall_forall. intros e (pod & Hpod & _ & Hin)%He.
    pose proof (family_strings_written (pod_ips pod) family (pod_ips_wf pod (Hrec pod Hpod))) as Hw.
    rewrite Forall_forall in Hw. by apply Hw.
Qed.

Lemma elem_of_port_groups dir pol resolved name q x :
  x ∈ port_groups dir pol pods family resolved name q →
  named_groups (port_receivers dir pol pods family resolved) name q family !! x.2.1 = Some x.2.2.
Proof.
  unfold port_groups. intros (i & [n es] & -> & Hl)%elem_of_lookup_imap. cbn [fst snd].
  by apply list_elem_of_lookup_2, elem_of_btree_iter in Hl.
Qed.

Lemma group_verdict_holds dir pol idx rule name q target peer x :
  let resolved := rule_resolved pol pods namespaces family rule in
  x ∈ port_groups dir pol pods family resolved name q →
  env_has (group_ipset dir pol idx family x) →
  holds (verdict_tests (group_verdict dir pol idx family target peer q x)) =
  holds (ref_tests (match dir with Ingress => peer | Egress => target end)) &&
  (bool_decide (ip_to_string (pk_dst p) ∈ x.2.2) &&
   (bool_decide (pk_proto p = q) && (pk_dport p =? x.2.1))).
Proof.
  intros resolved Hin Henv. destruct x as [ep [n es]].
  apply elem_of_port_groups in Hin. cbn [fst snd] in Hin.
  destruct (group_facts _ _ _ _ _ (λ pod Hx, proj1 (proj1 (receivers_spec dir pol rule pod) Hx)) Hin)
    as (Hn & Hw & _).
  unfold group_verdict, verdict_tests. cbn [fst snd]. rewrite !holds_app, holds_port by done.
  f_equal. f_equal. rewrite (holds_ip_set _ _ (dedup (merge_sort String.le es))).
  - cbn. apply bool_decide_ext, elem_of_sorted_dedup.
  - exact Henv.
  - rewrite Forall_forall in Hw. rewrite Forall_forall.
    intros e He. apply Hw. by apply elem_of_sorted_dedup.
Qed.

Lemma group_holds dir pol idx rule name q target peer :
  let resolved := rule_resolved pol pods namespaces family rule in
  let groups := port_groups dir pol pods family resolved name q in
  Forall env_has (group_ipset dir pol idx family <$> groups) →
  existsb (λ v, holds (verdict_tests v)) (group_verdict dir pol idx family target peer q <$> groups) =
  holds (ref_tests (match dir with Ingress => peer | Egress => target end)) &&
  bool_decide (pk_proto p = q) && named_port_admits pods namespaces family p dir pol rule name q.
Proof.
  intros resolved groups Henv. rewrite Forall_fmap, Forall_forall in Henv.
  assert (∀ x, x ∈ groups → ∀ e, e ∈ x.2.2 ↔ ∃ pod, pod ∈ port_receivers dir pol pods family resolved ∧
    exposes pod name q x.2.1 = true ∧ e ∈ pod_family_ips pod family) as Hes.
  { intros x Hin%elem_of_port_groups. eapply group_facts; [|exact Hin].
    intros pod Hx. by apply receivers_spec in Hx as [? _]. }
  assert (ip_wf (pk_dst p) ∧ of_addr (pk_dst p) = family) as [Hdst Hfam] by (by destruct Hp as (?&?&?&?)).
  apply eq_true_iff_eq. rewrite !andb_true_iff, existsb_exists. unfold named_port_admits.
  rewrite existsb_exists, bool_decide_eq_true. split.
  - intros (v & Hin%list_elem_of_In & Hh). apply list_elem_of_fmap in Hin as (x & -> & Hin).
    rewrite (group_verdict_holds _ _ _ _ _ _ _ _ _ Hin) in Hh by by apply Henv.
    rewrite !andb_true_iff, !bool_decide_eq_true, Z.eqb_eq in Hh. destruct Hh as (Href & He & Hq & Hn).
    split; [done|]. apply (Hes x Hin) in He as (pod & Hpod & Hex & Hip).
    apply receivers_spec in Hpod as [Hpod Hrc]. exists pod. split; [by apply list_elem_of_In|].
    rewrite Hrc, Hn, Hex. by apply has_ip_string.
  - intros [[Href Hq] (pod & Hpod%list_elem_of_In & Hx)]. rewrite !andb_true_iff in Hx.
    destruct Hx as [[Hrc Hex] Hip].
    destruct (named_groups_spec (port_receivers dir pol pods family resolved) name q family
      (pk_dport p)) as [[_ [es Hl]] _]; [exists pod; split; [by apply receivers_spec|done]|].
    pose proof Hl as Hl'. apply elem_of_btree_iter, list_elem_of_lookup in Hl' as [i Hi].
    assert ((i, (pk_dport p, es)) ∈ groups) as Hin by (apply elem_of_lookup_imap; eauto).
    exists (group_verdict dir pol idx family target peer q (i, (pk_dport p, es))). split.
    + apply list_elem_of_In. by apply list_elem_of_fmap_2.
    + rewrite (group_verdict_holds _ _ _ _ _ _ _ _ _ Hin) by by apply Henv.
      cbn [fst snd]. rewrite !andb_true_iff, !bool_decide_eq_true, Z.eqb_eq. split_and!; try done.
      apply (Hes _ Hin). exists pod. split_and!; [by apply receivers_spec|done|].
      by apply has_ip_string.
Qed.

Lemma port_holds dir pol idx rule peer port :
  let resolved := rule_resolved pol pods namespaces family rule in
  port_ok port → Forall env_has (port_ipsets dir pol idx pods family resolved port) →
  env_has (own_ipset dir pol pods family) →
  existsb (λ v, holds (verdict_tests v))
    (port_verdicts dir pol idx pods family resolved (own_ref dir pol family) peer port) =
  bool_decide (pk_proto p = ps_protocol port) &&
  match ps_port port with
  | PortAll => holds (ref_tests peer) && selects_ip pods pol (own_ip p dir)
  | PortNumber n =>
      (pk_dport p =? n) && holds (ref_tests peer) && selects_ip pods pol (own_ip p dir)
  | PortName name =>
      named_port_admits pods namespaces family p dir pol rule name (ps_protocol port) &&
      match dir with
      | Ingress => holds (ref_tests peer)
      | Egress => selects_ip pods pol (pk_src p)
      end
  end.
Proof.
  intros resolved [_ Hport] Henv Hown. unfold port_verdicts, port_ipsets in *.
  destruct (ps_port port) as [|n|name].
  - cbn [existsb]. unfold verdict_tests. cbn [fst snd].
    rewrite orb_false_r, !holds_app, own_holds, holds_proto by done.
    by rewrite (andb_comm (bool_decide _)), andb_assoc.
  - cbn [existsb]. unfold verdict_tests. cbn [fst snd].
    rewrite orb_false_r, !holds_app, own_holds, holds_port by done.
    destruct (holds (ref_tests peer)), (selects_ip _ _ _), (bool_decide _), (_ =? _); done.
  - etrans; [exact (group_holds dir pol idx rule name (ps_protocol port) _ peer Henv)|].
    destruct (bool_decide _); [|by rewrite andb_false_r].
    rewrite andb_true_r, andb_comm. cbn [andb]. f_equal. destruct dir; [done|].
    exact (own_holds Egress pol Hown).
Qed.

(** A named egress port is only resolved where the rule has a peer match. *)
Lemma named_egress_refs pol idx rule name q :
  named_port_admits pods namespaces family p Egress pol rule name q = true →
  peer_refs Egress pol idx family (rule_resolved pol pods namespaces family rule) ≠ [].
Proof.
  unfold named_port_admits. rewrite existsb_exists.
  intros (pod & Hin%list_elem_of_In & Hx). rewrite !andb_true_iff in Hx. destruct Hx as [[Hr _] _].
  destruct (resolve_peers_spec pods namespaces (np_namespace pol) family (pr_peers rule))
    as (Hall & _ & _).
  fold (rule_resolved pol pods namespaces family rule) in Hall. unfold peer_refs. rewrite Hall.
  destruct (peer_sets Egress pol idx family) as [s1 s2]. unfold receives in Hr.
  pose proof (entries_selects pol rule) as Hent.
  destruct (pr_peers rule) as [|peer peers]; [by rewrite bool_decide_eq_true_2|].
  rewrite bool_decide_eq_false_2 by done. apply existsb_exists in Hr as (a & Ha%list_elem_of_In & Hr).
  apply andb_true_iff in Hr as [Hf Hs].
  pose proof (pod_ips_wf pod Hin) as Hwf. rewrite Forall_forall in Hwf.
  apply Hent in Hs; [|by apply Hwf|by apply of_addr_in_family].
  destruct (ip_entries _); [by apply elem_of_nil in Hs|done].
Qed.

(** The verdicts of a rule express the rule. *)
Lemma rule_holds dir pol idx rule :
  Forall port_ok (pr_ports rule) →
  Forall env_has (rule_ipsets dir pol pods namespaces family (idx, rule)) →
  env_has (own_ipset dir pol pods family) →
  existsb (λ v, holds (verdict_tests v)) (rule_verdicts dir pol pods namespaces family (idx, rule)) =
  rule_permits pods namespaces family p dir pol rule.
Proof.
  intros Hports [Hpeers Hsets]%Forall_app Hown. unfold rule_verdicts, rule_permits.
  cbn [fst snd] in *. rewrite existsb_bind. pose proof (peers_hold dir pol idx rule Hpeers) as Href.
  set (resolved := rule_resolved pol pods namespaces family rule) in *.
  set (refs := peer_refs dir pol idx family resolved) in *.
  destruct (pr_ports rule) as [|port0 ports0] eqn:Heq.
  { rewrite <-Href, <-existsb_andb_r. apply existsb_ext_in. intros r _. cbn [existsb].
    unfold verdict_tests. cbn [fst snd port_tests].
    rewrite orb_false_r, app_nil_r, holds_app, own_holds by done. done. }
  set (ports := port0 :: ports0) in *. clearbody ports. clear port0 ports0 Heq.
  assert (∀ r port, r ∈ refs → port ∈ ports →
    Forall env_has (port_ipsets dir pol idx pods family resolved port)) as Henv.
  { intros r port Hr Hport. rewrite Forall_forall in Hsets |- *. intros x Hx. apply Hsets.
    apply list_elem_of_bind. exists r. split; [|done]. apply list_elem_of_bind. eauto. }
  rewrite Forall_forall in Hports.
  rewrite (existsb_ext_in _ (λ r, existsb (λ port, existsb (λ v, holds (verdict_tests v))
    (port_verdicts dir pol idx pods family resolved (own_ref dir pol family) r port)) ports)).
  2:{ intros r _. apply existsb_bind. }
  rewrite existsb_swap. apply existsb_ext_in. intros port Hport.
  etrans; [apply existsb_ext_in; intros r Hr; exact (port_holds dir pol idx rule r port
    (Hports port Hport) (Henv r port Hr Hport) Hown)|].
  unfold port_admits. destruct (bool_decide _); cbn [andb].
  2:{ clear. by induction refs. }
  destruct (ps_port port) as [|n|name].
  - by rewrite existsb_andb_r, Href.
  - rewrite existsb_andb_r, <-Href. f_equal. clear. induction refs as [|r refs IH]; cbn.
    + by rewrite andb_false_r.
    + rewrite IH. by destruct (_ =? _), (holds _).
  - destruct dir.
    + cbn [peer_ip] in Href. rewrite <-Href. clear. induction refs as [|r refs IH]; cbn; [by rewrite andb_false_r|].
      rewrite IH. by destruct (named_port_admits _ _ _ _ _ _ _ _ _).
    + destruct (named_port_admits pods namespaces family p Egress pol rule name (ps_protocol port))
        eqn:Hn; cbn [andb].
      * apply (named_egress_refs pol idx) in Hn. fold resolved refs in Hn.
        destruct refs as [|r refs]; [done|]. cbn. clear.
        induction refs; cbn; by destruct (selects_ip _ _ _).
      * clear. by induction refs.
Qed.

(** A direction of a policy, and a whole policy. *)
Lemma dir_holds dir pol :
  policy_ok pol → Forall env_has (dir_ipsets dir pol pods namespaces family) →
  existsb (λ v, holds (verdict_tests v)) (dir_verdicts dir pol pods namespaces family) =
  policy_permits pods namespaces family p dir pol.
Proof.
  intros Hok Henv. unfold dir_verdicts, dir_ipsets, policy_permits in *.
  destruct (policy_has dir pol); [|done]. apply Forall_cons in Henv as [Hown Henv]. cbn [andb].
  rewrite existsb_bind. specialize (Hok dir).
  assert (∀ i (l : list PolicyRule), (∀ rule, rule ∈ l → rule ∈ policy_rules dir pol) →
    Forall env_has (imap (λ j r, ((i + j)%nat, r)) l ≫= rule_ipsets dir pol pods namespaces family) →
    existsb (λ x, existsb (λ v, holds (verdict_tests v))
      (rule_verdicts dir pol pods namespaces family x)) (imap (λ j r, ((i + j)%nat, r)) l) =
    existsb (rule_permits pods namespaces family p dir pol) l) as Hgen.
  { intros i l. revert i. induction l as [|rule l IH]; intros i Hsub Hsets; [done|].
    rewrite imap_cons in Hsets |- *. rewrite bind_cons in Hsets.
    apply Forall_app in Hsets as [Hrule Hsets]. cbn [existsb].
    rewrite rule_holds; [|apply Hok, Hsub, elem_of_cons; by left|exact Hrule|exact Hown]. f_equal.
    rewrite <-(IH (S i)).
    - f_equal. apply imap_ext. intros j r _. cbn. f_equal. lia.
    - intros r Hr. apply Hsub, elem_of_cons. by right.
    - erewrite imap_ext; [exact Hsets|]. intros j r _. cbn. f_equal. lia. }
  specialize (Hgen 0%nat (policy_rules dir pol) (λ _ H, H)).
  erewrite <-Hgen; [done|exact Henv].
Qed.

Lemma policy_holds pol :
  policy_ok pol → Forall env_has (policy_ipsets pods namespaces family pol) →
  existsb (λ v, holds (verdict_tests v)) (policy_verdicts pods namespaces family pol) =
  policy_permits pods namespaces family p Ingress pol ||
  policy_permits pods namespaces family p Egress pol.
Proof.
  intros Hok [Hin Heg]%Forall_app. unfold policy_verdicts.
  by rewrite existsb_app, !dir_holds.
Qed.
End verdicts.
