(* ===== verification/NetpolFacts.v ===== *)
(** * NetpolFacts: the chains of a plan at work

    Running the chains of a synthesized plan: the common and default chains, the
    chain of a policy, and the chain of a pod.  The theorems about the whole
    firewall are in [NetpolTheorems]. *)

From stdpp Require Import gmap sets list strings pretty sorting.
From Stdlib Require Import Ascii ZArith Lia.
From S2P Require Import Prelude Text Net IpText Common Netpol Synth Filter FilterFacts SynthFacts.
From S2P Require Import PlanChains PolicySpec.
Import Naming Names Translate Ipset.

Local Open Scope Z_scope.

Lemma mark_matched_idem mark : mark_matched (mark_matched mark) = mark_matched mark.
Proof.
  change (Z.lxor (Z.land (Z.lxor (Z.land mark (Z.lnot (2 ^ 16))) (2 ^ 16)) (Z.lnot (2 ^ 16))) (2 ^ 16)
          = Z.lxor (Z.land mark (Z.lnot (2 ^ 16))) (2 ^ 16)).
  apply Z.bits_inj'. intros i Hi. rewrite !Z.lxor_spec, !Z.land_spec, !Z.lxor_spec, !Z.land_spec.
  rewrite !Z.lnot_spec by done. by destruct (Z.testbit mark i), (Z.testbit (2 ^ 16) i).
Qed.

(** ** Rule lists that only set the match mark *)

Section marking.
Context `{FilterLib} (env : SetEnv) (lines : list string) (p : Packet) (fuel : nat).

Definition sets_mark (rs : list FilterRule) (b : bool) : Prop :=
  no_return rs = true ∧
  ∀ mark, run_rules env lines p fuel rs mark =
          Some (Returned (if b then mark_matched mark else mark)).

Lemma sets_mark_nil : sets_mark [] false.
Proof. split; [done|]. intros mark. apply run_rules_nil. Qed.

Lemma sets_mark_app rs rs' b b' :
  sets_mark rs b → sets_mark rs' b' → sets_mark (rs ++ rs') (b || b').
Proof.
  intros [Hn Hr] [Hn' Hr']. split; [unfold no_return in *; by rewrite forallb_app, Hn, Hn'|].
  intros mark. rewrite run_rules_app, Hr by done. cbn [then_rules]. rewrite Hr'.
  destruct b, b'; cbn; by rewrite ?mark_matched_idem.
Qed.

Lemma sets_mark_bind {A} (f : A → list FilterRule) (g : A → bool) l :
  (∀ x, x ∈ l → sets_mark (f x) (g x)) → sets_mark (l ≫= f) (existsb g l).
Proof.
  induction l as [|x l IH]; intros Hf; [apply sets_mark_nil|]. rewrite bind_cons. cbn [existsb].
  apply sets_mark_app; [apply Hf, elem_of_cons; by left|apply IH].
  intros y Hy. apply Hf, elem_of_cons. by right.
Qed.

(** A jump under tests that do not look at the mark. *)
Lemma sets_mark_jump ts c (b : bool) :
  mark_free ts = true →
  (∀ mark, match fuel with
           | O => None
           | S fuel => run_chain env lines p fuel c mark
           end = Some (Returned (if b then mark_matched mark else mark))) →
  sets_mark [{| fr_tests := ts; fr_target := Jump c |}] (tests_hold env p 0 ts && b).
Proof.
  intros Hfree Hc. split; [done|]. intros mark. rewrite run_rules_cons. cbn [fr_tests fr_target].
  rewrite (tests_hold_free env p ts mark 0) by done.
  destruct (tests_hold env p 0 ts); [|apply run_rules_nil]. specialize (Hc mark).
  destruct fuel; [done|]. rewrite Hc. cbn [then_rules]. apply run_rules_nil.
Qed.
End marking.

(** ** The common chain *)

(** What the common chain decides on its own: invalid packets are dropped, the
    packets of known connections and the usual ICMP types are accepted. *)
Definition common_outcome (family : IpFamily) (p : Packet) : option Outcome :=
  match pk_ct p with
  | CtInvalid => Some Dropped
  | CtEstablished | CtRelated => Some Accepted
  | CtNew =>
      if existsb (λ x, bool_decide (pk_proto p = x.1.1) && bool_decide (pk_icmp p = x.2))
           (common_icmp_rules family)
      then Some Accepted else None
  end.

Definition common_chain (family : IpFamily) : list FilterRule :=
  {| fr_tests := [(false, TCtState "INVALID")]; fr_target := Drop |} ::
  {| fr_tests := [(false, TCtState "RELATED,ESTABLISHED")]; fr_target := Accept |} ::
  ((λ x, {| fr_tests := [(false, TProto x.1.1); (false, TIcmp x.2)]; fr_target := Accept |})
     <$> common_icmp_rules family).

Lemma common_rules_chain family :
  chain_rules (common_rules family) NWPLCY_COMMON = common_chain family.
Proof. destruct family; vm_compute; reflexivity. Qed.

Lemma default_rules_chain :
  chain_rules default_rules NWPLCY_DEFAULT =
  [{| fr_tests := []; fr_target := SetXmark MARK_MATCHED |}].
Proof. vm_compute. reflexivity. Qed.

Lemma run_common_chain `{FilterLib} env lines p fuel family mark :
  run_rules env lines p fuel (common_chain family) mark =
  Some (default (Returned mark) (common_outcome family p)).
Proof.
  unfold common_chain, common_outcome. rewrite !run_rules_cons. cbn [fr_tests fr_target].
  unfold tests_hold at 1 2. cbn [forallb fst snd test_holds].
  assert (∀ l : list (string * string * string), run_rules env lines p fuel
    ((λ x, {| fr_tests := [(false, TProto x.1.1); (false, TIcmp x.2)]; fr_target := Accept |}) <$> l)
    mark = Some (default (Returned mark)
      (if existsb (λ x, bool_decide (pk_proto p = x.1.1) && bool_decide (pk_icmp p = x.2)) l
       then Some Accepted else None))) as Hicmp.
  { induction l as [|x l IH]; [apply run_rules_nil|]. rewrite fmap_cons, run_rules_cons.
    cbn [fr_tests fr_target existsb]. unfold tests_hold. cbn [forallb fst snd test_holds].
    destruct (bool_decide (pk_proto p = _)), (bool_decide (pk_icmp p = _)); done. }
  assert (∀ s, list_contains (split_char "," "INVALID") (ct_name s) = bool_decide (s = CtInvalid) ∧
    list_contains (split_char "," "RELATED,ESTABLISHED") (ct_name s) =
    bool_decide (s = CtRelated ∨ s = CtEstablished)) as Hct by (by intros []).
  destruct (Hct (pk_ct p)) as [-> ->]. destruct (pk_ct p); try done.
  cbn [xorb andb]. apply Hicmp.
Qed.

(** ** The rules of a pod chain *)

Section pod_chain.
Context `{IpNetLib} `{HashLaws}.

Definition jump_rule (ts : list (bool * Test)) (c : string) : FilterRule :=
  {| fr_tests := ts; fr_target := Jump c |}.

Definition policy_jump_rule (ver : string) (family : IpFamily) (ip : string) (pol : NetworkPolicy)
    : list FilterRule :=
  let pc := policy_chain pol ver family in
  match pt_ingress (np_policy_types pol), pt_egress (np_policy_types pol) with
  | true, true => [jump_rule [] pc]
  | true, false => [jump_rule [(false, TDst ip)] pc]
  | false, true => [jump_rule [(false, TSrc ip)] pc]
  | false, false => []
  end.

Definition pod_dispatch_rules (ver : string) (family : IpFamily) (selecting : list NetworkPolicy)
    (ip : string) : list FilterRule :=
  (selecting ≫= policy_jump_rule ver family ip) ++
  (if existsb (policy_has Ingress) selecting then []
   else [jump_rule [(false, TDst ip)] NWPLCY_DEFAULT]) ++
  (if existsb (policy_has Egress) selecting then []
   else [jump_rule [(false, TSrc ip)] NWPLCY_DEFAULT]).

Definition unmarked : list (bool * Test) := [(true, TMark MARK_MATCHED)].

Definition pod_verdict_rules : list FilterRule :=
  [{| fr_tests := unmarked; fr_target := Log |};
   {| fr_tests := unmarked; fr_target := Reject |};
   {| fr_tests := []; fr_target := SetMark "0/0x10000" |};
   {| fr_tests := []; fr_target := SetMark MARK_ACCEPTED |}].

Definition local_rule (ip : string) : FilterRule :=
  {| fr_tests := [(false, TSrcType "LOCAL"); (false, TDst ip)]; fr_target := Accept |}.

Lemma chain_rules_one chain line r :
  parse_line line = Some (chain, r) → chain_rules [line] chain = [r].
Proof. intros Hp. unfold chain_rules. cbn. by rewrite (line_rule_parse _ _ _ Hp). Qed.

Lemma chain_rules_map (f : string → string) (g : string → FilterRule) chain l :
  (∀ x, x ∈ l → parse_line (f x) = Some (chain, g x)) →
  chain_rules (f <$> l) chain = g <$> l.
Proof.
  induction l as [|x l IH]; intros Hf; [done|]. rewrite !fmap_cons.
  change (f x :: (f <$> l)) with ([f x] ++ (f <$> l)). rewrite chain_rules_app.
  rewrite (chain_rules_one _ _ (g x)) by (apply Hf, elem_of_cons; by left).
  rewrite IH; [done|]. intros y Hy. apply Hf, elem_of_cons. by right.
Qed.

Lemma pod_dispatch_parse podchain ver family selecting ip :
  word podchain = true → word ip = true →
  chain_rules (pod_dispatch podchain ver family selecting ip) podchain =
  pod_dispatch_rules ver family selecting ip.
Proof.
  intros Hc Hip. unfold pod_dispatch, pod_dispatch_rules. rewrite !chain_rules_app. f_equal; [|f_equal].
  - rewrite chain_rules_bind. induction selecting as [|pol l IH]; [done|].
    rewrite !bind_cons, IH. f_equal. clear IH. unfold policy_jump, policy_jump_rule, jump_rule.
    pose proof (word_policy_chain pol ver family) as Hpc.
    destruct (pt_ingress _), (pt_egress _); [..|done]; apply chain_rules_one.
    + line_words ["-A"; podchain; "-j"; policy_chain pol ver family].
    + line_words ["-A"; podchain; "-d"; ip; "-j"; policy_chain pol ver family].
    + line_words ["-A"; podchain; "-s"; ip; "-j"; policy_chain pol ver family].
  - destruct (existsb _ _); [done|]. apply chain_rules_one.
    line_words ["-A"; podchain; "-d"; ip; "-j"; NWPLCY_DEFAULT].
  - destruct (existsb _ _); [done|]. apply chain_rules_one.
    line_words ["-A"; podchain; "-s"; ip; "-j"; NWPLCY_DEFAULT].
Qed.

Lemma pod_verdict_parse podchain family :
  word podchain = true → chain_rules (pod_verdict podchain family) podchain = pod_verdict_rules.
Proof.
  intros Hc. unfold pod_verdict, pod_verdict_rules.
  change (chain_rules [?a; ?b; ?c; ?d] podchain) with
    (chain_rules ([a] ++ [b] ++ [c] ++ [d]) podchain). rewrite !chain_rules_app.
  rewrite (chain_rules_one podchain _ {| fr_tests := unmarked; fr_target := Log |}).
  2:{ line_words ["-A"; podchain; "-m"; "mark"; "!"; "--mark"; MARK_MATCHED; "-j"; "NFLOG";
        "--nflog-group"; "100"; "-m"; "limit"; "--limit"; "10/minute"; "--limit-burst"; "10"]. }
  rewrite (chain_rules_one podchain _ {| fr_tests := unmarked; fr_target := Reject |}).
  2:{ destruct family;
      [line_words ["-A"; podchain; "-m"; "mark"; "!"; "--mark"; MARK_MATCHED; "-j"; "REJECT";
         "--reject-with"; "icmp-port-unreachable"]
      |line_words ["-A"; podchain; "-m"; "mark"; "!"; "--mark"; MARK_MATCHED; "-j"; "REJECT";
         "--reject-with"; "icmp6-port-unreachable"]]. }
  rewrite (chain_rules_one podchain _ {| fr_tests := []; fr_target := SetMark "0/0x10000" |}).
  2: line_words ["-A"; podchain; "-j"; "MARK"; "--set-mark"; "0/0x10000"].
  rewrite (chain_rules_one podchain _ {| fr_tests := []; fr_target := SetMark MARK_ACCEPTED |}).
  2: line_words ["-A"; podchain; "-j"; "MARK"; "--set-mark"; MARK_ACCEPTED].
  done.
Qed.

(** The chain of a pod, as rules. *)
Definition pod_own_rules (ver : string) (family : IpFamily) (selecting : list NetworkPolicy)
    (pod : Pod) : list FilterRule :=
  let ips := pod_family_ips pod family in
  [jump_rule [] NWPLCY_COMMON] ++ (local_rule <$> ips) ++
  (ips ≫= pod_dispatch_rules ver family selecting) ++ pod_verdict_rules.

Lemma pod_ips_words pod family :
  Forall ip_wf (pod_ips pod) → ∀ e, e ∈ pod_family_ips pod family → word e = true.
Proof.
  rewrite Forall_forall. intros Hwf e (a & Ha & _ & ->)%elem_of_family_strings.
  by apply word_ip, Hwf.
Qed.

Lemma pod_own_parse ver family selecting pod :
  Forall ip_wf (pod_ips pod) →
  chain_rules (pod_own_lines ver family selecting pod) (pod_chain pod ver) =
  pod_own_rules ver family selecting pod.
Proof.
  intros Hwf. pose proof (pod_ips_words pod family Hwf) as Hw.
  pose proof (word_pod_chain pod ver) as Hc.
  unfold pod_own_lines, pod_own_rules. rewrite !chain_rules_app. f_equal; [|f_equal; [|f_equal]].
  - apply chain_rules_one. line_words ["-A"; pod_chain pod ver; "-j"; NWPLCY_COMMON].
  - apply chain_rules_map. intros ip Hip.
    line_words ["-A"; pod_chain pod ver; "-m"; "addrtype"; "--src-type"; "LOCAL"; "-d"; ip; "-j";
      "ACCEPT"].
  - rewrite chain_rules_bind. generalize dependent (pod_family_ips pod family). intros l.
    induction l as [|ip l IH]; intros Hw; [done|]. rewrite !bind_cons, IH.
    + f_equal. apply pod_dispatch_parse; [done|]. apply Hw, elem_of_cons. by left.
    + intros e He. apply Hw, elem_of_cons. by right.
  - by apply pod_verdict_parse.
Qed.

(** ** The words of verdicts *)

Lemma word_set_names dir pol idx ep family :
  Forall (λ s, word s = true)
    [(peer_sets dir pol idx family).1; (peer_sets dir pol idx family).2; target_set dir pol family;
     named_port_set dir pol idx ep family].
Proof. destruct dir; repeat (apply Forall_cons; split); try apply Forall_nil_2; by apply word_hash16. Qed.

Lemma peer_refs_words dir pol idx family resolved r :
  r ∈ peer_refs dir pol idx family resolved → Forall (λ w, word w = true) (ref_list r).
Proof.
  pose proof (word_set_names dir pol idx 0 family) as Hw. unfold peer_refs.
  destruct (peer_sets dir pol idx family) as [s1 s2]. cbn [fst snd] in Hw.
  rewrite !Forall_cons in Hw. destruct Hw as (H1' & H2' & _).
  destruct (match_all resolved).
  { rewrite list_elem_of_singleton. intros ->. apply Forall_nil_2. }
  rewrite elem_of_app. intros [Hr|Hr];
    [destruct (ip_entries resolved)|destruct (net_entries resolved)];
    try (by apply elem_of_nil in Hr); apply list_elem_of_singleton in Hr as ->;
    destruct dir; repeat constructor; done.
Qed.

Lemma verdict_words_intro a b c :
  Forall (λ w, word w = true) (ref_list a) → Forall (λ w, word w = true) (ref_list b) →
  Forall (λ w, word w = true) (port_list c) → verdict_words (a, b, c).
Proof. intros ???. unfold verdict_words. cbn [fst snd]. rewrite !Forall_app. done. Qed.

Lemma rule_verdicts_words dir pol pods namespaces family idx rule :
  Forall pod_ok pods → Forall port_ok (pr_ports rule) →
  Forall verdict_words (rule_verdicts dir pol pods namespaces family (idx, rule)).
Proof.
  intros Hpods Hports. unfold rule_verdicts. cbn [fst snd].
  set (resolved := rule_resolved pol pods namespaces family rule).
  apply Forall_bind. intros r Hr%peer_refs_words.
  assert (Forall (λ w, word w = true) (ref_list (own_ref dir pol family))) as Hown.
  { pose proof (word_set_names dir pol 0 0 family) as Hw. rewrite !Forall_cons in Hw.
    destruct Hw as (_ & _ & Hw & _). destruct dir; repeat constructor; done. }
  destruct (pr_ports rule) as [|port0 ports0].
  { apply Forall_singleton. by apply verdict_words_intro; [| |apply Forall_nil_2]. }
  apply Forall_bind. intros port Hport. rewrite Forall_forall in Hports.
  destruct (Hports port Hport) as [Hq Hn]. unfold port_verdicts.
  destruct (ps_port port) as [|n|name].
  - apply Forall_singleton, verdict_words_intro; [done|done|]. by repeat constructor.
  - apply Forall_singleton, verdict_words_intro; [done|done|].
    repeat constructor; try done. apply word_digits. lia.
  - rewrite Forall_fmap, Forall_forall. intros x Hx%elem_of_port_groups. cbn.
    apply verdict_words_intro; [by destruct dir|..].
    + pose proof (word_set_names dir pol idx x.1 family) as Hw. rewrite !Forall_cons in Hw.
      destruct Hw as (_ & _ & _ & Hw & _). repeat constructor; done.
    + repeat constructor; try done. apply word_digits.
      eapply (group_facts pods family Hpods) in Hx; [lia|].
      intros pod Hpod. by apply receivers_spec in Hpod as [? _].
Qed.

Lemma policy_verdicts_words pods namespaces family pol :
  Forall pod_ok pods → policy_ok pol →
  Forall verdict_words (policy_verdicts pods namespaces family pol).
Proof.
  intros Hpods Hok. unfold policy_verdicts, dir_verdicts.
  assert (∀ dir, Forall verdict_words (imap pair (policy_rules dir pol)
    ≫= rule_verdicts dir pol pods namespaces family)) as Hdir.
  { intros dir. apply Forall_bind. intros [idx rule] (i & r & [= -> ->] & Hl)%elem_of_lookup_imap.
    apply rule_verdicts_words; [done|]. apply (Hok dir). by apply list_elem_of_lookup_2 in Hl. }
  apply Forall_app_2; (destruct (policy_has _ _); [apply Hdir|apply Forall_nil_2]).
Qed.
End pod_chain.
