(* ===== verification/TailFacts.v ===== *)
(** * TailFacts: the last chain

    What the chain that every top chain ends in does: a packet to or from a
    protected network is rejected unless a pod's chain accepted it, and under
    default deny also when its end of the protected network has no chain. *)

From stdpp Require Import gmap sets list strings pretty.
From Stdlib Require Import Ascii ZArith Lia.
From S2P Require Import Prelude Text Net IpText Common Netpol Synth Filter FilterFacts SynthFacts.
From S2P Require Import PlanChains PolicySpec NetpolFacts.
Import Naming Names Translate Ipset.

Local Open Scope Z_scope.

Section tail.
Context `{IpNetLib} `{HashLaws} `{FilterLib} `{!FilterNetLaws}.

(** The rules of one protected network. *)
Definition unknown_rules (set cidr : string) : list FilterRule :=
  [{| fr_tests := [(false, TSrc cidr); (true, TSet set "src")]; fr_target := Reject |};
   {| fr_tests := [(false, TDst cidr); (true, TSet set "dst")]; fr_target := Reject |}].
Definition closing_rules (cidr : string) : list FilterRule :=
  [{| fr_tests := [(false, TSrc cidr)]; fr_target := Reject |};
   {| fr_tests := [(false, TDst cidr)]; fr_target := Reject |}].

Definition tail_chain (dd : bool) (family : IpFamily) (cidrs : list IpNet) : list FilterRule :=
  let texts := net_to_string <$> filter (λ c, net_in_family c family = true) cidrs in
  (if dd then texts ≫= unknown_rules (local_pods_set family) else []) ++
  [{| fr_tests := [(false, TMark MARK_ACCEPTED)]; fr_target := Accept |}] ++
  (if dd then texts ≫= closing_rules else []).

Lemma chain_rules_two c l1 l2 r1 r2 :
  parse_line l1 = Some (c, r1) → parse_line l2 = Some (c, r2) → chain_rules [l1; l2] c = [r1; r2].
Proof.
  intros H1' H2'. change [l1; l2] with ([l1] ++ [l2]). rewrite chain_rules_app.
  by rewrite (chain_rules_one _ _ _ H1'), (chain_rules_one _ _ _ H2').
Qed.

Lemma tail_rules_parse dd family cidrs :
  chain_rules (tail_rules dd family cidrs) NWPLCY_TAIL = tail_chain dd family cidrs.
Proof.
  unfold tail_rules, tail_chain. rewrite !chain_rules_app.
  set (texts := net_to_string <$> _).
  assert (∀ t, t ∈ texts → word t = true) as Hw.
  { intros t (n & -> & _)%list_elem_of_fmap. apply net_word. }
  clearbody texts. f_equal; [|f_equal].
  - destruct dd; [|done]. rewrite chain_rules_bind. apply bind_ext_in. intros t Ht%Hw.
    apply chain_rules_two; destruct family.
    + line_words ["-A"; NWPLCY_TAIL; "-s"; t; "-m"; "set"; "!"; "--match-set"; local_pods_set FamV4;
        "src"; "-j"; "REJECT"; "--reject-with"; "icmp-port-unreachable"].
    + line_words ["-A"; NWPLCY_TAIL; "-s"; t; "-m"; "set"; "!"; "--match-set"; local_pods_set FamV6;
        "src"; "-j"; "REJECT"; "--reject-with"; "icmp6-port-unreachable"].
    + line_words ["-A"; NWPLCY_TAIL; "-d"; t; "-m"; "set"; "!"; "--match-set"; local_pods_set FamV4;
        "dst"; "-j"; "REJECT"; "--reject-with"; "icmp-port-unreachable"].
    + line_words ["-A"; NWPLCY_TAIL; "-d"; t; "-m"; "set"; "!"; "--match-set"; local_pods_set FamV6;
        "dst"; "-j"; "REJECT"; "--reject-with"; "icmp6-port-unreachable"].
  - destruct dd; [|done]. rewrite chain_rules_bind. apply bind_ext_in. intros t Ht%Hw.
    apply chain_rules_two; destruct family.
    + line_words ["-A"; NWPLCY_TAIL; "-s"; t; "-j"; "REJECT"; "--reject-with"; "icmp-port-unreachable"].
    + line_words ["-A"; NWPLCY_TAIL; "-s"; t; "-j"; "REJECT"; "--reject-with"; "icmp6-port-unreachable"].
    + line_words ["-A"; NWPLCY_TAIL; "-d"; t; "-j"; "REJECT"; "--reject-with"; "icmp-port-unreachable"].
    + line_words ["-A"; NWPLCY_TAIL; "-d"; t; "-j"; "REJECT"; "--reject-with"; "icmp6-port-unreachable"].
Qed.

(** ** Running it *)

Variables (env : SetEnv) (lines : list string) (p : Packet) (family : IpFamily).
Variables (cidrs : list IpNet) (programmed : IpAddr → bool).

(** The networks of the family, and whether one contains the address. *)
Definition protected (a : IpAddr) : bool :=
  existsb (λ c, net_contains c a) (filter (λ c, net_in_family c family = true) cidrs).

Definition tail_outcome (dd : bool) (mark : Z) : Outcome :=
  if dd && (protected (pk_src p) && negb (programmed (pk_src p)) ||
            protected (pk_dst p) && negb (programmed (pk_dst p))) then Rejected
  else if accepted mark then Accepted
  else if dd && (protected (pk_src p) || protected (pk_dst p)) then Rejected
  else Returned mark.

(** Rules that only reject. *)
Lemma run_rejects fuel rs rest mark :
  Forall (λ r, fr_target r = Reject) rs →
  run_rules env lines p fuel (rs ++ rest) mark =
  if existsb (λ r, tests_hold env p mark (fr_tests r)) rs then Some Rejected
  else run_rules env lines p fuel rest mark.
Proof.
  induction 1 as [|r rs Hr _ IH]; [done|]. cbn [app existsb]. rewrite run_rules_cons, Hr, IH.
  by destruct (tests_hold env p mark (fr_tests r)).
Qed.

Hypothesis Hsrc : ip_wf (pk_src p).
Hypothesis Hdst : ip_wf (pk_dst p).

Lemma net_src_test n mark :
  test_holds env p mark (TSrc (net_to_string n)) = net_contains n (pk_src p).
Proof. by apply addr_test_net. Qed.
Lemma net_dst_test n mark :
  test_holds env p mark (TDst (net_to_string n)) = net_contains n (pk_dst p).
Proof. by apply addr_test_net. Qed.

(** The rules of all the networks. *)
Lemma exists_unknown mark :
  (∀ side, test_holds env p mark (TSet (local_pods_set family) side) =
           programmed (if decide (side = "src") then pk_src p else pk_dst p)) →
  existsb (λ r, tests_hold env p mark (fr_tests r))
    ((net_to_string <$> filter (λ c, net_in_family c family = true) cidrs)
       ≫= unknown_rules (local_pods_set family)) =
  protected (pk_src p) && negb (programmed (pk_src p)) ||
  protected (pk_dst p) && negb (programmed (pk_dst p)).
Proof.
  intros Hset. rewrite existsb_bind, existsb_fmap. unfold protected.
  rewrite <-!existsb_andb_r, <-existsb_orb. apply existsb_ext_in. intros n _.
  unfold unknown_rules. cbn [existsb fr_tests]. unfold tests_hold. cbn [forallb fst snd].
  rewrite net_src_test, net_dst_test, !Hset. cbn [String.eqb].
  rewrite !xorb_false_l, !xorb_true_l, !andb_true_r, orb_false_r. done.
Qed.

Lemma exists_closing mark :
  existsb (λ r, tests_hold env p mark (fr_tests r))
    ((net_to_string <$> filter (λ c, net_in_family c family = true) cidrs) ≫= closing_rules) =
  protected (pk_src p) || protected (pk_dst p).
Proof.
  rewrite existsb_bind, existsb_fmap. unfold protected. rewrite <-existsb_orb.
  apply existsb_ext_in. intros n _. unfold closing_rules. cbn [existsb fr_tests]. unfold tests_hold.
  cbn [forallb fst snd]. rewrite net_src_test, net_dst_test.
  by rewrite !xorb_false_l, !andb_true_r, orb_false_r.
Qed.

Lemma rejects_bind {A} (f : A → list FilterRule) l :
  (∀ x, Forall (λ r, fr_target r = Reject) (f x)) → Forall (λ r, fr_target r = Reject) (l ≫= f).
Proof. intros Hf. apply Forall_bind. intros x _. apply Hf. Qed.

Lemma run_tail (dd : bool) fuel mark :
  (dd = true → ∀ side, test_holds env p mark (TSet (local_pods_set family) side) =
           programmed (if decide (side = "src") then pk_src p else pk_dst p)) →
  run_rules env lines p fuel (tail_chain dd family cidrs) mark = Some (tail_outcome dd mark).
Proof.
  intros Hset. unfold tail_chain, tail_outcome.
  assert (∀ rest, run_rules env lines p fuel
    ({| fr_tests := [(false, TMark MARK_ACCEPTED)]; fr_target := Accept |} :: rest) mark =
    if accepted mark then Some Accepted else run_rules env lines p fuel rest mark) as Hmark.
  { intros rest. rewrite run_rules_cons. cbn [fr_tests fr_target]. unfold tests_hold.
    cbn [forallb fst snd test_holds]. rewrite has_mark_accepted. by destruct (accepted mark). }
  cbn [app]. destruct dd; cbn [andb]; cycle 1.
  { cbn [app]. rewrite Hmark, run_rules_nil. by destruct (accepted mark). }
  rewrite run_rejects by (apply rejects_bind; by repeat constructor).
  rewrite exists_unknown by by apply Hset. destruct (_ || _); [done|].
  rewrite Hmark. destruct (accepted mark); [done|].
  rewrite <-(app_nil_r (_ ≫= closing_rules)), run_rejects
    by (apply rejects_bind; by repeat constructor).
  rewrite exists_closing, run_rules_nil. by destruct (_ || _).
Qed.
End tail.
