(* ===== verification/NetpolTheorems.v ===== *)
(** * NetpolTheorems: the firewall enforces the policies

    What a synthesized plan does to packets: the chain of a pod returns or
    rejects as the policies that select the pod say, and the forward chain
    accepts a new connection exactly when both of its ends agree. *)

From stdpp Require Import gmap sets list strings pretty sorting.
From Stdlib Require Import Ascii ZArith Lia.
From S2P Require Import Prelude Text Net IpText Common Netpol Synth Filter FilterFacts SynthFacts.
From S2P Require Import PlanChains PolicySpec NetpolFacts TailFacts.
Import Naming Names Translate Ipset.

Local Open Scope Z_scope.

Section firewall.
Context `{IpNetLib} `{HashLaws} `{FilterLaws} `{!FilterNetLaws}.
Variables (policies : list NetworkPolicy) (pods : list Pod) (namespaces : list Namespace).
Variables (node : string) (family : IpFamily) (ver : string) (dd : bool).
Variables (pod_cidrs ranges : list IpNet) (npr : option string).

Definition the_plan : FirewallPlan :=
  build_plan policies pods namespaces node family ver dd pod_cidrs ranges npr.

(** The inputs are well-formed, and the truncated hashes that name chains and
    sets do not collide on them. *)
Record firewall_ok : Prop := {
  fo_pods : Forall pod_ok pods;
  fo_policies : Forall policy_ok policies;
  fo_chains : chains_distinct policies pods node family ver;
  fo_sets : ∀ x y, x ∈ fp_ipsets the_plan → y ∈ fp_ipsets the_plan →
                   ipl_name x = ipl_name y → x = y;
}.

(** What the chain of a pod lets through. *)
Definition gate (pod : Pod) (p : Packet) (pol : NetworkPolicy) : bool :=
  match pt_ingress (np_policy_types pol), pt_egress (np_policy_types pol) with
  | true, true => true
  | true, false => has_ip pod (pk_dst p)
  | false, true => has_ip pod (pk_src p)
  | false, false => false
  end.

Definition permits (dir : Direction) (p : Packet) (pol : NetworkPolicy) : bool :=
  policy_permits pods namespaces family p dir pol.

Definition pod_passes (pod : Pod) (p : Packet) : bool :=
  let selecting := selecting_policies policies pod in
  existsb (λ pol, gate pod p pol && (permits Ingress p pol || permits Egress p pol)) selecting ||
  (negb (existsb (policy_has Ingress) selecting) && has_ip pod (pk_dst p)) ||
  (negb (existsb (policy_has Egress) selecting) && has_ip pod (pk_src p)).

Hypothesis Hok : firewall_ok.

Let env := set_env (fp_ipsets the_plan).
Let lines := fp_rules the_plan.

Lemma plan_env x : x ∈ fp_ipsets the_plan → env_has env x.
Proof.
  intros Hx. apply set_env_lookup; [|done]. intros y Hy Hn. by apply (fo_sets Hok).
Qed.

Lemma policy_env pol :
  pol ∈ applied_policies policies → Forall (env_has env) (policy_ipsets pods namespaces family pol).
Proof.
  intros Hpol. rewrite Forall_forall. intros x Hx. apply plan_env.
  destruct (plan_contents policies pods namespaces node family ver dd pod_cidrs ranges npr)
    as (Hs & _ & _).
  unfold the_plan. rewrite Hs. apply elem_of_app. left. apply list_elem_of_bind.
  exists pol. split; [exact Hx|exact Hpol].
Qed.

Lemma policy_ok_of pol : pol ∈ policies → policy_ok pol.
Proof. intros Hp. pose proof (fo_policies Hok) as Hall. rewrite Forall_forall in Hall. by apply Hall. Qed.

Lemma elem_of_applied pol :
  pol ∈ applied_policies policies ↔ pol ∈ policies ∧ policy_applies pol = true.
Proof. unfold applied_policies. rewrite list_elem_of_filter. tauto. Qed.

Lemma elem_of_selecting pod pol :
  pol ∈ selecting_policies policies pod ↔
  pol ∈ policies ∧ policy_applies pol = true ∧ policy_selects pol pod = true.
Proof. unfold selecting_policies. rewrite list_elem_of_filter, andb_true_iff. tauto. Qed.

Lemma elem_of_chained pod :
  pod ∈ chained_pods policies pods node family ↔
  pod ∈ pods ∧ pod_actionable node family pod = true ∧ firewalled policies pod = true.
Proof. unfold chained_pods. rewrite !list_elem_of_filter. tauto. Qed.

Section packet.
Variable p : Packet.
Hypothesis Hp : packet_ok family p.

(** The chain of a policy marks the packets that it permits. *)
Lemma run_policy_chain pol fuel mark :
  pol ∈ applied_policies policies →
  run_chain env lines p fuel (policy_chain pol ver family) mark =
  Some (Returned (if permits Ingress p pol || permits Egress p pol
                  then mark_matched mark else mark)).
Proof.
  intros Hpol. pose proof (proj1 (proj1 (elem_of_applied pol) Hpol)) as Hin.
  unfold run_chain, lines, the_plan. rewrite policy_chain_rules.
  - rewrite run_verdict_pairs.
    + unfold permits. rewrite <-(policy_holds pods namespaces family p env (fo_pods Hok) Hp pol)
        by (by apply policy_ok_of || by apply policy_env).
      by rewrite existsb_fmap.
    + rewrite Forall_fmap, Forall_forall. intros v _. apply verdict_tests_free.
  - apply (fo_chains Hok).
  - done.
  - apply policy_verdicts_words; [apply (fo_pods Hok)|by apply policy_ok_of].
Qed.

Lemma run_default_chain fuel mark :
  run_chain env lines p fuel NWPLCY_DEFAULT mark = Some (Returned (mark_matched mark)).
Proof.
  unfold run_chain, lines, the_plan. rewrite default_chain_rules, default_rules_chain.
  rewrite run_rules_cons. cbn [fr_tests fr_target]. apply run_rules_nil.
Qed.

Lemma run_common fuel mark :
  run_chain env lines p fuel NWPLCY_COMMON mark =
  Some (default (Returned mark) (common_outcome family p)).
Proof.
  unfold run_chain, lines, the_plan. rewrite common_chain_rules, common_rules_chain.
  apply run_common_chain.
Qed.

(** Matches on the addresses of a pod. *)
Lemma dst_test a : ip_wf a → tests_hold env p 0 [(false, TDst (ip_to_string a))] = bool_decide (a = pk_dst p).
Proof.
  intros Ha. unfold tests_hold. cbn [forallb fst snd test_holds].
  rewrite addr_test_ip by (done || apply Hp). by destruct (bool_decide _).
Qed.
Lemma src_test a : ip_wf a → tests_hold env p 0 [(false, TSrc (ip_to_string a))] = bool_decide (a = pk_src p).
Proof.
  intros Ha. unfold tests_hold. cbn [forallb fst snd test_holds].
  rewrite addr_test_ip by (done || apply Hp). by destruct (bool_decide _).
Qed.

Lemma pod_wf pod : pod ∈ pods → Forall ip_wf (pod_ips pod).
Proof. intros Hin. pose proof (fo_pods Hok) as Hall. rewrite Forall_forall in Hall. by apply Hall. Qed.

Lemma existsb_pod_ips pod (test : string → bool) a :
  pod ∈ pods → of_addr a = family →
  (∀ b, ip_wf b → test (ip_to_string b) = bool_decide (b = a)) →
  existsb test (pod_family_ips pod family) = has_ip pod a.
Proof.
  intros Hin Hf Ht. pose proof (pod_wf pod Hin) as Hwf. rewrite Forall_forall in Hwf.
  apply eq_true_iff_eq. unfold has_ip. rewrite existsb_exists, list_contains_true. split.
  - intros (e & He%list_elem_of_In & Hx). apply elem_of_family_strings in He as (b & Hb & _ & ->).
    rewrite Ht in Hx by by apply Hwf. by apply bool_decide_eq_true in Hx as ->.
  - intros Ha. exists (ip_to_string a). split.
    + apply list_elem_of_In, elem_of_family_strings. exists a.
      split_and!; [done|by apply of_addr_in_family|done].
    + rewrite Ht by by apply Hwf. by apply bool_decide_eq_true.
Qed.

Lemma dst_existsb pod :
  pod ∈ pods →
  existsb (λ ip, tests_hold env p 0 [(false, TDst ip)]) (pod_family_ips pod family) =
  has_ip pod (pk_dst p).
Proof.
  intros Hin. apply existsb_pod_ips; [done|apply Hp|]. intros b Hb. by apply dst_test.
Qed.
Lemma src_existsb pod :
  pod ∈ pods →
  existsb (λ ip, tests_hold env p 0 [(false, TSrc ip)]) (pod_family_ips pod family) =
  has_ip pod (pk_src p).
Proof.
  intros Hin. apply existsb_pod_ips; [done|apply Hp|]. intros b Hb. by apply src_test.
Qed.

(** The dispatch of one address. *)
Definition dispatch_hit (pod : Pod) (ip : string) : bool :=
  let selecting := selecting_policies policies pod in
  existsb (λ pol,
    (match pt_ingress (np_policy_types pol), pt_egress (np_policy_types pol) with
     | true, true => true
     | true, false => tests_hold env p 0 [(false, TDst ip)]
     | false, true => tests_hold env p 0 [(false, TSrc ip)]
     | false, false => false
     end) && (permits Ingress p pol || permits Egress p pol)) selecting ||
  (negb (existsb (policy_has Ingress) selecting) && tests_hold env p 0 [(false, TDst ip)] ||
   negb (existsb (policy_has Egress) selecting) && tests_hold env p 0 [(false, TSrc ip)]).

Lemma dispatch_sets_mark pod ip fuel :
  sets_mark env lines p (S fuel)
    (pod_dispatch_rules ver family (selecting_policies policies pod) ip) (dispatch_hit pod ip).
Proof.
  unfold pod_dispatch_rules, dispatch_hit. apply sets_mark_app; [|apply sets_mark_app].
  - apply sets_mark_bind. intros pol (Hin & Ha & _)%elem_of_selecting.
    assert (pol ∈ applied_policies policies) as Hpol by by apply elem_of_applied.
    unfold policy_jump_rule. destruct (pt_ingress _), (pt_egress _).
    + apply (sets_mark_jump env lines p (S fuel) []); [done|]. intros mark. by apply run_policy_chain.
    + apply sets_mark_jump; [done|]. intros mark. by apply run_policy_chain.
    + apply sets_mark_jump; [done|]. intros mark. by apply run_policy_chain.
    + apply sets_mark_nil.
  - destruct (existsb _ _); [apply sets_mark_nil|]. cbn [negb andb].
    rewrite <-(andb_true_r (tests_hold env p 0 [(false, TDst ip)])).
    apply sets_mark_jump; [done|]. intros mark. apply run_default_chain.
  - destruct (existsb _ _); [apply sets_mark_nil|]. cbn [negb andb].
    rewrite <-(andb_true_r (tests_hold env p 0 [(false, TSrc ip)])).
    apply sets_mark_jump; [done|]. intros mark. apply run_default_chain.
Qed.

(** Over all the addresses of a pod, the dispatch marks what the pod passes. *)
Lemma dispatch_passes pod :
  pod ∈ chained_pods policies pods node family →
  existsb (dispatch_hit pod) (pod_family_ips pod family) = pod_passes pod p.
Proof.
  intros (Hin & Hact & _)%elem_of_chained. unfold dispatch_hit, pod_passes.
  rewrite !existsb_orb, !existsb_andb_l, dst_existsb, src_existsb, <-orb_assoc by done.
  f_equal. rewrite existsb_swap. apply existsb_ext_in. intros pol _. rewrite existsb_andb_r.
  f_equal. unfold gate. unfold pod_actionable in Hact. rewrite !andb_true_iff in Hact.
  destruct Hact as [_ Hne]. apply negb_true_iff, bool_decide_eq_false in Hne.
  destruct (pt_ingress _), (pt_egress _).
  - by destruct (pod_family_ips pod family).
  - by apply dst_existsb.
  - by apply src_existsb.
  - clear. by induction (pod_family_ips pod family).
Qed.

(** The accepting rules for traffic from the node itself. *)
Lemma run_local_rules fuel rest mark ips :
  run_rules env lines p fuel ((local_rule <$> ips) ++ rest) mark =
  if pk_src_local p && existsb (λ ip, tests_hold env p 0 [(false, TDst ip)]) ips
  then Some Accepted else run_rules env lines p fuel rest mark.
Proof.
  induction ips as [|ip ips IH]; [by rewrite andb_false_r|]. rewrite fmap_cons. cbn [app existsb].
  rewrite run_rules_cons. cbn [local_rule fr_tests fr_target]. rewrite IH.
  change (tests_hold env p mark [(false, TSrcType "LOCAL"); (false, TDst ip)]) with
    (xorb false (pk_src_local p) && tests_hold env p 0 [(false, TDst ip)]).
  rewrite xorb_false_l.
  by destruct (pk_src_local p), (tests_hold env p 0 [(false, TDst ip)]).
Qed.

Lemma run_pod_verdict fuel mark :
  run_rules env lines p fuel pod_verdict_rules mark =
  Some (if matched mark then Returned (mark_passed mark) else Rejected).
Proof.
  unfold pod_verdict_rules, unmarked. rewrite !run_rules_cons. cbn [fr_tests fr_target].
  assert (tests_hold env p mark [(true, TMark MARK_MATCHED)] = negb (matched mark)) as ->.
  { unfold tests_hold. cbn [forallb fst snd test_holds]. rewrite has_mark_matched.
    by destruct (matched mark). }
  destruct (matched mark); cbn [negb]; [|done].
  change (tests_hold env p ?m []) with true. cbn iota. rewrite run_rules_cons.
  cbn [fr_tests fr_target]. change (tests_hold env p ?m []) with true. cbn iota.
  apply run_rules_nil.
Qed.

Lemma pod_chain_run pod fuel mark :
  pod ∈ chained_pods policies pods node family → matched mark = false →
  run_chain env lines p (S fuel) (pod_chain pod ver) mark =
  match common_outcome family p with
  | Some o => then_rules env lines p (S fuel)
      (tl (pod_own_rules ver family (selecting_policies policies pod) pod)) (Some o)
  | None =>
      if pk_src_local p && has_ip pod (pk_dst p) then Some Accepted
      else if pod_passes pod p then Some (Returned (mark_passed (mark_matched mark)))
      else Some Rejected
  end.
Proof.
  intros Hpod Hm. pose proof (proj1 (proj1 (elem_of_chained pod) Hpod)) as Hin.
  assert (chain_rules lines (pod_chain pod ver) =
    pod_own_rules ver family (selecting_policies policies pod) pod) as Hrules.
  { unfold lines, the_plan. rewrite pod_chain_rules by (done || apply (fo_chains Hok)).
    by apply pod_own_parse, pod_wf. }
  unfold run_chain at 1. rewrite Hrules. unfold pod_own_rules.
  cbn [app tl]. rewrite run_rules_cons. cbn [jump_rule fr_tests fr_target].
  change (tests_hold env p mark []) with true. cbn iota. rewrite run_common.
  destruct (common_outcome family p); [done|]. cbn [default from_option id then_rules].
  rewrite run_local_rules, dst_existsb by done.
  destruct (pk_src_local p && has_ip pod (pk_dst p)); [done|].
  destruct (sets_mark_bind env lines p (S fuel) _ (dispatch_hit pod) (pod_family_ips pod family)
    (λ ip _, dispatch_sets_mark pod ip fuel)) as [Hnr Hrun].
  rewrite run_rules_app, Hrun, dispatch_passes by done. cbn [then_rules].
  rewrite run_pod_verdict. destruct (pod_passes pod p); [by rewrite matched_mark|by rewrite Hm].
Qed.

(** The chain of a pod, for any packet. *)
Lemma pod_chain_outcome pod fuel mark :
  pod ∈ chained_pods policies pods node family → matched mark = false →
  run_chain env lines p (S fuel) (pod_chain pod ver) mark =
  Some (match common_outcome family p with
        | Some o => o
        | None =>
            if pk_src_local p && has_ip pod (pk_dst p) then Accepted
            else if pod_passes pod p then Returned (mark_passed (mark_matched mark))
            else Rejected
        end).
Proof.
  intros Hpod Hm. rewrite pod_chain_run by done. unfold common_outcome.
  destruct (pk_ct p); try done. destruct (existsb _ _); [done|].
  destruct (pk_src_local p && has_ip pod (pk_dst p)); [done|]. by destruct (pod_passes pod p).
Qed.

(** ** The policies of one direction *)

Lemma rule_permits_selects dir pol rule :
  rule_permits pods namespaces family p dir pol rule = true →
  selects_ip pods pol (own_ip p dir) = true.
Proof.
  unfold rule_permits. destruct (pr_ports rule) as [|port ports].
  { by intros [_ ?]%andb_true_iff. }
  intros (q & _ & Hq)%existsb_exists. unfold port_admits in Hq.
  apply andb_true_iff in Hq as [_ Hq]. destruct (ps_port q).
  - by apply andb_true_iff in Hq as [_ ?].
  - by apply andb_true_iff in Hq as [_ ?].
  - apply andb_true_iff in Hq as [Hn Hq]. destruct dir; [|done].
    unfold named_port_admits in Hn. apply existsb_exists in Hn as (pod & Hin & Hn).
    rewrite !andb_true_iff in Hn. destruct Hn as [[Hr _] Hip]. unfold selects_ip.
    apply existsb_exists. exists pod. split; [done|]. apply andb_true_iff. done.
Qed.

Lemma permits_selects dir pol : permits dir p pol = true → selects_ip pods pol (own_ip p dir) = true.
Proof.
  unfold permits, policy_permits. intros [_ (rule & _ & Hr)%existsb_exists]%andb_true_iff.
  by eapply rule_permits_selects.
Qed.

Lemma permits_has dir pol : permits dir p pol = true → policy_has dir pol = true.
Proof. unfold permits, policy_permits. by intros [? _]%andb_true_iff. Qed.

Definition opposite (dir : Direction) : Direction :=
  match dir with Ingress => Egress | Egress => Ingress end.

Definition isolated (dir : Direction) (pod : Pod) : bool :=
  existsb (policy_has dir) (selecting_policies policies pod).
Definition allowed (dir : Direction) (pod : Pod) : bool :=
  existsb (permits dir p) (selecting_policies policies pod).

(** When no policy with both directions that selects the pod also selects the
    other end of the packet, the pod passes what the policies of the direction
    allow. *)
Lemma pod_passes_direction dir pod :
  has_ip pod (own_ip p dir) = true → has_ip pod (peer_ip p dir) = false →
  (∀ pol, pol ∈ selecting_policies policies pod → policy_has Ingress pol = true →
          policy_has Egress pol = true → selects_ip pods pol (peer_ip p dir) = false) →
  pod_passes pod p = negb (isolated dir pod) || allowed dir pod.
Proof.
  intros Hown Hpeer Hcross. unfold pod_passes, isolated, allowed.
  assert (existsb (λ pol, gate pod p pol && (permits Ingress p pol || permits Egress p pol))
            (selecting_policies policies pod) =
          existsb (permits dir p) (selecting_policies policies pod)) as ->.
  { apply existsb_ext_in. intros pol Hpol. specialize (Hcross pol Hpol).
    pose proof (permits_has Ingress pol) as HI. pose proof (permits_has Egress pol) as HE.
    pose proof (permits_selects (opposite dir) pol) as Hopp. unfold gate.
    cbn [policy_has] in HI, HE, Hcross.
    destruct dir; cbn [own_ip peer_ip opposite] in *; rewrite ?Hown, ?Hpeer;
      destruct (permits Ingress p pol), (permits Egress p pol),
        (pt_ingress (np_policy_types pol)), (pt_egress (np_policy_types pol)); try done;
      try (by specialize (HI eq_refl)); try (by specialize (HE eq_refl));
      specialize (Hcross eq_refl eq_refl); specialize (Hopp eq_refl); congruence. }
  destruct dir; cbn [own_ip peer_ip] in *; rewrite Hown, Hpeer, andb_true_r, andb_false_r;
    destruct (existsb (permits _ _) _), (existsb (policy_has _) _); done.
Qed.

(** ** The forward chain *)

(** Rule lists that reject a packet, or return it with the match mark clear and
    the accept mark set if some jump was taken. *)
Definition screens (fuel : nat) (rs : list FilterRule) (pass hit : bool) : Prop :=
  no_return rs = true ∧
  ∀ mark, matched mark = false →
    ∃ o, run_rules env lines p fuel rs mark = Some o ∧
      if pass then ∃ mark', o = Returned mark' ∧ matched mark' = false ∧
                            accepted mark' = hit || accepted mark
      else o = Rejected.

Lemma screens_nil fuel : screens fuel [] true false.
Proof.
  split; [done|]. intros mark Hm. exists (Returned mark). split; [apply run_rules_nil|]. eauto.
Qed.

Lemma screens_app fuel rs rs' a b a' b' :
  screens fuel rs a b → screens fuel rs' a' b' → screens fuel (rs ++ rs') (a && a') (b' || b).
Proof.
  intros [Hn Hr] [Hn' Hr']. split; [unfold no_return in *; by rewrite forallb_app, Hn, Hn'|].
  intros mark Hm. rewrite run_rules_app by done. destruct (Hr mark Hm) as (o & -> & Ho).
  destruct a; [|subst o; by exists Rejected].
  destruct Ho as (mark' & -> & Hm' & Ha). cbn [then_rules andb].
  destruct (Hr' mark' Hm') as (o' & -> & Ho'). exists o'. split; [done|].
  destruct a'; [|done]. destruct Ho' as (mark'' & -> & ? & Ha'). exists mark''.
  split_and!; [done|done|]. rewrite Ha', Ha. by destruct b, b'.
Qed.

Lemma screens_bind {A} fuel (f : A → list FilterRule) (pass hit : A → bool) l :
  (∀ x, x ∈ l → screens fuel (f x) (pass x) (hit x)) →
  screens fuel (l ≫= f) (forallb pass l) (existsb hit l).
Proof.
  induction l as [|x l IH]; intros Hf; [apply screens_nil|]. rewrite bind_cons. cbn [forallb existsb].
  rewrite (orb_comm (hit x)). apply screens_app; [apply Hf, elem_of_cons; by left|].
  apply IH. intros y Hy. apply Hf, elem_of_cons. by right.
Qed.

Hypothesis Hnew : common_outcome family p = None.
Hypothesis Hremote : pk_src_local p = false.

(** A jump to the chain of a pod. *)
Lemma screens_pod_jump pod ts fuel :
  pod ∈ chained_pods policies pods node family → mark_free ts = true →
  screens (S (S fuel)) [jump_rule ts (pod_chain pod ver)]
    (negb (tests_hold env p 0 ts) || pod_passes pod p) (tests_hold env p 0 ts).
Proof.
  intros Hpod Hfree. split; [done|]. intros mark Hm. rewrite run_rules_cons.
  cbn [jump_rule fr_tests fr_target]. rewrite (tests_hold_free env p ts mark 0) by done.
  destruct (tests_hold env p 0 ts); cbn [negb orb].
  - rewrite pod_chain_outcome, Hnew, Hremote by done. cbn [andb].
    destruct (pod_passes pod p); [|by exists Rejected].
    cbn [then_rules]. rewrite run_rules_nil. eexists. split; [done|].
    exists (mark_passed (mark_matched mark)). split_and!; [done|apply matched_passed|].
    apply accepted_passed.
  - rewrite run_rules_nil. exists (Returned mark). split; [done|]. eauto.
Qed.

Definition forward_rules (podchain ip : string) : list FilterRule :=
  [jump_rule [(false, TDst ip)] podchain] ++
  [jump_rule [(false, TBridged); (false, TDst ip)] podchain] ++
  [jump_rule [(false, TSrc ip)] podchain] ++
  [jump_rule [(false, TBridged); (false, TSrc ip)] podchain].

Lemma chain_rules_skip l chain d :
  line_of d l → word d = true → d ≠ chain → chain_rules [l] chain = [].
Proof. intros Hl Hw Hd. unfold chain_rules. cbn. by rewrite (line_rule_other d). Qed.

Lemma pod_entry_forward pod ip :
  word ip = true →
  chain_rules (pod_entry (pod_chain pod ver) ip) ROUTER_FORWARD = forward_rules (pod_chain pod ver) ip.
Proof.
  intros Hip. pose proof (word_pod_chain pod ver) as Hc. set (pc := pod_chain pod ver) in *.
  unfold pod_entry, forward_rules.
  change ([?a; ?b; ?c] ++ (?f <$> [?x; ?y; ?z]) ++ [?g]) with
    ([a] ++ [b] ++ [c] ++ [f x] ++ [f y] ++ [f z] ++ [g]). cbn beta. rewrite !chain_rules_app.
  rewrite (chain_rules_one ROUTER_FORWARD _ (jump_rule [(false, TDst ip)] pc))
    by line_words ["-A"; ROUTER_FORWARD; "-d"; ip; "-j"; pc].
  rewrite (chain_rules_skip _ ROUTER_FORWARD ROUTER_OUTPUT) by (done || (eexists; reflexivity)).
  rewrite (chain_rules_one ROUTER_FORWARD _ (jump_rule [(false, TBridged); (false, TDst ip)] pc))
    by line_words ["-A"; ROUTER_FORWARD; "-m"; "physdev"; "--physdev-is-bridged"; "-d"; ip; "-j"; pc].
  rewrite (chain_rules_skip _ ROUTER_FORWARD ROUTER_INPUT) by (done || (eexists; reflexivity)).
  rewrite (chain_rules_one ROUTER_FORWARD _ (jump_rule [(false, TSrc ip)] pc))
    by line_words ["-A"; ROUTER_FORWARD; "-s"; ip; "-j"; pc].
  rewrite (chain_rules_skip _ ROUTER_FORWARD ROUTER_OUTPUT) by (done || (eexists; reflexivity)).
  rewrite (chain_rules_one ROUTER_FORWARD _ (jump_rule [(false, TBridged); (false, TSrc ip)] pc))
    by line_words ["-A"; ROUTER_FORWARD; "-m"; "physdev"; "--physdev-is-bridged"; "-s"; ip; "-j"; pc].
  done.
Qed.

Definition touches (pod : Pod) : bool := has_ip pod (pk_dst p) || has_ip pod (pk_src p).

Lemma screens_forward_ip pod fuel ip :
  pod ∈ chained_pods policies pods node family →
  let hit := tests_hold env p 0 [(false, TDst ip)] || tests_hold env p 0 [(false, TSrc ip)] in
  screens (S (S fuel)) (forward_rules (pod_chain pod ver) ip) (negb hit || pod_passes pod p) hit.
Proof.
  intros Hpod hit.
  assert (∀ t, tests_hold env p 0 [(false, TBridged); (false, t)] =
    pk_bridged p && tests_hold env p 0 [(false, t)]) as Hbr by (intros t; unfold tests_hold; cbn [forallb fst snd]; f_equal).
  pose proof (screens_pod_jump pod [(false, TDst ip)] fuel Hpod eq_refl) as Hd.
  pose proof (screens_pod_jump pod [(false, TBridged); (false, TDst ip)] fuel Hpod eq_refl) as Hbd.
  pose proof (screens_pod_jump pod [(false, TSrc ip)] fuel Hpod eq_refl) as Hs.
  pose proof (screens_pod_jump pod [(false, TBridged); (false, TSrc ip)] fuel Hpod eq_refl) as Hbs.
  rewrite Hbr in Hbd, Hbs.
  pose proof (screens_app _ _ _ _ _ _ _ Hd (screens_app _ _ _ _ _ _ _ Hbd
    (screens_app _ _ _ _ _ _ _ Hs Hbs))) as Hall.
  subst hit. unfold forward_rules.
  destruct (tests_hold env p 0 [(false, TDst ip)]), (tests_hold env p 0 [(false, TSrc ip)]),
    (pk_bridged p), (pod_passes pod p); exact Hall.
Qed.

Lemma screens_pods fuel :
  screens (S (S fuel))
    (chained_pods policies pods node family ≫= λ pod,
       pod_family_ips pod family ≫= forward_rules (pod_chain pod ver))
    (forallb (λ pod, negb (touches pod) || pod_passes pod p) (chained_pods policies pods node family))
    (existsb touches (chained_pods policies pods node family)).
Proof.
  apply screens_bind. intros pod Hpod. pose proof (proj1 (proj1 (elem_of_chained pod) Hpod)) as Hin.
  unfold touches. rewrite <-(dst_existsb pod Hin), <-(src_existsb pod Hin), <-existsb_orb.
  assert (∀ (l : list string) (f : string → bool), negb (existsb f l) || pod_passes pod p =
    forallb (λ ip, negb (f ip) || pod_passes pod p) l) as Hneg.
  { intros l f. induction l as [|x l IH]; [done|]. cbn. rewrite <-IH.
    by destruct (f x), (existsb f l), (pod_passes pod p). }
  rewrite Hneg. apply screens_bind. intros ip _. by apply screens_forward_ip.
Qed.

Lemma forward_chain_rules :
  chain_rules lines ROUTER_FORWARD =
  (chained_pods policies pods node family ≫= λ pod,
     pod_family_ips pod family ≫= forward_rules (pod_chain pod ver)) ++ [jump_rule [] NWPLCY_TAIL].
Proof.
  unfold lines, the_plan. rewrite plan_chain_rules.
  rewrite common_outside, default_outside, tail_outside by done.
  rewrite policies_outside by (intros pol Heq; apply (policy_chain_not_fixed pol ver family);
    rewrite <-Heq; unfold fixed_chains; rewrite !elem_of_cons; tauto).
  assert (chain_rules (service_return_rules family ranges npr) ROUTER_FORWARD = []) as ->.
  { apply (chain_rules_outside [ROUTER_INPUT]); [|by repeat constructor|by rewrite list_elem_of_singleton].
    unfold service_return_rules. apply Forall_app_2.
    - apply Forall_map_intro. intros x. chain_lines.
    - destruct npr; [|chain_lines]. apply Forall_map_intro. intros x. chain_lines. }
  cbn [app]. f_equal.
  assert (∀ l, (∀ pod, pod ∈ l → pod ∈ chained_pods policies pods node family) →
    (l ≫= λ pod, chain_rules (pod_lines policies family ver pod) ROUTER_FORWARD) =
    l ≫= λ pod, pod_family_ips pod family ≫= forward_rules (pod_chain pod ver)) as Hgen.
  { induction l as [|pod l IH]; intros Hl; [done|]. rewrite !bind_cons, IH.
    2:{ intros pod' Hpod'. apply Hl, elem_of_cons. by right. }
    f_equal. assert (pod ∈ chained_pods policies pods node family) as Hpod
      by (apply Hl, elem_of_cons; by left).
    rewrite (pod_lines_rules policies pods node family ver pod) by done.
    rewrite decide_False.
    2:{ intros Heq. apply (pod_chain_not_fixed pod ver). rewrite <-Heq.
        unfold fixed_chains. rewrite !elem_of_cons. tauto. }
    rewrite decide_True by (unfold top_chains; rewrite !elem_of_cons; tauto).
    cbn [app]. rewrite chain_rules_bind.
    pose proof (pod_ips_words pod family (pod_wf pod (proj1 (proj1 (elem_of_chained pod) Hpod)))) as Hw.
    clear -Hw H1. induction (pod_family_ips pod family) as [|ip ips IH]; [done|].
    rewrite !bind_cons, pod_entry_forward, IH; [done|..].
    - intros e He. apply Hw, elem_of_cons. by right.
    - apply Hw, elem_of_cons. by left. }
  by apply Hgen.
Qed.

(** ** The last chain of the plan *)

(** The addresses whose pod has a chain. *)
Definition programmed (a : IpAddr) : bool :=
  existsb (λ pod, has_ip pod a) (chained_pods policies pods node family).

Lemma local_set_entries a :
  ip_wf a → of_addr a = family →
  set_test HashIp (chained_pods policies pods node family ≫= λ pod, pod_family_ips pod family) a =
  programmed a.
Proof.
  intros Ha Hf. rewrite set_test_ip; [|apply Forall_bind; intros pod Hpod;
    apply family_strings_written, pod_wf; by apply elem_of_chained in Hpod as [? _]|done].
  apply eq_true_iff_eq. rewrite bool_decide_eq_true, list_elem_of_bind. unfold programmed.
  rewrite existsb_exists. setoid_rewrite list_contains_true.
  split.
  - intros (pod & Hin & Hpod). exists pod. split; [by apply list_elem_of_In|].
    apply (ip_in_family_strings (pod_ips pod) family a); [|done..|done].
    apply pod_wf. by apply elem_of_chained in Hpod as [? _].
  - intros (pod & Hpod%list_elem_of_In & Hin). exists pod. split; [|done].
    apply ip_in_family_strings; [|done..]. apply pod_wf. by apply elem_of_chained in Hpod as [? _].
Qed.

Lemma local_set_test mark side :
  dd = true →
  test_holds env p mark (TSet (local_pods_set family) side) =
  programmed (if decide (side = "src") then pk_src p else pk_dst p).
Proof.
  intros Hdd. set (x := {| ipl_name := local_pods_set family; ipl_type := HashIp;
    ipl_family := family;
    ipl_entries := chained_pods policies pods node family ≫= λ pod, pod_family_ips pod family |}).
  assert (env_has env x) as Hx.
  { apply plan_env. unfold the_plan.
    rewrite (proj1 (plan_contents policies pods namespaces node family ver dd pod_cidrs ranges npr)).
    rewrite Hdd. apply elem_of_app. right. by apply list_elem_of_singleton. }
  unfold env_has in Hx. cbn [test_holds]. change (local_pods_set family) with (ipl_name x).
  rewrite Hx. cbn [x ipl_type ipl_entries]. destruct Hp as (? & ? & ? & ?).
  case_decide; by apply local_set_entries.
Qed.

Lemma run_tail_chain fuel mark :
  run_chain env lines p fuel NWPLCY_TAIL mark =
  Some (tail_outcome p family pod_cidrs programmed dd mark).
Proof.
  assert (chain_rules lines NWPLCY_TAIL = tail_chain dd family pod_cidrs) as Hrules.
  { unfold lines, the_plan. rewrite plan_chain_rules.
    assert (NWPLCY_TAIL ∉ top_chains) as Hnt by (eapply bool_decide_unpack; vm_compute; exact I).
    rewrite common_outside, default_outside, service_outside, jumps_outside by done.
    rewrite policies_outside by (intros pol Heq; apply (policy_chain_not_fixed pol ver family);
      rewrite <-Heq; unfold fixed_chains; rewrite !elem_of_cons; tauto).
    rewrite pods_outside by (done || (intros pod Heq; apply (pod_chain_not_fixed pod ver);
      rewrite <-Heq; unfold fixed_chains; rewrite !elem_of_cons; tauto)).
    cbn [app]. by rewrite app_nil_r, tail_rules_parse. }
  unfold run_chain. rewrite Hrules. apply run_tail; [apply Hp..|]. intros Hdd side.
  by apply local_set_test.
Qed.

(** The verdict of the forward chain on a new connection. *)
Definition forward_outcome (mark : Z) : Outcome :=
  if existsb (λ pod, touches pod && negb (pod_passes pod p)) (chained_pods policies pods node family)
  then Rejected
  else tail_outcome p family pod_cidrs programmed dd
         (if existsb touches (chained_pods policies pods node family) then mark_passed mark else mark).

(** Outcomes, up to the mark of a packet that no rule decides. *)
Definition same_verdict (o o' : Outcome) : Prop :=
  match o, o' with Returned _, Returned _ => True | _, _ => o = o' end.

Lemma tail_same_verdict mark mark' :
  accepted mark = accepted mark' →
  same_verdict (tail_outcome p family pod_cidrs programmed dd mark)
    (tail_outcome p family pod_cidrs programmed dd mark').
Proof.
  unfold tail_outcome. intros ->. destruct (dd && _); [done|]. destruct (accepted mark'); [done|].
  by destruct (dd && _).
Qed.

Lemma forward_run fuel mark :
  matched mark = false →
  ∃ o, run_chain env lines p (S (S fuel)) ROUTER_FORWARD mark = Some o ∧
       same_verdict o (forward_outcome mark).
Proof.
  intros Hm. unfold run_chain. rewrite forward_chain_rules.
  destruct (screens_pods fuel) as [Hnr Hrun]. rewrite run_rules_app by done.
  destruct (Hrun mark Hm) as (o & -> & Ho). unfold forward_outcome.
  assert (∀ l, forallb (λ pod, negb (touches pod) || pod_passes pod p) l =
    negb (existsb (λ pod, touches pod && negb (pod_passes pod p)) l)) as Hneg.
  { intros l. rewrite forallb_existsb. f_equal. apply existsb_ext_in. intros pod _.
    by destruct (touches pod), (pod_passes pod p). }
  rewrite Hneg in Ho. destruct (existsb (λ pod, touches pod && _) _); cbn [negb] in Ho.
  { subst o. by exists Rejected. }
  destruct Ho as (mark' & -> & _ & Ha). cbn [then_rules]. rewrite run_rules_cons.
  cbn [jump_rule fr_tests fr_target]. change (tests_hold env p mark' []) with true. cbn iota.
  rewrite run_tail_chain. eexists. split.
  - assert (∀ o : Outcome, then_rules env lines p (S (S fuel)) [] (Some o) = Some o) as ->
      by (intros []; [apply run_rules_nil|done..]). done.
  - apply tail_same_verdict. rewrite Ha. by destruct (existsb touches _); rewrite ?accepted_passed.
Qed.
End packet.
End firewall.
