(* ===== verification/KubeSpec.v ===== *)
(** * KubeSpec: what network policies mean

    The meaning of network policies as the API of Kubernetes documents it, stated
    on the projected objects without the program's functions: which labels a
    selector selects, which addresses a peer stands for, which packets a rule
    allows and a pod denies.  For policies that are [policy_plain] the verdicts
    of [PolicySpec], which follow the sets of the plan, are this meaning; [Blocks]
    has blocks for which they are not. *)

From stdpp Require Import gmap sets list strings pretty sorting.
From Stdlib Require Import Ascii ZArith Lia.
From S2P Require Import Prelude Text Net IpText Common Netpol Synth Filter FilterFacts SynthFacts.
From S2P Require Import PlanChains PolicySpec NetpolFacts TailFacts NetpolTheorems.
Import Naming Names Translate Ipset.

Local Open Scope Z_scope.

(** ** Selectors *)

Definition requirement_met (req : SelectorRequirement) (labels : gmap string string) : Prop :=
  match sr_operator req with
  | Some In => ∃ v, labels !! sr_key req = Some v ∧ v ∈ sr_values req
  | Some NotIn => ∀ v, labels !! sr_key req = Some v → v ∉ sr_values req
  | Some Exists => is_Some (labels !! sr_key req)
  | Some DoesNotExist => labels !! sr_key req = None
  | None => False
  end.

(** All of the labels, and all of the requirements. *)
Definition selects (sel : LabelSelector) (labels : gmap string string) : Prop :=
  match_labels sel ⊆ labels ∧ ∀ req, req ∈ match_expressions sel → requirement_met req labels.

(** An absent selector selects everything. *)
Definition opt_selects (sel : option LabelSelector) (labels : gmap string string) : Prop :=
  match sel with Some sel => selects sel labels | None => True end.

Section meaning.
Context `{IpNetLib}.
Variables (policies : list NetworkPolicy) (pods : list Pod) (namespaces : list Namespace).
Variable node : string.

(** ** Peers *)

(** The namespaces of a peer: those its selector selects, or else the policy's. *)
Definition peer_namespace (pol : NetworkPolicy) (sel : option LabelSelector) (ns : string) : Prop :=
  match sel with
  | Some sel => ∃ n, n ∈ namespaces ∧ ns_name n = ns ∧ selects sel (ns_labels n)
  | None => ns = np_namespace pol
  end.

(** A pod with an address of its own. *)
Definition pod_at (pod : Pod) (a : IpAddr) : Prop := pod ∈ pods ∧ a ∈ pod_ips pod.

(** The addresses a peer stands for. *)
Definition peer_matches (pol : NetworkPolicy) (peer : Peer) (a : IpAddr) : Prop :=
  match peer with
  | PeerSelector nss sel =>
      ∃ pod, pod_at pod a ∧ pod_host_network pod = false ∧
             peer_namespace pol nss (pod_namespace pod) ∧ opt_selects sel (pod_labels pod)
  | PeerIpBlock cidr except =>
      net_contains cidr a = true ∧ ∀ ex, ex ∈ except → net_contains ex a = false
  end.

(** ** Rules *)

Definition exposes_port (pod : Pod) (name protocol : string) (n : Z) : Prop :=
  ∃ cp, cp ∈ pod_container_ports pod ∧ cp_name cp = Some name ∧ cp_protocol cp = protocol ∧ cp_port cp = n.

(** A policy governs the pods of its namespace that its selector selects. *)
Definition governs (pol : NetworkPolicy) (pod : Pod) : Prop :=
  pod_namespace pod = np_namespace pol ∧ selects (np_pod_selector pol) (pod_labels pod).

(** A named port is that of the receiving pod, for ingress one the policy governs. *)
Definition port_matches (dir : Direction) (pol : NetworkPolicy) (port : PortSpec) (p : Packet) : Prop :=
  pk_proto p = ps_protocol port ∧
  match ps_port port with
  | PortAll => True
  | PortNumber n => pk_dport p = n
  | PortName name =>
      ∃ pod, pod_at pod (pk_dst p) ∧ exposes_port pod name (ps_protocol port) (pk_dport p) ∧
             (dir = Ingress → governs pol pod)
  end.

(** No peers are all peers, and no ports are all ports. *)
Definition rule_allows (dir : Direction) (pol : NetworkPolicy) (rule : PolicyRule) (p : Packet) : Prop :=
  (pr_peers rule = [] ∨ ∃ peer, peer ∈ pr_peers rule ∧ peer_matches pol peer (peer_ip p dir)) ∧
  (pr_ports rule = [] ∨ ∃ port, port ∈ pr_ports rule ∧ port_matches dir pol port p).

Definition types_have (dir : Direction) (pol : NetworkPolicy) : Prop :=
  match dir with
  | Ingress => pt_ingress (np_policy_types pol) = true
  | Egress => pt_egress (np_policy_types pol) = true
  end.
Definition rules_of (dir : Direction) (pol : NetworkPolicy) : list PolicyRule :=
  match dir with Ingress => np_ingress pol | Egress => np_egress pol end.

(** A pod denies a packet that is to it, or from it: some policy of the direction
    governs it, and no rule of such a policy allows the packet. *)
Definition kube_denies (p : Packet) (dir : Direction) (pod : Pod) : Prop :=
  own_ip p dir ∈ pod_ips pod ∧
  (∃ pol, pol ∈ policies ∧ types_have dir pol ∧ governs pol pod) ∧
  ¬ ∃ pol rule, pol ∈ policies ∧ types_have dir pol ∧ governs pol pod ∧
                rule ∈ rules_of dir pol ∧ rule_allows dir pol rule p.

(** A pod of the node with its own network. *)
Definition local_pod (pod : Pod) : Prop :=
  pod ∈ pods ∧ pod_node_name pod = node ∧ pod_host_network pod = false.

(** What the firewall is to do with the packet of a new connection that it
    forwards: reject what a local pod denies, accept what else is to or from a
    local pod that has policies, and leave the rest to the built-in chain. *)
Definition kube_denied (p : Packet) : Prop := ∃ pod dir, local_pod pod ∧ kube_denies p dir pod.
Definition kube_guarded (p : Packet) : Prop :=
  ∃ pod dir, local_pod pod ∧ own_ip p dir ∈ pod_ips pod ∧
    ∃ pol dir', pol ∈ policies ∧ types_have dir' pol ∧ governs pol pod.
Definition kube_verdict (p : Packet) (o : Outcome) : Prop :=
  (kube_denied p → o = Rejected) ∧
  (¬ kube_denied p → kube_guarded p → o = Accepted) ∧
  (¬ kube_denied p → ¬ kube_guarded p → ∃ mark, o = Returned mark).

(** ** Plain policies *)

(** The exceptions of a block are inside it and smaller, as the API demands; what
    one block of a rule excepts, no other block of the rule admits; and named
    ports of egress rules come with peers that are no blocks. *)
Record rule_plain (dir : Direction) (rule : PolicyRule) : Prop := {
  rp_inside cidr except ex :
    PeerIpBlock cidr except ∈ pr_peers rule → ex ∈ except →
    net_prefix_len cidr < net_prefix_len ex ∧
    ∀ a, net_contains ex a = true → net_contains cidr a = true;
  rp_apart cidr except ex cidr' except' a :
    PeerIpBlock cidr except ∈ pr_peers rule → ex ∈ except → net_contains ex a = true →
    PeerIpBlock cidr' except' ∈ pr_peers rule → net_contains cidr' a = true →
    ∃ ex', ex' ∈ except' ∧ net_contains ex' a = true;
  rp_named port name :
    dir = Egress → port ∈ pr_ports rule → ps_port port = PortName name →
    pr_peers rule ≠ [] ∧ ∀ cidr except, PeerIpBlock cidr except ∉ pr_peers rule;
}.
Definition policy_plain (pol : NetworkPolicy) : Prop :=
  ∀ dir rule, types_have dir pol → rule ∈ rules_of dir pol → rule_plain dir rule.

(** A pod has at most one address of a family. *)
Definition pod_plain (pod : Pod) : Prop :=
  ∀ a b, a ∈ pod_ips pod → b ∈ pod_ips pod → of_addr a = of_addr b → a = b.
End meaning.

(** ** The program's functions and their meaning *)

Lemma requirement_holds_spec labels req : requirement_holds labels req = true ↔ requirement_met req labels.
Proof.
  unfold requirement_holds, requirement_met.
  destruct (sr_operator req) as [[]|], (labels !! sr_key req) as [v|] eqn:Hv; try done;
    rewrite ?list_contains_true, ?negb_true_iff; split; try naive_solver.
  - intros Hn w [= <-] Hin. apply list_contains_true in Hin. congruence.
  - intros Hn. apply not_true_iff_false. rewrite list_contains_true. by apply Hn.
Qed.

Lemma selector_matches_spec sel labels : selector_matches sel labels = true ↔ selects sel labels.
Proof.
  unfold selector_matches, selects. rewrite andb_true_iff, !forallb_forall, map_subseteq_spec. f_equiv; split.
  - intros Hl k v Hk. specialize (Hl (k, v)). cbn in Hl. rewrite <-list_elem_of_In, elem_of_btree_iter in Hl.
    specialize (Hl Hk). destruct (labels !! k) as [w|]; [|done]. by apply bool_decide_eq_true in Hl as ->.
  - intros Hl [k v] Hin. rewrite <-list_elem_of_In, elem_of_btree_iter in Hin. cbn.
    rewrite (Hl k v Hin). by apply bool_decide_eq_true.
  - intros Hr req Hin. apply requirement_holds_spec, Hr. by apply list_elem_of_In.
  - intros Hr req Hin. apply requirement_holds_spec, Hr. by apply list_elem_of_In.
Qed.

Lemma policy_has_spec `{IpNetLib} dir pol : policy_has dir pol = true ↔ types_have dir pol.
Proof. by destruct dir. Qed.
Lemma policy_selects_spec `{IpNetLib} pol pod : policy_selects pol pod = true ↔ governs pol pod.
Proof. unfold policy_selects, governs. by rewrite andb_true_iff, bool_decide_eq_true, selector_matches_spec. Qed.

Lemma governs_applies `{IpNetLib} dir pol : types_have dir pol → policy_applies pol = true.
Proof. unfold policy_applies. rewrite orb_true_iff. destruct dir; auto. Qed.

Lemma has_ip_spec pod a : has_ip pod a = true ↔ a ∈ pod_ips pod.
Proof. apply list_contains_true. Qed.

Lemma exposes_spec pod name q n : exposes pod name q n = true ↔ exposes_port pod name q n.
Proof.
  unfold exposes, exposes_port. rewrite existsb_exists. setoid_rewrite <-list_elem_of_In.
  setoid_rewrite andb_true_iff. setoid_rewrite andb_true_iff. setoid_rewrite bool_decide_eq_true.
  setoid_rewrite Z.eqb_eq. naive_solver.
Qed.

Section reflect.
Context `{IpNetLib} `{FilterLib}.
Variables (pods : list Pod) (namespaces : list Namespace) (family : IpFamily).

Lemma matched_namespaces_spec pol sel ns :
  ns ∈ matched_namespaces sel namespaces (np_namespace pol) ↔ peer_namespace namespaces pol sel ns.
Proof.
  unfold matched_namespaces, peer_namespace. destruct sel as [sel|]; [|apply elem_of_singleton].
  rewrite elem_of_list_to_set, list_elem_of_fmap. setoid_rewrite list_elem_of_filter.
  setoid_rewrite selector_matches_spec. naive_solver.
Qed.

Lemma peer_selects_spec pol nss sel a :
  peer_selects pods namespaces pol a (PeerSelector nss sel) = true ↔
  peer_matches pods namespaces pol (PeerSelector nss sel) a.
Proof.
  assert (∀ pod, match sel with Some s => selector_matches s (pod_labels pod) | None => true end = true ↔
    opt_selects sel (pod_labels pod)) as Hsel by (intros pod; destruct sel; [apply selector_matches_spec|done]).
  cbn [peer_selects peer_matches]. rewrite existsb_exists. f_equiv. intros pod.
  rewrite <-list_elem_of_In, has_ip_spec. unfold peer_pods, pod_at.
  rewrite list_elem_of_filter, !andb_true_iff, bool_decide_eq_true, negb_true_iff,
    matched_namespaces_spec, Hsel. tauto.
Qed.

(** *** Blocks *)

Context `{!FilterLaws, !IpNetLaws, !FilterNetLaws}.

(** The entries of the blocks of one family. *)
Definition block_nets (peers : list Peer) : list (IpNet * bool) :=
  peers ≫= λ peer,
    match peer with
    | PeerIpBlock cidr except =>
        if net_in_family cidr family then (cidr, false) :: ((λ ex, (ex, true)) <$> except) else []
    | PeerSelector _ _ => []
    end.

Lemma block_entries_nets peers : block_entries family peers = net_text <$> block_nets peers.
Proof.
  unfold block_entries, block_nets. induction peers as [|peer peers IH]; [done|].
  rewrite !bind_cons, fmap_app, IH. f_equal. destruct peer as [|cidr except]; [done|].
  destruct (net_in_family cidr family); [|done]. rewrite fmap_cons, <-list_fmap_compose. done.
Qed.

Lemma elem_of_block_nets peers n x :
  (n, x) ∈ block_nets peers ↔
  ∃ cidr except, PeerIpBlock cidr except ∈ peers ∧
    of_net cidr = family ∧ (n = cidr ∧ x = false ∨ n ∈ except ∧ x = true).
Proof.
  unfold block_nets. rewrite list_elem_of_bind. split.
  - intros (peer & Hn & Hpeer). destruct peer as [|cidr except]; [by apply elem_of_nil in Hn|].
    unfold net_in_family in Hn. case_bool_decide as Hf; [|by apply elem_of_nil in Hn].
    exists cidr, except. split_and!; [done..|]. apply elem_of_cons in Hn as [[= -> ->]|Hn]; [by left|right].
    by apply list_elem_of_fmap in Hn as (ex & [= -> ->] & Hex).
  - intros (cidr & except & Hpeer & Hf & Hn). exists (PeerIpBlock cidr except). split; [|done].
    unfold net_in_family. rewrite bool_decide_eq_true_2 by done.
    apply elem_of_cons. destruct Hn as [[-> ->]|[Hex ->]]; [by left|right].
    apply list_elem_of_fmap. by exists n.
Qed.

(** The most specific of the networks that contain an address. *)
Lemma most_specific_net (nets : list (IpNet * bool)) a m x :
  (m, x) ∈ nets → net_contains m a = true →
  ∃ n y, (n, y) ∈ nets ∧ net_contains n a = true ∧
    ∀ k z, (k, z) ∈ nets → net_contains k a = true → net_prefix_len k ≤ net_prefix_len n.
Proof.
  revert m x. induction nets as [|[n y] nets IH]; intros m x Hm Hc; [by apply elem_of_nil in Hm|].
  destruct (decide (List.Exists (λ kz, net_contains kz.1 a = true) nets)) as [Hex|Hno].
  - apply Exists_exists in Hex as ([k z] & Hk & Hkc). destruct (IH k z Hk Hkc) as (b & w & Hb & Hbc & Hmax).
    destruct (decide (net_contains n a = true ∧ net_prefix_len b < net_prefix_len n)) as [[Hn Hlt]|Hn].
    + exists n, y. split_and!; [by left|done|]. intros k' z' [[= -> ->]|Hin]%elem_of_cons Hc'; [done|].
      specialize (Hmax k' z' Hin Hc'). lia.
    + exists b, w. split_and!; [by right|done|]. intros k' z' [[= -> ->]|Hin]%elem_of_cons Hc'; [|by eapply Hmax].
      destruct (Z.le_gt_cases (net_prefix_len n) (net_prefix_len b)); [done|]. by destruct Hn.
  - assert (∀ k z, (k, z) ∈ nets → net_contains k a ≠ true) as Hnone.
    { intros k z Hin Hkc. apply Hno, Exists_exists. by exists (k, z). }
    apply elem_of_cons in Hm as [[= -> ->]|Hm]; [|by destruct (Hnone m x Hm)].
    exists n, y. split_and!; [by left|done|]. intros k z [[= -> ->]|Hin]%elem_of_cons Hkc; [done|].
    by destruct (Hnone k z Hin).
Qed.

Lemma contains_family n a : ip_wf a → net_contains n a = true → of_net n = of_addr a.
Proof.
  intros Ha [Hf _]%net_contains_spec; [|done]. unfold of_net, of_addr. rewrite <-Hf. by destruct a.
Qed.

(** The set of the blocks of a plain rule is the meaning of its blocks. *)
Lemma blocks_admit_spec pol dir rule a :
  ip_wf a → of_addr a = family → rule_plain dir rule →
  blocks_admit family (pr_peers rule) a = true ↔
  ∃ cidr except, PeerIpBlock cidr except ∈ pr_peers rule ∧
    peer_matches pods namespaces pol (PeerIpBlock cidr except) a.
Proof.
  intros Ha Hfam [Hinside Hapart _]. cbn [peer_matches].
  assert (∀ n x, (n, x) ∈ block_nets (pr_peers rule) ↔ ∃ cidr except,
    PeerIpBlock cidr except ∈ pr_peers rule ∧ of_net cidr = family ∧
    (n = cidr ∧ x = false ∨ n ∈ except ∧ x = true)) as Hnets by apply elem_of_block_nets.
  assert (blocks_admit family (pr_peers rule) a = set_test HashNet (net_text <$> block_nets (pr_peers rule)) a) as ->.
  { unfold blocks_admit. rewrite block_entries_nets. destruct (block_nets (pr_peers rule)); [|done]. cbn.
    symmetry. apply (set_test_outside []); [done|]. by intros m x ?%elem_of_nil. }
  split.
  - intros Htest. destruct (decide (List.Exists (λ nx, net_contains nx.1 a = true) (block_nets (pr_peers rule)))) as [Hex|Hno].
    + apply Exists_exists in Hex as ([k z] & Hk & Hkc).
      destruct (most_specific_net _ a k z Hk Hkc) as (n & y & Hn & Hnc & Hmax). cbn in Hkc.
      pose proof Hn as (cidr & except & Hpeer & Hf & Hcase)%Hnets.
      assert (net_contains cidr a = true) as Hcidr.
      { destruct Hcase as [[-> _]|[Hex _]]; [done|]. by apply (Hinside _ _ _ Hpeer Hex). }
      exists cidr, except. split; [done|]. split; [done|]. intros ex Hex.
      apply not_true_iff_false. intros Hexc.
      assert (∀ m x, (m, x) ∈ block_nets (pr_peers rule) → net_contains m a = true →
        net_prefix_len m = net_prefix_len n → x = true) as Htrue.
      { intros m [|] Hm Hmc Hlen; [done|]. exfalso.
        apply Hnets in Hm as (c & es & Hp & _ & [[-> _]|[_ ?]]); [|done].
        destruct (Hapart cidr except ex c es a) as (e & He & Hec); [done..|].
        destruct (Hinside c es e Hp He) as [Hlt _].
        assert (net_prefix_len e ≤ net_prefix_len n); [|lia]. apply (Hmax e true); [|done].
        apply Hnets. exists c, es. split_and!; [done| |by right].
        by rewrite (contains_family c a Ha Hmc). }
      rewrite (set_test_most_specific _ n true a) in Htest; [done|done| |done|].
      * rewrite <-(Htrue n y) at 1; done.
      * intros m x Hm Hmc. split; [by eapply Hmax|by eapply Htrue].
    + rewrite set_test_outside in Htest; [done|done|]. intros m x Hm. apply not_true_iff_false. intros Hmc.
      apply Hno, Exists_exists. by exists (m, x).
  - intros (cidr & except & Hpeer & Hcidr & Hexcept).
    assert ((cidr, false) ∈ block_nets (pr_peers rule)) as Hin.
    { apply Hnets. exists cidr, except. split_and!; [done| |by left].
      rewrite (contains_family cidr a); done. }
    assert (∀ m x, (m, x) ∈ block_nets (pr_peers rule) → net_contains m a = true → x = false) as Hfalse.
    { intros m x Hm Hmc. apply Hnets in Hm as (c & es & Hp & _ & [[_ ->]|[He ->]]); [done|].
      destruct (Hapart c es m cidr except a) as (ex & Hex & Hexc); [done..|].
      by rewrite (Hexcept ex Hex) in Hexc. }
    destruct (most_specific_net _ a cidr false Hin Hcidr) as (n & y & Hn & Hnc & Hmax).
    rewrite (set_test_most_specific _ n false a); [done|done| |done|].
    + by rewrite <-(Hfalse n y).
    + intros m x Hm Hmc. split; [by eapply Hmax|]. intros _. by eapply Hfalse.
Qed.

Lemma peers_admit_spec pol dir rule a :
  ip_wf a → of_addr a = family → rule_plain dir rule →
  peers_admit pods namespaces family pol rule a = true ↔
  pr_peers rule = [] ∨ ∃ peer, peer ∈ pr_peers rule ∧ peer_matches pods namespaces pol peer a.
Proof.
  intros Ha Hfam Hplain. pose proof (blocks_admit_spec pol dir rule a Ha Hfam Hplain) as Hblocks.
  unfold peers_admit. destruct (pr_peers rule) as [|peer0 peers0]; [naive_solver|].
  rewrite orb_true_iff, Hblocks, existsb_exists. setoid_rewrite <-list_elem_of_In. split.
  - intros [([nss sel|] & Hin & Hsel)|(cidr & except & Hin & Hm)]; [|done|by eauto].
    right. exists (PeerSelector nss sel). split; [done|]. by apply peer_selects_spec.
  - intros [|([nss sel|cidr except] & Hin & Hm)]; [done|left|right; by eauto].
    exists (PeerSelector nss sel). split; [done|]. by apply peer_selects_spec.
Qed.

(** Without blocks, the selectors are all of the peers. *)
Lemma selectors_only pol peers a :
  (∀ cidr except, PeerIpBlock cidr except ∉ peers) →
  existsb (peer_selects pods namespaces pol a) peers = true ↔
  ∃ peer, peer ∈ peers ∧ peer_matches pods namespaces pol peer a.
Proof.
  intros Hno. rewrite existsb_exists. setoid_rewrite <-list_elem_of_In.
  split; intros ([nss sel|cidr except] & Hin & Hm); [|by destruct (Hno cidr except)| |by destruct (Hno cidr except)].
  - exists (PeerSelector nss sel). split; [done|by apply peer_selects_spec].
  - exists (PeerSelector nss sel). split; [done|by apply peer_selects_spec].
Qed.

Variable p : Packet.
Hypothesis Hp : packet_ok family p.
Hypothesis Hpods : Forall pod_plain pods.

Lemma peer_ip_ok dir : ip_wf (peer_ip p dir) ∧ of_addr (peer_ip p dir) = family.
Proof. destruct Hp as (? & ? & ? & ?). by destruct dir. Qed.

(** A named port of an ingress rule, and one of an egress rule. *)
Lemma named_ingress pol rule name q :
  named_port_admits pods namespaces family p Ingress pol rule name q = true ↔
  ∃ pod, pod_at pods pod (pk_dst p) ∧ exposes_port pod name q (pk_dport p) ∧ governs pol pod.
Proof.
  unfold named_port_admits. rewrite existsb_exists. f_equiv. intros pod. unfold pod_at.
  rewrite <-list_elem_of_In, !andb_true_iff, exposes_spec, has_ip_spec. cbn [receives].
  rewrite policy_selects_spec. tauto.
Qed.

Lemma named_egress pol rule name q :
  pr_peers rule ≠ [] → (∀ cidr except, PeerIpBlock cidr except ∉ pr_peers rule) →
  named_port_admits pods namespaces family p Egress pol rule name q = true ↔
  (∃ peer, peer ∈ pr_peers rule ∧ peer_matches pods namespaces pol peer (pk_dst p)) ∧
  ∃ pod, pod_at pods pod (pk_dst p) ∧ exposes_port pod name q (pk_dport p).
Proof.
  intros Hne Hno. rewrite <-(selectors_only pol (pr_peers rule) (pk_dst p) Hno).
  unfold named_port_admits. rewrite existsb_exists. setoid_rewrite <-list_elem_of_In.
  assert (∀ pod, pod ∈ pods → has_ip pod (pk_dst p) = true →
    receives pods namespaces family Egress pol rule pod =
    existsb (peer_selects pods namespaces pol (pk_dst p)) (pr_peers rule)) as Hrec.
  { intros pod Hin Hip%has_ip_spec. unfold receives. destruct (pr_peers rule) as [|peer peers]; [done|].
    apply eq_true_iff_eq. rewrite existsb_exists. setoid_rewrite andb_true_iff. split.
    - intros (a & Ha%list_elem_of_In & Hf%of_addr_in_family & Hs).
      assert (a = pk_dst p) as ->; [|done]. rewrite Forall_forall in Hpods.
      apply (Hpods pod Hin); [done..|]. rewrite Hf. symmetry. apply Hp.
    - intros Hs. exists (pk_dst p). split; [by apply list_elem_of_In|]. split; [|done].
      apply of_addr_in_family, Hp. }
  unfold pod_at. split.
  - intros (pod & Hin & Hx). rewrite !andb_true_iff in Hx. destruct Hx as [[Hr Hex%exposes_spec] Hip].
    rewrite Hrec in Hr by done. apply has_ip_spec in Hip. eauto.
  - intros [Hs (pod & [Hin Hip%has_ip_spec] & Hex%exposes_spec)]. exists pod. split; [done|].
    by rewrite Hrec, Hs, Hex, Hip.
Qed.

(** What a plain rule of a policy of the pod permits is what it allows. *)
Lemma rule_permits_spec dir pol rule :
  rule_plain dir rule → selects_ip pods pol (own_ip p dir) = true →
  rule_permits pods namespaces family p dir pol rule = true ↔
  rule_allows pods namespaces dir pol rule p.
Proof.
  intros Hplain Hown. destruct (peer_ip_ok dir) as [Hwf Hfam].
  pose proof (peers_admit_spec pol dir rule _ Hwf Hfam Hplain) as Hpeers.
  unfold rule_permits, rule_allows. destruct (pr_ports rule) as [|port0 ports0] eqn:Hports.
  { rewrite andb_true_iff, Hpeers. naive_solver. }
  rewrite existsb_exists. setoid_rewrite <-list_elem_of_In. rewrite <-Hports.
  assert (∀ port, port ∈ pr_ports rule → port_admits pods namespaces family p dir pol rule port = true ↔
    peers_admit pods namespaces family pol rule (peer_ip p dir) = true ∧ port_matches pods dir pol port p) as Hport.
  { intros port Hin. unfold port_admits, port_matches. rewrite andb_true_iff, bool_decide_eq_true.
    destruct (ps_port port) as [|n|name] eqn:Hname.
    - rewrite Hown, andb_true_r. tauto.
    - rewrite Hown, andb_true_r, andb_true_iff, Z.eqb_eq. tauto.
    - rewrite andb_true_iff. destruct dir.
      + rewrite named_ingress. cbn [peer_ip] in *. naive_solver.
      + destruct (rp_named _ _ Hplain port name eq_refl Hin Hname) as [Hne Hno].
        cbn [own_ip peer_ip] in *. rewrite named_egress, Hown, Hpeers by done. naive_solver. }
  split.
  - intros (port & Hin & [Hpa Hm]%Hport); [|done]. split; [by apply Hpeers|eauto].
  - intros [Hpa [Heq|(port & Hin & Hm)]]; [by rewrite Heq in Hports|]. exists port. split; [done|].
    apply Hport; [done|]. split; [by apply Hpeers|done].
Qed.

Variable policies : list NetworkPolicy.
Hypothesis Hpolicies : Forall policy_plain policies.

Lemma selecting_spec pod pol :
  pol ∈ selecting_policies policies pod ↔
  pol ∈ policies ∧ (∃ dir, types_have dir pol) ∧ governs pol pod.
Proof.
  unfold selecting_policies. rewrite list_elem_of_filter, andb_true_iff, policy_selects_spec.
  assert (policy_applies pol = true ↔ ∃ dir, types_have dir pol) as ->; [|tauto].
  split; [|intros [dir ?]; by eapply governs_applies].
  unfold policy_applies. rewrite orb_true_iff. intros [?|?]; [by exists Ingress|by exists Egress].
Qed.

Lemma isolated_spec dir pod :
  isolated policies dir pod = true ↔ ∃ pol, pol ∈ policies ∧ types_have dir pol ∧ governs pol pod.
Proof.
  unfold isolated. rewrite existsb_exists. setoid_rewrite <-list_elem_of_In.
  setoid_rewrite selecting_spec. setoid_rewrite policy_has_spec. naive_solver.
Qed.

Lemma firewalled_spec pod :
  firewalled policies pod = true ↔ ∃ pol dir, pol ∈ policies ∧ types_have dir pol ∧ governs pol pod.
Proof.
  unfold firewalled. pose proof (selecting_spec pod) as Hsel. split.
  - destruct (selecting_policies policies pod) as [|pol l]; [done|]. intros _.
    destruct (proj1 (Hsel pol)) as (? & [dir ?] & ?); [by left|]. eauto.
  - intros (pol & dir & ? & ? & ?). destruct (selecting_policies policies pod) as [|pol' l]; [|done].
    assert (pol ∈ ([] : list NetworkPolicy)) as []%not_elem_of_nil. apply Hsel. eauto.
Qed.

Lemma allowed_spec dir pod :
  pod ∈ pods → own_ip p dir ∈ pod_ips pod →
  allowed policies pods namespaces family p dir pod = true ↔
  ∃ pol rule, pol ∈ policies ∧ types_have dir pol ∧ governs pol pod ∧
              rule ∈ rules_of dir pol ∧ rule_allows pods namespaces dir pol rule p.
Proof.
  intros Hin Hip. unfold allowed, permits, policy_permits. rewrite existsb_exists.
  setoid_rewrite <-list_elem_of_In. setoid_rewrite selecting_spec. setoid_rewrite andb_true_iff.
  setoid_rewrite policy_has_spec. setoid_rewrite existsb_exists. setoid_rewrite <-list_elem_of_In.
  assert (∀ pol rule, pol ∈ policies → types_have dir pol → governs pol pod → rule ∈ rules_of dir pol →
    rule_permits pods namespaces family p dir pol rule = true ↔
    rule_allows pods namespaces dir pol rule p) as Hrule.
  { intros pol rule Hpol Hty Hgov Hr. rewrite Forall_forall in Hpolicies.
    apply rule_permits_spec; [by apply (Hpolicies pol Hpol)|]. unfold selects_ip. apply existsb_exists.
    exists pod. split; [by apply list_elem_of_In|]. apply andb_true_iff. split; [by apply policy_selects_spec|].
    by apply has_ip_spec. }
  split.
  - intros (pol & (Hpol & _ & Hgov) & Hty & rule & Hr & Hx). exists pol, rule. split_and!; try done.
    by apply Hrule.
  - intros (pol & rule & Hpol & Hty & Hgov & Hr & Hx). exists pol. split; [eauto|]. split; [done|].
    exists rule. split; [done|]. by apply Hrule.
Qed.
End reflect.

(** ** Blocks that interact *)

Module Blocks.
Local Existing Instance ref_net_lib.

(** What the first block excepts, the second one admits. *)
Definition admitting : Peer := PeerIpBlock (net_of "10.0.0.0/12") [].
Definition peers : list Peer :=
  [PeerIpBlock (net_of "10.0.0.0/8") [net_of "10.1.0.0/16"]; admitting].
Definition excepted : IpAddr := ip_of "10.1.0.5".

(** The blocks of a rule go into one set, and the most specific entry of the set
    decides: an address that one block excepts is refused although another block
    of the rule has it. *)
Lemma interacting_blocks pol :
  blocks_admit FamV4 peers excepted = false ∧
  ∃ peer, peer ∈ peers ∧ peer_matches [] [] pol peer excepted.
Proof.
  split; [vm_compute; reflexivity|]. exists admitting.
  split; [right; by left|]. split; [vm_compute; reflexivity|]. by intros ex ?%elem_of_nil.
Qed.
End Blocks.
