(* ===== verification/Firewall.v ===== *)
(** * Firewall: the properties of the synthesized firewall

    The main theorems about the plans of [build_plan], and their instances on a
    concrete cluster: what the chain of a pod and the forward chain do to any
    packet, that they enforce the policies, and where they do not. *)

From stdpp Require Import gmap sets list strings pretty sorting.
From Stdlib Require Import Ascii ZArith Lia.
From S2P Require Import Prelude Text Net IpText Common Netpol Synth Filter FilterFacts SynthFacts.
From S2P Require Import PlanChains PolicySpec NetpolFacts TailFacts NetpolTheorems KubeSpec.
Import Naming Names Translate Ipset.

Local Open Scope Z_scope.

Section enforcement.
Context `{IpNetLib} `{HashLaws} `{FilterLaws} `{!FilterNetLaws}.
Variables (policies : list NetworkPolicy) (pods : list Pod) (namespaces : list Namespace).
Variables (node : string) (family : IpFamily) (ver : string) (dd : bool).
Variables (pod_cidrs ranges : list IpNet) (npr : option string).

Let plan := the_plan policies pods namespaces node family ver dd pod_cidrs ranges npr.
Let ok := firewall_ok policies pods namespaces node family ver dd pod_cidrs ranges npr.
Let local_pods := filter (λ pod, pod_actionable node family pod = true) pods.

(** A pod denies a packet in a direction: its end of the packet is the pod's,
    some policy of the direction selects the pod, and none of them permits. *)
Definition denies (p : Packet) (dir : Direction) (pod : Pod) : bool :=
  has_ip pod (own_ip p dir) && isolated policies dir pod &&
  negb (allowed policies pods namespaces family p dir pod).

(** No policy of both directions that selects a pod at one end of the packet
    also selects the other end. *)
Definition uncrossed (p : Packet) : Prop :=
  ∀ pod pol, pod ∈ pods → pol ∈ selecting_policies policies pod →
    policy_has Ingress pol = true → policy_has Egress pol = true →
    ∀ dir, has_ip pod (own_ip p dir) = true → selects_ip pods pol (peer_ip p dir) = false.

Lemma isolated_firewalled dir pod : isolated policies dir pod = true → firewalled policies pod = true.
Proof. unfold isolated, firewalled. by destruct (selecting_policies policies pod). Qed.

Lemma elem_of_local pod : pod ∈ local_pods ↔ pod ∈ pods ∧ pod_actionable node family pod = true.
Proof. unfold local_pods. rewrite list_elem_of_filter. tauto. Qed.

Lemma elem_of_chained_local pod :
  pod ∈ chained_pods policies pods node family ↔ pod ∈ local_pods ∧ firewalled policies pod = true.
Proof. rewrite elem_of_local. unfold chained_pods. rewrite !list_elem_of_filter. tauto. Qed.

(** The groups of a named port of an ingress rule without peers. *)
Definition ingress_groups (pol : NetworkPolicy) (name q : string) : list (Z * list string) :=
  btree_iter (named_groups (filter (λ pod, policy_selects pol pod = true) pods) name q family).

(** C37: The sets of two named ports of one rule have the same name, because each
    port numbers its groups from zero: the plan restores one over the other, and
    some set of the plan does not hold its entries. *)
Theorem named_ports_share_set pol idx rule port1 port2 name1 name2 g1 g2 :
  pol ∈ applied_policies policies → policy_has Ingress pol = true →
  np_ingress pol !! idx = Some rule → pr_peers rule = [] →
  port1 ∈ pr_ports rule → ps_port port1 = PortName name1 →
  port2 ∈ pr_ports rule → ps_port port2 = PortName name2 →
  ingress_groups pol name1 (ps_protocol port1) !! 0%nat = Some g1 →
  ingress_groups pol name2 (ps_protocol port2) !! 0%nat = Some g2 →
  dedup (merge_sort String.le g1.2) ≠ dedup (merge_sort String.le g2.2) →
  ∃ x, x ∈ fp_ipsets plan ∧
       set_env (fp_ipsets plan) !! ipl_name x ≠ Some (ipl_type x, ipl_entries x).
Proof.
  intros Hpol HI Hrule Hpeers Hin1 Hn1 Hin2 Hn2 Hg1 Hg2 Hne.
  assert (∀ port name g, port ∈ pr_ports rule → ps_port port = PortName name →
    ingress_groups pol name (ps_protocol port) !! 0%nat = Some g →
    group_ipset Ingress pol idx family (0%nat, g) ∈ fp_ipsets plan) as Hmem.
  { intros port name g Hport Hname Hg. unfold plan, the_plan.
    rewrite (proj1 (plan_contents policies pods namespaces node family ver dd pod_cidrs ranges npr)).
    apply elem_of_app. left. apply list_elem_of_bind. exists pol. split; [|exact Hpol].
    unfold policy_ipsets. apply elem_of_app. left. unfold dir_ipsets. rewrite HI.
    apply list_elem_of_further, list_elem_of_bind. exists (idx, rule). split.
    - unfold rule_ipsets, rule_resolved. cbn [fst snd]. rewrite Hpeers. cbn [resolve_peers].
      apply elem_of_app. right. unfold peer_refs. cbn [match_all peer_sets].
      rewrite bind_cons. apply elem_of_app. left. apply list_elem_of_bind. exists port.
      split; [|done]. unfold port_ipsets. rewrite Hname. apply list_elem_of_fmap_2.
      unfold port_groups. apply elem_of_lookup_imap. by exists 0%nat, g.
    - apply elem_of_lookup_imap. by exists idx, rule. }
  pose proof (Hmem port1 name1 g1 Hin1 Hn1 Hg1) as Hx. pose proof (Hmem port2 name2 g2 Hin2 Hn2 Hg2) as Hy.
  destruct (decide (set_env (fp_ipsets plan) !! named_port_set Ingress pol idx 0 family =
    Some (HashIp, dedup (merge_sort String.le g1.2)))) as [Heq|Hneq].
  - exists (group_ipset Ingress pol idx family (0%nat, g2)). split; [exact Hy|].
    cbn [group_ipset ipl_name ipl_type ipl_entries fst snd]. rewrite Heq. congruence.
  - exists (group_ipset Ingress pol idx family (0%nat, g1)). split; [exact Hx|exact Hneq].
Qed.

Section packet.
Variable p : Packet.
Hypothesis Hok : ok.
Hypothesis Hp : packet_ok family p.

(** A chained pod passes a packet of its own exactly when no direction denies it. *)
Lemma pod_passes_denies pod :
  pod ∈ chained_pods policies pods node family → uncrossed p →
  has_ip pod (pk_src p) && has_ip pod (pk_dst p) = false →
  touches p pod && negb (pod_passes policies pods namespaces family pod p) =
  denies p Ingress pod || denies p Egress pod.
Proof.
  intros Hpod Hcross Hboth. apply elem_of_chained_local in Hpod as [[Hin _]%elem_of_local _].
  unfold touches, denies. cbn [own_ip].
  assert (∀ dir, has_ip pod (own_ip p dir) = true → has_ip pod (peer_ip p dir) = false →
    pod_passes policies pods namespaces family pod p =
    negb (isolated policies dir pod) || allowed policies pods namespaces family p dir pod) as Hdir.
  { intros dir Hown Hpeer.
    apply (pod_passes_direction policies pods namespaces family p dir pod Hown Hpeer).
    intros pol Hpol HI HE. exact (Hcross pod pol Hin Hpol HI HE dir Hown). }
  destruct (has_ip pod (pk_dst p)) eqn:Hd, (has_ip pod (pk_src p)) eqn:Hs; try done.
  - rewrite (Hdir Ingress Hd Hs). cbn [andb orb].
    by destruct (isolated _ _ _), (allowed _ _ _ _ _ _ _).
  - rewrite (Hdir Egress Hs Hd). cbn [andb orb].
    by destruct (isolated policies Egress pod), (allowed _ _ _ _ _ Egress _).
Qed.

(** What the forward chain does with a new connection. *)
Definition forward_decision (mark : Z) : Outcome :=
  if existsb (λ pod, denies p Ingress pod || denies p Egress pod) local_pods then Rejected
  else if existsb (λ pod, firewalled policies pod && touches p pod) local_pods then Accepted
  else Returned mark.

Lemma forward_verdict mark :
  dd = false → uncrossed p →
  (∀ pod, pod ∈ pods → has_ip pod (pk_src p) && has_ip pod (pk_dst p) = false) →
  common_outcome family p = None → pk_src_local p = false →
  matched mark = false → accepted mark = false →
  ∃ o, plan_run plan p ROUTER_FORWARD mark = Some o ∧ same_verdict o (forward_decision mark).
Proof.
  intros Hdd Hcross Hboth Hnew Hremote Hm Ha.
  destruct (forward_run policies pods namespaces node family ver dd pod_cidrs ranges npr
    Hok p Hp Hnew Hremote 1 mark Hm) as (o & Hrun & Ho).
  exists o. split; [exact Hrun|]. revert Ho. unfold forward_outcome, tail_outcome, forward_decision. rewrite Hdd.
  cbn [andb].
  assert (∀ f, existsb f (chained_pods policies pods node family) =
    existsb (λ pod, firewalled policies pod && f pod) local_pods) as Hlocal.
  { intros f. apply eq_true_iff_eq. rewrite !existsb_exists. setoid_rewrite <-list_elem_of_In.
    setoid_rewrite elem_of_chained_local. setoid_rewrite andb_true_iff. naive_solver. }
  assert (existsb (λ pod, touches p pod && negb (pod_passes policies pods namespaces family pod p))
    (chained_pods policies pods node family) =
    existsb (λ pod, denies p Ingress pod || denies p Egress pod) local_pods) as ->.
  { rewrite (existsb_ext_in _ (λ pod, denies p Ingress pod || denies p Egress pod)).
    - rewrite Hlocal. apply existsb_ext_in. intros pod _.
      destruct (firewalled policies pod) eqn:Hf; [done|]. unfold denies.
      destruct (isolated policies Ingress pod) eqn:HI, (isolated policies Egress pod) eqn:HE;
        rewrite ?(isolated_firewalled _ _ HI) in Hf; rewrite ?(isolated_firewalled _ _ HE) in Hf;
        try done. by rewrite !andb_false_r.
    - intros pod Hpod. apply pod_passes_denies; [done..|].
      apply Hboth. by apply elem_of_chained_local in Hpod as [[? _]%elem_of_local _]. }
  rewrite Hlocal. destruct (existsb _ local_pods); [done|].
  destruct (existsb _ local_pods); [by rewrite accepted_passed|by rewrite Ha].
Qed.

(** The program's verdicts are the meaning of plain policies. *)
Section meaning.
Context `{!IpNetLaws}.
Hypothesis Hplain : Forall policy_plain policies.
Hypothesis Hpods : Forall pod_plain pods.

Lemma denies_spec dir pod :
  pod ∈ pods → denies p dir pod = true ↔ kube_denies policies pods namespaces p dir pod.
Proof.
  intros Hin. unfold denies, kube_denies. rewrite !andb_true_iff, has_ip_spec, isolated_spec, negb_true_iff.
  split.
  - intros [[Hip Hiso] Hno]. split_and!; [done..|]. rewrite <-(allowed_spec pods namespaces family p Hp Hpods
      policies Hplain dir pod Hin Hip). congruence.
  - intros (Hip & Hiso & Hno). split_and!; [done..|]. apply not_true_iff_false.
    by rewrite (allowed_spec pods namespaces family p Hp Hpods policies Hplain dir pod Hin Hip).
Qed.

(** A pod of the node at an end of the packet has a chain when policies govern it. *)
Lemma local_spec dir pod :
  own_ip p dir ∈ pod_ips pod → pod ∈ local_pods ↔ local_pod pods node pod.
Proof.
  intros Hip. rewrite elem_of_local. unfold local_pod, pod_actionable.
  rewrite !andb_true_iff, bool_decide_eq_true, !negb_true_iff.
  assert (bool_decide (pod_family_ips pod family = []) = false) as ->; [|tauto].
  apply bool_decide_eq_false. intros Hnil. unfold pod_family_ips in Hnil.
  assert (ip_to_string (own_ip p dir) ∈ family_strings (pod_ips pod) family) as Hmem.
  { apply elem_of_family_strings. exists (own_ip p dir). split_and!; [done| |done].
    apply of_addr_in_family. destruct Hp as (? & ? & ? & ?). by destruct dir. }
  rewrite Hnil in Hmem. by apply elem_of_nil in Hmem.
Qed.

Lemma denied_spec :
  existsb (λ pod, denies p Ingress pod || denies p Egress pod) local_pods = true ↔
  kube_denied policies pods namespaces node p.
Proof.
  rewrite existsb_exists. unfold kube_denied. split.
  - intros (pod & Hin%list_elem_of_In & Hd). assert (∃ dir, denies p dir pod = true) as [dir Hdir].
    { apply orb_true_iff in Hd as [?|?]; eauto. }
    apply denies_spec in Hdir as Hk; [|by apply elem_of_local in Hin as [??]]. exists pod, dir.
    split; [|done]. by apply (local_spec dir); [apply Hk|].
  - intros (pod & dir & Hl & Hd). assert (pod ∈ local_pods) as Hin by (apply (local_spec dir); [apply Hd|done]).
    exists pod. split; [by apply list_elem_of_In|]. apply denies_spec in Hd; [|apply Hl].
    apply orb_true_iff. destruct dir; auto.
Qed.

Lemma guarded_spec :
  existsb (λ pod, firewalled policies pod && touches p pod) local_pods = true ↔
  kube_guarded policies pods node p.
Proof.
  rewrite existsb_exists. unfold kube_guarded, touches. split.
  - intros (pod & Hin%list_elem_of_In & [Hf Ht]%andb_true_iff).
    assert (∃ dir, own_ip p dir ∈ pod_ips pod) as [dir Hip].
    { apply orb_true_iff in Ht as [Ht%has_ip_spec|Ht%has_ip_spec]; [by exists Ingress|by exists Egress]. }
    apply firewalled_spec in Hf as (pol & dir' & Hf). exists pod, dir.
    split_and!; [by apply (local_spec dir)|done|eauto].
  - intros (pod & dir & Hl & Hip & pol & dir' & Hf). exists pod.
    split; [by apply list_elem_of_In, (local_spec dir)|]. apply andb_true_iff. split.
    + apply firewalled_spec; eauto.
    + apply orb_true_iff. destruct dir; [left|right]; by apply has_ip_spec.
Qed.

Lemma decision_meaning mark o :
  same_verdict o (forward_decision mark) → kube_verdict policies pods namespaces node p o.
Proof.
  unfold forward_decision, kube_verdict. rewrite <-denied_spec, <-guarded_spec.
  destruct (existsb _ local_pods); [intros Ho; by destruct o|].
  destruct (existsb _ local_pods); intros Ho; split_and!; try done; destruct o; naive_solver.
Qed.

(** C3: With the sets of the plan loaded, the forward chain rejects a new
    connection that a local pod denies, by the meaning of the policies; it accepts
    what else is to or from a local pod that a policy governs, and leaves the rest
    as it came.  This is without default deny, for packets of another node or pod
    (not of the node itself), without an address of one pod at both ends and
    without a policy of both types that governs both ends; for policies whose
    blocks do not interact; and where no two chains or sets get the same name. *)
Theorem forward_enforces_policies mark :
  dd = false → uncrossed p →
  (∀ pod, pod ∈ pods → has_ip pod (pk_src p) && has_ip pod (pk_dst p) = false) →
  common_outcome family p = None → pk_src_local p = false →
  matched mark = false → accepted mark = false →
  ∃ o, plan_run plan p ROUTER_FORWARD mark = Some o ∧ kube_verdict policies pods namespaces node p o.
Proof.
  intros Hdd Hcross Hboth Hnew Hremote Hm Ha.
  destruct (forward_verdict mark Hdd Hcross Hboth Hnew Hremote Hm Ha) as (o & Hrun & Ho).
  exists o. split; [exact Hrun|]. by eapply decision_meaning.
Qed.
End meaning.

(** C4: The chain of a pod on any packet: the common rules decide first, traffic of
    the node to the pod is accepted, and otherwise the packet returns with the
    accept mark set and the match mark clear, or is rejected. *)
Theorem pod_chain_verdict pod mark :
  pod ∈ chained_pods policies pods node family → matched mark = false →
  ∃ o, plan_run plan p (pod_chain pod ver) mark = Some o ∧
    match common_outcome family p with
    | Some o' => o = o'
    | None =>
        if pk_src_local p && has_ip pod (pk_dst p) then o = Accepted
        else if pod_passes policies pods namespaces family pod p
        then ∃ mark', o = Returned mark' ∧ accepted mark' = true ∧ matched mark' = false
        else o = Rejected
    end.
Proof.
  intros Hpod Hm. eexists. split.
  - exact (pod_chain_outcome policies pods namespaces node family ver dd pod_cidrs ranges npr
      Hok p Hp pod 2 mark Hpod Hm).
  - destruct (common_outcome family p); [done|]. destruct (_ && _); [done|].
    destruct (pod_passes _ _ _ _ _ _); [|done]. eexists. split; [done|].
    split; [apply accepted_passed|apply matched_passed].
Qed.

(** C33: One chain serves both directions of a policy: a packet that leaves a pod
    passes the pod's chain when a policy of both types that selects the pod
    permits it as ingress, although every egress rule denies it. *)
Theorem both_types_ingress_opens_egress pod pol mark :
  pod ∈ chained_pods policies pods node family → pol ∈ selecting_policies policies pod →
  policy_has Ingress pol = true → policy_has Egress pol = true →
  permits pods namespaces family Ingress p pol = true →
  common_outcome family p = None → pk_src_local p = false → matched mark = false →
  denies p Egress pod = true →
  ∃ mark', plan_run plan p (pod_chain pod ver) mark = Some (Returned mark') ∧
           accepted mark' = true.
Proof.
  intros Hpod Hpol HI HE Hpermit Hnew Hremote Hm _.
  assert (pod_passes policies pods namespaces family pod p = true) as Hpass.
  { unfold pod_passes. apply orb_true_iff. left. apply orb_true_iff. left.
    apply existsb_exists. exists pol. split; [by apply list_elem_of_In|].
    unfold gate. cbn [policy_has] in HI, HE. by rewrite HI, HE, Hpermit. }
  eexists. split; [|apply (accepted_passed (mark_matched mark))].
  etrans; [exact (pod_chain_outcome policies pods namespaces node family ver dd pod_cidrs ranges
    npr Hok p Hp pod 2 mark Hpod Hm)|]. by rewrite Hnew, Hremote, Hpass.
Qed.

(** Under default deny, a pod of a protected network that no policy selects can
    neither send nor receive: its packets are rejected. *)
Theorem default_deny_rejects_unselected dir mark :
  dd = true →
  protected family pod_cidrs (own_ip p dir) = true →
  (∀ pod, pod ∈ local_pods → has_ip pod (own_ip p dir) = true → firewalled policies pod = false) →
  common_outcome family p = None → pk_src_local p = false → matched mark = false →
  plan_run plan p ROUTER_FORWARD mark = Some Rejected.
Proof.
  intros Hdd Hprot Hun Hnew Hremote Hm.
  destruct (forward_run policies pods namespaces node family ver dd pod_cidrs ranges npr
    Hok p Hp Hnew Hremote 1 mark Hm) as (o & Hrun & Ho).
  assert (programmed policies pods node family (own_ip p dir) = false) as Hprog.
  { apply not_true_iff_false. unfold programmed. rewrite existsb_exists.
    intros (pod & [Hl Hf]%list_elem_of_In%elem_of_chained_local & Hip).
    by rewrite (Hun pod Hl Hip) in Hf. }
  assert (forward_outcome policies pods namespaces node family dd pod_cidrs p mark = Rejected)
    as Heq.
  { unfold forward_outcome. destruct (existsb _ _); [done|]. unfold tail_outcome.
    rewrite Hdd. cbn [andb]. destruct dir; cbn [own_ip] in *; rewrite Hprot, Hprog; cbn [andb negb];
      [by rewrite orb_true_r|done]. }
  rewrite Heq in Ho. unfold plan_run, plan. etrans; [exact Hrun|]. by destruct o.
Qed.
End packet.
End enforcement.

(** ** A concrete cluster *)

Module Cluster.
Local Existing Instance ref_net_lib.

Definition app (value : string) : LabelSelector := from_labels {["app" := value]}.

Definition pod (name : string) (ip : IpAddr) (ports : list ContainerPort) : Pod :=
  {| pod_namespace := "default"; pod_name := name; pod_labels := {["app" := name]};
     pod_ips := [ip]; pod_node_name := "node1"; pod_host_network := false;
     pod_container_ports := ports |}.

Definition ip_a : IpAddr := V4 167772161.   (* 10.0.0.1 *)
Definition ip_b : IpAddr := V4 167772162.
Definition ip_c : IpAddr := V4 167772163.

Definition pod_a : Pod := pod "a" ip_a [].
Definition pod_b : Pod := pod "b" ip_b
  [{| cp_name := Some "http"; cp_protocol := "tcp"; cp_port := 80 |}].
Definition pod_c : Pod := pod "c" ip_c
  [{| cp_name := Some "dns"; cp_protocol := "tcp"; cp_port := 53 |}].
Definition pods : list Pod := [pod_a; pod_b; pod_c].

Definition policy (name : string) (selector : LabelSelector) (ing eg : bool)
    (ingress egress : list PolicyRule) : NetworkPolicy :=
  {| np_namespace := "default"; np_name := name; np_pod_selector := selector;
     np_policy_types := {| pt_ingress := ing; pt_egress := eg |};
     np_ingress := ingress; np_egress := egress |}.

(** Only [a] may reach [b], and only on port 80. *)
Definition b_from_a : NetworkPolicy := policy "b-from-a" (app "b") true false
  [{| pr_peers := [PeerSelector None (Some (app "a"))];
      pr_ports := [{| ps_protocol := "tcp"; ps_port := PortNumber 80 |}] |}] [].

(** All pods: anything may come in from the pods of the namespace, and nothing
    may leave. *)
Definition no_egress : NetworkPolicy := policy "no-egress" (from_labels ∅) true true
  [{| pr_peers := [PeerSelector None None]; pr_ports := [] |}] [].

(** All pods, on two named ports. *)
Definition tcp_port (name : string) : PortSpec := {| ps_protocol := "tcp"; ps_port := PortName name |}.
Definition two_names : NetworkPolicy := policy "two-names" (from_labels ∅) true false
  [{| pr_peers := [];
      pr_ports := [tcp_port "http"; tcp_port "dns"] |}] [].

Definition syn (src dst : IpAddr) (port : Z) : Packet :=
  {| pk_src := src; pk_dst := dst; pk_proto := "tcp"; pk_dport := port; pk_icmp := "";
     pk_ct := CtNew; pk_src_local := false; pk_dst_local := false; pk_bridged := false |}.

Definition cidr : IpNet := (exist (λ x, Is_true (ref_ok x)) (V4 167772160, 24) I : RefNet).

(** Sets with pairwise different names hold their entries. *)
Lemma distinct_names (l : list IpsetPlan) :
  NoDup (ipl_name <$> l) → ∀ x y, x ∈ l → y ∈ l → ipl_name x = ipl_name y → x = y.
Proof. intros Hnd x y. by apply NoDup_fmap_elem_inj. Qed.

Lemma pods_ok : Forall pod_ok pods.
Proof.
  assert (∀ name ip ports, bool_decide (ip_wf ip) = true →
    bool_decide (Forall (λ cp, 0 ≤ cp_port cp ≤ u16_max) ports) = true →
    pod_ok (pod name ip ports)) as Hpod.
  { intros name ip ports Hip%bool_decide_eq_true Hports%bool_decide_eq_true.
    split; [by apply Forall_singleton|exact Hports]. }
  apply Forall_forall. intros x. unfold pods. rewrite !elem_of_cons, elem_of_nil.
  intros [->|[->|[->|[]]]]; apply Hpod; vm_compute; reflexivity.
Qed.

Lemma packet_syn_ok src dst port :
  src ∈ [ip_a; ip_b; ip_c] → dst ∈ [ip_a; ip_b; ip_c] → packet_ok FamV4 (syn src dst port).
Proof.
  rewrite !elem_of_cons. intros Hs Hd. unfold packet_ok. cbn [syn pk_src pk_dst].
  destruct Hs as [->|[->|[->|Hs%elem_of_nil]]]; [..|done];
    destruct Hd as [->|[->|[->|Hd%elem_of_nil]]]; try done; cbn; split_and!; try done; lia.
Qed.

Lemma cluster_ok (policies : list NetworkPolicy) (dd : bool) :
  Forall policy_ok policies →
  bool_decide (NoDup ((λ pol, policy_chain pol "kr" FamV4) <$> applied_policies policies)) = true →
  bool_decide (NoDup ((λ pod, pod_chain pod "kr") <$> chained_pods policies pods "node1" FamV4)) = true →
  bool_decide (NoDup (ipl_name <$>
    fp_ipsets (the_plan policies pods [] "node1" FamV4 "kr" dd [cidr] [] None))) = true →
  firewall_ok policies pods [] "node1" FamV4 "kr" dd [cidr] [] None.
Proof.
  intros Hpol H1%bool_decide_eq_true H2%bool_decide_eq_true H3%bool_decide_eq_true.
  split; [apply pods_ok|done|done|by apply distinct_names].
Qed.

Lemma b_from_a_ok (dd : bool) : firewall_ok [b_from_a] pods [] "node1" FamV4 "kr" dd [cidr] [] None.
Proof.
  apply cluster_ok; [|vm_compute; reflexivity..|destruct dd; vm_compute; reflexivity].
  apply Forall_singleton. intros [] rule; cbn; rewrite ?list_elem_of_singleton, ?elem_of_nil;
    [intros ->|done]. apply Forall_singleton. split; [done|cbn; unfold u16_max; lia].
Qed.

Lemma no_egress_ok : firewall_ok [no_egress] pods [] "node1" FamV4 "kr" false [cidr] [] None.
Proof.
  apply cluster_ok; [|vm_compute; reflexivity..].
  apply Forall_singleton. intros [] rule; cbn; rewrite ?list_elem_of_singleton, ?elem_of_nil;
    [intros ->; apply Forall_nil_2|done].
Qed.

Ltac cluster_packet := apply packet_syn_ok; rewrite !elem_of_cons; tauto.

(** Its policies and pods are plain. *)
Lemma b_from_a_plain : Forall policy_plain [b_from_a].
Proof.
  apply Forall_singleton. intros [] rule Hty Hin; [|done]. apply list_elem_of_singleton in Hin as ->.
  split.
  - intros cidr except ex Hpeer%list_elem_of_singleton. done.
  - intros cidr except ex cidr' except' a Hpeer%list_elem_of_singleton. done.
  - done.
Qed.

Lemma pods_plain : Forall pod_plain pods.
Proof.
  unfold pods. repeat apply Forall_cons_2; [..|apply Forall_nil_2];
    by intros a b ->%list_elem_of_singleton ->%list_elem_of_singleton.
Qed.

Lemma c_to_b_ok : packet_ok FamV4 (syn ip_c ip_b 80).
Proof. cluster_packet. Qed.

(** The packet from [c] is one that [b] denies. *)
Lemma c_to_b_denied : kube_denied [b_from_a] pods [] "node1" (syn ip_c ip_b 80).
Proof.
  apply (denied_spec [b_from_a] pods [] "node1" FamV4 (syn ip_c ip_b 80) c_to_b_ok b_from_a_plain pods_plain).
  vm_compute. reflexivity.
Qed.

Lemma forward_enforces_policies_witness :
  plan_run (the_plan [b_from_a] pods [] "node1" FamV4 "kr" false [cidr] [] None)
    (syn ip_c ip_b 80) ROUTER_FORWARD 0 = Some Rejected.
Proof.
  destruct (forward_enforces_policies [b_from_a] pods [] "node1" FamV4 "kr" false [cidr] [] None
    (syn ip_c ip_b 80) (b_from_a_ok false) c_to_b_ok b_from_a_plain pods_plain 0)
    as (o & Hrun & Hdenied & _); [reflexivity| | |reflexivity..|].
  - intros x pol _ [_ Hpol]%list_elem_of_filter. apply list_elem_of_singleton in Hpol as ->. done.
  - intros x. unfold pods. rewrite !elem_of_cons, elem_of_nil. by intros [->|[->|[->|[]]]].
  - rewrite (Hdenied c_to_b_denied) in Hrun. exact Hrun.
Defined.

Lemma pod_chain_verdict_witness :
  ∃ o, plan_run (the_plan [b_from_a] pods [] "node1" FamV4 "kr" false [cidr] [] None)
         (syn ip_a ip_b 80) (pod_chain pod_b "kr") 0 = Some o ∧
    ∃ mark', o = Returned mark' ∧ accepted mark' = true ∧ matched mark' = false.
Proof.
  refine (pod_chain_verdict [b_from_a] pods [] "node1" FamV4 "kr" false [cidr] [] None
    (syn ip_a ip_b 80) (b_from_a_ok false) _ pod_b 0 _ eq_refl).
  - cluster_packet.
  - unfold chained_pods. rewrite !list_elem_of_filter. split_and!; [reflexivity..|].
    unfold pods. rewrite !elem_of_cons. tauto.
Defined.

Lemma both_types_ingress_opens_egress_witness :
  denies [no_egress] pods [] FamV4 (syn ip_a ip_b 80) Egress pod_a = true ∧
  ∃ mark', plan_run (the_plan [no_egress] pods [] "node1" FamV4 "kr" false [cidr] [] None)
             (syn ip_a ip_b 80) (pod_chain pod_a "kr") 0 = Some (Returned mark') ∧
           accepted mark' = true.
Proof.
  split; [reflexivity|].
  refine (both_types_ingress_opens_egress [no_egress] pods [] "node1" FamV4 "kr" false [cidr] [] None
    (syn ip_a ip_b 80) no_egress_ok _ pod_a no_egress 0 _ _ eq_refl eq_refl eq_refl eq_refl eq_refl
    eq_refl eq_refl).
  - cluster_packet.
  - unfold chained_pods. rewrite !list_elem_of_filter. split_and!; [reflexivity..|].
    unfold pods. rewrite !elem_of_cons. tauto.
  - apply list_elem_of_filter. split; [reflexivity|by apply list_elem_of_singleton].
Defined.

Lemma default_deny_rejects_unselected_witness :
  firewalled [b_from_a] pod_c = false ∧
  plan_run (the_plan [b_from_a] pods [] "node1" FamV4 "kr" true [cidr] [] None)
    (syn ip_c ip_a 80) ROUTER_FORWARD 0 = Some Rejected.
Proof.
  split; [reflexivity|].
  refine (default_deny_rejects_unselected [b_from_a] pods [] "node1" FamV4 "kr" true [cidr] [] None
    (syn ip_c ip_a 80) (b_from_a_ok true) _ Egress 0 eq_refl eq_refl _ eq_refl eq_refl eq_refl).
  - cluster_packet.
  - intros x [_ Hx]%list_elem_of_filter. revert Hx. unfold pods. rewrite !elem_of_cons, elem_of_nil.
    by intros [->|[->|[->|[]]]].
Defined.

Lemma named_ports_share_set_witness :
  let sets := fp_ipsets (the_plan [two_names] pods [] "node1" FamV4 "kr" false [cidr] [] None) in
  ∃ x, x ∈ sets ∧ set_env sets !! ipl_name x ≠ Some (ipl_type x, ipl_entries x).
Proof.
  refine (named_ports_share_set [two_names] pods [] "node1" FamV4 "kr" false [cidr] [] None
    two_names 0 {| pr_peers := []; pr_ports := [tcp_port "http"; tcp_port "dns"] |}
    (tcp_port "http") (tcp_port "dns") "http" "dns" (80, ["10.0.0.2"]) (53, ["10.0.0.3"]) _ eq_refl eq_refl eq_refl
    _ eq_refl _ eq_refl _ _ _).
  - apply list_elem_of_filter. split; [reflexivity|by apply list_elem_of_singleton].
  - apply list_elem_of_here.
  - apply list_elem_of_further, list_elem_of_here.
  - vm_compute. reflexivity.
  - vm_compute. reflexivity.
  - by vm_compute.
Defined.
End Cluster.
