(* ===== verification/Netfilter.v ===== *)
(** * Netfilter: what the firewall's commands do to the node

    The sets and the filter tables of a node, and what its commands do to them as
    their manuals say: [ipset restore -exist], [iptables-restore --noflush],
    [iptables -C] and [-I].  [NetfilterLaws] states this of any [CommandRunner];
    [Host] is an instance.  A pass of the controller is run against these laws
    in [PassTheorems]. *)

From stdpp Require Import gmap sets list strings pretty.
From Stdlib Require Import Ascii ZArith Lia.
From S2P Require Import Prelude Text Net IpText Common Netlink Netpol Synth Filter.
Import Naming Names Ipset Iptables.

Local Open Scope Z_scope.

(** ** Lines of a text *)

Definition is_newline (c : ascii) : bool := bool_decide (c = "010"%char).

Fixpoint text_lines_go (cur s : string) : list string :=
  match s with
  | EmptyString => if str_is_empty cur then [] else [cur]
  | String c s =>
      if is_newline c then cur :: text_lines_go "" s else text_lines_go (cur +:+ String c "") s
  end.
Definition text_lines (s : string) : list string := text_lines_go "" s.

(** ** Sets: ipset(8) *)

Record KernelSet := { ks_type : SetType; ks_family : IpFamily; ks_entries : list string }.
Abbreviation Sets := (gmap string KernelSet).

(** Names have at most 31 characters. *)
Definition SETNAME_MAX : nat := 31.

(** The entries a set takes. *)
Class IpsetEntries := { entry_ok : SetType → IpFamily → string → bool }.

(** Addresses of the family; networks of the family, also as exceptions, except
    those of prefix length zero. *)
Class IpsetEntryLaws `{IpNetLib} `{IpsetEntries} : Prop := {
  entry_ip a : ip_wf a → entry_ok HashIp (of_addr a) (ip_to_string a) = true;
  entry_net n : 0 < net_prefix_len n → entry_ok HashNet (of_net n) (net_to_string n) = true;
  entry_nomatch n :
    0 < net_prefix_len n → entry_ok HashNet (of_net n) (net_to_string n +:+ " nomatch") = true;
  entry_zero n family :
    net_prefix_len n = 0 → entry_ok HashNet family (net_to_string n) = false;
}.

Section ipset.
Context `{IpsetEntries}.

Definition read_type (s : string) : option SetType :=
  if String.eqb s "hash:ip" then Some HashIp
  else if String.eqb s "hash:net" then Some HashNet else None.
Definition read_family (s : string) : option IpFamily :=
  if String.eqb s "inet" then Some FamV4
  else if String.eqb s "inet6" then Some FamV6 else None.

(** With [-exist], creating a set that is there with the same parameters is no
    error. *)
Definition ipset_create (name : string) (t : SetType) (f : IpFamily) (sets : Sets) : option Sets :=
  if (SETNAME_MAX <? String.length name)%nat then None
  else
    match sets !! name with
    | None => Some (<[name := {| ks_type := t; ks_family := f; ks_entries := [] |}]> sets)
    | Some k => if decide (ks_type k = t ∧ ks_family k = f) then Some sets else None
    end.

Definition ipset_flush (name : string) (sets : Sets) : option Sets :=
  k ← sets !! name;
  Some (<[name := {| ks_type := ks_type k; ks_family := ks_family k; ks_entries := [] |}]> sets).

Definition ipset_add (name entry : string) (sets : Sets) : option Sets :=
  k ← sets !! name;
  if entry_ok (ks_type k) (ks_family k) entry
  then Some (<[name := {| ks_type := ks_type k; ks_family := ks_family k;
                          ks_entries := ks_entries k ++ [entry] |}]> sets)
  else None.

Definition ipset_swap (a b : string) (sets : Sets) : option Sets :=
  ka ← sets !! a; kb ← sets !! b;
  if decide (ks_type ka = ks_type kb ∧ ks_family ka = ks_family kb)
  then Some (<[a := kb]> (<[b := ka]> sets)) else None.

Definition ipset_drop (name : string) (sets : Sets) : option Sets :=
  _ ← sets !! name; Some (delete name sets).

(** One line of a script, by its words. *)
Definition ipset_words (ws : list string) (sets : Sets) : option Sets :=
  match ws with
  | cmd :: name :: args =>
      if String.eqb cmd "create" then
        match args with
        | [t; kw; f; flag] =>
            if String.eqb kw "family" && String.eqb flag "-exist"
            then t ← read_type t; f ← read_family f; ipset_create name t f sets else None
        | _ => None
        end
      else if String.eqb cmd "add" then
        match last args with
        | Some flag => if String.eqb flag "-exist"
                       then ipset_add name (str_join " " (removelast args)) sets else None
        | None => None
        end
      else if String.eqb cmd "flush" then ipset_flush name sets
      else if String.eqb cmd "destroy" then ipset_drop name sets
      else if String.eqb cmd "swap" then
        match args with [b] => ipset_swap name b sets | _ => None end
      else None
  | _ => None
  end.

Fixpoint ipset_lines (lines : list string) (sets : Sets) : option Sets :=
  match lines with
  | [] => Some sets
  | l :: lines => sets ← ipset_words (tokens l) sets; ipset_lines lines sets
  end.

(** What a script has done when it ends, which is at the first line that fails. *)
Fixpoint ipset_reached (lines : list string) (sets : Sets) : Sets :=
  match lines with
  | [] => sets
  | l :: lines =>
      match ipset_words (tokens l) sets with
      | Some sets => ipset_reached lines sets
      | None => sets
      end
  end.

Definition ipset_script (payload : string) (sets : Sets) : option Sets :=
  ipset_lines (text_lines payload) sets.
End ipset.

(** ** Filter tables: iptables-restore(8) *)

(** The rules of each chain, as the lines that append them. *)
Abbreviation Table := (gmap string (list string)).

(** Names of chains have at most 28 characters. *)
Definition CHAIN_MAX : nat := 28.

Definition test_set (t : bool * Test) : option string :=
  match t.2 with TSet set _ => Some set | _ => None end.

(** A rule goes into a chain of the table, jumps to one, and tests sets that
    exist. *)
Definition rule_ok (sets : Sets) (t : Table) (chain : string) (r : FilterRule) : bool :=
  bool_decide (is_Some (t !! chain)) &&
  match fr_target r with Jump c => bool_decide (is_Some (t !! c)) | _ => true end &&
  forallb (λ s, bool_decide (is_Some (sets !! s))) (omap test_set (fr_tests r)).

(** A declared chain is emptied; a rule is appended. *)
Definition doc_line (sets : Sets) (line : string) (t : Table) : option Table :=
  match line with
  | String ":" rest =>
      match tokens rest with
      | [c; _; _] => if (CHAIN_MAX <? String.length c)%nat then None else Some (<[c := []]> t)
      | _ => None
      end
  | _ =>
      '(c, r) ← parse_line line;
      if rule_ok sets t c r then Some (<[c := default [] (t !! c) ++ [line]]> t) else None
  end.

Fixpoint doc_lines (sets : Sets) (lines : list string) (t : Table) : option Table :=
  match lines with
  | [] => Some t
  | l :: lines => t ← doc_line sets l t; doc_lines sets lines t
  end.

(** The document of one table is loaded as a whole, or not at all. *)
Definition load_doc (sets : Sets) (doc : string) (t : Table) : option Table :=
  match text_lines doc with
  | first :: rest =>
      match last rest with
      | Some l => if String.eqb first "*filter" && String.eqb l "COMMIT"
                  then doc_lines sets (removelast rest) t else None
      | None => None
      end
  | [] => None
  end.

Definition jump_line (chain target : string) : string := "-A " +:+ chain +:+ " -j " +:+ target.

(** ** The commands *)

Class NetfilterNode (W : Type) := { sets_of : W → Sets; table_of : W → IpFamily → Table }.

(** Sets and tables stay, but for the table of one family. *)
Definition same_tables {W} `{!NetfilterNode W} (w w' : W) : Prop :=
  ∀ f, table_of w' f = table_of w f.
Definition only_table {W} `{!NetfilterNode W} (family : IpFamily) (t : Table) (w w' : W) : Prop :=
  sets_of w' = sets_of w ∧ table_of w' family = t ∧
  ∀ f, f ≠ family → table_of w' f = table_of w f.

Class NetfilterLaws (W : Type) `{!CommandRunner W, !NetfilterNode W, !IpsetEntries} : Prop := {
  run_ipset_restore payload w : ∃ ok out err w',
    run_command "ipset" ["restore"; "-exist"] (Some payload) w = (inr (ok, out, err), w') ∧
    same_tables w w' ∧
    match ipset_script payload (sets_of w) with
    | Some sets => ok = true ∧ sets_of w' = sets
    | None => ok = false ∧ sets_of w' = ipset_reached (text_lines payload) (sets_of w)
    end;
  run_iptables_restore family doc w : ∃ ok out err w',
    run_command (base_of family +:+ "-restore") ["--wait"; "-T"; "filter"; "--noflush"] (Some doc) w =
      (inr (ok, out, err), w') ∧
    match load_doc (sets_of w) doc (table_of w family) with
    | Some t => ok = true ∧ only_table family t w w'
    | None => ok = false ∧ sets_of w' = sets_of w ∧ same_tables w w'
    end;
  run_iptables_check family chain target w : ∃ out err w',
    run_command (base_of family) ["-w"; "-C"; chain; "-j"; target] None w =
      (inr (bool_decide (jump_line chain target ∈ default [] (table_of w family !! chain)), out, err), w') ∧
    sets_of w' = sets_of w ∧ same_tables w w';
  run_iptables_insert family chain target w : ∃ ok out err w',
    run_command (base_of family) ["-w"; "-I"; chain; "1"; "-j"; target] None w =
      (inr (ok, out, err), w') ∧
    match table_of w family !! chain, table_of w family !! target with
    | Some rules, Some _ =>
        ok = true ∧ only_table family (<[chain := jump_line chain target :: rules]> (table_of w family)) w w'
    | _, _ => ok = false ∧ sets_of w' = sets_of w ∧ same_tables w w'
    end;
}.

(** ** A packet on the node *)

Definition sets_env (sets : Sets) : SetEnv := (λ k, (ks_type k, ks_entries k)) <$> sets.
Definition table_lines (t : Table) : list string := map_to_list t ≫= snd.

(** What the node does to a packet from a chain on. *)
Definition node_run {W} `{!NetfilterNode W, !FilterLib} (w : W) (family : IpFamily) (p : Packet)
    (fuel : nat) (chain : string) (mark : Z) : option Outcome :=
  run_chain (sets_env (sets_of w)) (table_lines (table_of w family)) p fuel chain mark.

(** ** A node *)

#[export] Instance ref_ipset_entries : IpsetEntries := {|
  entry_ok t family e :=
    match t with
    | HashIp =>
        match parse_ipaddr e with Some a => bool_decide (of_addr a = family) | None => false end
    | HashNet =>
        match net_entry (H := ref_net_lib) e with
        | Some (n, _) =>
            bool_decide (of_net (H := ref_net_lib) n = family) &&
            (0 <? net_prefix_len (IpNetLib := ref_net_lib) n)
        | None => false
        end
    end;
|}.

Lemma ref_net_entry (n : RefNet) :
  net_entry (H := ref_net_lib) (net_to_string (IpNetLib := ref_net_lib) n) = Some (n, false) ∧
  net_entry (H := ref_net_lib) (net_to_string (IpNetLib := ref_net_lib) n +:+ " nomatch") = Some (n, true).
Proof.
  unfold net_entry. split.
  - rewrite split_once_none by apply (ref_net_text n).
    change (net_parse (IpNetLib := ref_net_lib)) with ref_parse. by rewrite ref_parse_print.
  - change (net_to_string (IpNetLib := ref_net_lib) n +:+ " nomatch") with
      (net_to_string (IpNetLib := ref_net_lib) n +:+ String " " "nomatch").
    rewrite split_once_spec by apply (ref_net_text n).
    change (net_parse (IpNetLib := ref_net_lib)) with ref_parse. by rewrite ref_parse_print.
Qed.

#[export] Instance ref_ipset_laws : IpsetEntryLaws (H := ref_net_lib).
Proof.
  split.
  - intros a Ha. cbn. rewrite parse_ip_to_string by done. by apply bool_decide_eq_true.
  - intros n Hn. cbn [entry_ok ref_ipset_entries]. rewrite (proj1 (ref_net_entry n)).
    apply andb_true_iff. split; [by apply bool_decide_eq_true|by apply Z.ltb_lt].
  - intros n Hn. cbn [entry_ok ref_ipset_entries]. rewrite (proj2 (ref_net_entry n)).
    apply andb_true_iff. split; [by apply bool_decide_eq_true|by apply Z.ltb_lt].
  - intros n family Hn. cbn [entry_ok ref_ipset_entries]. rewrite (proj1 (ref_net_entry n)).
    apply andb_false_iff. right. apply Z.ltb_ge. rewrite Hn. done.
Qed.

Record Host := { host_sets : Sets; host_table : IpFamily → Table }.

#[export] Instance host_node : NetfilterNode Host := {| sets_of := host_sets; table_of := host_table |}.

Definition with_table (w : Host) (family : IpFamily) (t : Table) : Host :=
  {| host_sets := host_sets w;
     host_table := λ f, if decide (f = family) then t else host_table w f |}.

Definition host_result : Type := string + bool * string * string.
Definition done_with (ok : bool) : host_result := inr (ok, "", "").

(** The commands of one family: [None] is another program. *)
Definition host_iptables (family : IpFamily) (cmd : string) (args : list string) (stdin : option string)
    (w : Host) : option (host_result * Host) :=
  if String.eqb cmd (base_of family +:+ "-restore") then
    Some match stdin with
         | Some doc =>
             match load_doc (host_sets w) doc (host_table w family) with
             | Some t => (done_with true, with_table w family t)
             | None => (done_with false, w)
             end
         | None => (done_with false, w)
         end
  else if String.eqb cmd (base_of family) then
    Some match args with
         | ["-w"; "-C"; chain; "-j"; target] =>
             (done_with (bool_decide (jump_line chain target ∈ default [] (host_table w family !! chain))), w)
         | ["-w"; "-I"; chain; "1"; "-j"; target] =>
             match host_table w family !! chain, host_table w family !! target with
             | Some rules, Some _ =>
                 (done_with true,
                  with_table w family (<[chain := jump_line chain target :: rules]> (host_table w family)))
             | _, _ => (done_with false, w)
             end
         | _ => (done_with false, w)
         end
  else None.

#[export] Instance host_commands : CommandRunner Host := {|
  run_command cmd args stdin w :=
    if String.eqb cmd "ipset" then
      match stdin with
      | Some payload =>
          match ipset_script payload (host_sets w) with
          | Some sets => (done_with true, {| host_sets := sets; host_table := host_table w |})
          | None => (done_with false, {| host_sets := ipset_reached (text_lines payload) (host_sets w);
                                         host_table := host_table w |})
          end
      | None => (done_with false, w)
      end
    else
      match host_iptables FamV4 cmd args stdin w with
      | Some r => r
      | None => default (inl "No such file or directory", w) (host_iptables FamV6 cmd args stdin w)
      end;
|}.

Lemma with_table_only (w : Host) family t : only_table family t w (with_table w family t).
Proof.
  split; [done|]. cbn. split; [by rewrite decide_True|]. intros f Hf. by rewrite decide_False.
Qed.

#[export] Instance host_laws : NetfilterLaws Host.
Proof.
  split.
  - intros payload w. cbn. destruct (ipset_script payload (host_sets w)) as [sets|];
      by eexists _, _, _, _.
  - intros family doc w.
    assert (run_command (base_of family +:+ "-restore") ["--wait"; "-T"; "filter"; "--noflush"] (Some doc) w =
      match load_doc (host_sets w) doc (host_table w family) with
      | Some t => (done_with true, with_table w family t)
      | None => (done_with false, w)
      end) as -> by by destruct family.
    cbn. destruct (load_doc _ _ _) as [t|]; eexists _, _, _, _; (split; [done|]); [|by split_and!].
    split; [done|]. apply with_table_only.
  - intros family chain target w. exists "", "", w. by destruct family.
  - intros family chain target w.
    assert (run_command (base_of family) ["-w"; "-I"; chain; "1"; "-j"; target] None w =
      match host_table w family !! chain, host_table w family !! target with
      | Some rules, Some _ => (done_with true,
          with_table w family (<[chain := jump_line chain target :: rules]> (host_table w family)))
      | _, _ => (done_with false, w)
      end) as -> by by destruct family.
    cbn. destruct (host_table w family !! chain) as [rules|]; [destruct (host_table w family !! target)|];
      eexists _, _, _, _; (split; [done|]); [|by split_and!..].
    split; [done|]. apply with_table_only.
Qed.
