(* ===== verification/NetfilterFacts.v ===== *)
(** * NetfilterFacts: running scripts and documents

    What the scripts of sets and the documents of filter rules do to a node: the
    texts are read line by line, a set that fits is replaced, a document whose
    rules stay within its chains and sets is loaded. *)

From stdpp Require Import gmap sets list strings pretty sorting.
From Stdlib Require Import Ascii ZArith Lia.
From S2P Require Import Prelude Text Net IpText Common Netlink Netpol Synth Filter FilterFacts SynthFacts.
From S2P Require Import PlanChains PolicySpec NetpolFacts TailFacts NetpolTheorems Netfilter.
Import Naming Names Translate Ipset Iptables.

Local Open Scope Z_scope.

(** ** Texts *)

Definition one_line (s : string) : bool := str_all (λ c, negb (is_newline c)) s.

Create HintDb lines.

Lemma one_line_app a b : one_line a = true → one_line b = true → one_line (a +:+ b) = true.
Proof. unfold one_line. rewrite str_all_app. by intros -> ->. Qed.

Lemma one_line_word w : word w = true → one_line w = true.
Proof.
  unfold word. intros [_ Hw]%andb_true_iff. revert Hw. apply str_all_impl. intros c.
  unfold nonblank, is_newline. by intros [_ ->]%andb_true_iff.
Qed.

#[export] Hint Resolve one_line_word one_line_app : lines.
#[export] Hint Extern 1 (one_line _ = true) => reflexivity : lines.

Lemma text_lines_go_line cur l s :
  one_line l = true →
  text_lines_go cur (l +:+ newline +:+ s) = (cur +:+ l) :: text_lines_go "" s.
Proof.
  revert cur. induction l as [|c l IH]; intros cur Hl.
  - rewrite str_app_nil_r. reflexivity.
  - unfold one_line in Hl. cbn [str_all] in Hl. apply andb_true_iff in Hl as [Hc Hl].
    apply negb_true_iff in Hc. rewrite append_cons. cbn [text_lines_go]. rewrite Hc, IH by done.
    by rewrite str_app_assoc.
Qed.

Lemma text_lines_line l s : one_line l = true → text_lines (l +:+ newline +:+ s) = l :: text_lines s.
Proof. intros Hl. unfold text_lines. by rewrite text_lines_go_line. Qed.

Lemma text_lines_end l : one_line l = true → text_lines (l +:+ newline) = [l].
Proof. intros Hl. rewrite <-(str_app_nil_r newline). by rewrite text_lines_line. Qed.

Lemma text_lines_concat {A} (f : A → string) l s :
  (∀ x, x ∈ l → one_line (f x) = true) →
  text_lines (str_concat ((λ x, f x +:+ newline) <$> l) +:+ s) = (f <$> l) ++ text_lines s.
Proof.
  induction l as [|x l IH]; intros Hl; [done|]. rewrite !fmap_cons.
  change (str_concat ((f x +:+ newline) :: ((λ y, f y +:+ newline) <$> l)))
    with ((f x +:+ newline) +:+ str_concat ((λ y, f y +:+ newline) <$> l)).
  rewrite !str_app_assoc, text_lines_line by (apply Hl, list_elem_of_here).
  cbn [app]. f_equal. apply IH. intros y Hy. by apply Hl, list_elem_of_further.
Qed.

(** ** The script of a set *)

Section script.
Context `{IpsetEntries}.

Definition tmp_name (name : string) : string := "TMP-" +:+ name.

(** An entry as the program writes it: a word, or a word and [nomatch]. *)
Definition entry_text (e : string) : Prop :=
  ∃ w, word w = true ∧ (e = w ∨ e = w +:+ " nomatch").

Lemma entry_one_line e : entry_text e → one_line e = true.
Proof.
  intros (w & Hw & [->| ->]); [by apply one_line_word|]. apply one_line_app; [by apply one_line_word|done].
Qed.

Lemma tokens_lines line ws :
  line = str_join " " ws → Forall (λ w, word w = true) ws → tokens line = ws.
Proof. intros ->. apply tokens_join. Qed.

Ltac words ws :=
  rewrite (tokens_lines _ ws) by
    (rewrite ?str_app_assoc; reflexivity ||
     (repeat (apply Forall_cons; split); try apply Forall_nil_2; auto with words)).

Lemma word_tmp name : word name = true → word (tmp_name name) = true.
Proof. intros Hn. unfold tmp_name, word in *. apply andb_true_iff in Hn as [_ Hn]. by cbn. Qed.

Lemma add_words tmp e sets :
  word tmp = true → entry_text e →
  ipset_words (tokens ("add " +:+ tmp +:+ " " +:+ e +:+ " -exist")) sets = ipset_add tmp e sets.
Proof.
  intros Ht (w & Hw & [->| ->]).
  - words ["add"; tmp; w; "-exist"]. reflexivity.
  - words ["add"; tmp; w; "nomatch"; "-exist"]. cbn -[ipset_add]. f_equal.
Qed.

Lemma ipset_lines_app l k sets :
  ipset_lines (l ++ k) sets = sets ← ipset_lines l sets; ipset_lines k sets.
Proof.
  revert sets. induction l as [|x l IH]; intros sets; [done|]. cbn.
  destruct (ipset_words (tokens x) sets); [apply IH|done].
Qed.

Lemma add_lines tmp es sets k :
  word tmp = true → Forall entry_text es → sets !! tmp = Some k →
  Forall (λ e, entry_ok (ks_type k) (ks_family k) e = true) es →
  ipset_lines ((λ e, "add " +:+ tmp +:+ " " +:+ e +:+ " -exist") <$> es) sets =
  Some (<[tmp := {| ks_type := ks_type k; ks_family := ks_family k; ks_entries := ks_entries k ++ es |}]> sets).
Proof.
  intros Ht Hes. revert sets k. induction Hes as [|e es He _ IH]; intros sets k Hk Hok.
  - rewrite app_nil_r. rewrite insert_id; [done|]. rewrite Hk. by destruct k.
  - apply Forall_cons in Hok as [Hoke Hok]. rewrite fmap_cons. cbn [ipset_lines].
    rewrite add_words by done. unfold ipset_add. rewrite Hk. cbn [mbind option_bind]. rewrite Hoke.
    cbn [mbind option_bind]. erewrite IH; [|apply lookup_insert_eq|exact Hok]. cbn [ks_type ks_family ks_entries].
    rewrite insert_insert_eq, <-app_assoc. done.
Qed.

Definition payload_lines (name : string) (t : SetType) (f : IpFamily) (es : list string) : list string :=
  let tmp := tmp_name name in
  ["create " +:+ name +:+ " " +:+ set_type_str t +:+ " family " +:+ family_kw f +:+ " -exist";
   "create " +:+ tmp +:+ " " +:+ set_type_str t +:+ " family " +:+ family_kw f +:+ " -exist";
   "flush " +:+ tmp] ++
  ((λ e, "add " +:+ tmp +:+ " " +:+ e +:+ " -exist") <$> es) ++
  ["swap " +:+ tmp +:+ " " +:+ name; "destroy " +:+ tmp].

Lemma payload_text name t f es :
  word name = true → Forall entry_text es →
  text_lines (build_restore_payload name t f es) = payload_lines name t f es.
Proof.
  intros Hn Hes. pose proof (word_tmp name Hn) as Ht. unfold build_restore_payload, payload_lines.
  fold (tmp_name name). set (tmp := tmp_name name) in *.
  assert (∀ c n, word n = true → one_line c = true →
    one_line (c +:+ n +:+ " " +:+ set_type_str t +:+ " family " +:+ family_kw f +:+ " -exist") = true) as Hc.
  { intros c n Hw Hone. destruct t, f; auto 12 with lines. }
  pose proof (Hc "create " name Hn eq_refl) as H1. pose proof (Hc "create " tmp Ht eq_refl) as H2.
  assert (∀ c n s, c +:+ n +:+ " " +:+ set_type_str t +:+ " family " +:+ family_kw f +:+ " -exist" +:+ newline +:+ s
    = (c +:+ n +:+ " " +:+ set_type_str t +:+ " family " +:+ family_kw f +:+ " -exist") +:+ newline +:+ s) as Hcut
    by (intros; by rewrite !str_app_assoc).
  rewrite !Hcut. rewrite !text_lines_line by done. cbn [app]. f_equal. f_equal.
  rewrite <-(str_app_assoc "flush "), text_lines_line by auto with lines. f_equal.
  assert (((λ e, "add " +:+ tmp +:+ " " +:+ e +:+ " -exist" +:+ newline) <$> es) =
    ((λ e, ("add " +:+ tmp +:+ " " +:+ e +:+ " -exist") +:+ newline) <$> es)) as ->.
  { apply list_fmap_ext. intros _ e _. by rewrite !str_app_assoc. }
  rewrite text_lines_concat.
  - f_equal.
    assert ("swap " +:+ tmp +:+ " " +:+ name +:+ newline +:+ "destroy " +:+ tmp +:+ newline =
      ("swap " +:+ tmp +:+ " " +:+ name) +:+ newline +:+ ("destroy " +:+ tmp) +:+ newline) as ->
      by by rewrite !str_app_assoc.
    rewrite text_lines_line by auto 8 with lines. f_equal. apply text_lines_end. auto with lines.
  - intros e He. rewrite Forall_forall in Hes. pose proof (entry_one_line e (Hes e He)). auto 8 with lines.
Qed.

Lemma create_words name t f sets :
  word name = true →
  ipset_words (tokens ("create " +:+ name +:+ " " +:+ set_type_str t +:+ " family " +:+ family_kw f +:+ " -exist"))
    sets = ipset_create name t f sets.
Proof.
  intros Hn. destruct t, f; cbn [set_type_str family_kw];
    [words ["create"; name; "hash:ip"; "family"; "inet"; "-exist"]
    |words ["create"; name; "hash:ip"; "family"; "inet6"; "-exist"]
    |words ["create"; name; "hash:net"; "family"; "inet"; "-exist"]
    |words ["create"; name; "hash:net"; "family"; "inet6"; "-exist"]]; reflexivity.
Qed.

Lemma flush_words name sets :
  word name = true → ipset_words (tokens ("flush " +:+ name)) sets = ipset_flush name sets.
Proof. intros Hn. words ["flush"; name]. reflexivity. Qed.

Lemma drop_words name sets :
  word name = true → ipset_words (tokens ("destroy " +:+ name)) sets = ipset_drop name sets.
Proof. intros Hn. words ["destroy"; name]. reflexivity. Qed.

Lemma swap_words a b sets :
  word a = true → word b = true →
  ipset_words (tokens ("swap " +:+ a +:+ " " +:+ b)) sets = ipset_swap a b sets.
Proof. intros Ha Hb. words ["swap"; a; b]. reflexivity. Qed.

(** A set of the right parameters, or none. *)
Definition fits (t : SetType) (f : IpFamily) (name : string) (sets : Sets) : Prop :=
  ∀ k, sets !! name = Some k → ks_type k = t ∧ ks_family k = f.

Lemma create_fits name t f sets :
  (String.length name ≤ SETNAME_MAX)%nat → fits t f name sets →
  ∃ es, ipset_create name t f sets =
    Some (<[name := {| ks_type := t; ks_family := f; ks_entries := es |}]> sets).
Proof.
  intros Hlen Hf. unfold ipset_create. destruct (Nat.ltb_spec SETNAME_MAX (String.length name)); [lia|].
  destruct (sets !! name) as [[t' f' es]|] eqn:Hk; [|by exists []].
  destruct (Hf _ Hk) as [Ht Hf']. cbn in *. subst. rewrite decide_True by done. exists es.
  by rewrite insert_id.
Qed.

Lemma tmp_longer name : String.length (tmp_name name) = (4 + String.length name)%nat.
Proof. reflexivity. Qed.

(** The script puts the entries in place of what the set held, and leaves no
    temporary set. *)
Lemma script_run name t f es sets :
  word name = true → (4 + String.length name ≤ SETNAME_MAX)%nat →
  Forall entry_text es → Forall (λ e, entry_ok t f e = true) es →
  fits t f name sets → fits t f (tmp_name name) sets →
  ipset_script (build_restore_payload name t f es) sets =
  Some (delete (tmp_name name) (<[name := {| ks_type := t; ks_family := f; ks_entries := es |}]> sets)).
Proof.
  intros Hn Hlen Htext Hok Hfit Hfit'. pose proof (word_tmp name Hn) as Ht.
  assert (name ≠ tmp_name name) as Hne
    by (intros Heq%(f_equal String.length); rewrite tmp_longer in Heq; lia).
  unfold ipset_script. rewrite payload_text by done. unfold payload_lines. cbn [app ipset_lines].
  rewrite create_words by done.
  destruct (create_fits name t f sets) as [old ->]; [lia|done|]. cbn [mbind option_bind].
  set (sets1 := <[name := _]> sets).
  rewrite create_words by done.
  destruct (create_fits (tmp_name name) t f sets1) as [old' ->]; [rewrite tmp_longer; lia| |].
  { intros k. unfold sets1. rewrite lookup_insert_ne by done. apply Hfit'. }
  cbn [mbind option_bind]. set (sets2 := <[tmp_name name := _]> sets1).
  rewrite flush_words by done. unfold ipset_flush, sets2.
  rewrite lookup_insert_eq. cbn [mbind option_bind ks_type ks_family].
  rewrite insert_insert_eq. clear sets2.
  rewrite ipset_lines_app. erewrite add_lines; [|done|done|apply lookup_insert_eq|exact Hok].
  cbn [mbind option_bind ks_type ks_family ks_entries app]. rewrite insert_insert_eq.
  set (new := {| ks_type := t; ks_family := f; ks_entries := es |}). cbn [ipset_lines].
  rewrite swap_words by done. unfold ipset_swap. rewrite lookup_insert_eq. cbn [mbind option_bind].
  assert (sets1 !! name = Some {| ks_type := t; ks_family := f; ks_entries := old |}) as Hs1
    by apply lookup_insert_eq.
  rewrite lookup_insert_ne, Hs1 by done.
  cbn [mbind option_bind ks_type ks_family new]. rewrite decide_True by done. cbn [mbind option_bind].
  rewrite drop_words by done. unfold ipset_drop. rewrite lookup_insert_eq. cbn [mbind option_bind]. f_equal.
  rewrite delete_insert_eq. unfold sets1.
  apply map_eq. intros i. destruct (decide (i = tmp_name name)) as [->|Hi]; [by rewrite !lookup_delete_eq|].
  rewrite !lookup_delete_ne by done. destruct (decide (i = name)) as [->|Hi']; [by rewrite !lookup_insert_eq|].
  by rewrite !lookup_insert_ne.
Qed.

(** *** Scripts that fail whatever there is *)

Lemma create_some name t f sets sets' :
  ipset_create name t f sets = Some sets' →
  ∃ es, sets' = <[name := {| ks_type := t; ks_family := f; ks_entries := es |}]> sets.
Proof.
  unfold ipset_create. destruct (Nat.ltb _ _); [done|]. destruct (sets !! name) as [[t' f' es]|] eqn:Hk.
  - destruct (decide _) as [[Ht Hf]|]; [|done]. cbn in Ht, Hf. subst. intros [= <-]. exists es. by rewrite insert_id.
  - intros [= <-]. by exists [].
Qed.

(** The name of the temporary set is too long. *)
Lemma script_long name t f es sets :
  word name = true → (SETNAME_MAX < 4 + String.length name)%nat →
  ipset_script (build_restore_payload name t f es) sets = None.
Proof.
  intros Hn Hlen. pose proof (word_tmp name Hn) as Ht. unfold ipset_script, build_restore_payload.
  fold (tmp_name name). set (tmp := tmp_name name) in *.
  assert (∀ c n s, word n = true → one_line c = true →
    text_lines (c +:+ n +:+ " " +:+ set_type_str t +:+ " family " +:+ family_kw f +:+ " -exist" +:+ newline +:+ s)
    = (c +:+ n +:+ " " +:+ set_type_str t +:+ " family " +:+ family_kw f +:+ " -exist") :: text_lines s) as Hcut.
  { intros c n s Hw Hone. rewrite <-text_lines_line; [by rewrite !str_app_assoc|].
    destruct t, f; auto 12 with lines. }
  rewrite (Hcut "create " name), (Hcut "create " tmp) by done. cbn [ipset_lines].
  rewrite create_words by done. destruct (ipset_create name t f sets) as [sets1|]; [|done].
  cbn [mbind option_bind]. rewrite create_words by done. unfold ipset_create at 1.
  destruct (Nat.ltb_spec SETNAME_MAX (String.length tmp)) as [_|Hle]; [done|].
  unfold tmp in Hle. rewrite tmp_longer in Hle. lia.
Qed.

Lemma add_refused tmp es e sets k :
  word tmp = true → Forall entry_text es → sets !! tmp = Some k →
  e ∈ es → entry_ok (ks_type k) (ks_family k) e = false →
  ipset_lines ((λ e, "add " +:+ tmp +:+ " " +:+ e +:+ " -exist") <$> es) sets = None.
Proof.
  intros Ht Hes Hk He Hno. revert sets k Hk Hno He.
  induction Hes as [|a es Ha _ IH]; intros sets k Hk Hno He; [by apply elem_of_nil in He|].
  rewrite fmap_cons. cbn [ipset_lines]. rewrite add_words by done. unfold ipset_add. rewrite Hk.
  cbn [mbind option_bind]. destruct (entry_ok _ _ a) eqn:Hok; [|done]. cbn [mbind option_bind].
  apply elem_of_cons in He as [->|He]; [congruence|]. eapply IH; [apply lookup_insert_eq|exact Hno|exact He].
Qed.

(** The set does not take an entry. *)
Lemma script_refused name t f es e sets :
  word name = true → Forall entry_text es → e ∈ es → entry_ok t f e = false →
  ipset_script (build_restore_payload name t f es) sets = None.
Proof.
  intros Hn Htext He Hno. pose proof (word_tmp name Hn) as Ht.
  unfold ipset_script. rewrite payload_text by done. unfold payload_lines. cbn [app ipset_lines].
  rewrite create_words by done. destruct (ipset_create name t f sets) as [sets1|]; [|done].
  cbn [mbind option_bind]. rewrite create_words by done.
  destruct (ipset_create (tmp_name name) t f sets1) as [sets2|] eqn:Hcreate; [|done].
  apply create_some in Hcreate as [es' ->]. cbn [mbind option_bind].
  rewrite flush_words by done. unfold ipset_flush. rewrite lookup_insert_eq. cbn [mbind option_bind ks_type ks_family].
  rewrite ipset_lines_app. erewrite add_refused; [done|done|done|apply lookup_insert_eq|exact He|exact Hno].
Qed.

(** ** The scripts of a plan *)

(** A set that its script can restore. *)
Record set_ok (x : IpsetPlan) : Prop := {
  so_word : word (ipl_name x) = true;
  so_short : (4 + String.length (ipl_name x) ≤ SETNAME_MAX)%nat;
  so_lasting : starts_with "TMP-" (ipl_name x) = false;
  so_text : Forall entry_text (ipl_entries x);
  so_entries : Forall (λ e, entry_ok (ipl_type x) (ipl_family x) e = true) (ipl_entries x);
}.

(** Names determine sets. *)
Definition names_determine (xs : list IpsetPlan) : Prop :=
  ∀ x y, x ∈ xs → y ∈ xs → ipl_name x = ipl_name y → x = y.

Definition all_fit (xs : list IpsetPlan) (sets : Sets) : Prop :=
  ∀ x, x ∈ xs → fits (ipl_type x) (ipl_family x) (ipl_name x) sets ∧
                fits (ipl_type x) (ipl_family x) (tmp_name (ipl_name x)) sets.

Definition kernel_set (x : IpsetPlan) : KernelSet :=
  {| ks_type := ipl_type x; ks_family := ipl_family x; ks_entries := ipl_entries x |}.
Definition restored (sets : Sets) (x : IpsetPlan) : Sets :=
  delete (tmp_name (ipl_name x)) (<[ipl_name x := kernel_set x]> sets).
Definition sets_after (xs : list IpsetPlan) (sets : Sets) : Sets := foldl restored sets xs.

Lemma lasting_not_tmp n m : starts_with "TMP-" n = false → n ≠ tmp_name m.
Proof. intros Hn ->. by destruct m. Qed.

Lemma all_fit_restored x xs sets :
  names_determine (x :: xs) → Forall set_ok (x :: xs) → all_fit (x :: xs) sets →
  all_fit xs (restored sets x).
Proof.
  intros Hnd Hok Hfit y Hy. rewrite Forall_forall in Hok.
  assert (y ∈ x :: xs) as Hyx by by right. destruct (Hfit y Hyx) as [Hf1 Hf2].
  pose proof (so_lasting y (Hok y Hyx)) as Hly. pose proof (so_lasting x (Hok x (list_elem_of_here x xs))) as Hlx.
  unfold restored. split; intros k.
  - rewrite lookup_delete_ne by (by apply not_eq_sym, lasting_not_tmp).
    destruct (decide (ipl_name x = ipl_name y)) as [Heq|Hne].
    + rewrite <-Heq, lookup_insert_eq. intros [= <-].
      by rewrite (Hnd x y (list_elem_of_here x xs) Hyx Heq).
    + rewrite lookup_insert_ne by done. apply Hf1.
  - intros [_ Hk]%lookup_delete_Some. rewrite lookup_insert_ne in Hk by by apply lasting_not_tmp.
    by apply Hf2.
Qed.

Lemma sets_after_other xs sets n :
  (n ∉ ipl_name <$> xs) → (n ∉ (tmp_name ∘ ipl_name) <$> xs) → sets_after xs sets !! n = sets !! n.
Proof.
  revert sets. induction xs as [|x xs IH]; intros sets Hn Ht; [done|].
  rewrite fmap_cons, not_elem_of_cons in Hn, Ht. destruct Hn as [Hn1 Hn], Ht as [Ht1 Ht].
  cbn [sets_after foldl]. change (foldl restored ?s xs) with (sets_after xs s). rewrite IH by done.
  unfold restored. cbn in Ht1. by rewrite lookup_delete_ne, lookup_insert_ne by done.
Qed.

Lemma sets_after_in xs sets x :
  names_determine xs → Forall set_ok xs → x ∈ xs →
  sets_after xs sets !! ipl_name x = Some (kernel_set x).
Proof.
  revert sets. induction xs as [|y xs IH]; intros sets Hnd Hok Hx; [by apply elem_of_nil in Hx|].
  cbn [sets_after foldl]. change (foldl restored ?s xs) with (sets_after xs s).
  assert (names_determine xs) as Hnd' by (intros a b Ha Hb; apply Hnd; by right).
  pose proof Hok as [Hoky Hok']%Forall_cons.
  destruct (decide (ipl_name x ∈ ipl_name <$> xs)) as [(z & Hz & Hzx)%list_elem_of_fmap|Hn].
  - rewrite (Hnd x z Hx (list_elem_of_further _ _ _ Hzx) Hz) in *. by apply IH.
  - apply elem_of_cons in Hx as [->|Hx]; [|destruct Hn; by apply list_elem_of_fmap_2].
    rewrite sets_after_other; [|done|].
    + unfold restored. rewrite lookup_delete_ne, lookup_insert_eq; [done|].
      apply not_eq_sym, lasting_not_tmp, Hoky.
    + intros (z & Hz & _)%list_elem_of_fmap. by eapply lasting_not_tmp; [apply Hoky|exact Hz].
Qed.
End script.

(** ** Running the scripts *)

Section run.
Context {W : Type} `{NetfilterLaws W}.
#[local] Existing Instance system_ipset.
Import PolicyController.

Lemma restore_set_run (x : IpsetPlan) (w : W) :
  ∃ w', same_tables w w' ∧
    match ipset_script (build_restore_payload (ipl_name x) (ipl_type x) (ipl_family x) (ipl_entries x))
            (sets_of w) with
    | Some sets => restore_set x w = (inr tt, w') ∧ sets_of w' = sets
    | None => (∃ e, restore_set x w = (inl e, w')) ∧
        sets_of w' = ipset_reached (text_lines (build_restore_payload (ipl_name x) (ipl_type x)
          (ipl_family x) (ipl_entries x))) (sets_of w)
    end.
Proof.
  destruct (run_ipset_restore
    (build_restore_payload (ipl_name x) (ipl_type x) (ipl_family x) (ipl_entries x)) w)
    as (ok & out & err & w' & Hrun & Hsame & Hcase).
  exists w'. split; [done|]. unfold restore_set, mmap_err, ipset_restore, system_ipset. rewrite Hrun.
  destruct (ipset_script _ _) as [sets|]; [by destruct Hcase as [-> ?]|]. destruct Hcase as [-> ?]. split; [by eexists|done].
Qed.

Lemma restore_sets_run (xs : list IpsetPlan) (w : W) :
  names_determine xs → Forall set_ok xs → all_fit xs (sets_of w) →
  ∃ w', mfor xs restore_set w = (inr tt, w') ∧ same_tables w w' ∧
        sets_of w' = sets_after xs (sets_of w).
Proof.
  revert w. induction xs as [|x xs IH]; intros w Hnd Hok Hfit; [by exists w|].
  pose proof Hok as [Hx Hxs]%Forall_cons.
  destruct (Hfit x (list_elem_of_here x xs)) as [Hf1 Hf2].
  destruct (restore_set_run x w) as (w1 & Hs1 & Hcase).
  rewrite (script_run _ _ _ _ _ (so_word x Hx) (so_short x Hx) (so_text x Hx) (so_entries x Hx) Hf1 Hf2) in Hcase.
  destruct Hcase as [Hrun Hsets].
  destruct (IH w1) as (w2 & Hfor & Hs2 & Hsets2).
  - intros a b Ha Hb. apply Hnd; by right.
  - done.
  - rewrite Hsets. by apply (all_fit_restored x).
  - exists w2. cbn [mfor]. unfold mbind, M_bind. rewrite Hrun. split; [exact Hfor|].
    split; [intros f; by rewrite Hs2, Hs1|]. by rewrite Hsets2, Hsets.
Qed.

(** Whatever happens, the tables stay. *)
Lemma restore_sets_frame (xs : list IpsetPlan) (w : W) :
  ∃ r w', mfor xs restore_set w = (r, w') ∧ same_tables w w'.
Proof.
  revert w. induction xs as [|x xs IH]; intros w; [by eexists _, _|]. cbn [mfor]. unfold mbind, M_bind.
  destruct (restore_set_run x w) as (w1 & Hs1 & Hcase).
  destruct (ipset_script _ _); [destruct Hcase as [-> _]|destruct Hcase as [[e ->] _]; by eexists _, _].
  destruct (IH w1) as (r & w2 & -> & Hs2). exists r, w2. split; [done|]. intros f. by rewrite Hs2, Hs1.
Qed.

(** A script fails whatever there is. *)
Definition unrestorable (x : IpsetPlan) : Prop :=
  ∀ sets, ipset_script (build_restore_payload (ipl_name x) (ipl_type x) (ipl_family x) (ipl_entries x))
            sets = None.

Lemma restore_sets_stop (xs : list IpsetPlan) (x : IpsetPlan) (w : W) :
  x ∈ xs → unrestorable x → ∃ e w', mfor xs restore_set w = (inl e, w') ∧ same_tables w w'.
Proof.
  intros Hin Hstop. revert w. induction xs as [|y xs IH]; intros w; [by apply elem_of_nil in Hin|].
  cbn [mfor]. unfold mbind, M_bind. destruct (restore_set_run y w) as (w1 & Hs1 & Hcase).
  apply elem_of_cons in Hin as [<-|Hin].
  - rewrite Hstop in Hcase. destruct Hcase as [[e ->] _]. by exists e, w1.
  - destruct (ipset_script _ _); [destruct Hcase as [-> _]|destruct Hcase as [[e ->] _]; by exists e, w1].
    destruct (IH Hin w1) as (e & w2 & -> & Hs2). exists e, w2. split; [done|]. intros f. by rewrite Hs2, Hs1.
Qed.
End run.

(** ** Loading a document *)

Definition chain_of (line : string) : option string := fst <$> parse_line line.
Definition rules_of (lines : list string) (c : string) : list string :=
  filter (λ l, chain_of l = Some c) lines.

(** The rule stays within the chains and the sets. *)
Definition closed (chains sets : list string) (r : FilterRule) : Prop :=
  (∀ d, fr_target r = Jump d → d ∈ chains) ∧ ∀ s, s ∈ omap test_set (fr_tests r) → s ∈ sets.

Definition line_closed (chains sets : list string) (line : string) : Prop :=
  ∃ c r, parse_line line = Some (c, r) ∧ line_of c line ∧ c ∈ chains ∧ closed chains sets r.

Lemma doc_lines_app ks l k t : doc_lines ks (l ++ k) t = t ← doc_lines ks l t; doc_lines ks k t.
Proof.
  revert t. induction l as [|x l IH]; intros t; [done|]. cbn. destruct (doc_line ks x t); [apply IH|done].
Qed.

Lemma doc_decls ks cs t :
  Forall (λ c, word c = true ∧ (String.length c ≤ CHAIN_MAX)%nat) cs →
  ∃ t', doc_lines ks (chain_decl <$> cs) t = Some t' ∧
    (∀ c, c ∈ cs → t' !! c = Some []) ∧ (∀ c, (c ∉ cs) → t' !! c = t !! c).
Proof.
  revert t. induction cs as [|d cs IH]; intros t Hcs.
  { exists t. split; [done|]. split; [by intros c ?%elem_of_nil|done]. }
  apply Forall_cons in Hcs as [[Hw Hlen] Hcs]. rewrite fmap_cons. cbn [doc_lines].
  assert (doc_line ks (chain_decl d) t = Some (<[d := []]> t)) as ->.
  { unfold chain_decl. change (":" +:+ d +:+ " - [0:0]") with (String ":" (d +:+ " - [0:0]")).
    cbn [doc_line]. rewrite (tokens_lines _ [d; "-"; "[0:0]"]);
      [|reflexivity|repeat (apply Forall_cons; split); try apply Forall_nil_2; auto with words].
    destruct (Nat.ltb_spec CHAIN_MAX (String.length d)); [lia|done]. }
  cbn [mbind option_bind]. destruct (IH (<[d := []]> t) Hcs) as (t' & -> & Hin & Hout).
  exists t'. split; [done|]. split.
  - intros c Hc. destruct (decide (c ∈ cs)) as [Hc'|Hc']; [by apply Hin|].
    apply elem_of_cons in Hc as [->|Hc]; [|done]. by rewrite Hout, lookup_insert_eq.
  - intros c [Hne Hc]%not_elem_of_cons. by rewrite Hout, lookup_insert_ne.
Qed.

Lemma doc_line_rule ks c line t :
  line_of c line →
  doc_line ks line t =
  ('(c, r) ← parse_line line;
   if rule_ok ks t c r then Some (<[c := default [] (t !! c) ++ [line]]> t) else None).
Proof. intros [rest ->]. reflexivity. Qed.

Lemma doc_rules ks chains sets lines t :
  Forall (line_closed chains sets) lines →
  (∀ c, c ∈ chains → is_Some (t !! c)) → (∀ s, s ∈ sets → is_Some (ks !! s)) →
  ∃ t', doc_lines ks lines t = Some t' ∧
    (∀ c old, t !! c = Some old → t' !! c = Some (old ++ rules_of lines c)) ∧
    (∀ c, (c ∉ chains) → t' !! c = t !! c).
Proof.
  intros Hl. revert t. induction Hl as [|l lines (c & r & Hp & (rest & Hline) & Hc & Hj & Ht) _ IH];
    intros t Hch Hs.
  { exists t. split; [done|]. split; [|done]. intros c old ->. by rewrite app_nil_r. }
  cbn [doc_lines].
  assert (doc_line ks l t = Some (<[c := default [] (t !! c) ++ [l]]> t)) as ->.
  { rewrite (doc_line_rule ks c l t (ex_intro _ rest Hline)), Hp. cbn [mbind option_bind].
    assert (rule_ok ks t c r = true) as ->; [|done].
    unfold rule_ok. rewrite bool_decide_eq_true_2 by by apply Hch. cbn [andb].
    apply andb_true_iff. split.
    - destruct (fr_target r); try done. by apply bool_decide_eq_true_2, Hch, Hj.
    - apply forallb_forall. intros s Hin%list_elem_of_In. by apply bool_decide_eq_true_2, Hs, Ht. }
  cbn [mbind option_bind].
  destruct (IH (<[c := default [] (t !! c) ++ [l]]> t)) as (t' & -> & Hin & Hout); [|done|].
  { intros d Hd. destruct (decide (c = d)) as [->|Hne]; [by rewrite lookup_insert_eq|].
    rewrite lookup_insert_ne by done. by apply Hch. }
  exists t'. split; [done|]. split.
  - intros d old Hd. unfold rules_of. rewrite filter_cons.
    assert (chain_of l = Some c) as Hco by (unfold chain_of; by rewrite Hp).
    destruct (decide (c = d)) as [->|Hne].
    + rewrite decide_True by done. rewrite (Hin d (old ++ [l])); [by rewrite <-app_assoc|].
      by rewrite lookup_insert_eq, Hd.
    + rewrite decide_False by (rewrite Hco; congruence). apply Hin. by rewrite lookup_insert_ne.
  - intros d Hd. rewrite Hout by done. apply lookup_insert_ne. by intros ->.
Qed.

Lemma load_run ks chains sets rules t :
  Forall (λ c, word c = true ∧ (String.length c ≤ CHAIN_MAX)%nat) chains →
  Forall (λ l, one_line l = true) rules → Forall (line_closed chains sets) rules →
  (∀ s, s ∈ sets → is_Some (ks !! s)) →
  ∃ t', load_doc ks (filter_restore_doc (chain_decl <$> chains) rules) t = Some t' ∧
    (∀ c, c ∈ chains → t' !! c = Some (rules_of rules c)) ∧ (∀ c, (c ∉ chains) → t' !! c = t !! c).
Proof.
  intros Hch Hone Hcl Hs.
  assert (text_lines (filter_restore_doc (chain_decl <$> chains) rules) =
    "*filter" :: ((chain_decl <$> chains) ++ rules) ++ ["COMMIT"]) as Htext.
  { unfold filter_restore_doc. rewrite text_lines_line by done. f_equal.
    rewrite text_lines_concat.
    - rewrite list_fmap_id, <-app_assoc. f_equal. rewrite text_lines_concat.
      + rewrite list_fmap_id. done.
      + intros x Hx. rewrite Forall_forall in Hone. by apply Hone.
    - intros x (c & -> & Hc)%list_elem_of_fmap. rewrite Forall_forall in Hch.
      destruct (Hch c Hc) as [Hw _]. unfold chain_decl. auto with lines. }
  unfold load_doc. rewrite Htext, last_snoc, removelast_last. cbn [String.eqb andb].
  change (String.eqb "*filter" "*filter" && String.eqb "COMMIT" "COMMIT") with true. cbn iota.
  rewrite doc_lines_app. destruct (doc_decls ks chains t Hch) as (t1 & -> & Hin1 & Hout1).
  cbn [mbind option_bind].
  destruct (doc_rules ks chains sets rules t1 Hcl) as (t2 & -> & Hin2 & Hout2); [|done|].
  { intros c Hc. by rewrite Hin1. }
  exists t2. split; [done|]. split.
  - intros c Hc. apply (Hin2 c []). by apply Hin1.
  - intros c Hc. by rewrite Hout2, Hout1.
Qed.

(** ** Packets *)

Section agree.
Context `{FilterLib}.
Variables (env1 env2 : SetEnv) (lines1 lines2 : list string) (p : Packet).
Variables (chains sets : list string).
Hypothesis Hchains : ∀ c, c ∈ chains → chain_rules lines1 c = chain_rules lines2 c.
Hypothesis Hsets : ∀ s, s ∈ sets → env1 !! s = env2 !! s.
Hypothesis Hclosed : ∀ c, c ∈ chains → Forall (closed chains sets) (chain_rules lines2 c).

Lemma tests_agree ts mark :
  (∀ s, s ∈ omap test_set ts → s ∈ sets) → tests_hold env1 p mark ts = tests_hold env2 p mark ts.
Proof.
  unfold tests_hold. induction ts as [|[neg t] ts IH]; intros Hs; [done|]. cbn [forallb].
  rewrite IH.
  - f_equal. f_equal. cbn [snd]. destruct t; try done. cbn [test_holds].
    rewrite Hsets; [done|]. apply Hs. cbn. by left.
  - intros s Hin. apply Hs. cbn. destruct (test_set (neg, t)); [by right|done].
Qed.

Lemma run_rules_agree fuel rs mark :
  Forall (closed chains sets) rs →
  run_rules env1 lines1 p fuel rs mark = run_rules env2 lines2 p fuel rs mark.
Proof.
  revert rs mark. induction fuel as [|fuel IHf]; intros rs mark Hrs; revert mark;
    induction Hrs as [|r rs [Hj Ht] Hrs IH]; intros mark; try done;
    rewrite !run_rules_cons, (tests_agree _ _ Ht), !IH;
    (destruct (tests_hold env2 p mark (fr_tests r)); [|done]);
    destruct (fr_target r) as [d| | | | | | |] eqn:Hd; rewrite ?IH; try done.
  unfold run_chain. rewrite (Hchains d) by by apply Hj. rewrite IHf by by apply Hclosed, Hj.
  destruct (run_rules env2 lines2 p fuel _ mark) as [[]|]; try done. apply IH.
Qed.

Lemma run_chain_agree fuel c mark :
  c ∈ chains → run_chain env1 lines1 p fuel c mark = run_chain env2 lines2 p fuel c mark.
Proof.
  intros Hc. unfold run_chain. rewrite Hchains by done. by apply run_rules_agree, Hclosed.
Qed.
End agree.

(** Every rule of a table is filed under its chain. *)
Definition table_wf (t : Table) : Prop :=
  ∀ c ls l d r, t !! c = Some ls → l ∈ ls → parse_line l = Some (d, r) → d = c.

Lemma chain_rules_filed lines c :
  (∀ l d r, l ∈ lines → parse_line l = Some (d, r) → d ≠ c) → chain_rules lines c = [].
Proof.
  induction lines as [|l lines IH]; intros Hne; [done|]. cbn. unfold line_rule.
  destruct (parse_line l) as [[d r]|] eqn:Hp.
  - rewrite decide_False by (eapply Hne; [apply list_elem_of_here|done]).
    apply IH. intros l' d' r' Hin. apply Hne. by right.
  - apply IH. intros l' d' r' Hin. apply Hne. by right.
Qed.

Lemma table_chain_rules t c :
  table_wf t → chain_rules (table_lines t) c = chain_rules (default [] (t !! c)) c.
Proof.
  intros Hwf. unfold table_lines. rewrite chain_rules_bind.
  destruct (t !! c) as [ls|] eqn:Hc; cbn [default].
  - rewrite (bind_unique fst _ _ (c, ls)); [done|apply NoDup_fst_map_to_list|by apply elem_of_map_to_list|].
    intros [d ls'] Hd Hne. apply elem_of_map_to_list in Hd. apply chain_rules_filed.
    intros l e r Hin Hp ->. apply Hne. cbn. symmetry. exact (Hwf d ls' l c r Hd Hin Hp).
  - apply bind_none. intros [d ls'] Hd%elem_of_map_to_list. apply chain_rules_filed.
    intros l e r Hin Hp ->. rewrite <-(Hwf d ls' l c r Hd Hin Hp) in Hd. congruence.
Qed.

Lemma rules_of_chain lines c : chain_rules (rules_of lines c) c = chain_rules lines c.
Proof.
  unfold rules_of. induction lines as [|l lines IH]; [done|]. rewrite filter_cons.
  assert (∀ k, chain_rules (l :: k) c = option_list (line_rule c l) ++ chain_rules k c) as Hcons
    by (intros k; cbn; by destruct (line_rule c l)).
  case_decide as Hc; rewrite ?Hcons, IH; [done|].
  assert (line_rule c l = None) as ->; [|done]. unfold line_rule. unfold chain_of in Hc.
  destruct (parse_line l) as [[d r]|]; [|done]. cbn in Hc. by rewrite decide_False by congruence.
Qed.

Lemma lines_closed_rules chains sets lines c :
  Forall (line_closed chains sets) lines → Forall (closed chains sets) (chain_rules lines c).
Proof.
  rewrite !Forall_forall. intros Hl r (l & Hin & Hr)%list_elem_of_omap.
  destruct (Hl l Hin) as (d & r' & Hp & _ & _ & Hc). unfold line_rule in Hr. rewrite Hp in Hr.
  case_decide; [|done]. by injection Hr as <-.
Qed.
