(* ===== verification/PassFacts.v ===== *)
(** * PassFacts: the plans of the firewall on a node

    The document of a plan stays within the chains and sets of the plan, each of
    its rules is one line, and its sets can be restored. *)

From stdpp Require Import gmap sets list strings pretty sorting.
From Stdlib Require Import Ascii ZArith Lia.
From S2P Require Import Prelude Text Net IpText Common Netlink Netpol Synth Filter FilterFacts SynthFacts.
From S2P Require Import PlanChains PolicySpec NetpolFacts TailFacts NetpolTheorems Netfilter NetfilterFacts.
Import Naming Names Translate Ipset Iptables.

Local Open Scope Z_scope.

(** ** The document of a plan stays within the plan *)

(** A rule without a jump and without a set. *)
Definition plain_rule (r : FilterRule) : bool :=
  match fr_target r with Jump _ => false | _ => true end && bool_decide (omap test_set (fr_tests r) = []).

Lemma plain_closed chains sets r : plain_rule r = true → closed chains sets r.
Proof.
  unfold plain_rule. intros [Hj Ht%bool_decide_eq_true]%andb_true_iff. split.
  - intros d Hd. by rewrite Hd in Hj.
  - intros s. rewrite Ht. by intros ?%elem_of_nil.
Qed.

Lemma jump_closed chains sets ts d :
  d ∈ chains → omap test_set ts = [] → closed chains sets (jump_rule ts d).
Proof.
  intros Hd Ht. split; [by intros d' [= <-]|]. cbn [fr_tests jump_rule]. rewrite Ht. by intros s ?%elem_of_nil.
Qed.

Lemma omap_all {A B} (f : A → option B) l x :
  length (omap f l) = length l → x ∈ l → ∃ y, f x = Some y ∧ y ∈ omap f l.
Proof.
  assert (∀ k : list A, (length (omap f k) ≤ length k)%nat) as Hle.
  { induction k as [|a k IH]; cbn; [lia|]. destruct (f a); cbn; lia. }
  induction l as [|a l IH]; [by intros _ ?%elem_of_nil|]. cbn. destruct (f a) as [b|] eqn:Ha; cbn.
  - intros [= Hl] [->|Hx]%elem_of_cons; [exists b; split; [done|by left]|].
    destruct (IH Hl Hx) as (y & Hy & Hin). exists y. split; [done|by right].
  - intros Hl. specialize (Hle l). lia.
Qed.

(** Lines that all parse to the rules of one chain. *)
Lemma lines_parsed chains sets c lines :
  length (chain_rules lines c) = length lines → Forall (in_chains [c]) lines → c ∈ chains →
  Forall (closed chains sets) (chain_rules lines c) → Forall (line_closed chains sets) lines.
Proof.
  intros Hlen Hin Hc Hcl. rewrite Forall_forall in Hin. rewrite Forall_forall in Hcl. apply Forall_forall. intros l Hl.
  destruct (omap_all (line_rule c) lines l Hlen Hl) as (r & Hr & Hrin).
  destruct (Hin l Hl) as (d & Hd%list_elem_of_singleton & Hline). subst d.
  exists c, r. split_and!; [|done|done|by apply Hcl].
  unfold line_rule in Hr. destruct (parse_line l) as [[d r']|]; [|done].
  case_decide; [|done]. by simplify_eq.
Qed.

Lemma line_closed_intro chains sets c r rest :
  parse_line ("-A " +:+ c +:+ " " +:+ rest) = Some (c, r) → c ∈ chains → closed chains sets r →
  line_closed chains sets ("-A " +:+ c +:+ " " +:+ rest).
Proof. intros Hp Hc Hr. exists c, r. split_and!; [done|by exists rest|done|done]. Qed.

Section plan.
Context `{IpNetLib} `{HashLaws} `{FilterLaws} `{!FilterNetLaws}.
Variables (policies : list NetworkPolicy) (pods : list Pod) (namespaces : list Namespace).
Variables (node : string) (family : IpFamily) (ver : string) (dd : bool).
Variables (pod_cidrs ranges : list IpNet) (npr : option string).

Let plan := the_plan policies pods namespaces node family ver dd pod_cidrs ranges npr.

Definition plan_chains : list string :=
  [ROUTER_INPUT; ROUTER_FORWARD; ROUTER_OUTPUT; NWPLCY_COMMON; NWPLCY_DEFAULT; NWPLCY_TAIL] ++
  ((λ pol, policy_chain pol ver family) <$> applied_policies policies) ++
  ((λ pod, pod_chain pod ver) <$> chained_pods policies pods node family).
Definition plan_sets : list string := ipl_name <$> fp_ipsets plan.

Lemma plan_decls : fp_decls plan = chain_decl <$> plan_chains.
Proof.
  unfold plan, the_plan. rewrite (proj1 (proj2
    (plan_contents policies pods namespaces node family ver dd pod_cidrs ranges npr))).
  unfold plan_chains. rewrite !fmap_app. do 2 f_equal; [|f_equal]; by rewrite <-list_fmap_compose.
Qed.

Lemma plan_chains_ok : Forall (λ c, word c = true ∧ (String.length c ≤ CHAIN_MAX)%nat) plan_chains.
Proof.
  unfold plan_chains, CHAIN_MAX. repeat apply Forall_app_2.
  - repeat (apply Forall_cons; split; [split; [done|cbn; lia]|]). apply Forall_nil_2.
  - apply Forall_map_intro. intros pol. rewrite length_policy_chain.
    split; [apply word_policy_chain|lia].
  - apply Forall_map_intro. intros pod. rewrite length_pod_chain. split; [apply word_pod_chain|lia].
Qed.

Lemma fixed_in c : c ∈ fixed_chains → c ∈ plan_chains.
Proof.
  unfold plan_chains, fixed_chains. rewrite elem_of_app, !elem_of_cons. intros Hc. left. tauto.
Qed.

Lemma policy_in pol : pol ∈ applied_policies policies → policy_chain pol ver family ∈ plan_chains.
Proof.
  intros Hpol. unfold plan_chains. rewrite !elem_of_app. right; left.
  by apply (list_elem_of_fmap_2 (λ pol, policy_chain pol ver family)).
Qed.

Lemma pod_in pod : pod ∈ chained_pods policies pods node family → pod_chain pod ver ∈ plan_chains.
Proof.
  intros Hpod. unfold plan_chains. rewrite !elem_of_app. right; right.
  by apply (list_elem_of_fmap_2 (λ pod, pod_chain pod ver)).
Qed.

Lemma fixed_lines_closed :
  Forall (line_closed plan_chains plan_sets) (common_rules family ++ default_rules ++ tail_jumps).
Proof.
  apply Forall_app_2; [|apply Forall_app_2].
  - apply (lines_parsed _ _ NWPLCY_COMMON); [by destruct family; vm_compute|apply common_rules_in|
      apply fixed_in; by left|].
    rewrite common_rules_chain. eapply Forall_impl; [|apply (plain_closed plan_chains plan_sets)].
    apply Forall_forall. intros r Hr%list_elem_of_In. revert r Hr. apply forallb_forall.
    by destruct family; vm_compute.
  - apply (lines_parsed _ _ NWPLCY_DEFAULT); [by vm_compute|apply default_rules_in|
      apply fixed_in; right; by left|].
    rewrite default_rules_chain. apply Forall_singleton. by apply plain_closed.
  - unfold tail_jumps. apply Forall_fmap, Forall_forall. intros c Hc.
    apply (line_closed_intro _ _ c (jump_rule [] NWPLCY_TAIL) ("-j " +:+ NWPLCY_TAIL)).
    + assert (word c = true) as Hw.
      { pose proof top_words as Ht. rewrite Forall_forall in Ht. by apply Ht. }
      line_words ["-A"; c; "-j"; NWPLCY_TAIL].
    + by apply fixed_in, top_fixed.
    + apply jump_closed; [|done]. apply fixed_in. unfold fixed_chains. rewrite !elem_of_cons. tauto.
Qed.

(** *** The lines of a policy *)

Definition ref_in (sets : list IpsetPlan) (r : SetRef) : Prop :=
  match r with Some (set, _) => set ∈ ipl_name <$> sets | None => True end.

Lemma ref_in_more r sets sets' : ref_in sets r → sets ⊆ sets' → ref_in sets' r.
Proof.
  destruct r as [[set side]|]; [|done]. intros (x & -> & Hx)%list_elem_of_fmap Hsub.
  apply list_elem_of_fmap_2. by apply Hsub.
Qed.

Lemma peer_refs_in dir pol idx resolved r :
  r ∈ peer_refs dir pol idx family resolved → ref_in (peer_ipsets dir pol idx family resolved) r.
Proof.
  unfold peer_refs, peer_ipsets. destruct (peer_sets dir pol idx family) as [s1 s2].
  destruct (match_all resolved); [by intros ->%list_elem_of_singleton|].
  intros [Hr|Hr]%elem_of_app; [destruct (ip_entries resolved)|destruct (net_entries resolved)];
    try (by apply elem_of_nil in Hr); apply list_elem_of_singleton in Hr as ->; unfold ref_in;
    rewrite fmap_app, elem_of_app; [left|right]; by left.
Qed.

Lemma rule_refs_in dir pol idx rule v :
  v ∈ rule_verdicts dir pol pods namespaces family (idx, rule) →
  ∀ r, r ∈ [v.1.1; v.1.2] →
  ref_in (own_ipset dir pol pods family :: rule_ipsets dir pol pods namespaces family (idx, rule)) r.
Proof.
  unfold rule_verdicts, rule_ipsets. cbn [fst snd].
  set (resolved := rule_resolved pol pods namespaces family rule).
  intros (peer & Hv & Hpeer)%list_elem_of_bind.
  set (all := own_ipset dir pol pods family :: _).
  assert (ref_in all (own_ref dir pol family)) as Hown by (cbn; by left).
  assert (ref_in all peer) as Hp.
  { eapply ref_in_more; [by eapply peer_refs_in|]. intros x Hx. right. apply elem_of_app. by left. }
  assert (∀ a b, ref_in all a → ref_in all b → ∀ r : SetRef, r ∈ [a; b] → ref_in all r) as Htwo.
  { intros a b Ha Hb r. rewrite !elem_of_cons. by intros [->|[->|?%elem_of_nil]]. }
  destruct (pr_ports rule) as [|port0 ports0] eqn:Hports.
  { apply list_elem_of_singleton in Hv as ->. by apply Htwo. }
  apply list_elem_of_bind in Hv as (port & Hv & Hport). unfold port_verdicts in Hv.
  destruct (ps_port port) as [|n|name] eqn:Hport'.
  1, 2: apply list_elem_of_singleton in Hv as ->; by apply Htwo.
  apply list_elem_of_fmap in Hv as (x & -> & Hx). cbn [fst snd group_verdict].
  apply Htwo; [by destruct dir|]. unfold ref_in. apply list_elem_of_fmap.
  exists (group_ipset dir pol idx family x). split; [done|]. right. apply elem_of_app. right.
  apply list_elem_of_bind. exists peer. split; [|done]. apply list_elem_of_bind. exists port.
  split; [|done]. unfold port_ipsets. rewrite Hport'. by apply list_elem_of_fmap_2.
Qed.

Lemma policy_refs_in pol v r :
  v ∈ policy_verdicts pods namespaces family pol → r ∈ [v.1.1; v.1.2] →
  ref_in (policy_ipsets pods namespaces family pol) r.
Proof.
  assert (∀ dir, v ∈ dir_verdicts dir pol pods namespaces family → r ∈ [v.1.1; v.1.2] →
    ref_in (dir_ipsets dir pol pods namespaces family) r) as Hdir.
  { intros dir. unfold dir_verdicts, dir_ipsets. destruct (policy_has dir pol); [|by intros ?%elem_of_nil].
    intros ([idx rule] & Hv & Hrule)%list_elem_of_bind Hr.
    eapply ref_in_more; [by eapply rule_refs_in|]. intros x [->|Hx]%elem_of_cons; [by left|].
    right. apply list_elem_of_bind. by exists (idx, rule). }
  unfold policy_verdicts, policy_ipsets. intros [Hv|Hv]%elem_of_app Hr;
    (eapply ref_in_more; [by eapply Hdir|]); intros x Hx; apply elem_of_app; tauto.
Qed.

Lemma policy_sets_in pol set :
  pol ∈ applied_policies policies → set ∈ ipl_name <$> policy_ipsets pods namespaces family pol →
  set ∈ plan_sets.
Proof.
  intros Hpol (x & -> & Hx)%list_elem_of_fmap. unfold plan_sets. apply list_elem_of_fmap_2.
  unfold plan, the_plan. rewrite (proj1
    (plan_contents policies pods namespaces node family ver dd pod_cidrs ranges npr)).
  apply elem_of_app. left. apply list_elem_of_bind. by exists pol.
Qed.

Lemma verdict_test_sets v s :
  s ∈ omap test_set (verdict_tests v) → ∃ side, Some (s, side) ∈ [v.1.1; v.1.2].
Proof.
  destruct v as [[a b] c]. unfold verdict_tests. cbn [fst snd]. rewrite !omap_app, !elem_of_app.
  assert (∀ r, s ∈ omap test_set (ref_tests r) → ∃ side, r = Some (s, side)) as Href.
  { intros [[set side]|]; cbn; [|by intros ?%elem_of_nil]. intros ->%list_elem_of_singleton. by exists side. }
  intros [Hs|[Hs|Hs]].
  - apply Href in Hs as [side ->]. exists side. by left.
  - apply Href in Hs as [side ->]. exists side. right. by left.
  - destruct c; cbn in Hs; by apply elem_of_nil in Hs.
Qed.

Lemma policy_lines_closed pol :
  pol ∈ applied_policies policies → Forall pod_ok pods → policy_ok pol →
  Forall (line_closed plan_chains plan_sets)
    (policy_verdicts pods namespaces family pol ≫= verdict_lines (policy_chain pol ver family)).
Proof.
  intros Hpol Hpods Hok. pose proof (policy_verdicts_words pods namespaces family pol Hpods Hok) as Hw.
  rewrite Forall_forall in Hw. apply Forall_bind. intros v Hv.
  pose proof (word_policy_chain pol ver family) as Hc.
  pose proof (verdict_lines_rules _ v Hc (Hw v Hv)) as Hrules.
  apply (lines_parsed _ _ (policy_chain pol ver family)).
  - rewrite Hrules. by destruct v as [[? ?] ?].
  - apply verdict_lines_in.
  - by apply policy_in.
  - rewrite Hrules. unfold verdict_pair.
    assert (∀ s, s ∈ omap test_set (verdict_tests v) → s ∈ plan_sets) as Hs.
    { intros s (side & Hin)%verdict_test_sets. apply (policy_sets_in pol); [done|].
      exact (policy_refs_in pol v (Some (s, side)) Hv Hin). }
    repeat (apply Forall_cons; split); try apply Forall_nil_2; split; try done.
    cbn [fr_tests]. intros s. rewrite omap_app, elem_of_app. intros [?|Hin]; [by apply Hs|].
    cbn in Hin. by apply elem_of_nil in Hin.
Qed.

(** *** The lines of a pod *)

Lemma length_bind_same {A B C} (f : A → list B) (g : A → list C) l :
  (∀ x, length (f x) = length (g x)) → length (l ≫= f) = length (l ≫= g).
Proof.
  intros Hfg. induction l as [|x l IH]; [done|]. by rewrite !bind_cons, !length_app, Hfg, IH.
Qed.

Lemma pod_own_length selecting pod :
  length (pod_own_rules ver family selecting pod) = length (pod_own_lines ver family selecting pod).
Proof.
  unfold pod_own_rules, pod_own_lines. rewrite !length_app, !length_fmap.
  rewrite (length_bind_same (pod_dispatch_rules ver family selecting)
    (pod_dispatch (pod_chain pod ver) ver family selecting)); [done|].
  intros ip. unfold pod_dispatch_rules, pod_dispatch.
  rewrite !length_app. f_equal; [|f_equal; by destruct (existsb _ _)].
  apply length_bind_same. intros pol. unfold policy_jump_rule, policy_jump.
  by destruct (pt_ingress _), (pt_egress _).
Qed.

Lemma default_in : NWPLCY_DEFAULT ∈ plan_chains.
Proof. apply fixed_in. right. by left. Qed.

Lemma pod_own_closed pod :
  Forall ip_wf (pod_ips pod) → pod ∈ chained_pods policies pods node family →
  Forall (line_closed plan_chains plan_sets)
    (pod_own_lines ver family (selecting_policies policies pod) pod).
Proof.
  intros Hwf Hpod. apply (lines_parsed _ _ (pod_chain pod ver)).
  - by rewrite pod_own_parse, pod_own_length.
  - apply pod_own_lines_in.
  - by apply pod_in.
  - rewrite pod_own_parse by done. unfold pod_own_rules. repeat apply Forall_app_2.
    + apply Forall_singleton, jump_closed; [|done]. apply fixed_in. by left.
    + apply Forall_map_intro. intros ip. by apply plain_closed.
    + apply Forall_bind. intros ip _. unfold pod_dispatch_rules. apply Forall_app_2; [|apply Forall_app_2].
      * apply Forall_bind. intros pol Hpol. unfold policy_jump_rule.
        assert (policy_chain pol ver family ∈ plan_chains) as Hin.
        { apply policy_in, elem_of_applied. apply elem_of_selecting in Hpol. tauto. }
        destruct (pt_ingress _), (pt_egress _); try apply Forall_nil_2;
          apply Forall_singleton; by apply jump_closed.
      * destruct (existsb _ _); [apply Forall_nil_2|]. apply Forall_singleton, jump_closed; [apply default_in|done].
      * destruct (existsb _ _); [apply Forall_nil_2|]. apply Forall_singleton, jump_closed; [apply default_in|done].
    + unfold pod_verdict_rules. repeat (apply Forall_cons; split); try apply Forall_nil_2; by apply plain_closed.
Qed.

Lemma top_chain_in c : c ∈ top_chains → c ∈ plan_chains ∧ word c = true.
Proof.
  intros Hc. split; [by apply fixed_in, top_fixed|]. pose proof top_words as Ht.
  rewrite Forall_forall in Ht. by apply Ht.
Qed.

Lemma pod_entry_closed pod ip :
  pod ∈ chained_pods policies pods node family → word ip = true →
  Forall (line_closed plan_chains plan_sets) (pod_entry (pod_chain pod ver) ip).
Proof.
  intros Hpod%pod_in Hip. pose proof (word_pod_chain pod ver) as Hw.
  set (pc := pod_chain pod ver) in *.
  assert (∀ c ts rest, c ∈ top_chains → omap test_set ts = [] →
    parse_line ("-A " +:+ c +:+ " " +:+ rest) = Some (c, jump_rule ts pc) →
    line_closed plan_chains plan_sets ("-A " +:+ c +:+ " " +:+ rest)) as Hline.
  { intros c ts rest [Hc _]%top_chain_in Hts Hp. eapply line_closed_intro; [exact Hp|done|by apply jump_closed]. }
  assert (∀ c opt, c ∈ top_chains → opt = "-s" ∨ opt = "-d" →
    line_closed plan_chains plan_sets ("-A " +:+ c +:+ " " +:+ opt +:+ " " +:+ ip +:+ " -j " +:+ pc)) as Haddr.
  { intros c opt Hc Hopt. destruct (top_chain_in c Hc) as [_ Hcw].
    destruct Hopt as [->| ->].
    - apply (Hline c [(false, TSrc ip)] ("-s " +:+ ip +:+ " -j " +:+ pc)); [done|done|].
      line_words ["-A"; c; "-s"; ip; "-j"; pc].
    - apply (Hline c [(false, TDst ip)] ("-d " +:+ ip +:+ " -j " +:+ pc)); [done|done|].
      line_words ["-A"; c; "-d"; ip; "-j"; pc]. }
  assert (ROUTER_INPUT ∈ top_chains ∧ ROUTER_FORWARD ∈ top_chains ∧ ROUTER_OUTPUT ∈ top_chains)
    as (HI & HF & HO) by (unfold top_chains; rewrite !elem_of_cons; tauto).
  unfold pod_entry. cbn [fmap list_fmap app].
  repeat (apply Forall_cons; split); try apply Forall_nil_2;
    try (by apply (Haddr _ "-d"); [|right]); try (by apply (Haddr _ "-s"); [|left]).
  - apply (Hline _ [(false, TBridged); (false, TDst ip)]
      ("-m physdev --physdev-is-bridged -d " +:+ ip +:+ " -j " +:+ pc)); [done|done|].
    line_words ["-A"; ROUTER_FORWARD; "-m"; "physdev"; "--physdev-is-bridged"; "-d"; ip; "-j"; pc].
  - apply (Hline _ [(false, TBridged); (false, TSrc ip)]
      ("-m physdev --physdev-is-bridged -s " +:+ ip +:+ " -j " +:+ pc)); [done|done|].
    line_words ["-A"; ROUTER_FORWARD; "-m"; "physdev"; "--physdev-is-bridged"; "-s"; ip; "-j"; pc].
Qed.

(** *** The other lines *)

Definition ports_word : Prop := ∀ ports, npr = Some ports → word ports = true.

Lemma service_lines_closed :
  ports_word → Forall (line_closed plan_chains plan_sets) (service_return_rules family ranges npr).
Proof.
  intros Hnpr. destruct (top_chain_in ROUTER_INPUT (list_elem_of_here _ _)) as [Hin _].
  unfold service_return_rules. apply Forall_app_2.
  - apply Forall_map_intro. intros n. pose proof (net_word n) as Hw.
    apply (line_closed_intro _ _ _ {| fr_tests := [(false, TDst (net_to_string n))]; fr_target := Return |}
      ("-d " +:+ net_to_string n +:+ " -j RETURN")); [|done|by apply plain_closed].
    line_words ["-A"; ROUTER_INPUT; "-d"; net_to_string n; "-j"; "RETURN"].
  - revert Hnpr. unfold ports_word. generalize npr as o. intros o Ho.
    destruct o as [ports|]; [|apply Forall_nil_2]. pose proof (Ho ports eq_refl) as Hw.
    apply Forall_fmap, Forall_forall. intros proto Hproto. assert (word proto = true) as Hpw.
    { assert (Forall (λ q, word q = true) ["tcp"; "udp"; "sctp"]) as Hall by by repeat constructor.
      rewrite Forall_forall in Hall. by apply Hall. }
    apply (line_closed_intro _ _ _
      {| fr_tests := [(false, TProto proto); (false, TDstType "LOCAL"); (false, TDports ports)];
         fr_target := Return |}
      ("-p " +:+ proto +:+ " -m addrtype --dst-type LOCAL -m multiport --dports " +:+ ports +:+ " -j RETURN"));
      [|done|by apply plain_closed].
    line_words ["-A"; ROUTER_INPUT; "-p"; proto; "-m"; "addrtype"; "--dst-type"; "LOCAL"; "-m"; "multiport";
      "--dports"; ports; "-j"; "RETURN"].
Qed.

Lemma local_set_in : dd = true → local_pods_set family ∈ plan_sets.
Proof.
  intros Hdd. unfold plan_sets, plan, the_plan. rewrite (proj1
    (plan_contents policies pods namespaces node family ver dd pod_cidrs ranges npr)), Hdd, fmap_app.
  apply elem_of_app. right. by left.
Qed.

Lemma tail_lines_closed :
  Forall (line_closed plan_chains plan_sets) (tail_rules dd family pod_cidrs).
Proof.
  apply (lines_parsed _ _ NWPLCY_TAIL).
  - rewrite tail_rules_parse. generalize dd as b. intros b. unfold tail_chain, tail_rules.
    rewrite !length_app. f_equal; [|f_equal]; destruct b; try done; by apply length_bind_same.
  - apply tail_rules_in.
  - apply fixed_in. right; right; by left.
  - rewrite tail_rules_parse. pose proof local_set_in as Hset. revert Hset. generalize dd as b. intros b Hset.
    unfold tail_chain. apply Forall_app_2; [|apply Forall_app_2];
      [|apply Forall_singleton; by apply plain_closed|]; destruct b; try apply Forall_nil_2;
      apply Forall_bind; intros t _.
    + unfold unknown_rules. repeat (apply Forall_cons; split); try apply Forall_nil_2; (split; [done|]);
        cbn; intros s ->%list_elem_of_singleton; by apply Hset.
    + unfold closing_rules. repeat (apply Forall_cons; split); try apply Forall_nil_2; by apply plain_closed.
Qed.

(** Every rule of the document is filed under a chain it declares, jumps to
    chains it declares and tests sets the plan restores. *)
Lemma plan_lines_closed :
  Forall pod_ok pods → Forall policy_ok policies → ports_word →
  Forall (line_closed plan_chains plan_sets) (fp_rules plan).
Proof.
  intros Hpods Hpols Hnpr. unfold plan, the_plan. rewrite (proj2 (proj2
    (plan_contents policies pods namespaces node family ver dd pod_cidrs ranges npr))).
  pose proof fixed_lines_closed as Hfixed. rewrite !Forall_app in Hfixed. destruct Hfixed as (Hc & Hd & Hj).
  rewrite !Forall_app. split_and!; try done.
  - by apply service_lines_closed.
  - apply Forall_bind. intros pol Hpol. apply policy_lines_closed; [done|done|].
    rewrite Forall_forall in Hpols. by apply Hpols, elem_of_applied.
  - apply Forall_bind. intros pod Hpod. rewrite (pod_lines_chained _ _ _ _ _ _ Hpod), pod_rules_split.
    rewrite Forall_forall in Hpods.
    assert (Forall ip_wf (pod_ips pod)) as Hwf by (by apply Hpods, (proj1 (elem_of_chained _ _ _ _ _) Hpod)).
    apply Forall_app_2; [by apply pod_own_closed|]. apply Forall_bind. intros ip Hip.
    apply pod_entry_closed; [done|]. by eapply pod_ips_words.
  - apply tail_lines_closed.
Qed.

(** *** Each of them is one line *)

Ltac line_texts := repeat (apply Forall_cons; split); try apply Forall_nil_2; auto 40 with lines words.

Lemma one_line_verdicts c v :
  word c = true → verdict_words v → Forall (λ l, one_line l = true) (verdict_lines c v).
Proof.
  intros Hc. unfold verdict_words. rewrite !Forall_app. intros (Ha & Hb & Hp).
  destruct v as [[a b] p]. cbn [fst snd] in *.
  assert (∀ r, Forall (λ w, word w = true) (ref_list r) → one_line (ref_str r) = true) as Href.
  { intros [[set side]|] Hr; [|done]. cbn in Hr. rewrite !Forall_cons in Hr.
    destruct Hr as (_ & _ & _ & Hset & Hside & _). unfold ref_str, set_match. auto 20 with lines. }
  assert (one_line (port_str p) = true) as Hport.
  { destruct p as [|q|q n]; cbn in Hp |- *; [done|..]; rewrite ?Forall_cons in Hp.
    - destruct Hp as (_ & Hq & _). change (one_line (" -p " +:+ q) = true). auto with lines.
    - destruct Hp as (_ & Hq & _ & Hn & _).
      change (one_line (" -p " +:+ q +:+ " --dport " +:+ pretty n) = true). auto 10 with lines. }
  pose proof (Href a Ha). pose proof (Href b Hb). unfold verdict_lines. cbn [fst snd]. line_texts.
Qed.

Lemma one_line_pod pod :
  Forall ip_wf (pod_ips pod) →
  Forall (λ l, one_line l = true)
    (pod_rules ver family (selecting_policies policies pod) pod).
Proof.
  intros Hwf. pose proof (word_pod_chain pod ver) as Hc. pose proof (pod_ips_words pod family Hwf) as Hips.
  unfold pod_rules. set (pc := pod_chain pod ver) in *. clearbody pc. rewrite !Forall_app. split_and!.
  - line_texts.
  - apply Forall_fmap, Forall_forall. intros ip Hip%Hips. cbn. auto 20 with lines.
  - apply Forall_bind. intros ip Hip%Hips. unfold pod_dispatch. rewrite !Forall_app. split_and!.
    + apply Forall_bind. intros pol _. unfold policy_jump. pose proof (word_policy_chain pol ver family).
      destruct (pt_ingress _), (pt_egress _); line_texts.
    + destruct (existsb _ _); line_texts.
    + destruct (existsb _ _); line_texts.
  - unfold pod_verdict. destruct family; line_texts.
  - apply Forall_bind. intros ip Hip%Hips. unfold pod_entry. cbn [fmap list_fmap app]. line_texts.
Qed.

Lemma one_line_tail b : Forall (λ l, one_line l = true) (tail_rules b family pod_cidrs).
Proof.
  assert (∀ t, t ∈ net_to_string <$> filter (λ c, net_in_family c family = true) pod_cidrs →
    word t = true) as Hw by (intros t (n & -> & _)%list_elem_of_fmap; apply net_word).
  assert (word (local_pods_set family) = true ∧ one_line (reject_target family) = true) as [Hset Hrej]
    by by destruct family.
  unfold tail_rules. rewrite !Forall_app. split_and!.
  - destruct b; [|apply Forall_nil_2]. apply Forall_bind. intros t Ht%Hw. line_texts.
  - line_texts.
  - destruct b; [|apply Forall_nil_2]. apply Forall_bind. intros t Ht%Hw. line_texts.
Qed.

Lemma plan_one_line :
  Forall pod_ok pods → Forall policy_ok policies → ports_word →
  Forall (λ l, one_line l = true) (fp_rules plan).
Proof.
  intros Hpods Hpols Hnpr. unfold plan, the_plan. rewrite (proj2 (proj2
    (plan_contents policies pods namespaces node family ver dd pod_cidrs ranges npr))).
  rewrite !Forall_app. split_and!.
  - destruct family; cbn; line_texts.
  - line_texts.
  - unfold service_return_rules. rewrite Forall_app. split.
    + apply Forall_map_intro. intros n. pose proof (net_word n). auto 12 with lines.
    + revert Hnpr. unfold ports_word. generalize npr as o. intros [ports|] Ho; [|apply Forall_nil_2].
      pose proof (Ho ports eq_refl). cbn [fmap list_fmap]. line_texts.
  - apply Forall_bind. intros pol Hpol. apply Forall_bind. intros v Hv. apply one_line_verdicts.
    + apply word_policy_chain.
    + rewrite Forall_forall in Hpols.
      pose proof (policy_verdicts_words pods namespaces family pol Hpods
        (Hpols pol (proj1 (proj1 (elem_of_applied _ _) Hpol)))) as Hw.
      rewrite Forall_forall in Hw. by apply Hw.
  - apply Forall_bind. intros pod Hpod. rewrite (pod_lines_chained _ _ _ _ _ _ Hpod).
    rewrite Forall_forall in Hpods. apply one_line_pod.
    by apply Hpods, (proj1 (elem_of_chained _ _ _ _ _) Hpod).
  - apply one_line_tail.
  - unfold tail_jumps. cbn [fmap list_fmap]. line_texts.
Qed.

(** ** The sets of a plan can be restored *)

(** An address of a pod, in the family. *)
Definition address_entry (e : string) : Prop := ∃ pod, pod ∈ pods ∧ e ∈ pod_family_ips pod family.

(** The blocks of the family and their exceptions have a prefix. *)
Definition blocks_ok : Prop :=
  ∀ pol dir rule cidr except, pol ∈ policies → rule ∈ policy_rules dir pol →
    PeerIpBlock cidr except ∈ pr_peers rule → net_in_family cidr family = true →
    0 < net_prefix_len cidr ∧
    Forall (λ ex, 0 < net_prefix_len ex ∧ of_net ex = family) except.

Definition hashed_name (n : string) : Prop :=
  ∃ p t, (p = SRC_PREFIX ∨ p = DST_PREFIX) ∧ n = p +:+ hash16 t.

Record plan_set (pol : NetworkPolicy) (x : IpsetPlan) : Prop := {
  ps_name : hashed_name (ipl_name x);
  ps_family : ipl_family x = family;
  ps_entries :
    (ipl_type x = HashIp ∧ Forall address_entry (ipl_entries x)) ∨
    (ipl_type x = HashNet ∧ ∃ dir rule, rule ∈ policy_rules dir pol ∧
       ipl_entries x = block_entries family (pr_peers rule));
}.

Lemma set_names_hashed dir pol idx ep :
  hashed_name (peer_sets dir pol idx family).1 ∧ hashed_name (peer_sets dir pol idx family).2 ∧
  hashed_name (target_set dir pol family) ∧ hashed_name (named_port_set dir pol idx ep family).
Proof. destruct dir; split_and!; eexists _, _; (split; [|reflexivity]); tauto. Qed.

Lemma peer_strings_address pol rule e :
  e ∈ ip_entries (rule_resolved pol pods namespaces family rule) → address_entry e.
Proof.
  unfold rule_resolved. destruct (resolve_peers_spec pods namespaces (np_namespace pol) family (pr_peers rule))
    as (_ & _ & ->).
  intros ([nss ps|] & He & _)%list_elem_of_bind; [|by apply elem_of_nil in He].
  apply list_elem_of_bind in He as (pod & He & Hpod%elem_of_peer_pods). by exists pod.
Qed.

Lemma policy_set_ok pol x :
  Forall pod_ok pods → x ∈ policy_ipsets pods namespaces family pol → plan_set pol x.
Proof.
  intros Hpods.
  assert (∀ dir, x ∈ dir_ipsets dir pol pods namespaces family → plan_set pol x) as Hdir.
  { intros dir. unfold dir_ipsets. destruct (policy_has dir pol); [|by intros ?%elem_of_nil].
    intros [->|([idx rule] & Hx & (i & rule' & [= -> ->] & Hrule%list_elem_of_lookup_2)%elem_of_lookup_imap)%list_elem_of_bind]%elem_of_cons.
    - split; [apply (set_names_hashed dir pol 0 0)|done|left; split; [done|]]. apply Forall_forall.
      intros e (pod & He & [_ Hpod]%list_elem_of_filter)%list_elem_of_bind. by exists pod.
    - revert Hx. unfold rule_ipsets. cbn [fst snd]. intros [Hx|Hx]%elem_of_app.
      + unfold peer_ipsets in Hx. destruct (set_names_hashed dir pol i 0) as (Hn1 & Hn2 & _).
        destruct (peer_sets dir pol i family) as [s1 s2]. cbn [fst snd] in Hn1, Hn2.
        destruct (match_all _); [by apply elem_of_nil in Hx|].
        apply elem_of_app in Hx as [Hx|Hx].
        * pose proof (λ e, peer_strings_address pol rule' e) as Ha.
          destruct (ip_entries _) as [|e es]; [by apply elem_of_nil in Hx|].
          apply list_elem_of_singleton in Hx as ->. split; [done..|left; split; [done|]].
          by apply Forall_forall.
        * pose proof (proj1 (proj2 (resolve_peers_spec pods namespaces (np_namespace pol) family
            (pr_peers rule')))) as Hb. fold (rule_resolved pol pods namespaces family rule') in Hb.
          destruct (net_entries _) as [|e es]; [by apply elem_of_nil in Hx|].
          apply list_elem_of_singleton in Hx as ->. split; [done..|right; split; [done|]].
          by exists dir, rule'.
      + apply list_elem_of_bind in Hx as (peer & Hx & _).
        apply list_elem_of_bind in Hx as (port & Hx & _). unfold port_ipsets in Hx.
        destruct (ps_port port) as [| |name]; try (by apply elem_of_nil in Hx).
        apply list_elem_of_fmap in Hx as (y & -> & Hy).
        split; [apply (set_names_hashed dir pol i y.1)|done|left; split; [done|]].
        apply Forall_forall. cbn [ipl_entries group_ipset]. intros e He.
        apply (proj1 (elem_of_sorted_dedup _ _)) in He.
        apply elem_of_port_groups in Hy.
        destruct (named_groups_spec (port_receivers dir pol pods family
          (rule_resolved pol pods namespaces family rule')) name (ps_protocol port) family y.2.1) as [_ Hg].
        assert (group_has (named_groups (port_receivers dir pol pods family
          (rule_resolved pol pods namespaces family rule')) name (ps_protocol port) family) y.2.1 e) as Hhas
          by (unfold group_has; by rewrite Hy).
        apply Hg in Hhas as (pod & Hpod & _ & He'). exists pod. split; [|exact He'].
        by apply (receivers_spec pods namespaces family Hpods) in Hpod as [? _]. }
  unfold policy_ipsets. intros [Hx|Hx]%elem_of_app; by eapply Hdir.
Qed.

Lemma address_entry_text e : Forall pod_ok pods → address_entry e → entry_text e.
Proof.
  intros Hpods (pod & Hpod & (a & Ha & _ & ->)%elem_of_family_strings).
  rewrite Forall_forall in Hpods. destruct (Hpods pod Hpod) as [Hwf _]. rewrite Forall_forall in Hwf.
  exists (ip_to_string a). split; [by apply word_ip, Hwf|by left].
Qed.

Lemma block_entries_text peers : Forall entry_text (block_entries family peers).
Proof.
  apply Forall_bind. intros [nss ps|cidr except] _; [apply Forall_nil_2|].
  destruct (net_in_family cidr family); [|apply Forall_nil_2].
  apply Forall_cons. split; [exists (net_to_string cidr); split; [apply net_word|by left]|].
  apply Forall_map_intro. intros ex. exists (net_to_string ex). split; [apply net_word|by right].
Qed.

(** A block of the family is an entry of a set of the plan. *)
Lemma block_set_in pol dir rule cidr except :
  policy_has dir pol = true → rule ∈ policy_rules dir pol → PeerIpBlock cidr except ∈ pr_peers rule →
  net_in_family cidr family = true →
  ∃ x, x ∈ policy_ipsets pods namespaces family pol ∧ word (ipl_name x) = true ∧ ipl_type x = HashNet ∧
    Forall entry_text (ipl_entries x) ∧ net_to_string cidr ∈ ipl_entries x.
Proof.
  intros Hdir [idx Hidx]%list_elem_of_lookup Hpeer Hf.
  pose proof (resolve_peers_spec pods namespaces (np_namespace pol) family (pr_peers rule)) as (Hall & Hb & _).
  fold (rule_resolved pol pods namespaces family rule) in Hall, Hb.
  assert (net_to_string cidr ∈ net_entries (rule_resolved pol pods namespaces family rule)) as He.
  { rewrite Hb. unfold block_entries. apply list_elem_of_bind. exists (PeerIpBlock cidr except).
    split; [|exact Hpeer]. rewrite Hf. apply list_elem_of_here. }
  exists {| ipl_name := (peer_sets dir pol idx family).2; ipl_type := HashNet; ipl_family := family;
            ipl_entries := net_entries (rule_resolved pol pods namespaces family rule) |}.
  cbn [ipl_name ipl_type ipl_entries]. split_and!; [|by destruct dir; apply word_hash16|done| |done].
  - assert (∀ l, dir_ipsets dir pol pods namespaces family = l → ∀ x, x ∈ l →
      x ∈ policy_ipsets pods namespaces family pol) as Hpart.
    { intros l <- x Hx. unfold policy_ipsets. rewrite elem_of_app. destruct dir; tauto. }
    apply (Hpart _ eq_refl). unfold dir_ipsets. rewrite Hdir.
    apply list_elem_of_further, list_elem_of_bind. exists (idx, rule).
    split; [|apply elem_of_lookup_imap; by exists idx, rule].
    unfold rule_ipsets. apply elem_of_app. left. unfold peer_ipsets. cbn [fst snd].
    destruct (peer_sets dir pol idx family) as [s1 s2]. rewrite Hall.
    rewrite bool_decide_eq_false_2 by (intros Heq; rewrite Heq in Hpeer; by apply elem_of_nil in Hpeer).
    apply elem_of_app. right. destruct (net_entries _); [by apply elem_of_nil in He|].
    by apply list_elem_of_singleton.
  - rewrite Hb. apply block_entries_text.
Qed.

Context `{!IpsetEntries, !IpsetEntryLaws}.

Lemma hashed_name_ok n :
  hashed_name n →
  word n = true ∧ (4 + String.length n ≤ SETNAME_MAX)%nat ∧ starts_with "TMP-" n = false.
Proof.
  intros (p & t & Hp & ->). rewrite length_append, length_hash16. unfold SETNAME_MAX.
  destruct Hp as [->| ->]; (split_and!; [by apply word_hash16|apply Nat.leb_le; reflexivity|reflexivity]).
Qed.

Lemma address_entry_ok e :
  Forall pod_ok pods → address_entry e → entry_text e ∧ entry_ok HashIp family e = true.
Proof.
  intros Hpods He. split; [by apply address_entry_text|].
  destruct He as (pod & Hpod & (a & Ha & Hf%of_addr_in_family & ->)%elem_of_family_strings).
  rewrite Forall_forall in Hpods. destruct (Hpods pod Hpod) as [Hwf _]. rewrite Forall_forall in Hwf.
  rewrite <-Hf. by apply entry_ip, Hwf.
Qed.

Lemma block_entry_ok pol dir rule e :
  blocks_ok → pol ∈ policies → rule ∈ policy_rules dir pol →
  e ∈ block_entries family (pr_peers rule) → entry_text e ∧ entry_ok HashNet family e = true.
Proof.
  intros Hblocks Hpol Hrule ([nss ps|cidr except] & He & Hpeer)%list_elem_of_bind; [by apply elem_of_nil in He|].
  destruct (net_in_family cidr family) eqn:Hf; [|by apply elem_of_nil in He].
  destruct (Hblocks pol dir rule cidr except Hpol Hrule Hpeer Hf) as [Hlen Hex].
  apply elem_of_cons in He as [->|(ex & -> & Hin)%list_elem_of_fmap].
  - split; [exists (net_to_string cidr); split; [apply net_word|by left]|].
    unfold net_in_family in Hf. apply bool_decide_eq_true in Hf. rewrite <-Hf. by apply entry_net.
  - rewrite Forall_forall in Hex. destruct (Hex ex Hin) as [Hl Hfam].
    split; [exists (net_to_string ex); split; [apply net_word|by right]|].
    rewrite <-Hfam. by apply entry_nomatch.
Qed.

Lemma plan_sets_ok :
  Forall pod_ok pods → blocks_ok → (dd = true → family = FamV4) → Forall set_ok (fp_ipsets plan).
Proof.
  intros Hpods Hblocks Hdd. unfold plan, the_plan. rewrite (proj1
    (plan_contents policies pods namespaces node family ver dd pod_cidrs ranges npr)).
  apply Forall_app_2.
  - apply Forall_bind. intros pol Hpol. apply elem_of_applied in Hpol as [Hpol _].
    apply Forall_forall. intros x Hx.
    destruct (policy_set_ok pol x Hpods Hx) as [Hn Hfam Hent].
    destruct (hashed_name_ok _ Hn) as (Hw & Hlen & Ht).
    assert (Forall (λ e, entry_text e ∧ entry_ok (ipl_type x) (ipl_family x) e = true) (ipl_entries x)) as Hall.
    { rewrite Hfam. apply Forall_forall. intros e He.
      destruct Hent as [[-> Ha]|[-> (dir & rule & Hrule & Heq)]].
      - rewrite Forall_forall in Ha. by apply address_entry_ok, Ha.
      - rewrite Heq in He. by eapply block_entry_ok. }
    apply Forall_and in Hall as [Htext Hok]. by split.
  - revert Hdd. generalize dd as b. intros [] Hb; [|apply Forall_nil_2].
    assert (local_pods_set family = LOCAL_PODS_SET) as Hname by by rewrite (Hb eq_refl).
    apply Forall_singleton. split; cbn [ipl_name ipl_type ipl_family ipl_entries]; rewrite ?Hname;
      [done|apply Nat.leb_le; reflexivity|done|..]; apply Forall_bind; intros pod Hpod;
      apply elem_of_chained in Hpod as [Hpod _]; apply Forall_forall; intros e He;
      apply address_entry_ok; try done; by exists pod.
Qed.
End plan.
