(* ===== verification/PassTheorems.v ===== *)
(** * PassTheorems: a pass of the policy controller on a node

    From the snapshot of the stores to the fate of packets: the commands of a pass
    succeed on a node whose kernel does what their manuals say, and leave forward
    chains that enforce the policies; and inputs with which no pass can succeed. *)

From stdpp Require Import gmap sets list strings pretty sorting.
From Stdlib Require Import Ascii ZArith Lia.
From S2P Require Import Prelude Text Net IpText Common Netlink Netpol Synth Filter FilterFacts SynthFacts.
From S2P Require Import PlanChains PolicySpec NetpolFacts TailFacts NetpolTheorems KubeSpec Firewall.
From S2P Require Import Netfilter NetfilterFacts PassFacts.
Import Naming Names Translate Ipset Iptables PolicyController.

Local Open Scope Z_scope.

(** The built-in chains and what they jump to. *)
Definition pass_jumps : list (string * string) :=
  [("INPUT", ROUTER_INPUT); ("FORWARD", ROUTER_FORWARD); ("OUTPUT", ROUTER_OUTPUT)].

(** A chain after a jump has been ensured. *)
Definition with_jump (b t : string) (rules : list string) : list string :=
  if decide (jump_line b t ∈ rules) then rules else jump_line b t :: rules.

(** Filter tables as the kernel has them: rules are filed under their chains, and
    the built-in chains exist. *)
Definition table_ready (t : Table) : Prop :=
  table_wf t ∧ ∀ b c, (b, c) ∈ pass_jumps → is_Some (t !! b).

Lemma jump_line_parse b t :
  (b, t) ∈ pass_jumps → parse_line (jump_line b t) = Some (b, jump_rule [] t).
Proof.
  unfold pass_jumps. rewrite !elem_of_cons. intros [[= -> ->]|[[= -> ->]|[[= -> ->]|?%elem_of_nil]]];
    vm_compute; done.
Qed.

Section jumps.
Context {W : Type} `{NetfilterLaws W}.

Lemma ensure_jump_run family b t (w : W) rules :
  table_of w family !! b = Some rules → is_Some (table_of w family !! t) →
  ∃ w', ensure_jump (system_iptables family) b t w = (inr tt, w') ∧
    only_table family (<[b := with_jump b t rules]> (table_of w family)) w w'.
Proof.
  intros Hb [rt Ht]. unfold ensure_jump, system_iptables.
  destruct (run_iptables_check family b t w) as (out & err & w1 & -> & Hs1 & Ht1).
  rewrite Hb. cbn [default]. unfold with_jump. case_bool_decide as Hin.
  - exists w1. split; [done|]. rewrite decide_True by done. rewrite insert_id by done. by split.
  - rewrite decide_False by done.
    destruct (run_iptables_insert family b t w1) as (ok & out' & err' & w2 & -> & Hcase).
    rewrite !Ht1, Hb, Ht in Hcase. destruct Hcase as [-> (Hs2 & Ht2 & Ho2)]. exists w2. split; [done|].
    split_and!; [congruence|done|]. intros f Hf. by rewrite Ho2, Ht1.
Qed.

(** A table after jumps have been ensured. *)
Definition jumped (t : Table) (js : list (string * string)) : Table :=
  foldl (λ t j, <[j.1 := with_jump j.1 j.2 (default [] (t !! j.1))]> t) t js.

Definition ensure_jumps (family : IpFamily) (js : list (string * string)) : M W PolicySyncError unit :=
  mfor js (λ j, mmap_err PolicyIptables (ensure_jump (system_iptables family) j.1 j.2)).

Lemma ensure_jumps_three family (w : W) :
  (mmap_err PolicyIptables (ensure_jump (system_iptables family) "INPUT" ROUTER_INPUT);;
   mmap_err PolicyIptables (ensure_jump (system_iptables family) "FORWARD" ROUTER_FORWARD);;
   mmap_err PolicyIptables (ensure_jump (system_iptables family) "OUTPUT" ROUTER_OUTPUT)) w =
  ensure_jumps family pass_jumps w.
Proof.
  unfold ensure_jumps, pass_jumps. cbn [mfor fst snd]. unfold mbind, M_bind.
  destruct (mmap_err _ _ w) as [[e|[]] w1]; [done|]. destruct (mmap_err _ _ w1) as [[e|[]] w2]; [done|].
  by destruct (mmap_err _ _ w2) as [[e|[]] w3].
Qed.

Lemma jumped_some t js c : is_Some (t !! c) → is_Some (jumped t js !! c).
Proof.
  revert t. induction js as [|j js IH]; intros t Hc; [done|]. cbn [jumped foldl].
  apply IH. destruct (decide (j.1 = c)) as [->|Hne]; [by rewrite lookup_insert_eq|by rewrite lookup_insert_ne].
Qed.

Lemma ensure_jumps_run family js (w : W) :
  (∀ j, j ∈ js → is_Some (table_of w family !! j.1) ∧ is_Some (table_of w family !! j.2)) →
  ∃ w', ensure_jumps family js w = (inr tt, w') ∧ only_table family (jumped (table_of w family) js) w w'.
Proof.
  revert w. induction js as [|j js IH]; intros w Hjs; [by exists w|].
  destruct (Hjs j (list_elem_of_here j js)) as [[rules Hb] Ht].
  destruct (ensure_jump_run family j.1 j.2 w rules Hb Ht) as (w1 & Hrun & Hs1 & Ht1 & Ho1).
  destruct (IH w1) as (w2 & Hrun2 & Hs2 & Ht2 & Ho2).
  { intros j' Hj'. destruct (Hjs j' (list_elem_of_further _ _ _ Hj')) as [H1' H2'].
    rewrite Ht1. split; by apply (jumped_some _ [(j.1, j.2)] _) in H1', H2'; cbn in H1', H2'; rewrite Hb in H1', H2'. }
  exists w2. unfold ensure_jumps. cbn [mfor]. unfold mbind at 1, M_bind, mmap_err at 1. rewrite Hrun.
  split; [exact Hrun2|]. split_and!; [by rewrite Hs2, Hs1| |].
  - rewrite Ht2, Ht1. cbn [jumped foldl]. by rewrite Hb.
  - intros f Hf. by rewrite Ho2, Ho1.
Qed.

Lemma jumped_other t js c : (c ∉ js.*1) → jumped t js !! c = t !! c.
Proof.
  revert t. induction js as [|j js IH]; intros t; [done|]. rewrite fmap_cons.
  intros [Hne Hc]%not_elem_of_cons. cbn [jumped foldl]. change (foldl ?f ?s js) with (jumped s js).
  by rewrite IH, lookup_insert_ne by done.
Qed.

Lemma jumped_in t js b c rules :
  NoDup (js.*1) → (b, c) ∈ js → t !! b = Some rules → jumped t js !! b = Some (with_jump b c rules).
Proof.
  revert t. induction js as [|j js IH]; intros t; [by intros _ ?%elem_of_nil|]. rewrite fmap_cons.
  intros [Hj Hnd]%NoDup_cons Hin Hb. cbn [jumped foldl]. change (foldl ?f ?s js) with (jumped s js).
  apply elem_of_cons in Hin as [<-|Hin]; cbn [fst snd] in *.
  - rewrite jumped_other by done. by rewrite lookup_insert_eq, Hb.
  - apply IH; [done|done|]. rewrite lookup_insert_ne; [done|]. intros Heq. apply Hj. rewrite Heq.
    by apply (list_elem_of_fmap_2 fst js (b, c)).
Qed.
End jumps.

Lemma pass_jumps_distinct : NoDup (pass_jumps.*1).
Proof. by apply (bool_decide_unpack _); vm_compute. Qed.

Lemma jumped_wf t : table_ready t → table_ready (jumped t pass_jumps).
Proof.
  intros [Hwf Hready]. split.
  - intros b ls l d r Hb Hl Hp.
    destruct (decide (b ∈ pass_jumps.*1)) as [((b' & c) & -> & Hin)%list_elem_of_fmap|Hn];
      [|rewrite jumped_other in Hb by done; by eapply Hwf].
    cbn [fst] in *. destruct (Hready b' c Hin) as [rules Ht].
    rewrite (jumped_in t _ b' c rules pass_jumps_distinct Hin Ht) in Hb. injection Hb as <-.
    unfold with_jump in Hl. case_decide; [by eapply Hwf|].
    apply elem_of_cons in Hl as [->|Hl]; [|by eapply Hwf].
    rewrite (jump_line_parse b' c Hin) in Hp. by injection Hp.
  - intros b c Hin. by eapply jumped_some, Hready.
Qed.

Lemma plan_chain_long `{IpNetLib} `{HashLaws} policies pods node family ver c :
  c ∈ plan_chains policies pods node family ver → (16 ≤ String.length c)%nat.
Proof.
  unfold plan_chains. intros [Hc|[Hc|Hc]%elem_of_app]%elem_of_app.
  - revert c Hc. apply Forall_forall. repeat (apply Forall_cons; split; [cbn; lia|]). apply Forall_nil_2.
  - apply list_elem_of_fmap in Hc as (pol & -> & _). rewrite length_policy_chain. lia.
  - apply list_elem_of_fmap in Hc as (pod & -> & _). rewrite length_pod_chain. lia.
Qed.

Lemma builtin_not_plan `{IpNetLib} `{HashLaws} policies pods node family ver b c :
  (b, c) ∈ pass_jumps → b ∉ plan_chains policies pods node family ver.
Proof.
  intros Hin Hb%plan_chain_long. unfold pass_jumps in Hin. rewrite !elem_of_cons in Hin.
  destruct Hin as [[= -> ->]|[[= -> ->]|[[= -> ->]|?%elem_of_nil]]]; try done; cbn in Hb; lia.
Qed.

(** ** One family *)

Section pass.
Context `{IpNetLib} `{HashLaws} `{FilterLaws} `{!FilterNetLaws} `{!IpsetEntries, !IpsetEntryLaws}.
Context {W : Type} `{!CommandRunner W, !NetfilterNode W, !NetfilterLaws W}.
#[local] Existing Instance system_ipset.
Variables (self : FirewallController (W := W)) (world : PolicyWorld).

Definition family_plan (family : IpFamily) : FirewallPlan := controller_plan self world family.
Definition family_chains (family : IpFamily) : list string :=
  plan_chains (w_policies world) (w_pods world) (fc_node self) family (fc_sync_version self).

(** What a pass of one family does to a node. *)
Record applied (family : IpFamily) (w w' : W) : Prop := {
  ap_rules c : c ∈ family_chains family →
    table_of w' family !! c = Some (rules_of (fp_rules (family_plan family)) c);
  ap_jumps b c rules : (b, c) ∈ pass_jumps → table_of w family !! b = Some rules →
    table_of w' family !! b = Some (with_jump b c rules);
  ap_other c : (c ∉ family_chains family) → (c ∉ pass_jumps.*1) →
    table_of w' family !! c = table_of w family !! c;
  ap_ready : table_ready (table_of w' family);
}.

(** The world is well-formed, and its plan for a family can be carried out. *)
Record world_well : Prop := {
  wo_pods : Forall pod_ok (w_pods world);
  wo_policies : Forall policy_ok (w_policies world);
  wo_ports : ports_word (fc_node_port_range self);
}.
Record world_ok (family : IpFamily) : Prop := {
  wo_well : world_well;
  wo_blocks : blocks_ok (w_policies world) family;
  wo_deny : fc_default_deny self = true → family = FamV4;
}.

Section plan_facts.
Variable family : IpFamily.

Lemma family_sets_ok : world_ok family → Forall set_ok (fp_ipsets (family_plan family)).
Proof.
  intros [[Hpods Hpols Hports] Hblocks Hdeny].
  exact (plan_sets_ok _ _ _ _ _ _ _ _ _ _ Hpods Hblocks Hdeny).
Qed.

Lemma family_lines_closed :
  world_well →
  Forall (line_closed (family_chains family) (ipl_name <$> fp_ipsets (family_plan family)))
    (fp_rules (family_plan family)).
Proof.
  intros [Hpods Hpols Hports].
  exact (plan_lines_closed _ _ _ _ _ _ _ _ _ _ Hpods Hpols Hports).
Qed.

Lemma family_one_line :
  world_well → Forall (λ l, one_line l = true) (fp_rules (family_plan family)).
Proof.
  intros [Hpods Hpols Hports].
  exact (plan_one_line _ _ _ _ _ _ _ _ _ _ Hpods Hpols Hports).
Qed.

Lemma family_decls : fp_decls (family_plan family) = chain_decl <$> family_chains family.
Proof. exact (plan_decls _ _ _ _ _ _ _ _ _ _). Qed.

Lemma family_chains_ok :
  Forall (λ c, word c = true ∧ (String.length c ≤ CHAIN_MAX)%nat) (family_chains family).
Proof. exact (plan_chains_ok _ _ _ _ _). Qed.

Lemma builtin_not_family b c : (b, c) ∈ pass_jumps → b ∉ family_chains family.
Proof. exact (builtin_not_plan _ _ _ _ _ b c). Qed.

Lemma top_in_family b c : (b, c) ∈ pass_jumps → c ∈ family_chains family.
Proof.
  intros Hin. apply (fixed_in _ _ _ _ _). revert Hin. unfold pass_jumps, fixed_chains.
  rewrite !elem_of_cons. intros [[= _ ->]|[[= _ ->]|[[= _ ->]|?%elem_of_nil]]]; tauto.
Qed.
End plan_facts.

(** The half of a pass after its sets: the document is loaded and the jumps are
    ensured. *)
Definition document_of (family : IpFamily) : string :=
  filter_restore_doc (fp_decls (family_plan family)) (fp_rules (family_plan family)).
Definition apply_document (family : IpFamily) : M W PolicySyncError unit :=
  mmap_err PolicyIptables (restore_filter (system_iptables family) (document_of family));;
  ensure_jumps family pass_jumps.

Lemma apply_family_split family (w : W) :
  apply_family self world (family, system_iptables family) w =
  (mfor (fp_ipsets (family_plan family)) restore_set;; apply_document family) w.
Proof.
  unfold apply_family, apply_document, document_of.
  change (controller_plan self world family) with (family_plan family).
  unfold mbind at 1 5, M_bind. destruct (mfor _ restore_set w) as [[e|[]] w1]; [done|].
  unfold mbind at 1 4, M_bind. destruct (mmap_err _ (restore_filter _ _) w1) as [[e|[]] w2]; [done|].
  apply ensure_jumps_three.
Qed.

Lemma apply_document_run family (w : W) :
  world_well → (∀ x, x ∈ fp_ipsets (family_plan family) → is_Some (sets_of w !! ipl_name x)) →
  table_ready (table_of w family) →
  ∃ w', apply_document family w = (inr tt, w') ∧ sets_of w' = sets_of w ∧
    (∀ f, f ≠ family → table_of w' f = table_of w f) ∧ applied family w w'.
Proof.
  intros Hwell Hnames [Hwf Hready]. unfold apply_document, document_of.
  set (plan := family_plan family) in *.
  destruct (load_run (sets_of w) (family_chains family) (ipl_name <$> fp_ipsets plan)
    (fp_rules plan) (table_of w family)) as (t & Hload & Hin & Hout).
  { apply family_chains_ok. }
  { by apply family_one_line. }
  { by apply family_lines_closed. }
  { intros s (x & -> & Hx)%list_elem_of_fmap. by apply Hnames. }
  destruct (run_iptables_restore family (filter_restore_doc (fp_decls plan) (fp_rules plan)) w)
    as (ok & out & err & w2 & Hrun2 & Hcase).
  assert (fp_decls plan = chain_decl <$> family_chains family) as Hdecls by apply family_decls.
  rewrite Hdecls in Hcase, Hrun2. rewrite Hload in Hcase. destruct Hcase as [-> (Hs2 & Ht2 & Ho2)].
  unfold mbind at 1, M_bind, mmap_err at 1. unfold restore_filter at 1, system_iptables at 1.
  rewrite Hdecls, Hrun2. clear Hrun2 Hload.
  assert (table_ready t) as Hrt.
  { split.
    - intros c ls l d r Hc Hl Hp. destruct (decide (c ∈ family_chains family)) as [Hcin|Hcn].
      + rewrite Hin in Hc by done. injection Hc as <-. apply list_elem_of_filter in Hl as [Hl _].
        unfold chain_of in Hl. rewrite Hp in Hl. by injection Hl.
      + rewrite Hout in Hc by done. by eapply Hwf.
    - intros b c Hbc. rewrite Hout by (by eapply builtin_not_family). by eapply Hready. }
  destruct (ensure_jumps_run family pass_jumps w2) as (w3 & Hrun3 & Hs3 & Ht3 & Ho3).
  { intros [b c] Hbc. rewrite Ht2. split; [by eapply (proj2 Hrt)|]. cbn [snd].
    rewrite Hin; [by eexists|]. by eapply top_in_family. }
  exists w3. split; [exact Hrun3|].
  split; [by rewrite Hs3, Hs2|]. split; [intros f Hf; by rewrite Ho3, Ho2|].
  split.
  - intros c Hc. rewrite Ht3, jumped_other, Ht2; [by apply Hin|].
    intros ((b & c') & -> & Hbc)%list_elem_of_fmap. by eapply builtin_not_family.
  - intros b c rules Hbc Hb. rewrite Ht3, Ht2. apply jumped_in; [apply pass_jumps_distinct|done|].
    rewrite Hout by by eapply builtin_not_family. exact Hb.
  - intros c Hc Hb. by rewrite Ht3, jumped_other, Ht2, Hout.
  - rewrite Ht3, Ht2. by apply jumped_wf.
Qed.

Lemma apply_family_run family (w : W) :
  world_ok family → names_determine (fp_ipsets (family_plan family)) →
  all_fit (fp_ipsets (family_plan family)) (sets_of w) → table_ready (table_of w family) →
  ∃ w', apply_family self world (family, system_iptables family) w = (inr tt, w') ∧
    sets_of w' = sets_after (fp_ipsets (family_plan family)) (sets_of w) ∧
    (∀ f, f ≠ family → table_of w' f = table_of w f) ∧ applied family w w'.
Proof.
  intros Hok Hnd Hfit Hready. rewrite apply_family_split.
  pose proof (family_sets_ok family Hok) as Hsets.
  destruct (restore_sets_run (fp_ipsets (family_plan family)) w Hnd Hsets Hfit) as (w1 & Hrun1 & Hsame1 & Hs1).
  unfold mbind at 1, M_bind. rewrite Hrun1.
  destruct (apply_document_run family w1) as (w2 & Hrun2 & Hs2 & Ho2 & Hap).
  - apply Hok.
  - intros x Hx. rewrite Hs1, sets_after_in by done. by eexists.
  - by rewrite Hsame1.
  - exists w2. split; [exact Hrun2|]. split; [by rewrite Hs2|]. split; [intros f Hf; by rewrite Ho2|].
    destruct Hap as [Hr Hj Hother Hrd]. split; [done|..|done].
    + intros b c rules. rewrite <-Hsame1. apply Hj.
    + intros c. rewrite <-Hsame1. apply Hother.
Qed.

(** A node on which the plan has been carried out runs packets as the plan. *)
Lemma node_runs_plan family (w w' : W) p fuel c mark :
  world_ok family → names_determine (fp_ipsets (family_plan family)) → applied family w w' →
  (∀ x, x ∈ fp_ipsets (family_plan family) → sets_of w' !! ipl_name x = Some (kernel_set x)) →
  c ∈ family_chains family →
  node_run w' family p fuel c mark =
  run_chain (set_env (fp_ipsets (family_plan family))) (fp_rules (family_plan family)) p fuel c mark.
Proof.
  intros Hok Hnd [Hrules _ _ [Hwf _]] Hsets Hc. unfold node_run.
  apply (run_chain_agree _ _ _ _ p (family_chains family) (ipl_name <$> fp_ipsets (family_plan family)));
    [| | |done].
  - intros d Hd. rewrite table_chain_rules by done. rewrite Hrules by done. apply rules_of_chain.
  - intros s (x & -> & Hx)%list_elem_of_fmap. etrans; [exact (lookup_fmap _ (sets_of w') (ipl_name x))|].
    rewrite Hsets by done. symmetry. apply set_env_lookup; [|done]. intros y Hy Heq. by apply Hnd.
  - intros d _. apply lines_closed_rules. apply family_lines_closed, Hok.
Qed.

(** ** All the families *)

Definition all_sets (families : list IpFamily) : list IpsetPlan :=
  families ≫= λ f, fp_ipsets (family_plan f).

Lemma all_fit_after xs ys sets :
  names_determine (xs ++ ys) → Forall set_ok (xs ++ ys) → all_fit (xs ++ ys) sets →
  all_fit ys (sets_after xs sets).
Proof.
  revert sets. induction xs as [|x xs IH]; intros sets Hnd Hok Hfit; [done|].
  cbn [sets_after foldl]. apply IH.
  - intros a b Ha Hb. apply Hnd; by right.
  - by apply Forall_cons in Hok as [_ Hok].
  - by apply (all_fit_restored x).
Qed.

Lemma families_run families (w : W) :
  NoDup families → (∀ f, f ∈ families → world_ok f) →
  names_determine (all_sets families) → all_fit (all_sets families) (sets_of w) →
  (∀ f, f ∈ families → table_ready (table_of w f)) →
  ∃ w', mfor ((λ f, (f, system_iptables f)) <$> families) (apply_family self world) w = (inr tt, w') ∧
    sets_of w' = sets_after (all_sets families) (sets_of w) ∧
    (∀ f, f ∉ families → table_of w' f = table_of w f) ∧
    ∀ f, f ∈ families → applied f w w'.
Proof.
  intros Hnd. revert w. induction Hnd as [|family families Hfam Hnd IH]; intros w Hok Hnames Hfit Hready.
  { exists w. split_and!; try done. intros f Hf. by apply elem_of_nil in Hf. }
  unfold all_sets in Hnames, Hfit |- *. rewrite bind_cons in Hnames, Hfit |- *.
  assert (Forall set_ok (fp_ipsets (family_plan family) ++ all_sets families)) as Hsets.
  { apply Forall_app_2; [|apply Forall_bind; intros f Hf].
    - apply family_sets_ok, Hok. by left.
    - apply family_sets_ok, Hok. by right. }
  destruct (apply_family_run family w) as (w1 & Hrun1 & Hs1 & Ht1 & Hap1).
  - apply Hok. by left.
  - intros x y Hx Hy. apply Hnames; apply elem_of_app; by left.
  - intros x Hx. apply Hfit, elem_of_app. by left.
  - apply Hready. by left.
  - assert (∀ f, f ∈ families → f ≠ family) as Hne by (intros f Hf ->; done).
    destruct (IH w1) as (w2 & Hrun2 & Hs2 & Ht2 & Hap2).
    + intros f Hf. apply Hok. by right.
    + intros x y Hx Hy. apply Hnames; apply elem_of_app; by right.
    + rewrite Hs1. by apply all_fit_after.
    + intros f Hf. rewrite Ht1 by by apply Hne. apply Hready. by right.
    + exists w2. rewrite fmap_cons. cbn [mfor]. unfold mbind at 1, M_bind. rewrite Hrun1.
      split; [exact Hrun2|]. split; [rewrite Hs2, Hs1; unfold sets_after; by rewrite <-foldl_app|].
      split; [intros f [Hf Hf']%not_elem_of_cons; by rewrite Ht2, Ht1|].
      intros f [->|Hf]%elem_of_cons.
      * destruct Hap1 as [Hr Hj Ho Hw]. split; rewrite ?(Ht2 family) by done; done.
      * destruct (Hap2 f Hf) as [Hr Hj Ho Hw].
        split; [done|intros b c rules|intros c|done]; rewrite <-(Ht1 f) by (by apply Hne); [apply Hj|apply Ho].
Qed.
(** ** What becomes of the packets *)

(** A new connection of the family, from elsewhere, that no policy of both
    directions joins to itself. *)
Record new_connection (family : IpFamily) (p : Packet) : Prop := {
  nc_ok : packet_ok family p;
  nc_new : common_outcome family p = None;
  nc_remote : pk_src_local p = false;
  nc_ends pod : pod ∈ w_pods world → has_ip pod (pk_src p) && has_ip pod (pk_dst p) = false;
  nc_uncrossed : uncrossed (w_policies world) (w_pods world) p;
}.

Definition decision (family : IpFamily) (p : Packet) (mark : Z) : Outcome :=
  forward_decision (w_policies world) (w_pods world) (w_namespaces world) (fc_node self) family p mark.

Definition family_distinct (family : IpFamily) : Prop :=
  chains_distinct (w_policies world) (w_pods world) (fc_node self) family (fc_sync_version self).

Lemma node_decides family (w w' : W) p mark :
  fc_default_deny self = false → world_ok family → family_distinct family →
  names_determine (fp_ipsets (family_plan family)) → applied family w w' →
  (∀ x, x ∈ fp_ipsets (family_plan family) → sets_of w' !! ipl_name x = Some (kernel_set x)) →
  new_connection family p → matched mark = false → accepted mark = false →
  ∃ o, node_run w' family p JUMP_DEPTH ROUTER_FORWARD mark = Some o ∧
       same_verdict o (decision family p mark).
Proof.
  intros Hdd Hok Hdist Hnd Hap Hsets [Hp Hnew Hremote Hends Hcross] Hm Ha.
  rewrite (node_runs_plan family w w') by (done || by apply (top_in_family _ "FORWARD"); unfold pass_jumps; rewrite !elem_of_cons; tauto).
  refine (forward_verdict _ _ _ _ _ _ _ _ _ _ p _ Hp mark Hdd Hcross Hends Hnew Hremote Hm Ha).
  split; [apply Hok|apply Hok|exact Hdist|exact Hnd].
Qed.

Lemma chain_rules_first c line rest r :
  parse_line line = Some (c, r) → chain_rules (line :: rest) c = r :: chain_rules rest c.
Proof.
  intros Hp. change (line :: rest) with ([line] ++ rest). unfold chain_rules. rewrite omap_app. cbn [omap list_omap].
  unfold line_rule at 1. by rewrite Hp, decide_True.
Qed.

(** The built-in chain starts with the jump. *)
Definition jump_leads (rules : list string) : Prop :=
  jump_line "FORWARD" ROUTER_FORWARD ∉ rules ∨ head rules = Some (jump_line "FORWARD" ROUTER_FORWARD).

Lemma builtin_follows family (w w' : W) p mark rules v :
  applied family w w' → table_of w family !! "FORWARD" = Some rules → jump_leads rules →
  v = Rejected ∨ v = Accepted →
  node_run w' family p JUMP_DEPTH ROUTER_FORWARD mark = Some v →
  node_run w' family p (S JUMP_DEPTH) "FORWARD" mark = Some v.
Proof.
  intros [_ Hjumps _ [Hwf _]] Hf Hlead Hv Hrun.
  assert (("FORWARD", ROUTER_FORWARD) ∈ pass_jumps) as Hin by (unfold pass_jumps; rewrite !elem_of_cons; tauto).
  assert (∃ rest, with_jump "FORWARD" ROUTER_FORWARD rules = jump_line "FORWARD" ROUTER_FORWARD :: rest) as [rest Hrest].
  { unfold with_jump. case_decide as Hj; [|by eexists]. destruct Hlead as [Hn|Hh]; [done|].
    destruct rules as [|r rules]; [done|]. injection Hh as ->. by eexists. }
  unfold node_run, run_chain. rewrite table_chain_rules by done. rewrite (Hjumps _ _ _ Hin Hf), Hrest.
  cbn [from_option id]. rewrite (chain_rules_first _ _ _ (jump_rule [] ROUTER_FORWARD) (jump_line_parse _ _ Hin)).
  unfold node_run, run_chain in Hrun. rewrite run_rules_cons.
  cbn [jump_rule fr_tests fr_target tests_hold forallb].
  change (run_chain ?e ?l p JUMP_DEPTH ROUTER_FORWARD mark) with
    (run_rules e l p JUMP_DEPTH (chain_rules l ROUTER_FORWARD) mark).
  rewrite Hrun. by destruct Hv as [->| ->].
Qed.

(** ** Passes that fail *)

Lemma ensure_jump_frame family b t (w : W) :
  ∃ r w', ensure_jump (system_iptables family) b t w = (r, w') ∧
    ∀ f, f ≠ family → table_of w' f = table_of w f.
Proof.
  unfold ensure_jump, system_iptables.
  destruct (run_iptables_check family b t w) as (out & err & w1 & -> & _ & Ht1).
  destruct (bool_decide _); [by eexists _, _|].
  destruct (run_iptables_insert family b t w1) as (ok & out' & err' & w2 & -> & Hcase).
  destruct ok; (eexists _, _; split; [done|]); intros f Hf; rewrite <-(Ht1 f);
    (destruct (table_of w1 family !! b); [destruct (table_of w1 family !! t)|]);
    destruct Hcase as [? Hcase]; try done; solve [apply Hcase; done | by apply (proj2 (proj2 Hcase)) | apply Hcase].
Qed.

(** The commands of a family do not touch the tables of another. *)
Lemma apply_family_frame family (w : W) :
  ∃ r w', apply_family self world (family, system_iptables family) w = (r, w') ∧
    ∀ f, f ≠ family → table_of w' f = table_of w f.
Proof.
  unfold apply_family. unfold mbind at 1, M_bind.
  destruct (restore_sets_frame (fp_ipsets (controller_plan self world family)) w) as ([e|[]] & w1 & -> & Hs1);
    [by eexists _, _|].
  unfold mbind at 1, M_bind, mmap_err at 1, restore_filter at 1, system_iptables at 1.
  destruct (run_iptables_restore family (filter_restore_doc (fp_decls (controller_plan self world family))
    (fp_rules (controller_plan self world family))) w1) as (ok & out & err & w2 & -> & Hcase).
  assert (∀ f, f ≠ family → table_of w2 f = table_of w f) as Hs2.
  { intros f Hf. rewrite <-(Hs1 f). destruct (load_doc _ _ _) as [t|].
    - destruct Hcase as [_ (_ & _ & Hother)]. by apply Hother.
    - apply Hcase. }
  destruct ok; [|by eexists _, _].
  unfold mbind, M_bind, mmap_err.
  destruct (ensure_jump_frame family "INPUT" ROUTER_INPUT w2) as ([e|[]] & w3 & -> & Hs3);
    [eexists _, _; split; [done|]; intros f Hf; by rewrite Hs3, Hs2|].
  destruct (ensure_jump_frame family "FORWARD" ROUTER_FORWARD w3) as ([e|[]] & w4 & -> & Hs4);
    [eexists _, _; split; [done|]; intros f Hf; by rewrite Hs4, Hs3, Hs2|].
  destruct (ensure_jump_frame family "OUTPUT" ROUTER_OUTPUT w4) as ([e|[]] & w5 & -> & Hs5);
    (eexists _, _; split; [done|]; intros f Hf; by rewrite Hs5, Hs4, Hs3, Hs2).
Qed.

(** A set that cannot be restored keeps the plan from the family's table. *)
Lemma pass_stops families family x (w : W) :
  fc_families self = (λ f, (f, system_iptables f)) <$> families → family ∈ families →
  x ∈ fp_ipsets (family_plan family) → unrestorable x →
  ∃ e w', policy_reconcile self world w = (inl e, w') ∧ table_of w' family = table_of w family.
Proof.
  intros Hfam Hin Hx Hstop. unfold policy_reconcile. rewrite Hfam. clear Hfam. revert w.
  induction families as [|f families IH]; intros w; [by apply elem_of_nil in Hin|].
  rewrite fmap_cons. cbn [mfor]. unfold mbind, M_bind. destruct (decide (f = family)) as [->|Hne].
  - unfold apply_family. change (controller_plan self world family) with (family_plan family).
    destruct (restore_sets_stop (fp_ipsets (family_plan family)) x w Hx Hstop) as (e & w' & Hrun & Hs).
    unfold mbind, M_bind. rewrite Hrun. exists e, w'. split; [done|apply Hs].
  - destruct (apply_family_frame f w) as ([e|[]] & w1 & -> & Hs1); [exists e, w1; by rewrite Hs1|].
    apply elem_of_cons in Hin as [->|Hin]; [done|].
    destruct (IH Hin w1) as (e & w2 & -> & Hs2). exists e, w2. by rewrite Hs2, Hs1.
Qed.

(** A pass whose plans can be carried out. *)
Lemma pass_decides families (w : W) :
  fc_families self = (λ f, (f, system_iptables f)) <$> families → NoDup families →
  fc_default_deny self = false →
  (∀ f, f ∈ families → world_ok f ∧ family_distinct f ∧ table_ready (table_of w f)) →
  names_determine (all_sets families) → all_fit (all_sets families) (sets_of w) →
  ∃ w', policy_reconcile self world w = (inr tt, w') ∧
    (∀ f, f ∉ families → table_of w' f = table_of w f) ∧
    ∀ family p mark, family ∈ families → new_connection family p →
      matched mark = false → accepted mark = false →
      ∃ o, node_run w' family p JUMP_DEPTH ROUTER_FORWARD mark = Some o ∧
        same_verdict o (decision family p mark) ∧
        ∀ rules, table_of w family !! "FORWARD" = Some rules → jump_leads rules →
          o = Rejected ∨ o = Accepted →
          node_run w' family p (S JUMP_DEPTH) "FORWARD" mark = Some o.
Proof.
  intros Hfam Hnd Hdd Hok Hnames Hfit.
  destruct (families_run families w) as (w' & Hrun & Hs & Hout & Hap); try done; [apply Hok..|].
  exists w'. split; [unfold policy_reconcile; by rewrite Hfam|]. split; [exact Hout|].
  intros family p mark Hin Hnew Hm Ha.
  assert (∀ x, x ∈ fp_ipsets (family_plan family) → x ∈ all_sets families) as Hall.
  { intros x Hx. apply list_elem_of_bind. by exists family. }
  destruct (node_decides family w w' p mark) as (o & Hrun' & Ho); try done.
  - by apply Hok.
  - by apply Hok.
  - intros x y Hx Hy. apply Hnames; by apply Hall.
  - by apply Hap.
  - intros x Hx. rewrite Hs. apply sets_after_in; [done| |by apply Hall].
    apply Forall_bind. intros f Hf. by apply family_sets_ok, Hok.
  - exists o. split; [exact Hrun'|]. split; [exact Ho|]. intros rules Hrules Hlead Hv.
    eapply builtin_follows; [by apply Hap|exact Hrules|exact Hlead|exact Hv|exact Hrun'].
Qed.

(** The meaning of the policies of the stores for a packet. *)
Definition kube_decides (p : Packet) (o : Outcome) : Prop :=
  kube_verdict (w_policies world) (w_pods world) (w_namespaces world) (fc_node self) p o.
Definition world_plain : Prop := Forall policy_plain (w_policies world) ∧ Forall pod_plain (w_pods world).

Lemma decision_plain `{!IpNetLaws} family p mark o :
  world_plain → packet_ok family p → same_verdict o (decision family p mark) → kube_decides p o.
Proof. intros [Hpol Hpods] Hp. exact (decision_meaning _ _ _ _ family p Hp Hpol Hpods mark o). Qed.

(** C2: From the stores to the packets, without default deny, on a node whose kernel
    does what the manuals of its commands say: when no block of a policy is all of
    its family, the names of chains and sets are pairwise distinct, and the sets
    found in the kernel have the types of the plan's, a pass over the families
    succeeds and touches the tables of no other family.  It leaves a forward chain
    that rejects what a local pod denies, by the meaning of the policies, accepts
    what else is to or from a local pod that a policy governs and lets the rest
    pass; what it rejects or accepts is final for the built-in chain.  This is for
    policies whose blocks do not interact, and for the new connections from
    elsewhere than the node that do not have one pod at both ends, or two that one
    policy of both types governs. *)
Theorem pass_enforces_policies `{!IpNetLaws} families (w : W) :
  fc_families self = (λ f, (f, system_iptables f)) <$> families → NoDup families →
  fc_default_deny self = false → world_plain →
  (∀ f, f ∈ families → world_ok f ∧ family_distinct f ∧ table_ready (table_of w f)) →
  names_determine (all_sets families) → all_fit (all_sets families) (sets_of w) →
  ∃ w', policy_reconcile self world w = (inr tt, w') ∧
    (∀ f, f ∉ families → table_of w' f = table_of w f) ∧
    ∀ family p mark, family ∈ families → new_connection family p →
      matched mark = false → accepted mark = false →
      ∃ o, node_run w' family p JUMP_DEPTH ROUTER_FORWARD mark = Some o ∧
        kube_decides p o ∧
        ∀ rules, table_of w family !! "FORWARD" = Some rules → jump_leads rules →
          o = Rejected ∨ o = Accepted →
          node_run w' family p (S JUMP_DEPTH) "FORWARD" mark = Some o.
Proof.
  intros Hfam Hnd Hdd Hplain Hok Hnames Hfit.
  destruct (pass_decides families w Hfam Hnd Hdd Hok Hnames Hfit) as (w' & Hrun & Hout & Hpackets).
  exists w'. split_and!; [done..|]. intros family p mark Hin Hnew Hm Ha.
  destruct (Hpackets family p mark Hin Hnew Hm Ha) as (o & Ho & Hv & Hfinal). exists o. split_and!; [done| |done].
  eapply decision_plain; [done|apply Hnew|exact Hv].
Qed.

(** C34: Under default deny the set of the local IPv6 pods gets a temporary name of 32
    characters, which ipset refuses: no pass over IPv6 ever succeeds, and the IPv6
    table stays as it was found. *)
Theorem ipv6_default_deny_stuck families (w : W) :
  fc_families self = (λ f, (f, system_iptables f)) <$> families → FamV6 ∈ families →
  fc_default_deny self = true →
  ∃ e w', policy_reconcile self world w = (inl e, w') ∧ table_of w' FamV6 = table_of w FamV6.
Proof.
  intros Hfam Hin Hdd.
  assert (∃ x, x ∈ fp_ipsets (family_plan FamV6) ∧ ipl_name x = local_pods_set FamV6) as (x & Hx & Hname).
  { unfold family_plan, controller_plan. rewrite (proj1 (plan_contents _ _ _ _ _ _ _ _ _ _)), Hdd.
    eexists. split; [apply elem_of_app; right; by apply list_elem_of_singleton|done]. }
  eapply pass_stops; [exact Hfam|exact Hin|exact Hx|]. intros sets.
  rewrite Hname. apply script_long; [done|]. apply Nat.ltb_lt. reflexivity.
Qed.

(** C35: A block of prefix length zero, "anywhere" in a policy, becomes an entry that a
    set of networks refuses: while such a policy is in the stores no pass over its
    family succeeds, and the table of the family stays as it was found. *)
Theorem world_block_stops_pass families family pol dir rule cidr except (w : W) :
  fc_families self = (λ f, (f, system_iptables f)) <$> families → family ∈ families →
  pol ∈ applied_policies (w_policies world) → policy_has dir pol = true →
  rule ∈ policy_rules dir pol → PeerIpBlock cidr except ∈ pr_peers rule →
  net_in_family cidr family = true → net_prefix_len cidr = 0 →
  ∃ e w', policy_reconcile self world w = (inl e, w') ∧ table_of w' family = table_of w family.
Proof.
  intros Hfam Hin Hpol Hdir Hrule Hpeer Hcidr Hzero.
  destruct (block_set_in (w_pods world) (w_namespaces world) family pol dir rule cidr except)
    as (x & Hx & Hw & Htype & Htext & He); [done..|].
  eapply pass_stops; [exact Hfam|exact Hin| |].
  - unfold family_plan, controller_plan. rewrite (proj1 (plan_contents _ _ _ _ _ _ _ _ _ _)).
    apply elem_of_app. left. apply list_elem_of_bind. by exists pol.
  - intros sets. eapply script_refused; [exact Hw|exact Htext|exact He|]. rewrite Htype. by apply entry_zero.
Qed.
End pass.

(** ** A concrete node *)

Module PassNode.
Import Cluster.
Local Existing Instance ref_net_lib.
Local Existing Instance system_ipset.

Definition controller (families : list IpFamily) (default_deny : bool) : FirewallController (W := Host) :=
  controller_new ((λ f, (f, system_iptables f)) <$> families) "node1" default_deny [cidr] [] None.
Definition world_of (policies : list NetworkPolicy) : PolicyWorld :=
  {| w_policies := policies; w_pods := pods; w_namespaces := [] |}.

(** A node with empty tables and no sets. *)
Definition fresh_table : Table := {["INPUT" := []; "FORWARD" := []; "OUTPUT" := []]}.
Definition fresh : Host := {| host_sets := ∅; host_table := λ _, fresh_table |}.

Lemma fresh_ready : table_ready fresh_table.
Proof.
  split.
  - intros c ls l d r Hc Hl _. unfold fresh_table in Hc.
    assert (ls = []) as ->; [|by apply elem_of_nil in Hl].
    apply lookup_insert_Some in Hc as [[_ <-]|[_ Hc]]; [done|].
    apply lookup_insert_Some in Hc as [[_ <-]|[_ Hc]]; [done|].
    by apply lookup_singleton_Some in Hc as [_ <-].
  - intros b c. unfold pass_jumps. rewrite !elem_of_cons.
    intros [[= -> _]|[[= -> _]|[[= -> _]|?%elem_of_nil]]]; try done; by eexists.
Qed.

Lemma fresh_fits xs : all_fit xs ∅.
Proof. intros x _. by split. Qed.

Lemma b_from_a_world : world_ok (controller [FamV4] false) (world_of [b_from_a]) FamV4.
Proof.
  split; [split; [apply pods_ok|apply (b_from_a_ok false)|done]| |done].
  intros pol dir rule c except Hpol%list_elem_of_singleton. subst pol.
  destruct dir; cbn; rewrite ?elem_of_nil; [|done]. intros ->%list_elem_of_singleton.
  cbn. by intros ?%list_elem_of_singleton.
Qed.

Lemma pass_enforces_policies_witness :
  ∃ w', policy_reconcile (controller [FamV4] false) (world_of [b_from_a]) fresh = (inr tt, w') ∧
    node_run w' FamV4 (syn ip_c ip_b 80) (S JUMP_DEPTH) "FORWARD" 0 = Some Rejected.
Proof.
  destruct (pass_enforces_policies (controller [FamV4] false) (world_of [b_from_a]) [FamV4] fresh)
    as (w' & Hrun & _ & Hpackets); [reflexivity|by apply NoDup_singleton|reflexivity|exact (conj b_from_a_plain pods_plain)|..].
  - intros f Hf. apply list_elem_of_singleton in Hf as ->. split; [exact b_from_a_world|].
    split; [exact (fo_chains _ _ _ _ _ _ _ _ _ _ (b_from_a_ok false))|exact fresh_ready].
  - refine (distinct_names _ _). apply (bool_decide_unpack _). vm_compute. exact I.
  - apply fresh_fits.
  - exists w'. split; [exact Hrun|].
    destruct (Hpackets FamV4 (syn ip_c ip_b 80) 0) as (o & Ho & [Hdenied _] & Hfinal); [by left| |done..|].
    + split; [cluster_packet|done|done| |].
      * intros x. cbn [world_of w_pods]. unfold pods. rewrite !elem_of_cons, elem_of_nil. by intros [->|[->|[->|[]]]].
      * intros x pol _ [_ Hpol]%list_elem_of_filter. apply list_elem_of_singleton in Hpol as ->. done.
    + pose proof (Hdenied c_to_b_denied) as ->.
      apply (Hfinal []); [done|left; apply not_elem_of_nil|by left].
Defined.

Lemma ipv6_default_deny_stuck_witness :
  ∃ e w', policy_reconcile (controller [FamV4; FamV6] true) (world_of [b_from_a]) fresh = (inl e, w') ∧
    table_of w' FamV6 = fresh_table.
Proof.
  refine (ipv6_default_deny_stuck (controller [FamV4; FamV6] true) (world_of [b_from_a])
    [FamV4; FamV6] fresh eq_refl _ eq_refl). rewrite !elem_of_cons. tauto.
Defined.

(** Any IPv4 address may reach [b]. *)
Definition anywhere : IpNet := (exist (λ x, Is_true (ref_ok x)) (V4 0, 0) I : RefNet).
Definition from_anywhere : PolicyRule := {| pr_peers := [PeerIpBlock anywhere []]; pr_ports := [] |}.
Definition b_from_anywhere : NetworkPolicy :=
  policy "b-from-anywhere" (app "b") true false [from_anywhere] [].

Lemma world_block_stops_pass_witness :
  ∃ e w', policy_reconcile (controller [FamV4] false) (world_of [b_from_anywhere]) fresh = (inl e, w') ∧
    table_of w' FamV4 = fresh_table.
Proof.
  refine (world_block_stops_pass (controller [FamV4] false) (world_of [b_from_anywhere]) [FamV4] FamV4
    b_from_anywhere Ingress from_anywhere anywhere [] fresh eq_refl _ _ eq_refl _ _ eq_refl eq_refl).
  - by left.
  - apply list_elem_of_filter. split; [reflexivity|by apply list_elem_of_singleton].
  - by left.
  - by left.
Defined.
End PassNode.
