(* ===== verification/PolicyLoop.v ===== *)
(** * PolicyLoop: the policy controller over time

    Any history of ticks of the controller, with stores that change in between and
    passes that fail half-way: what stays true of the node, what a tick on stores
    that can be carried out achieves whatever came before, and what no tick ever
    removes. *)

From stdpp Require Import gmap sets list strings pretty sorting relations.
From Stdlib Require Import Ascii ZArith Lia.
From S2P Require Import Prelude Text Net IpText Common Netlink Netpol Synth Filter FilterFacts SynthFacts.
From S2P Require Import PlanChains PolicySpec NetpolFacts TailFacts NetpolTheorems Firewall.
From S2P Require Import Netfilter NetfilterFacts PassFacts PassTheorems.
Import Naming Names Translate Ipset Iptables PolicyController.

Local Open Scope Z_scope.

(** ** Scripts that may end early *)

Section scripts.
Context `{IpsetEntries}.

(** A line that keeps a property when it succeeds. *)
Definition line_keeps (P : Sets → Prop) (l : string) : Prop :=
  ∀ sets sets', P sets → ipset_words (tokens l) sets = Some sets' → P sets'.

Lemma reached_keeps P lines sets :
  Forall (line_keeps P) lines → P sets → P (ipset_reached lines sets).
Proof.
  intros Hl. revert sets. induction Hl as [|l lines Hl _ IH]; intros sets Hs; [done|]. cbn.
  destruct (ipset_words (tokens l) sets) as [sets'|] eqn:Hw; [|done]. apply IH. by eapply Hl.
Qed.

Lemma lines_reached lines sets sets' :
  ipset_lines lines sets = Some sets' → ipset_reached lines sets = sets'.
Proof.
  revert sets. induction lines as [|l lines IH]; intros sets; [by intros [= ->]|]. cbn.
  destruct (ipset_words (tokens l) sets) as [sets1|]; [apply IH|done].
Qed.

Definition payload_of (x : IpsetPlan) : string :=
  build_restore_payload (ipl_name x) (ipl_type x) (ipl_family x) (ipl_entries x).

(** The texts of a set. *)
Record set_text (x : IpsetPlan) : Prop := {
  st_word : word (ipl_name x) = true;
  st_lasting : starts_with "TMP-" (ipl_name x) = false;
  st_text : Forall entry_text (ipl_entries x);
}.

(** A property that every command of the script of a set keeps. *)
Record commands_keep (P : Sets → Prop) (x : IpsetPlan) : Prop := {
  ck_create n sets sets' : n = ipl_name x ∨ n = tmp_name (ipl_name x) → P sets →
    ipset_create n (ipl_type x) (ipl_family x) sets = Some sets' → P sets';
  ck_flush sets sets' : P sets → ipset_flush (tmp_name (ipl_name x)) sets = Some sets' → P sets';
  ck_add e sets sets' : P sets → ipset_add (tmp_name (ipl_name x)) e sets = Some sets' → P sets';
  ck_swap sets sets' : P sets →
    ipset_swap (tmp_name (ipl_name x)) (ipl_name x) sets = Some sets' → P sets';
  ck_drop sets sets' : P sets → ipset_drop (tmp_name (ipl_name x)) sets = Some sets' → P sets';
}.

Lemma payload_keeps P x :
  set_text x → commands_keep P x → Forall (line_keeps P) (text_lines (payload_of x)).
Proof.
  intros [Hw _ Htext] [Hc Hf Ha Hs Hd]. pose proof (word_tmp _ Hw) as Ht.
  unfold payload_of. rewrite payload_text by done. unfold payload_lines.
  rewrite !Forall_app, !Forall_cons. split_and!; try apply Forall_nil_2; unfold line_keeps.
  - intros sets sets' HP. rewrite create_words by done. apply Hc; [by left|done].
  - intros sets sets' HP. rewrite create_words by done. apply Hc; [by right|done].
  - intros sets sets' HP. rewrite flush_words by done. by apply Hf.
  - apply Forall_fmap, Forall_forall. intros e He sets sets' HP. rewrite Forall_forall in Htext.
    rewrite add_words by (done || by apply Htext). by apply Ha.
  - intros sets sets' HP. rewrite swap_words by done. by apply Hs.
  - intros sets sets' HP. rewrite drop_words by done. by apply Hd.
Qed.

(** *** Sets have the parameters their names call for *)

Variable kind : string → SetType * IpFamily.

Definition kinded (sets : Sets) : Prop :=
  ∀ n k, sets !! n = Some k → (ks_type k, ks_family k) = kind n.
Definition conforms (x : IpsetPlan) : Prop :=
  kind (ipl_name x) = (ipl_type x, ipl_family x) ∧
  kind (tmp_name (ipl_name x)) = (ipl_type x, ipl_family x).

Lemma kinded_insert n k sets :
  kinded sets → (ks_type k, ks_family k) = kind n → kinded (<[n := k]> sets).
Proof.
  intros Hs Hk m k' [[<- <-]|[_ Hm]]%lookup_insert_Some; [done|by apply Hs].
Qed.

Lemma kinded_keep x : conforms x → commands_keep kinded x.
Proof.
  intros [Hn Ht]. split.
  - intros n sets sets' Hname Hs [es ->]%create_some. apply kinded_insert; [done|]. cbn.
    by destruct Hname as [->| ->]; symmetry.
  - intros sets sets' Hs. unfold ipset_flush. destruct (sets !! _) as [k|] eqn:Hk; [|done].
    intros [= <-]. apply kinded_insert; [done|]. exact (Hs _ _ Hk).
  - intros e sets sets' Hs. unfold ipset_add. destruct (sets !! _) as [k|] eqn:Hk; [|done]. cbn.
    destruct (entry_ok _ _ _); [|done]. intros [= <-]. apply kinded_insert; [done|]. exact (Hs _ _ Hk).
  - intros sets sets' Hs. unfold ipset_swap.
    destruct (sets !! tmp_name _) as [ka|] eqn:Ha; [|done]. cbn.
    destruct (sets !! ipl_name x) as [kb|] eqn:Hb; [|done]. cbn.
    case_decide as Heq; [|done]. destruct Heq as [Ht' Hf']. intros [= <-].
    pose proof (Hs _ _ Ha) as HA. pose proof (Hs _ _ Hb) as HB.
    apply kinded_insert; [apply kinded_insert; [done|]|]; congruence.
  - intros sets sets' Hs. unfold ipset_drop. destruct (sets !! _) as [k|] eqn:Hk; [|done]. intros [= <-].
    intros m k' [_ Hm]%lookup_delete_Some. by apply Hs.
Qed.

Lemma kinded_fit xs sets : Forall conforms xs → kinded sets → all_fit xs sets.
Proof.
  intros Hx Hs x Hin. rewrite Forall_forall in Hx. destruct (Hx x Hin) as [Hn Ht].
  split; intros k Hk; apply Hs in Hk; rewrite ?Hn, ?Ht in Hk; by injection Hk.
Qed.

(** *** Other sets are left alone, and those that are there stay *)

Lemma other_keep x n o :
  n ≠ ipl_name x → n ≠ tmp_name (ipl_name x) → commands_keep (λ sets, sets !! n = o) x.
Proof.
  intros Hn Ht. split.
  - intros m sets sets' Hm Hs [es ->]%create_some. rewrite lookup_insert_ne; [done|].
    destruct Hm as [->| ->]; by apply not_eq_sym.
  - intros sets sets' Hs. unfold ipset_flush. destruct (sets !! tmp_name _); [|done].
    intros [= <-]. by rewrite lookup_insert_ne.
  - intros e sets sets' Hs. unfold ipset_add. destruct (sets !! tmp_name _); [|done]. cbn.
    destruct (entry_ok _ _ _); [|done]. intros [= <-]. by rewrite lookup_insert_ne.
  - intros sets sets' Hs. unfold ipset_swap. destruct (sets !! tmp_name _); [|done]. cbn.
    destruct (sets !! ipl_name x); [|done]. cbn. case_decide; [|done]. intros [= <-].
    by rewrite !lookup_insert_ne.
  - intros sets sets' Hs. unfold ipset_drop. destruct (sets !! tmp_name _); [|done].
    intros [= <-]. by rewrite lookup_delete_ne.
Qed.

Lemma is_Some_insert {V} (m : gmap string V) i n v : is_Some (m !! n) → is_Some (<[i := v]> m !! n).
Proof. intros Hm. destruct (decide (i = n)) as [->|]; [by rewrite lookup_insert_eq|by rewrite lookup_insert_ne]. Qed.

Lemma present_keep x n :
  n ≠ tmp_name (ipl_name x) → commands_keep (λ sets, is_Some (sets !! n)) x.
Proof.
  intros Ht. split.
  - intros m sets sets' _ Hs [es ->]%create_some. by apply is_Some_insert.
  - intros sets sets' Hs. unfold ipset_flush. destruct (sets !! tmp_name _); [|done].
    intros [= <-]. by apply is_Some_insert.
  - intros e sets sets' Hs. unfold ipset_add. destruct (sets !! tmp_name _); [|done]. cbn.
    destruct (entry_ok _ _ _); [|done]. intros [= <-]. by apply is_Some_insert.
  - intros sets sets' Hs. unfold ipset_swap. destruct (sets !! tmp_name _); [|done]. cbn.
    destruct (sets !! ipl_name x); [|done]. cbn. case_decide; [|done]. intros [= <-].
    by apply is_Some_insert, is_Some_insert.
  - intros sets sets' Hs. unfold ipset_drop. destruct (sets !! tmp_name _); [|done].
    intros [= <-]. by rewrite lookup_delete_ne.
Qed.

(** A script that succeeds leaves its set. *)
Lemma script_present x sets sets' :
  set_text x → ipset_script (payload_of x) sets = Some sets' → is_Some (sets' !! ipl_name x).
Proof.
  intros Hx Hrun. pose proof Hx as [Hw Hlast Htext].
  assert (ipl_name x ≠ tmp_name (ipl_name x)) as Hne by by apply lasting_not_tmp.
  pose proof (payload_keeps _ x Hx (present_keep x _ Hne)) as Hkeep.
  unfold ipset_script in Hrun.
  assert (∃ rest, text_lines (payload_of x) = ("create " +:+ ipl_name x +:+ " " +:+ set_type_str (ipl_type x)
    +:+ " family " +:+ family_kw (ipl_family x) +:+ " -exist") :: rest) as [rest Hlines].
  { eexists. unfold payload_of. by rewrite payload_text. }
  rewrite Hlines in Hrun, Hkeep. apply Forall_cons in Hkeep as [_ Hkeep]. cbn [ipset_lines] in Hrun.
  rewrite create_words in Hrun by done.
  destruct (ipset_create _ _ _ sets) as [sets1|] eqn:Hc; [|done]. cbn [mbind option_bind] in Hrun.
  apply lines_reached in Hrun as <-. apply (reached_keeps (λ sets, is_Some (sets !! ipl_name x)) _ _ Hkeep).
  apply create_some in Hc as [es ->]. rewrite lookup_insert_eq. by eexists.
Qed.
End scripts.

(** ** The sets of a plan, whatever happens *)

Section restores.
Context `{IpsetEntries} {W : Type} `{!CommandRunner W, !NetfilterNode W, !NetfilterLaws W}.
#[local] Existing Instance system_ipset.

Lemma restore_set_keeps (P : Sets → Prop) x (w : W) :
  Forall (line_keeps P) (text_lines (payload_of x)) → P (sets_of w) →
  P (sets_of (restore_set x w).2) ∧ same_tables w (restore_set x w).2 ∧
  ((restore_set x w).1 = inr tt →
   ipset_script (payload_of x) (sets_of w) = Some (sets_of (restore_set x w).2)).
Proof.
  intros Hkeep HP. destruct (restore_set_run x w) as (w' & Hsame & Hcase).
  change (build_restore_payload _ _ _ _) with (payload_of x) in Hcase.
  destruct (ipset_script (payload_of x) (sets_of w)) as [sets|] eqn:Hs.
  - destruct Hcase as [-> Hs']. cbn. split_and!; [|done|by rewrite Hs'].
    rewrite Hs'. unfold ipset_script in Hs. rewrite <-(lines_reached _ _ _ Hs). by apply reached_keeps.
  - destruct Hcase as [[e ->] Hs']. cbn. split_and!; [|done|done]. rewrite Hs'. by apply reached_keeps.
Qed.

Lemma restore_sets_keep (P : Sets → Prop) xs (w : W) :
  (∀ x, x ∈ xs → Forall (line_keeps P) (text_lines (payload_of x))) → P (sets_of w) →
  P (sets_of (mfor xs restore_set w).2) ∧ same_tables w (mfor xs restore_set w).2.
Proof.
  revert w. induction xs as [|x xs IH]; intros w Hkeep HP; [done|]. cbn [mfor]. unfold mbind, M_bind.
  destruct (restore_set_keeps P x w) as (HP1 & Hs1 & _); [apply Hkeep; by left|done|].
  destruct (restore_set x w) as [[e|[]] w1]; [done|]. cbn [snd] in HP1, Hs1.
  destruct (IH w1) as [HP2 Hs2]; [intros y Hy; apply Hkeep; by right|done|].
  split; [done|]. intros f. by rewrite Hs2, Hs1.
Qed.

(** Sets that were all restored are there. *)
Lemma restore_sets_present xs (w : W) x :
  Forall set_text xs → (mfor xs restore_set w).1 = inr tt → x ∈ xs →
  is_Some (sets_of (mfor xs restore_set w).2 !! ipl_name x).
Proof.
  intros Hxs. revert w. induction Hxs as [|y xs Hy Hxs IH]; intros w; [by intros _ ?%elem_of_nil|].
  cbn [mfor]. unfold mbind, M_bind.
  destruct (restore_set_keeps (λ _, True) y w) as (_ & _ & Hok); [by apply Forall_true|done|].
  destruct (restore_set y w) as [[e|[]] w1]; [done|]. cbn [fst snd] in Hok. specialize (Hok eq_refl).
  intros Hrun [->|Hx]%elem_of_cons; [|by apply IH].
  refine (proj1 (restore_sets_keep (λ sets, is_Some (sets !! ipl_name y)) xs w1 _ _)).
  - intros z Hz. rewrite Forall_forall in Hxs. apply payload_keeps; [by apply Hxs|].
    apply present_keep, lasting_not_tmp, Hy.
  - by eapply script_present.
Qed.
End restores.

(** ** A pass, whatever happens *)

Section loop.
Context `{IpNetLib} `{HashLaws} `{FilterLaws} `{!FilterNetLaws} `{!IpsetEntries, !IpsetEntryLaws}.
Context {W : Type} `{!CommandRunner W, !NetfilterNode W, !NetfilterLaws W}.
#[local] Existing Instance system_ipset.
Variables (self : FirewallController (W := W)) (families : list IpFamily).
Variable kind : string → SetType * IpFamily.
Hypothesis Hfamilies : fc_families self = (λ f, (f, system_iptables f)) <$> families.

Lemma family_sets_text world family :
  world_well self world → Forall set_text (fp_ipsets (family_plan self world family)).
Proof.
  intros [Hpods _ _]. unfold family_plan, controller_plan.
  rewrite (proj1 (plan_contents _ _ _ _ _ _ _ _ _ _)). apply Forall_app_2.
  - apply Forall_bind. intros pol Hpol. apply Forall_forall. intros x Hx.
    destruct (policy_set_ok _ _ _ pol x Hpods Hx) as [Hn Hfam Hent].
    destruct (hashed_name_ok _ Hn) as (Hw & _ & Ht). split; [done..|].
    destruct Hent as [[_ Ha]|[_ (dir & rule & _ & ->)]]; [|apply block_entries_text].
    eapply Forall_impl; [exact Ha|]. intros e He. by eapply address_entry_text.
  - destruct (fc_default_deny self); [|apply Forall_nil_2]. apply Forall_singleton.
    split; cbn [ipl_name ipl_entries]; [by destruct family..|].
    apply Forall_bind. intros pod Hpod. apply elem_of_chained in Hpod as [Hpod _].
    apply Forall_forall. intros e He. eapply address_entry_text; [done|]. by exists pod.
Qed.

(** Sets as their names call for, and filter tables in which the forward chain
    starts with the jump or does not have it. *)
Record node_sane (w : W) : Prop := {
  ns_kinded : kinded kind (sets_of w);
  ns_ready f : table_ready (table_of w f);
  ns_leads f rules : table_of w f !! "FORWARD" = Some rules → jump_leads rules;
}.

(** Well-formed stores, whose sets are as their names call for. *)
Record world_fine (world : PolicyWorld) : Prop := {
  wf_well : world_well self world;
  wf_kinds f : f ∈ families → Forall (conforms kind) (fp_ipsets (family_plan self world f));
}.

(** A set that no set of a plan stands for. *)
Definition foreign_set (n : string) (xs : list IpsetPlan) : Prop :=
  ∀ x, x ∈ xs → n ≠ ipl_name x ∧ n ≠ tmp_name (ipl_name x).

(** What a pass over stores leaves alone. *)
Definition leaves_alone (world : PolicyWorld) (fs : list IpFamily) (w w' : W) : Prop :=
  (∀ f c, (c ∉ pass_jumps.*1) → (f ∈ fs → c ∉ family_chains self world f) →
     table_of w' f !! c = table_of w f !! c) ∧
  (∀ n, (∀ f, f ∈ fs → foreign_set n (fp_ipsets (family_plan self world f))) →
     sets_of w' !! n = sets_of w !! n).

Lemma leaves_alone_trans world fs f w w1 w2 :
  leaves_alone world [f] w w1 → leaves_alone world fs w1 w2 → leaves_alone world (f :: fs) w w2.
Proof.
  intros [Ht Hs] [Ht' Hs']. split.
  - intros g c Hc Hg. rewrite Ht', Ht; [done|done| |done|]; intros Hin; apply Hg.
    + apply list_elem_of_singleton in Hin as ->. by left.
    + by right.
  - intros n Hn. rewrite Hs', Hs; [done| |]; intros g Hg; apply Hn; [|by right].
    apply list_elem_of_singleton in Hg as ->. by left.
Qed.

Lemma jump_leads_kept rules : jump_leads rules → jump_leads (with_jump "FORWARD" ROUTER_FORWARD rules).
Proof. intros Hl. unfold with_jump. case_decide; [done|by right]. Qed.

Lemma forward_builtin : ("FORWARD", ROUTER_FORWARD) ∈ pass_jumps.
Proof. unfold pass_jumps. rewrite !elem_of_cons. tauto. Qed.

Lemma apply_family_outcome world family (w : W) :
  family ∈ families → world_fine world → node_sane w →
  let w' := (apply_family self world (family, system_iptables family) w).2 in
  node_sane w' ∧ leaves_alone world [family] w w'.
Proof.
  intros Hin [Hwell Hkinds] [Hk Hr Hl]. rewrite apply_family_split. unfold mbind, M_bind.
  set (xs := fp_ipsets (family_plan self world family)).
  pose proof (family_sets_text world family Hwell) as Htext. fold xs in Htext.
  pose proof (Hkinds family Hin) as Hconf. fold xs in Hconf. rewrite Forall_forall in Hconf.
  assert (∀ P, (∀ x, x ∈ xs → commands_keep P x) → P (sets_of w) →
    P (sets_of (mfor xs restore_set w).2) ∧ same_tables w (mfor xs restore_set w).2) as Hkeep.
  { intros P HP. apply restore_sets_keep. intros x Hx. rewrite Forall_forall in Htext.
    apply payload_keeps; [by apply Htext|by apply HP]. }
  destruct (Hkeep (kinded kind)) as [Hk1 Hs1]; [intros x Hx; by apply kinded_keep, Hconf|done|].
  assert (∀ n, foreign_set n xs → sets_of (mfor xs restore_set w).2 !! n = sets_of w !! n) as Hother.
  { intros n Hn. refine (proj1 (Hkeep (λ sets, sets !! n = sets_of w !! n) _ eq_refl)).
    intros x Hx. apply other_keep; by apply Hn. }
  pose proof (restore_sets_present xs w) as Hpresent.
  destruct (mfor xs restore_set w) as [[e|[]] w1]; cbn [fst snd] in *.
  - split; [split; [done|intros f; by rewrite Hs1|intros f rules; rewrite Hs1; apply Hl]|].
    split; [intros f c _ _; by rewrite Hs1|]. intros n Hn. apply Hother, Hn. by left.
  - destruct (apply_document_run self world family w1) as (w2 & Hrun & Hs2 & Ht2 & Hap); [done| |by rewrite Hs1|].
    { intros x Hx. by apply Hpresent. }
    rewrite Hrun. cbn [snd]. destruct Hap as [Hrules Hjumps Hrest Hready]. split; [split|split].
    + by rewrite Hs2.
    + intros f. destruct (decide (f = family)) as [->|Hne]; [done|]. by rewrite Ht2, Hs1.
    + intros f rules. destruct (decide (f = family)) as [->|Hne]; [|rewrite Ht2, Hs1 by done; apply Hl].
      destruct (proj2 (Hr family) _ _ forward_builtin) as [rules0 Hrules0].
      rewrite (Hjumps _ _ rules0 forward_builtin) by by rewrite Hs1. intros [= <-].
      by apply jump_leads_kept, (Hl family).
    + intros f c Hc Hf. destruct (decide (f = family)) as [->|Hne]; [|by rewrite Ht2, Hs1].
      rewrite Hrest, Hs1; [done| |done]. apply Hf. by left.
    + intros n Hn. rewrite Hs2. apply Hother, Hn. by left.
Qed.

Lemma families_outcome world fs (w : W) :
  (∀ f, f ∈ fs → f ∈ families) → world_fine world → node_sane w →
  let w' := (mfor ((λ f, (f, system_iptables f)) <$> fs) (apply_family self world) w).2 in
  node_sane w' ∧ leaves_alone world fs w w'.
Proof.
  intros Hsub Hfine. revert w Hsub.
  induction fs as [|f fs IH]; intros w Hsub Hsane; [done|]. rewrite fmap_cons. cbn [mfor].
  unfold mbind, M_bind.
  destruct (apply_family_outcome world f w) as [Hsane1 Hal1]; [apply Hsub; by left|done|done|].
  destruct (apply_family self world (f, system_iptables f) w) as [[e|[]] w1]; cbn [snd] in Hsane1, Hal1 |- *.
  - split; [done|]. destruct Hal1 as [Ht Hs]. split.
    + intros g c Hc Hg. apply Ht; [done|]. intros Hin. apply Hg. apply list_elem_of_singleton in Hin as ->. by left.
    + intros n Hn. apply Hs. intros g Hg. apply Hn. apply list_elem_of_singleton in Hg as ->. by left.
  - destruct (IH w1) as [Hsane2 Hal2]; [intros g Hg; apply Hsub; by right|done|].
    split; [done|]. by eapply leaves_alone_trans.
Qed.

(** A pass, successful or not, keeps the node sane and touches only what belongs to
    its plans. *)
Lemma pass_outcome world (w : W) :
  world_fine world → node_sane w →
  let w' := (policy_reconcile self world w).2 in node_sane w' ∧ leaves_alone world families w w'.
Proof. unfold policy_reconcile. rewrite Hfamilies. by apply families_outcome. Qed.

(** ** A history of the controller *)

Context `{!PolicySource W, !PolicyHeartbeat W}.
Hypothesis Hbeat : ∀ w, sets_of (policy_heartbeat w) = sets_of w ∧ same_tables w (policy_heartbeat w).

(** The stores change, or the controller ticks on a snapshot of a kind. *)
Inductive policy_step (Q : PolicyWorld → Prop) : W → W → Prop :=
| step_stores w w' : sets_of w' = sets_of w → same_tables w w' → policy_step Q w w'
| step_tick w : Q (snapshot w) → policy_step Q w (policy_tick self w).

Lemma same_sane (w w' : W) :
  sets_of w' = sets_of w → same_tables w w' → node_sane w → node_sane w'.
Proof.
  intros Hs Ht [Hk Hr Hl]. split; [by rewrite Hs|intros f; by rewrite Ht|].
  intros f rules. rewrite Ht. apply Hl.
Qed.

(** A tick is a pass, as far as the node is concerned. *)
Lemma tick_node (w : W) :
  sets_of (policy_tick self w) = sets_of (policy_reconcile self (snapshot w) w).2 ∧
  same_tables (policy_reconcile self (snapshot w) w).2 (policy_tick self w).
Proof. unfold policy_tick. destruct (policy_reconcile _ _ w) as [r w1]. apply Hbeat. Qed.

Lemma tick_outcome (w : W) :
  world_fine (snapshot w) → node_sane w →
  node_sane (policy_tick self w) ∧ leaves_alone (snapshot w) families w (policy_tick self w).
Proof.
  intros Hfine Hsane. destruct (tick_node w) as [Hs Ht].
  destruct (pass_outcome (snapshot w) w Hfine Hsane) as [Hsane' [Hot Hos]].
  split; [by eapply same_sane|]. split.
  - intros f c Hc Hf. rewrite Ht. by apply Hot.
  - intros n Hn. rewrite Hs. by apply Hos.
Qed.

Lemma history_keeps (Q : PolicyWorld → Prop) (P : W → Prop) (w0 w : W) :
  (∀ world, Q world → world_fine world) →
  (∀ w w', sets_of w' = sets_of w → same_tables w w' → P w → P w') →
  (∀ w, Q (snapshot w) → node_sane w → P w → P (policy_tick self w)) →
  rtc (policy_step Q) w0 w → node_sane w0 → P w0 → node_sane w ∧ P w.
Proof.
  intros HQ Hstores Htick Hrtc. induction Hrtc as [w|w0 w1 w Hstep _ IH]; intros Hsane HP; [done|].
  destruct Hstep as [w0 w1 Hs Ht|w0 Hq].
  - apply IH; [by eapply same_sane|by eapply Hstores].
  - apply IH; [by apply tick_outcome; [apply HQ|]|by apply Htick].
Qed.

(** Over any history of the controller, whatever the stores held and however its
    passes failed: a tick on stores whose plans can be carried out leaves forward
    chains that decide every new connection as the policies of its snapshot
    demand, and what they reject or accept is final for the built-in chain. *)
Lemma policy_loop_enforces (w0 w : W) :
  rtc (policy_step world_fine) w0 w → node_sane w0 →
  world_fine (snapshot w) → NoDup families → fc_default_deny self = false →
  (∀ f, f ∈ families → world_ok self (snapshot w) f ∧ family_distinct self (snapshot w) f) →
  names_determine (all_sets self (snapshot w) families) →
  ∀ family p mark, family ∈ families → new_connection (snapshot w) family p →
    matched mark = false → accepted mark = false →
    ∃ o, node_run (policy_tick self w) family p JUMP_DEPTH ROUTER_FORWARD mark = Some o ∧
      same_verdict o (decision self (snapshot w) family p mark) ∧
      (o = Rejected ∨ o = Accepted →
       node_run (policy_tick self w) family p (S JUMP_DEPTH) "FORWARD" mark = Some o).
Proof.
  intros Hrtc Hsane0 Hfine Hnd Hdd Hok Hnames family p mark Hin Hnew Hm Ha.
  destruct (history_keeps world_fine (λ _, True) w0 w) as [[Hk Hr Hl] _]; try done.
  destruct (pass_decides self (snapshot w) families w) as (w' & Hrun & _ & Hdecide); try done.
  { intros f Hf. destruct (Hok f Hf) as [H1' H2']. split_and!; [done..|apply Hr]. }
  { apply (kinded_fit kind); [|done]. apply Forall_bind. intros f Hf. by apply Hfine. }
  destruct (tick_node w) as [Hs Ht]. rewrite Hrun in Hs, Ht. cbn [snd] in Hs, Ht.
  destruct (Hdecide family p mark Hin Hnew Hm Ha) as (o & Ho & Hv & Hbuiltin).
  assert (∀ fuel c, node_run (policy_tick self w) family p fuel c mark = node_run w' family p fuel c mark) as Hsame.
  { intros fuel c. unfold node_run. by rewrite Hs, Ht. }
  exists o. rewrite !Hsame. split_and!; [done..|]. intros Hverdict.
  destruct (proj2 (Hr family) _ _ forward_builtin) as [rules Hrules].
  apply (Hbuiltin rules); [done| |done]. by apply (Hl family).
Qed.

(** C36: Nothing is ever removed: a chain that no snapshot asks for any more keeps its
    rules, and a set its entries, through any history of the controller, so the
    chains of deleted pods and policies stay in the kernel for good. *)
Theorem stale_chains_stay family c n (w0 w : W) :
  rtc (policy_step (λ world, world_fine world ∧
         (family ∈ families → c ∉ family_chains self world family) ∧
         ∀ f, f ∈ families → foreign_set n (fp_ipsets (family_plan self world f)))) w0 w →
  node_sane w0 → (c ∉ pass_jumps.*1) →
  table_of w family !! c = table_of w0 family !! c ∧ sets_of w !! n = sets_of w0 !! n.
Proof.
  intros Hrtc Hsane Hc.
  refine (proj2 (history_keeps _ (λ w, table_of w family !! c = table_of w0 family !! c ∧
    sets_of w !! n = sets_of w0 !! n) w0 w _ _ _ Hrtc Hsane (conj eq_refl eq_refl))).
  - by intros world [Hfine _].
  - intros w1 w2 Hs Ht [H1' H2']. by rewrite Hs, Ht.
  - intros w1 (Hfine & Hno & Hset) Hsane1 [H1' H2'].
    destruct (tick_outcome w1 Hfine Hsane1) as [_ [Ht Hs]]. by rewrite Ht, Hs.
Qed.
End loop.

(** ** A concrete history *)

Module LoopNode.
Import Cluster PassNode.
Local Existing Instance ref_net_lib.
Local Existing Instance system_ipset.

Definition stores (policies : list NetworkPolicy) : PolicySource Host :=
  {| snapshot _ := world_of policies |}.
Definition silent : PolicyHeartbeat Host := {| policy_heartbeat w := w |}.
Local Existing Instance silent.
Definition v4_hash (n : string) : SetType * IpFamily := (HashIp, FamV4).
Definition agent : FirewallController (W := Host) := controller [FamV4] false.

Lemma silent_beat (w : Host) :
  sets_of (policy_heartbeat w) = sets_of w ∧ same_tables w (policy_heartbeat w).
Proof. by split. Qed.

Lemma fresh_sane : node_sane v4_hash fresh.
Proof.
  split; [by intros n k ?|intros f; exact fresh_ready|].
  intros f rules Hf. left. assert (rules = []) as ->; [|apply not_elem_of_nil].
  by vm_compute in Hf; injection Hf.
Qed.

Lemma policies_fine policies :
  Forall policy_ok policies →
  forallb (λ x, bool_decide ((ipl_type x, ipl_family x) = (HashIp, FamV4)))
    (fp_ipsets (family_plan agent (world_of policies) FamV4)) = true →
  world_fine agent [FamV4] v4_hash (world_of policies).
Proof.
  intros Hpol Hsets. split; [split; [apply pods_ok|exact Hpol|done]|].
  intros f ->%list_elem_of_singleton. apply Forall_forall. intros x Hx. rewrite forallb_forall in Hsets.
  apply list_elem_of_In, Hsets, bool_decide_eq_true in Hx. by split.
Qed.

Lemma with_policy : world_fine agent [FamV4] v4_hash (world_of [b_from_a]).
Proof. apply policies_fine; [apply (b_from_a_ok false)|vm_compute; reflexivity]. Qed.
Lemma without_policy : world_fine agent [FamV4] v4_hash (world_of []).
Proof. apply policies_fine; [apply Forall_nil_2|vm_compute; reflexivity]. Qed.

(** The node after a pass with the policy. *)
Definition protected_node : Host := (policy_reconcile agent (world_of [b_from_a]) fresh).2.

(** The policy is deleted; its chain and its set stay. *)
Definition stale_chain : string := policy_chain b_from_a "kr" FamV4.
Definition stale_set : string := (peer_sets Ingress b_from_a 0 FamV4).1.

Lemma nothing_left :
  world_fine agent [FamV4] v4_hash (world_of []) ∧
  (FamV4 ∈ [FamV4] → stale_chain ∉ family_chains agent (world_of []) FamV4) ∧
  ∀ f, f ∈ [FamV4] → foreign_set stale_set (fp_ipsets (family_plan agent (world_of []) f)).
Proof.
  split; [exact without_policy|]. split.
  - intros _. apply (bool_decide_unpack _). vm_compute. exact I.
  - intros f ->%list_elem_of_singleton x Hx.
    assert (fp_ipsets (family_plan agent (world_of []) FamV4) = []) as Hnone by (vm_compute; reflexivity).
    rewrite Hnone in Hx. by apply elem_of_nil in Hx.
Qed.

Lemma stale_chains_stay_witness :
  let source := stores [] in
  let w := policy_tick agent (policy_tick agent protected_node) in
  is_Some (table_of w FamV4 !! stale_chain) ∧ is_Some (sets_of w !! stale_set).
Proof.
  intros source w.
  destruct (stale_chains_stay agent [FamV4] v4_hash eq_refl silent_beat FamV4 stale_chain stale_set
    protected_node w) as [Ht Hs].
  - apply (rtc_l _ _ (policy_tick agent protected_node)); [|apply rtc_once];
      refine (step_tick agent _ _ _); exact nothing_left.
  - exact (proj1 (pass_outcome agent [FamV4] v4_hash eq_refl (world_of [b_from_a]) fresh with_policy fresh_sane)).
  - apply (bool_decide_unpack _). vm_compute. exact I.
  - rewrite Ht, Hs. split; apply (bool_decide_unpack _); vm_compute; exact I.
Defined.
End LoopNode.
