(* ===== verification/Agent.v ===== *)
(** * Agent: configuration, health and lifecycle of the process

    [Config] is [crates/config] (the flags, their defaults and [validate.rs]),
    [Health] is [crates/observability/src/health.rs], [Orchestrate] and [Cleanup]
    are [orchestrate.rs] and [cleanup.rs] of [crates/kube-router-rs], and
    [NodeDiscovery] is [crates/kube-client/src/node.rs].  Durations and instants
    are in milliseconds.  The parser of the command line is the crate [clap]. *)

From stdpp Require Import gmap sets list strings pretty.
From Stdlib Require Import Ascii ZArith Lia.
From S2P Require Import Prelude Text Net Common Netlink Netpol.

Local Open Scope Z_scope.

(** ** Configuration *)

Module Config.

Record KubeRouterConfig := {
  advertise_cluster_ip : bool;
  advertise_external_ip : bool;
  advertise_loadbalancer_ip : bool;
  advertise_pod_cidr : bool;
  auto_mtu : bool;
  bgp_graceful_restart : bool;
  bgp_graceful_restart_deferral_time : Z;
  bgp_graceful_restart_time : Z;
  bgp_holdtime : Z;
  bgp_port : Z;
  cache_sync_timeout : Z;
  cleanup_config : bool;
  cluster_asn : Z;
  disable_source_dest_check : bool;
  enable_cni : bool;
  enable_ibgp : bool;
  enable_ipv4 : bool;
  enable_ipv6 : bool;
  enable_overlay : bool;
  enable_pod_egress : bool;
  enable_pprof : bool;
  excluded_cidrs : list string;
  hairpin_mode : bool;
  gobgp_admin_address : string;
  gobgp_admin_port : Z;
  health_addr : string;
  health_port : Z;
  hostname_override : string;
  injected_routes_sync_period : Z;
  iptables_sync_period : Z;
  ipvs_graceful_period : Z;
  ipvs_graceful_termination : bool;
  ipvs_permit_all : bool;
  ipvs_sync_period : Z;
  kubeconfig : string;
  loadbalancer_default_class : bool;
  loadbalancer_ip_range : list string;
  loadbalancer_sync_period : Z;
  masquerade_all : bool;
  master : string;
  metrics_path : string;
  metrics_port : Z;
  metrics_addr : string;
  netpol_default_deny : bool;
  nodeport_bindon_all_ip : bool;
  nodes_full_mesh : bool;
  overlay_encap : string;
  overlay_encap_port : Z;
  overlay_type : string;
  override_nexthop : bool;
  peer_router_asns : list Z;
  peer_router_ips : list IpAddr;
  peer_router_multihop_ttl : Z;
  peer_router_passwords : list string;
  peer_router_passwords_file : string;
  peer_router_ports : list Z;
  router_id : string;
  routes_sync_period : Z;
  run_firewall : bool;
  run_loadbalancer : bool;
  run_router : bool;
  run_service_proxy : bool;
  runtime_endpoint : string;
  service_cluster_ip_range : list string;
  strict_external_ip_validation : bool;
  service_external_ip_range : list string;
  service_node_port_range : string;
  service_tcp_timeout : Z;
  service_tcpfin_timeout : Z;
  service_udp_timeout : Z;
  v_level : string;
}.

Definition default_config : KubeRouterConfig :=
  {| advertise_cluster_ip := false; advertise_external_ip := false;
    advertise_loadbalancer_ip := false; advertise_pod_cidr := true; auto_mtu := true;
    bgp_graceful_restart := false; bgp_graceful_restart_deferral_time := 360000;
    bgp_graceful_restart_time := 90000; bgp_holdtime := 90000; bgp_port := 179;
    cache_sync_timeout := 60000; cleanup_config := false; cluster_asn := 0;
    disable_source_dest_check := true; enable_cni := true; enable_ibgp := true;
    enable_ipv4 := true; enable_ipv6 := false; enable_overlay := true;
    enable_pod_egress := true; enable_pprof := false; excluded_cidrs := [];
    hairpin_mode := false; gobgp_admin_address := "127.0.0.1"; gobgp_admin_port := 50051;
    health_addr := ""; health_port := 20244; hostname_override := "";
    injected_routes_sync_period := 60000; iptables_sync_period := 300000;
    ipvs_graceful_period := 30000; ipvs_graceful_termination := false; ipvs_permit_all := true;
    ipvs_sync_period := 300000; kubeconfig := ""; loadbalancer_default_class := true;
    loadbalancer_ip_range := []; loadbalancer_sync_period := 60000; masquerade_all := false;
    master := ""; metrics_path := "/metrics"; metrics_port := 0; metrics_addr := "";
    netpol_default_deny := false; nodeport_bindon_all_ip := false; nodes_full_mesh := true;
    overlay_encap := "ipip"; overlay_encap_port := 5555; overlay_type := "subnet";
    override_nexthop := false; peer_router_asns := []; peer_router_ips := [];
    peer_router_multihop_ttl := 0; peer_router_passwords := [];
    peer_router_passwords_file := ""; peer_router_ports := []; router_id := "";
    routes_sync_period := 300000; run_firewall := true; run_loadbalancer := false;
    run_router := true; run_service_proxy := true; runtime_endpoint := "";
    service_cluster_ip_range := ["10.96.0.0/12"]; strict_external_ip_validation := true;
    service_external_ip_range := []; service_node_port_range := "30000-32767";
    service_tcp_timeout := 0; service_tcpfin_timeout := 0; service_udp_timeout := 0;
    v_level := "0" |}.

Definition MAX_CLUSTER_IP_RANGES : nat := 2.

(** [Error::Config] with its message; the message for a bad CIDR ends with the
    parser's own explanation, which is left out. *)
Inductive ConfigError := BadCidr (flag input : string) | ConfigMessage (message : string).

Definition enabled_families (self : KubeRouterConfig) : EnabledFamilies :=
  {| ef_v4 := enable_ipv4 self; ef_v6 := enable_ipv6 self |}.

(** [if c { return Err(e) }] *)
Definition reject (c : bool) (e : ConfigError) : ConfigError + unit :=
  if c then inl e else inr tt.

(** [a?; b] *)
Definition and_then (a b : ConfigError + unit) : ConfigError + unit :=
  match a with inl e => inl e | inr _ => b end.

Fixpoint check_all {A} (f : A → ConfigError + unit) (l : list A) : ConfigError + unit :=
  match l with [] => inr tt | x :: l => and_then (f x) (check_all f l) end.

Definition cidr_lists (self : KubeRouterConfig) : list (string * list string) :=
  [("--service-cluster-ip-range", service_cluster_ip_range self);
   ("--service-external-ip-range", service_external_ip_range self);
   ("--loadbalancer-ip-range", loadbalancer_ip_range self);
   ("--excluded-cidrs", excluded_cidrs self)].

Definition periods (self : KubeRouterConfig) : list (string * Z) :=
  [("--cache-sync-timeout", cache_sync_timeout self);
   ("--routes-sync-period", routes_sync_period self);
   ("--iptables-sync-period", iptables_sync_period self);
   ("--ipvs-sync-period", ipvs_sync_period self);
   ("--ipvs-graceful-period", ipvs_graceful_period self);
   ("--injected-routes-sync-period", injected_routes_sync_period self);
   ("--loadbalancer-sync-period", loadbalancer_sync_period self)].

Definition check_cidr `{IpNetLib} (flag c : string) : ConfigError + unit :=
  match parse_cidr c with inl e => inl (BadCidr flag (ii_input e)) | inr _ => inr tt end.

Definition check_period (x : string * Z) : ConfigError + unit :=
  reject (x.2 =? 0) (ConfigMessage (x.1 +:+ " must be greater than 0")).

Definition validate `{IpNetLib} (self : KubeRouterConfig) : ConfigError + unit :=
  let fams := enabled_families self in
  and_then (reject (negb (families_any fams))
    (ConfigMessage "at least one of --enable-ipv4 or --enable-ipv6 must be true")) (
  and_then (check_all (λ fl, check_all (check_cidr fl.1) fl.2) (cidr_lists self)) (
  and_then (reject (MAX_CLUSTER_IP_RANGES <? length (service_cluster_ip_range self))%nat
    (ConfigMessage "--service-cluster-ip-range accepts at most 2 entries")) (
  and_then (reject (run_router self && is_v6_only fams && bool_decide (router_id self = ""))
    (ConfigMessage ("--router-id is required (or " +:+ debug_string "generate" +:+
                    ") for an IPv6-only cluster"))) (
  and_then (reject (negb (list_contains ["ipip"; "fou"] (overlay_encap self)))
    (ConfigMessage ("--overlay-encap must be " +:+ debug_string "ipip" +:+ " or " +:+
                    debug_string "fou" +:+ ", got " +:+ debug_string (overlay_encap self)))) (
  and_then (reject (negb (list_contains ["subnet"; "full"] (overlay_type self)))
    (ConfigMessage ("--overlay-type must be " +:+ debug_string "subnet" +:+ " or " +:+
                    debug_string "full" +:+ ", got " +:+ debug_string (overlay_type self)))) (
  and_then (check_all check_period (periods self)) (
  reject (negb (bool_decide (peer_router_ips self = [])) &&
          negb (bool_decide (peer_router_asns self = [])) &&
          negb (length (peer_router_ips self) =? length (peer_router_asns self))%nat)
    (ConfigMessage "--peer-router-ips and --peer-router-asns must have equal length")))))))).

(** What a valid configuration is. *)
Definition valid `{IpNetLib} (self : KubeRouterConfig) : Prop :=
  (enable_ipv4 self = true ∨ enable_ipv6 self = true) ∧
  (∀ c, c ∈ service_cluster_ip_range self ++ service_external_ip_range self ++
            loadbalancer_ip_range self ++ excluded_cidrs self → is_Some (net_parse (trim c))) ∧
  (length (service_cluster_ip_range self) ≤ 2)%nat ∧
  ¬ (run_router self = true ∧ enable_ipv4 self = false ∧ router_id self = "") ∧
  (overlay_encap self = "ipip" ∨ overlay_encap self = "fou") ∧
  (overlay_type self = "subnet" ∨ overlay_type self = "full") ∧
  (cache_sync_timeout self ≠ 0 ∧ routes_sync_period self ≠ 0 ∧ iptables_sync_period self ≠ 0 ∧
   ipvs_sync_period self ≠ 0 ∧ ipvs_graceful_period self ≠ 0 ∧
   injected_routes_sync_period self ≠ 0 ∧ loadbalancer_sync_period self ≠ 0) ∧
  (peer_router_ips self ≠ [] → peer_router_asns self ≠ [] →
   length (peer_router_ips self) = length (peer_router_asns self)).

Lemma and_then_ok a b : and_then a b = inr tt ↔ a = inr tt ∧ b = inr tt.
Proof. destruct a as [e|[]]; cbn; naive_solver. Qed.

Lemma reject_ok c e : reject c e = inr tt ↔ c = false.
Proof. destruct c; naive_solver. Qed.

Lemma check_all_ok {A} (f : A → ConfigError + unit) l :
  check_all f l = inr tt ↔ ∀ x, x ∈ l → f x = inr tt.
Proof.
  induction l as [|y l IH]; cbn [check_all]; [split; [by intros _ x Hx%elem_of_nil|done]|].
  rewrite and_then_ok, IH. set_solver.
Qed.

Lemma check_cidr_ok `{IpNetLib} flag c :
  check_cidr flag c = inr tt ↔ is_Some (net_parse (trim c)).
Proof. unfold check_cidr, parse_cidr. destruct (net_parse (trim c)); naive_solver. Qed.

Lemma list_contains_two (x a b : string) : negb (list_contains [a; b] x) = false ↔ x = a ∨ x = b.
Proof. rewrite negb_false_iff, list_contains_true. set_solver. Qed.

Lemma cidr_lists_ok `{IpNetLib} self :
  (∀ fl, fl ∈ cidr_lists self → check_all (check_cidr fl.1) fl.2 = inr tt) ↔
  (∀ c, c ∈ service_cluster_ip_range self ++ service_external_ip_range self ++
            loadbalancer_ip_range self ++ excluded_cidrs self → is_Some (net_parse (trim c))).
Proof.
  unfold cidr_lists. rewrite <- !Forall_forall, !Forall_cons, !Forall_app. cbn [fst snd].
  rewrite !check_all_ok. setoid_rewrite check_cidr_ok. rewrite <- !Forall_forall. naive_solver.
Qed.

Lemma periods_ok self :
  (∀ x, x ∈ periods self → check_period x = inr tt) ↔
  cache_sync_timeout self ≠ 0 ∧ routes_sync_period self ≠ 0 ∧ iptables_sync_period self ≠ 0 ∧
  ipvs_sync_period self ≠ 0 ∧ ipvs_graceful_period self ≠ 0 ∧
  injected_routes_sync_period self ≠ 0 ∧ loadbalancer_sync_period self ≠ 0.
Proof.
  unfold check_period. setoid_rewrite reject_ok. setoid_rewrite Z.eqb_neq.
  rewrite <-Forall_forall. unfold periods. rewrite !Forall_cons, Forall_nil. cbn [snd]. tauto.
Qed.

(** C29: A configuration is accepted exactly when it is valid: some family is on; the
    networks of its four lists are networks, with at most two cluster ranges; a
    router ID is given where IPv6 alone needs one; the overlay's encapsulation and
    type are known; the seven periods are not zero; and as many router addresses
    as numbers are given, where both are. *)
Theorem validate_correct `{IpNetLib} (self : KubeRouterConfig) :
  validate self = inr tt ↔ valid self.
Proof.
  unfold validate, valid. rewrite !and_then_ok, !reject_ok, !check_all_ok, !list_contains_two.
  assert ((∀ fl, fl ∈ cidr_lists self → check_all (check_cidr fl.1) fl.2 = inr tt) ↔
          (∀ c, c ∈ service_cluster_ip_range self ++ service_external_ip_range self ++
            loadbalancer_ip_range self ++ excluded_cidrs self → is_Some (net_parse (trim c)))) as ->.
  { apply cidr_lists_ok. }
  rewrite periods_ok.
  unfold enabled_families, families_any, is_v6_only, MAX_CLUSTER_IP_RANGES. cbn [ef_v4 ef_v6].
  rewrite Nat.ltb_ge.
  assert (enable_ipv4 self = true ∨ enable_ipv6 self = true ↔
          negb (enable_ipv4 self || enable_ipv6 self) = false) as ->.
  { destruct (enable_ipv4 self), (enable_ipv6 self); naive_solver. }
  rewrite !andb_false_iff, !negb_false_iff, !bool_decide_eq_false, !bool_decide_eq_true, Nat.eqb_eq.
  rewrite !orb_true_iff.
  destruct (enable_ipv4 self), (enable_ipv6 self), (run_router self),
    (decide (router_id self = "")), (decide (peer_router_ips self = [])),
    (decide (peer_router_asns self = [])); cbn; naive_solver.
Qed.

End Config.

(** ** Health ([health.rs]) *)

Module Health.

Definition GRACE : Z := 1500.

Inductive Component :=
  | NetworkRoutes | LoadBalancer | NetworkPolicy | NetworkServices | Hairpin | Metrics | RouteSync.
#[export] Instance Component_eq_dec : EqDecision Component.
Proof. solve_decision. Defined.
#[export] Instance Component_countable : Countable Component.
Proof.
  refine (inj_countable'
    (λ c, match c with NetworkRoutes => 0 | LoadBalancer => 1 | NetworkPolicy => 2
          | NetworkServices => 3 | Hairpin => 4 | Metrics => 5 | RouteSync => 6 end)
    (λ z, match z with 0 => NetworkRoutes | 1 => LoadBalancer | 2 => NetworkPolicy
          | 3 => NetworkServices | 4 => Hairpin | 5 => Metrics | _ => RouteSync end) _).
  by intros [].
Defined.

Record ComponentHealth := { last : Z; registered : Z; sync_period : Z; ttl : option Z }.

Definition window (self : ComponentHealth) : Z :=
  sync_period self + default 0 (ttl self) + GRACE.

(** [HealthState] is its map of components. *)

(** [now.saturating_duration_since(t)] *)
Definition since (now t : Z) : Z := Z.max 0 (now - t).

Definition register (component : Component) (period now : Z)
    (self : gmap Component ComponentHealth) : gmap Component ComponentHealth :=
  <[component := {| last := now; registered := now; sync_period := period; ttl := None |}]> self.

Definition heartbeat (component : Component) (now : Z)
    (self : gmap Component ComponentHealth) : gmap Component ComponentHealth :=
  match self !! component with
  | Some c =>
      <[component :=
          {| last := now; registered := registered c; sync_period := sync_period c;
             ttl := match ttl c with
                    | None => Some (since now (registered c))
                    | Some t => Some t
                    end |}]> self
  | None => self
  end.

(** In the order of the hash map. *)
Definition stale_components (self : gmap Component ComponentHealth) (now : Z)
    : list (Component * Z) :=
  filter_map (λ x : Component * ComponentHealth,
                let s := since now (last x.2) in
                if window x.2 <? s then Some (x.1, s) else None) (map_to_list self).

Definition is_healthy (self : gmap Component ComponentHealth) (now : Z) : bool :=
  bool_decide (stale_components self now = []).

Definition healthz_response (self : gmap Component ComponentHealth) (now : Z) : Z * string :=
  match stale_components self now with
  | [] => (200, "OK")
  | _ => (500, "Unhealthy")
  end.

(** *** What happened to a component *)

Inductive Event := Registered (c : Component) (period t : Z) | Beat (c : Component) (t : Z).

Definition step (s : gmap Component ComponentHealth) (e : Event) : gmap Component ComponentHealth :=
  match e with
  | Registered c period t => register c period t s
  | Beat c t => heartbeat c t s
  end.

(** The last registration of [c], with its period, and the heartbeats since, in
    order. *)
Definition history_step (c : Component) (h : option (Z * Z * list Z)) (e : Event)
    : option (Z * Z * list Z) :=
  match e with
  | Registered c' period t => if decide (c' = c) then Some (t, period, []) else h
  | Beat c' t =>
      if decide (c' = c) then (λ x, (x.1, x.2 ++ [t])) <$> h else h
  end.
Definition history (evs : list Event) (c : Component) : option (Z * Z * list Z) :=
  foldl (history_step c) None evs.

(** The health record that a history amounts to: the last heartbeat, and the
    time from the registration to the first. *)
Definition of_history (h : Z * Z * list Z) : ComponentHealth :=
  let '(t, period, beats) := h in
  {| last := default t (list.last beats); registered := t; sync_period := period;
     ttl := (λ b, since b t) <$> head beats |}.

Lemma heartbeat_of_history t period beats now :
  of_history (t, period, beats ++ [now]) =
  {| last := now; registered := t; sync_period := period;
     ttl := match ttl (of_history (t, period, beats)) with
            | None => Some (since now t) | Some x => Some x end |}.
Proof. cbn. rewrite last_snoc. by destruct beats. Qed.

Lemma run_history evs c : foldl step ∅ evs !! c = of_history <$> history evs c.
Proof.
  unfold history. induction evs as [|e evs IH] using rev_ind; [exact (lookup_empty c)|].
  rewrite !foldl_app. cbn [foldl]. destruct e as [c' period t|c' t]; cbn [step history_step].
  - unfold register. destruct (decide (c' = c)) as [->|Hne].
    + by rewrite lookup_insert_eq.
    + by rewrite lookup_insert_ne.
  - unfold heartbeat. destruct (decide (c' = c)) as [->|Hne].
    + rewrite IH. destruct (foldl (history_step c) None evs) as [[[r p] bs]|] eqn:Hh;
        cbn [fmap option_fmap option_map fst snd].
      * rewrite lookup_insert_eq. by rewrite heartbeat_of_history.
      * by rewrite IH.
    + destruct (foldl step ∅ evs !! c') eqn:Hc'; [by rewrite lookup_insert_ne|done].
Qed.

Lemma stale_nil s now :
  stale_components s now = [] ↔ ∀ c h, s !! c = Some h → since now (last h) ≤ window h.
Proof.
  unfold stale_components. setoid_rewrite <- elem_of_map_to_list.
  induction (map_to_list s) as [|[c h] l IH]; cbn.
  { split; [by intros _ ? ? ?%elem_of_nil|done]. }
  unfold filter_map in *. cbn. destruct (Z.ltb_spec (window h) (since now (last h))); cbn.
  - split; [done|]. intros Hall. pose proof (Hall c h ltac:(by left)). lia.
  - rewrite IH. split; [intros Hl c' h' [[= -> ->]|Hin]%elem_of_cons; [done|by eapply Hl]|].
    intros Hl c' h' Hin. apply (Hl c' h'). by right.
Qed.

(** After any sequence of registrations and heartbeats, [/healthz] answers 200
    exactly when every registered component was last heard of no longer ago than
    its sync period, plus the time it took to its first heartbeat, plus the
    grace; and 500 otherwise. *)
Theorem healthz_correct evs now :
  (healthz_response (foldl step ∅ evs) now = (200, "OK") ∧
     ∀ c t period beats, history evs c = Some (t, period, beats) →
       since now (default t (list.last beats)) ≤
         period + default 0 ((λ b, since b t) <$> head beats) + GRACE) ∨
  (healthz_response (foldl step ∅ evs) now = (500, "Unhealthy") ∧
     ∃ c t period beats, history evs c = Some (t, period, beats) ∧
       period + default 0 ((λ b, since b t) <$> head beats) + GRACE <
         since now (default t (list.last beats))).
Proof.
  unfold healthz_response.
  destruct (stale_components (foldl step ∅ evs) now) as [|[c x] l] eqn:Hs.
  - left. split; [done|]. intros c t period beats Hh.
    assert (foldl step ∅ evs !! c = Some (of_history (t, period, beats))) as Hc
      by (by rewrite run_history, Hh).
    exact (proj1 (stale_nil _ _) Hs c _ Hc).
  - right. split; [done|].
    assert ((c, x) ∈ stale_components (foldl step ∅ evs) now) as Hin by (rewrite Hs; by left).
    apply list_elem_of_omap in Hin as ([c' h] & Hin & Heq). cbn in Heq.
    destruct (Z.ltb_spec (window h) (since now (last h))); [|done].
    apply elem_of_map_to_list in Hin. rewrite run_history in Hin.
    destruct (history evs c') as [[[t period] beats]|] eqn:Hh; [|done].
    cbn in Hin. injection Hin as <-. by exists c', t, period, beats.
Qed.

End Health.

(** ** Orchestration ([orchestrate.rs]) *)

Module Orchestrate.
Import Config Health.

(** [NotRoot] *)
Definition require_root (euid : Z) : Z + unit := if euid =? 0 then inr tt else inl euid.

Definition components_for (config : KubeRouterConfig) : list (Component * Z) :=
  (if run_router config
   then [(NetworkRoutes, routes_sync_period config); (RouteSync, routes_sync_period config)]
   else []) ++
  (if run_firewall config then [(NetworkPolicy, iptables_sync_period config)] else []) ++
  (if run_service_proxy config then [(NetworkServices, ipvs_sync_period config)] else []) ++
  (if run_loadbalancer config then [(LoadBalancer, loadbalancer_sync_period config)] else []).

Definition enabled_controllers (config : KubeRouterConfig) : list string :=
  (if run_router config then ["router (BGP + routes)"] else []) ++
  (if run_firewall config then ["firewall (network policy)"] else []) ++
  (if run_service_proxy config then ["service-proxy (IPVS)"] else []) ++
  (if run_loadbalancer config then ["loadbalancer-allocator"] else []).

Definition bind_addr (host : string) (port : Z) : string :=
  (if bool_decide (host = "") then "0.0.0.0" else host) +:+ ":" +:+ pretty port.

End Orchestrate.

(** ** Node addresses ([node.rs]) *)

Module NodeDiscovery.

Inductive NodeAddressType := Internal | External | Other.
#[export] Instance NodeAddressType_eq_dec : EqDecision NodeAddressType.
Proof. solve_decision. Defined.

Record NodeAddress := { kind : NodeAddressType; address : string }.

Record NodeIps := { node_v4 : option IpAddr; node_v6 : option IpAddr }.

Definition rank (k : NodeAddressType) : Z :=
  match k with Internal => 0 | External => 1 | Other => 2 end.

Definition default_ranks : Z * Z := (255, 255).

(** The body of the loop, on the addresses chosen and their ranks. *)
Definition select_step (s : NodeIps * (Z * Z)) (a : NodeAddress) : NodeIps * (Z * Z) :=
  let '(out, best_rank) := s in
  if decide (kind a = Other) then s
  else
    match parse_ip (address a) with
    | inl _ => s
    | inr ip =>
        let r := rank (kind a) in
        match of_addr ip with
        | FamV4 =>
            if bool_decide (node_v4 out = None) || (r <? best_rank.1)
            then ({| node_v4 := Some ip; node_v6 := node_v6 out |}, (r, best_rank.2)) else s
        | FamV6 =>
            if bool_decide (node_v6 out = None) || (r <? best_rank.2)
            then ({| node_v4 := node_v4 out; node_v6 := Some ip |}, (best_rank.1, r)) else s
        end
    end.

Definition select_node_ips (addresses : list NodeAddress) : NodeIps :=
  (foldl select_step ({| node_v4 := None; node_v6 := None |}, default_ranks) addresses).1.

Definition parse_pod_cidrs `{IpNetLib} (cidrs : list string) : list IpNet :=
  filter_map (λ c, match parse_cidr c with inr n => Some n | inl _ => None end) cidrs.

(** The addresses of one kind and family, in order. *)
Definition candidates (k : NodeAddressType) (family : IpFamily) (addresses : list NodeAddress)
    : list IpAddr :=
  filter_map (λ a,
    match parse_ip (address a) with
    | inr ip => if bool_decide (kind a = k) && bool_decide (of_addr ip = family)
                then Some ip else None
    | inl _ => None
    end) addresses.

(** The preferred address of a family: the first internal one, else the first
    external one. *)
Definition preferred (family : IpFamily) (addresses : list NodeAddress) : option IpAddr :=
  match candidates Internal family addresses with
  | ip :: _ => Some ip
  | [] => head (candidates External family addresses)
  end.

Definition chosen_rank (family : IpFamily) (addresses : list NodeAddress) : Z :=
  match candidates Internal family addresses, candidates External family addresses with
  | _ :: _, _ => 0
  | [], _ :: _ => 1
  | [], [] => 255
  end.

Lemma candidates_snoc k family l a :
  candidates k family (l ++ [a]) = candidates k family l ++ candidates k family [a].
Proof. unfold candidates, filter_map. by rewrite omap_app. Qed.

Lemma candidates_one k family a :
  candidates k family [a] =
  match parse_ip (address a) with
  | inr ip => if bool_decide (kind a = k) && bool_decide (of_addr ip = family) then [ip] else []
  | inl _ => []
  end.
Proof. unfold candidates, filter_map. cbn. by destruct (parse_ip _); [|destruct (_ && _)]. Qed.

Lemma select_fold addresses :
  foldl select_step ({| node_v4 := None; node_v6 := None |}, default_ranks) addresses =
  ({| node_v4 := preferred FamV4 addresses; node_v6 := preferred FamV6 addresses |},
   (chosen_rank FamV4 addresses, chosen_rank FamV6 addresses)).
Proof.
  induction addresses as [|a l IH] using rev_ind; [done|].
  rewrite foldl_app, IH. cbn [foldl select_step].
  unfold preferred, chosen_rank. rewrite !candidates_snoc, !candidates_one.
  destruct a as [k s]. cbn [kind address].
  destruct (parse_ip s) as [e|ip] eqn:Hip.
  { rewrite !app_nil_r. by destruct (decide (k = Other)). }
  destruct (of_addr ip) eqn:Hf, k; cbn;
    destruct (candidates Internal FamV4 l), (candidates External FamV4 l),
      (candidates Internal FamV6 l), (candidates External FamV6 l); done.
Qed.

(** The addresses of a node are its preferred ones of each family: the first
    InternalIP that parses, or else the first ExternalIP. *)
Theorem select_node_ips_correct addresses :
  select_node_ips addresses =
  {| node_v4 := preferred FamV4 addresses; node_v6 := preferred FamV6 addresses |}.
Proof. unfold select_node_ips. by rewrite select_fold. Qed.

End NodeDiscovery.

(** ** Cleanup ([cleanup.rs]) *)

Module Cleanup.
Import Config.

(** The program and its arguments; the description is for the log only. *)
Record CleanupCmd := { desc : string; prog : string; args : list string }.

Definition cmd (d p : string) (a : list string) : CleanupCmd := {| desc := d; prog := p; args := a |}.

Definition firewall_cmds : list CleanupCmd :=
  ((λ chain, cmd "unhook KUBE-ROUTER filter jump" "iptables"
               ["-w"; "-t"; "filter"; "-D"; chain; "-j"; "KUBE-ROUTER-" +:+ chain])
     <$> ["INPUT"; "FORWARD"; "OUTPUT"]) ++
  (["KUBE-ROUTER-INPUT"; "KUBE-ROUTER-FORWARD"; "KUBE-ROUTER-OUTPUT"] ≫= λ chain,
     [cmd "flush filter chain" "iptables" ["-w"; "-t"; "filter"; "-F"; chain];
      cmd "delete filter chain" "iptables" ["-w"; "-t"; "filter"; "-X"; chain]]) ++
  ((λ set, cmd "destroy ipset" "ipset" ["destroy"; set])
     <$> ["kube-router-local-pods"; "inet6:kube-router-local-pods"]).

Definition service_proxy_cmds : list CleanupCmd :=
  [cmd "clear all IPVS services" "ipvsadm" ["-C"];
   cmd "delete kube-dummy-if" "ip" ["link"; "del"; "kube-dummy-if"];
   cmd "unhook KUBE-ROUTER-SERVICES INPUT jump" "iptables"
     ["-w"; "-t"; "filter"; "-D"; "INPUT"; "-j"; "KUBE-ROUTER-SERVICES"];
   cmd "flush KUBE-ROUTER-SERVICES" "iptables" ["-w"; "-t"; "filter"; "-F"; "KUBE-ROUTER-SERVICES"];
   cmd "delete KUBE-ROUTER-SERVICES" "iptables" ["-w"; "-t"; "filter"; "-X"; "KUBE-ROUTER-SERVICES"];
   cmd "flush KUBE-ROUTER-HAIRPIN" "iptables" ["-w"; "-t"; "nat"; "-F"; "KUBE-ROUTER-HAIRPIN"];
   cmd "delete KUBE-ROUTER-HAIRPIN" "iptables" ["-w"; "-t"; "nat"; "-X"; "KUBE-ROUTER-HAIRPIN"]] ++
  ((λ set, cmd "destroy ipset" "ipset" ["destroy"; set])
     <$> ["kube-router-local-ips"; "kube-router-svip"; "kube-router-svip-prt";
          "inet6:kube-router-local-ips"; "inet6:kube-router-svip"; "inet6:kube-router-svip-prt"]).

Definition router_cmds : list CleanupCmd :=
  [cmd "flush DSR route table" "ip" ["route"; "flush"; "table"; "78"];
   cmd "flush external-IP route table" "ip" ["route"; "flush"; "table"; "79"];
   cmd "delete DSR ip rule" "ip" ["rule"; "del"; "table"; "78"];
   cmd "delete external-IP ip rule" "ip" ["rule"; "del"; "table"; "79"];
   cmd "delete kube-tunnel-if" "ip" ["link"; "del"; "kube-tunnel-if"];
   cmd "delete kube-tunnel-v6" "ip" ["link"; "del"; "kube-tunnel-v6"]].

Definition cleanup_plan (config : KubeRouterConfig) : list CleanupCmd :=
  (if run_service_proxy config then service_proxy_cmds else []) ++
  (if run_firewall config then firewall_cmds else []) ++
  (if run_router config then router_cmds else []).

Section run.
Context {W : Type} `{!CommandRunner W}.

(** A command whose outcome is only logged. *)
Definition tolerantly (prog : string) (args : list string) (w : W) : W :=
  (run_command prog args None w).2.

Definition run_plan (plan : list CleanupCmd) (w : W) : W :=
  foldl (λ w c, tolerantly (prog c) (args c) w) w plan.

(** The chains of an [iptables-save] document that the sweep takes. *)
Definition dynamic_chains (doc : string) : list string :=
  filter_map (λ l,
    rest ← strip_prefix ":" l;
    c ← head (split_whitespace rest);
    if starts_with "KUBE-POD-FW-" c || starts_with "KUBE-NWPLCY-" c then Some c else None)
  (str_lines doc).

(** The exit status of the save is not looked at. *)
Definition sweep_chain (bin : string) (w : W) (chain : string) : W :=
  tolerantly bin ["-w"; "-t"; "filter"; "-X"; chain]
    (tolerantly bin ["-w"; "-t"; "filter"; "-F"; chain] w).

Definition sweep_bin (bin : string) (w : W) : W :=
  match run_command (bin +:+ "-save") ["-t"; "filter"] None w with
  | (inl _, w) => w
  | (inr (_, stdout, _), w) => foldl (sweep_chain bin) w (dynamic_chains stdout)
  end.

Definition sweep_dynamic_chains (w : W) : W :=
  foldl (λ w bin, sweep_bin bin w) w ["iptables"; "ip6tables"].

Definition cleanup_run (config : KubeRouterConfig) (w : W) : W :=
  let w := run_plan (cleanup_plan config) w in
  if run_firewall config then sweep_dynamic_chains w else w.
End run.

(** *** What the sweep leaves behind *)

(** The filter table as [jumps]: the chains, each with the targets of its rules.
    As iptables(8) says, [-F] empties a chain and [-X] deletes a user-defined
    chain that is empty and to which no rule refers. *)
Class FilterTable {W : Type} `{!CommandRunner W} (bin : string)
    (jumps : W → gmap string (list string)) : Prop := {
  flush_empties chain w :
    jumps (tolerantly bin ["-w"; "-t"; "filter"; "-F"; chain] w) = alter (λ _, []) chain (jumps w);
  delete_unreferenced chain w :
    (∀ c targets, jumps w !! c = Some targets → chain ∉ targets) →
    jumps w !! chain = Some [] →
    jumps (tolerantly bin ["-w"; "-t"; "filter"; "-X"; chain] w) = delete chain (jumps w);
  delete_refused chain w c targets :
    jumps w !! c = Some targets → chain ∈ targets →
    jumps (tolerantly bin ["-w"; "-t"; "filter"; "-X"; chain] w) = jumps w;
  delete_absent chain w :
    jumps w !! chain = None →
    jumps (tolerantly bin ["-w"; "-t"; "filter"; "-X"; chain] w) = jumps w;
}.

Section table.
Context {W : Type} `{!CommandRunner W} (bin : string) (jumps : W → gmap string (list string)).
Context `{HT : !FilterTable bin jumps}.

(** Sweeping one chain changes no other. *)
Lemma sweep_chain_other chain w c :
  c ≠ chain → jumps (sweep_chain bin w chain) !! c = jumps w !! c.
Proof.
  intros Hne. unfold sweep_chain. set (w1 := tolerantly bin ["-w"; "-t"; "filter"; "-F"; chain] w).
  assert (jumps w1 = alter (λ _, []) chain (jumps w)) as H1 by apply flush_empties.
  transitivity (jumps w1 !! c); [|by rewrite H1, lookup_alter_ne].
  destruct (jumps w !! chain) as [t|] eqn:Ht; cycle 1.
  { rewrite delete_absent; [done|]. by rewrite H1, lookup_alter_eq, Ht. }
  destruct (decide (map_Exists (λ _ targets, chain ∈ targets) (jumps w1))) as [(c' & ts & Hc & Hin)|Hno].
  - by rewrite (delete_refused chain w1 c' ts).
  - rewrite delete_unreferenced; [by rewrite lookup_delete_ne| |].
    + intros c' ts Hc Hin. apply Hno. by exists c', ts.
    + by rewrite H1, lookup_alter_eq, Ht.
Qed.

Lemma sweep_others chains w c :
  c ∉ chains → jumps (foldl (sweep_chain bin) w chains) !! c = jumps w !! c.
Proof.
  revert w. induction chains as [|x l IH]; intros w Hc; [done|]. cbn [foldl].
  rewrite IH by set_solver. apply sweep_chain_other. set_solver.
Qed.

Lemma sweep_chain_referenced chain w c targets :
  c ≠ chain → jumps w !! c = Some targets → chain ∈ targets →
  is_Some (jumps w !! chain) → is_Some (jumps (sweep_chain bin w chain) !! chain).
Proof.
  intros Hne Hc Hin Hs. unfold sweep_chain. rewrite (delete_refused _ _ c targets); [..|done].
  - rewrite flush_empties, lookup_alter_eq. by destruct Hs as [t ->].
  - by rewrite flush_empties, lookup_alter_ne.
Qed.

(** A chain that the sweep meets before a chain that jumps to it is not deleted:
    the sweep deletes each chain right after emptying it, while the rule that
    refers to it is still there. *)
Theorem sweep_leaves_referenced w doc err w' before chain between user after targets :
  run_command (bin +:+ "-save") ["-t"; "filter"] None w = (inr (true, doc, err), w') →
  dynamic_chains doc = before ++ [chain] ++ between ++ [user] ++ after →
  NoDup (dynamic_chains doc) →
  jumps w' !! user = Some targets → chain ∈ targets → is_Some (jumps w' !! chain) →
  is_Some (jumps (sweep_bin bin w) !! chain).
Proof.
  intros Hrun Hdoc Hnd Huser Hin Hs. unfold sweep_bin. rewrite Hrun, Hdoc.
  rewrite Hdoc in Hnd. rewrite foldl_app. cbn [app foldl].
  apply NoDup_app in Hnd as (Hnd1 & Hd & Hnd2). cbn [app] in Hnd2.
  apply NoDup_cons in Hnd2 as [Hc Hnd2].
  rewrite sweep_others by done.
  apply (sweep_chain_referenced _ _ user targets);
    [set_solver|rewrite sweep_others; [done|]|done|rewrite sweep_others; [done|]];
    intros Hx; apply (Hd _ Hx); set_solver.
Qed.
End table.

(** *** A small filter table *)

Module Table.

Definition referenced (chain : string) (t : gmap string (list string)) : bool :=
  existsb (λ kv, list_contains kv.2 chain) (map_to_list t).

Definition edit (op chain : string) (t : gmap string (list string)) : gmap string (list string) :=
  if decide (op = "-F") then alter (λ _, []) chain t
  else if decide (op = "-X") then
    if referenced chain t || negb (bool_decide (t !! chain = Some [])) then t else delete chain t
  else t.

Definition newline : string := String (ascii_of_N 10) "".
Definition save (t : gmap string (list string)) : string :=
  "*filter" +:+ newline +:+
  str_concat ((λ c, ":" +:+ c +:+ " - [0:0]" +:+ newline) <$> btree_keys t) +:+ "COMMIT".

#[local] Instance runner : CommandRunner (gmap string (list string)) := {|
  run_command program args _ t :=
    if decide (program = "iptables-save") then (inr (true, save t, ""), t)
    else
      match args with
      | [_; _; _; op; chain] => (inr (true, "", ""), edit op chain t)
      | _ => (inl "usage", t)
      end
|}.

Lemma referenced_true chain t :
  referenced chain t = true ↔ ∃ c targets, t !! c = Some targets ∧ chain ∈ targets.
Proof.
  unfold referenced. rewrite existsb_exists. split.
  - intros ([c ts] & Hin & Hc). exists c, ts. apply list_contains_true in Hc. split; [|done].
    apply elem_of_map_to_list. by apply list_elem_of_In.
  - intros (c & ts & Hc & Hin). exists (c, ts). split; [|by apply list_contains_true].
    apply list_elem_of_In. by apply elem_of_map_to_list.
Qed.

#[local] Instance laws : FilterTable "iptables" (λ t : gmap string (list string), t).
Proof.
  split.
  - done.
  - intros chain t Hno Ht. change (edit "-X" chain t = delete chain t). unfold edit.
    rewrite decide_False, decide_True by done.
    destruct (referenced chain t) eqn:Hr; [|by rewrite Ht].
    apply referenced_true in Hr as (c & ts & Hc & Hin). by destruct (Hno c ts Hc).
  - intros chain t c ts Hc Hin. change (edit "-X" chain t = t). unfold edit.
    rewrite decide_False, decide_True by done.
    by rewrite (proj2 (referenced_true chain t)) by (by exists c, ts).
  - intros chain t Ht. change (edit "-X" chain t = t). unfold edit.
    rewrite decide_False, decide_True, Ht by done. by rewrite orb_true_r.
Defined.

Definition start : gmap string (list string) :=
  <["KUBE-NWPLCY-X" := []]> (<["KUBE-POD-FW-Y" := ["KUBE-NWPLCY-X"]]> ∅).

Lemma sweep_leaves_referenced_witness :
  dynamic_chains (save start) = ["KUBE-NWPLCY-X"; "KUBE-POD-FW-Y"] ∧
  is_Some (sweep_bin "iptables" start !! "KUBE-NWPLCY-X").
Proof.
  split; [vm_compute; reflexivity|].
  apply (sweep_leaves_referenced "iptables" (λ t : gmap string (list string), t) start (save start)
           "" start [] "KUBE-NWPLCY-X" [] "KUBE-POD-FW-Y" [] ["KUBE-NWPLCY-X"]).
  - reflexivity.
  - vm_compute; reflexivity.
  - vm_compute. repeat constructor; set_solver.
  - reflexivity.
  - by left.
  - by eexists.
Defined.

End Table.

End Cleanup.
