(* ===== verification/Observability.v ===== *)
(** * Observability: the HTTP endpoints and the service metrics
    ([crates/observability/src/http.rs] and [metrics.rs])

    A connection is one read of at most 2048 bytes, the path of the request line,
    the answer of a handler, and one write.  The metrics are the gauges of the
    crate [prometheus], an interface; [ServiceMetrics::update] is the instance of
    the interface through which the service synchroniser publishes. *)

From stdpp Require Import gmap sets list strings pretty.
From Stdlib Require Import Ascii ZArith Lia.
From S2P Require Import Prelude Text Common Proxy ProxySync Agent.
Import Health.

Local Open Scope Z_scope.

Definition cr : ascii := "013"%char.
Definition crlf : string := String cr newline.

(** ** [String::from_utf8_lossy]

    A sequence of bytes that is no prefix of an encoded character becomes the
    replacement character. *)

Module Utf8.

(** U+FFFD *)
Definition replacement : string :=
  String (ascii_of_N 239) (String (ascii_of_N 191) (String (ascii_of_N 189) "")).

(** A character whose first bytes were read (in reverse), the number of bytes to
    come, and the bounds of the next one. *)
Record Partial := { seen : string; missing : nat; lo : Z; hi : Z }.

(** What a first byte starts: [None] when it starts no character of several bytes. *)
Definition lead (c : ascii) : option Partial :=
  let b := byte_of c in
  let after n lo hi := Some {| seen := String c ""; missing := n; lo := lo; hi := hi |} in
  if (194 <=? b) && (b <=? 223) then after 1%nat 128 191
  else if b =? 224 then after 2%nat 160 191
  else if b =? 237 then after 2%nat 128 159
  else if (225 <=? b) && (b <=? 239) then after 2%nat 128 191
  else if b =? 240 then after 3%nat 144 191
  else if (241 <=? b) && (b <=? 243) then after 3%nat 128 191
  else if b =? 244 then after 3%nat 128 143
  else None.

(** A byte where a character starts: the output, and a character in progress. *)
Definition start (c : ascii) : string * option Partial :=
  if byte_of c <? 128 then (String c "", None)
  else match lead c with
       | Some p => ("", Some p)
       | None => (replacement, None)
       end.

Definition continue (p : Partial) (c : ascii) : string * option Partial :=
  if (lo p <=? byte_of c) && (byte_of c <=? hi p) then
    match missing p with
    | S (S n) => ("", Some {| seen := String c (seen p); missing := S n; lo := 128; hi := 191 |})
    | _ => (String.rev (String c (seen p)), None)
    end
  else let '(out, next) := start c in (replacement +:+ out, next).

Fixpoint lossy_from (p : option Partial) (s : string) : string :=
  match s with
  | EmptyString => match p with Some _ => replacement | None => "" end
  | String c s =>
      let '(out, next) := match p with Some p => continue p c | None => start c end in
      out +:+ lossy_from next s
  end.

Definition lossy (bytes : string) : string := lossy_from None bytes.

Definition is_ascii (c : ascii) : bool := byte_of c <? 128.

(** ASCII bytes stand for themselves, whatever follows them. *)
Lemma lossy_ascii (s t : string) : str_all is_ascii s = true → lossy (s +:+ t) = s +:+ lossy t.
Proof.
  unfold lossy. induction s as [|c s IH]; intros Ha; [done|].
  cbn [str_all] in Ha.
  apply andb_true_iff in Ha as [Hc Ha]. rewrite !append_cons.
  cbn [lossy_from]. unfold is_ascii in Hc. unfold start. rewrite Hc, append_cons, append_nil_l.
  by rewrite IH.
Qed.

End Utf8.

(** ** The server *)

Module Http.
Import Utf8.

Record Response := { status : Z; content_type : string; body : string }.

Definition reason (status : Z) : string :=
  if status =? 200 then "OK"
  else if status =? 404 then "Not Found"
  else if status =? 500 then "Internal Server Error"
  else if status =? 503 then "Service Unavailable"
  else "Unknown".

Definition parse_path (req : string) : option string :=
  line ← head (str_lines req);
  match split_whitespace line with
  | _method :: path :: _ => Some path
  | _ => None
  end.

Definition response_bytes (resp : Response) : string :=
  "HTTP/1.1 " +:+ pretty (status resp) +:+ " " +:+ reason (status resp) +:+ crlf +:+
  "Content-Type: " +:+ content_type resp +:+ crlf +:+
  "Content-Length: " +:+ pretty (Z.of_nat (String.length (body resp))) +:+ crlf +:+
  "Connection: close" +:+ crlf +:+ crlf +:+ body resp.

(** [stream.read(&mut buf)], [write_all] and [flush] *)
Class Connection (W : Type) := {
  stream_read : nat → M W string string;
  stream_write_all : string → M W string unit;
  stream_flush : M W string unit;
}.

(** The handlers read the shared state and the time. *)
Class Shared (W : Type) := {
  health_lock : W → gmap Component ComponentHealth;
  metrics_gather : W → string;
}.

Section server.
Context {W : Type} `{!Connection W}.

Definition handle_conn (handler : string → W → Response) (w : W) : W :=
  match stream_read 2048 w with
  | (inl _, w) => w
  | (inr buf, w) =>
      let path := default "/" (parse_path (lossy buf)) in
      let resp := handler path w in
      let w := (stream_write_all (response_bytes resp) w).2 in
      (stream_flush w).2
  end.

Context `{!Shared W, !Clock W}.

Definition not_found : Response :=
  {| status := 404; content_type := "text/plain"; body := "not found" |}.

Definition health_handler (path : string) (w : W) : Response :=
  if starts_with "/healthz" path then
    let '(status, body) := healthz_response (health_lock w) (clock_now w) in
    {| status := status; content_type := "text/plain"; body := body |}
  else not_found.

Definition metrics_handler (metrics_path path : string) (w : W) : Response :=
  if decide (path = metrics_path) then
    {| status := 200; content_type := "text/plain; version=0.0.4"; body := metrics_gather w |}
  else not_found.
End server.
End Http.

(** ** The metrics *)

Module MetricsRegistry.

Definition NAMESPACE : string := "kube_router".

Definition SERVICE_LABELS : list string :=
  ["svc_namespace"; "service_name"; "service_vip"; "protocol"; "port"].

(** The registry and the gauges of [prometheus], by their full name: families of
    labelled series, and single gauges.  [with_label_values(..).set(..)] creates
    the series it sets. *)
Class Gauges (W : Type) := {
  register_gauge : string → list string → string → M W string unit;   (* name, labels, help *)
  gauge_reset : string → W → W;
  gauge_set : string → list string → Z → W → W;
  int_gauge_set : string → Z → W → W;
}.

(** [Opts::namespace] *)
Definition full_name (name : string) : string := NAMESPACE +:+ "_" +:+ name.

(** The gauge families in the order of [update], each with its help text and what
    it publishes of a sample. *)
Definition SERVICE_FAMILIES : list (string * string * (ServiceStatSample → Z)) :=
  [("service_total_connections", "Total incoming connections made", ss_total_connections);
   ("service_packets_in", "Total incoming packets", ss_packets_in);
   ("service_packets_out", "Total outgoing packets", ss_packets_out);
   ("service_bytes_in", "Total incoming bytes", ss_bytes_in);
   ("service_bytes_out", "Total outgoing bytes", ss_bytes_out);
   ("service_cps", "Service connections per second", ss_cps);
   ("service_pps_in", "Incoming packets per second", ss_pps_in);
   ("service_pps_out", "Outgoing packets per second", ss_pps_out);
   ("service_bps_in", "Incoming bytes per second", ss_bps_in);
   ("service_bps_out", "Outgoing bytes per second", ss_bps_out)].

Definition ipvs_services : string := "controller_ipvs_services".

Section metrics.
Context {W : Type} `{!Gauges W}.

(** [ServiceMetrics::register]; an error is the panic of [expect]. *)
Definition register_services : M W string unit :=
  register_gauge (full_name ipvs_services) [] "Number of ipvs services in the instance";;
  mfor SERVICE_FAMILIES (λ f, register_gauge (full_name f.1.1) SERVICE_LABELS f.1.2).

(** [Metrics::new] *)
Definition metrics_new (version : string) : M W string unit :=
  mmodify (gauge_set (full_name "build_info") [version] 1);;
  register_gauge (full_name "build_info") ["version"] "kube-router-rs build information".

Definition sample_labels (s : ServiceStatSample) : list string :=
  [ss_namespace s; ss_service s; ss_vip s; ss_protocol s; pretty (ss_port s)].

(** [count as i64] *)
Definition as_i64 (n : nat) : Z :=
  let z := Z.of_nat n `mod` 2 ^ 64 in if z <? 2 ^ 63 then z else z - 2 ^ 64.

Definition set_sample (s : ServiceStatSample) (w : W) : W :=
  foldl (λ w f, gauge_set (full_name f.1.1) (sample_labels s) (f.2 s) w) w SERVICE_FAMILIES.

(** [ServiceMetrics::update] *)
Definition update (samples : list ServiceStatSample) (service_count : nat) (w : W) : W :=
  let w := foldl (λ w f, gauge_reset (full_name f.1.1) w) w SERVICE_FAMILIES in
  let w := foldl (λ w s, set_sample s w) w samples in
  int_gauge_set (full_name ipvs_services) (as_i64 service_count) w.

#[export] Instance service_metrics : MetricsOps W := {| metrics_update := update |}.
End metrics.
End MetricsRegistry.
