(* ===== verification/HttpTheorems.v ===== *)
(** * HttpTheorems: what a client of the HTTP endpoints gets

    A reader of HTTP responses, which recovers what the server writes; the path of
    a request line; and the answer to a probe of [/healthz] from the bytes of the
    request to the bytes of the response. *)

From stdpp Require Import gmap sets list strings pretty.
From Stdlib Require Import Ascii ZArith Lia.
From S2P Require Import Prelude Text Net IpText Common Netlink Proxy ProxySync Agent Observability.
Import Health Utf8 Http MetricsRegistry.

Local Open Scope Z_scope.

(** ** Splitting text *)

Definition without (c d : ascii) : bool := negb (bool_decide (c = d)).

Lemma split_go_piece c cur a b :
  str_all (without c) a = true →
  split_go (λ d, bool_decide (c = d)) cur (a +:+ String c b) =
  (String.rev cur +:+ a) :: split_go (λ d, bool_decide (c = d)) "" b.
Proof.
  revert cur. induction a as [|d a IH]; intros cur Ha.
  - rewrite append_nil_l, str_app_nil_r. cbn [split_go]. by rewrite bool_decide_eq_true_2.
  - cbn [str_all] in Ha. apply andb_true_iff in Ha as [Hd Ha]. unfold without in Hd.
    apply negb_true_iff in Hd. rewrite append_cons. cbn [split_go]. rewrite Hd, IH by done.
    by rewrite rev_cons, str_app_assoc.
Qed.

Lemma split_go_nonempty p cur s : split_go p cur s ≠ [].
Proof. revert cur. induction s as [|c s IH]; intros cur; cbn; [done|]. by destruct (p c). Qed.

Lemma strip_cr_end a : strip_cr (a +:+ String cr "") = a.
Proof. unfold strip_cr. rewrite rev_append. cbn. apply rev_involutive. Qed.

(** The first line of a text. *)
Lemma lines_first a b :
  str_all (without "010") a = true → head (str_lines (a +:+ crlf +:+ b)) = Some a.
Proof.
  intros Ha. unfold str_lines, split_char, split_by, crlf.
  assert (a +:+ String cr newline +:+ b = (a +:+ String cr "") +:+ String "010" b) as ->.
  { rewrite str_app_assoc. done. }
  rewrite split_go_piece by (rewrite str_all_app, Ha; done). rewrite append_nil_l.
  pose proof (split_go_nonempty (λ d, bool_decide ("010"%char = d)) "" b) as Hn.
  destruct (split_go _ "" b) as [|x l]; [done|]. cbn. by rewrite strip_cr_end.
Qed.

Lemma words_go_run cur a s :
  str_all not_space a = true →
  String.words_go (Some cur) (a +:+ s) = String.words_go (Some (String.rev a +:+ cur)) s.
Proof.
  revert cur. induction a as [|c a IH]; intros cur Ha; [done|].
  cbn [str_all] in Ha. apply andb_true_iff in Ha as [Hc Ha]. unfold not_space in Hc.
  apply negb_true_iff in Hc. rewrite append_cons. cbn [String.words_go].
  rewrite Hc. cbn [from_option]. rewrite IH by done. by rewrite rev_cons, str_app_assoc.
Qed.

Lemma words_word a s :
  a ≠ "" → str_all not_space a = true →
  split_whitespace (a +:+ String " " s) = a :: split_whitespace s.
Proof.
  destruct a as [|c a]; [done|]. intros _ Ha. cbn [str_all] in Ha.
  apply andb_true_iff in Ha as [Hc Ha]. unfold not_space in Hc. apply negb_true_iff in Hc.
  unfold split_whitespace, String.words. rewrite append_cons. cbn [String.words_go].
  rewrite Hc. cbn [from_option]. rewrite words_go_run by done. cbn.
  by rewrite rev_append, rev_involutive.
Qed.

(** ** Requests *)

(** A request line of three words, whatever follows it on the connection. *)
Definition http_request (method path version rest : string) : string :=
  (method +:+ String " " (path +:+ String " " version)) +:+ crlf +:+ rest.

Definition word (s : string) : Prop :=
  s ≠ "" ∧ str_all (λ c, is_ascii c && not_space c) s = true.

Lemma word_ascii s : word s → str_all is_ascii s = true.
Proof. intros [_ Hs]. eapply str_all_impl; [|exact Hs]. by intros c [? _]%andb_true_iff. Qed.
Lemma word_nospace s : word s → str_all not_space s = true.
Proof. intros [_ Hs]. eapply str_all_impl; [|exact Hs]. by intros c [_ ?]%andb_true_iff. Qed.
Lemma word_noline s : word s → str_all (without "010") s = true.
Proof.
  intros [_ Hs]. eapply str_all_impl; [|exact Hs]. intros c [_ Hc]%andb_true_iff.
  unfold without. apply negb_true_iff, bool_decide_eq_false. by intros <-.
Qed.

Lemma three_words p a b c :
  p " "%char = true → str_all p a = true → str_all p b = true → str_all p c = true →
  str_all p (a +:+ String " " (b +:+ String " " c)) = true.
Proof.
  intros Hp Ha Hb Hc. rewrite str_all_app, Ha. cbn [str_all]. rewrite Hp, str_all_app, Hb.
  cbn [str_all]. by rewrite Hp, Hc.
Qed.

(** The server finds the path of a well-formed request, even when the bytes after
    its first line are no text. *)
Lemma request_path method path version rest :
  word method → word path → word version →
  parse_path (lossy (http_request method path version rest)) = Some path.
Proof.
  intros Hm Hp Hv. unfold http_request.
  pose proof (three_words is_ascii method path version eq_refl (word_ascii _ Hm)
    (word_ascii _ Hp) (word_ascii _ Hv)) as Ha.
  pose proof (three_words (without "010") method path version eq_refl (word_noline _ Hm)
    (word_noline _ Hp) (word_noline _ Hv)) as Hl.
  set (line := method +:+ _) in *. rewrite lossy_ascii by done. rewrite lossy_ascii by done.
  unfold parse_path. rewrite lines_first by done. cbn [mbind option_bind].
  subst line. rewrite words_word by (try apply word_nospace; done || apply Hm).
  by rewrite words_word by (try apply word_nospace; done || apply Hp).
Qed.

(** ** Responses *)

Lemma strip_prefix_head p c s d t :
  p = String d t → c ≠ d → strip_prefix p (String c s) = None.
Proof. intros -> Hne. cbn. by rewrite decide_False by congruence. Qed.

Lemma split_at_crlf cur a b :
  str_all (without cr) a = true →
  split_once_str_go crlf cur (a +:+ crlf +:+ b) = Some (String.rev cur +:+ a, b).
Proof.
  revert cur. induction a as [|c a IH]; intros cur Ha.
  - rewrite append_nil_l, str_app_nil_r. done.
  - cbn [str_all] in Ha. apply andb_true_iff in Ha as [Hc Ha]. rewrite append_cons.
    unfold without in Hc. apply negb_true_iff, bool_decide_eq_false in Hc.
    cbn [split_once_str_go]. rewrite (strip_prefix_head crlf c _ cr newline eq_refl) by congruence.
    rewrite IH by done. by rewrite rev_cons, str_app_assoc.
Qed.

(** The text up to the end of a line, and what follows it. *)
Definition read_line (s : string) : option (string * string) := split_once_str crlf s.

Lemma read_line_spec a b :
  str_all (without cr) a = true → read_line (a +:+ crlf +:+ b) = Some (a, b).
Proof. intros Ha. unfold read_line, split_once_str. by rewrite split_at_crlf. Qed.

(** Header lines up to the empty one, and the body. *)
Fixpoint read_headers (fuel : nat) (s : string) : option (list (string * string) * string) :=
  match fuel with
  | O => None
  | S fuel =>
      '(line, rest) ← read_line s;
      if str_is_empty line then Some ([], rest)
      else
        header ← split_once ":" line;
        '(headers, body) ← read_headers fuel rest;
        Some ((header.1, trim_start header.2) :: headers, body)
  end.

Definition header_named (name : string) (headers : list (string * string)) : option string :=
  snd <$> head (filter (λ h, h.1 = name) headers).

(** A client: the status of the first line, the type, and the body, which must
    have the announced length. *)
Definition read_response (s : string) : option Response :=
  '(line, rest) ← read_line s;
  '(headers, body) ← read_headers (String.length s) rest;
  let words := split_whitespace line in
  version ← head words;
  code ← words !! 1%nat;
  status ← parse_uint 999 code;
  content_type ← header_named "Content-Type" headers;
  length ← header_named "Content-Length" headers;
  n ← digits_nonempty length;
  if bool_decide (version = "HTTP/1.1") && (n =? Z.of_nat (String.length body))
  then Some {| status := status; content_type := content_type; body := body |}
  else None.

Lemma read_header fuel name value rest :
  str_all (without cr) name = true → str_all (without ":") name = true →
  name ≠ "" → str_all (without cr) value = true →
  read_headers (S fuel) (name +:+ ":" +:+ value +:+ crlf +:+ rest) =
  ('(headers, body) ← read_headers fuel rest; Some ((name, trim_start value) :: headers, body)).
Proof.
  intros Hc Hn He Hv.
  assert (name +:+ ":" +:+ value +:+ crlf +:+ rest =
          (name +:+ String ":" value) +:+ crlf +:+ rest) as -> by (by rewrite str_app_assoc).
  cbn [read_headers]. rewrite read_line_spec.
  2: { rewrite str_all_app, Hc. cbn [str_all]. by rewrite Hv. }
  cbn [mbind option_bind].
  assert (str_is_empty (name +:+ String ":" value) = false) as -> by (by destruct name).
  by rewrite split_once_spec.
Qed.

Lemma pretty_no_cr z : 0 ≤ z → str_all (without cr) (pretty z) = true.
Proof.
  intros Hz. eapply str_all_impl; [|by apply pretty_digits]. intros c Hd. unfold without.
  apply negb_true_iff, bool_decide_eq_false. by intros <-.
Qed.

Lemma pretty_no_space z : 0 ≤ z → str_all not_space (pretty z) = true.
Proof. intros Hz. eapply str_all_impl; [apply digit_not_space|by apply pretty_digits]. Qed.

Lemma pretty_nonempty z : 0 ≤ z → pretty z ≠ "".
Proof. intros Hz He. pose proof (pretty_starts_digit z Hz) as Hd. by rewrite He in Hd. Qed.

Lemma reason_shape s : ∃ w rest, reason s = w +:+ rest ∧ str_all (without cr) (w +:+ rest) = true ∧ w ≠ "".
Proof.
  exists (reason s), "". rewrite !str_app_nil_r. unfold reason. by repeat case_match.
Qed.

(** A header value that starts with no blank. *)
Definition header_value (s : string) : Prop :=
  str_all (without cr) s = true ∧ trim_start s = s.

Lemma status_line_words s :
  0 ≤ s → ∃ ws, split_whitespace ("HTTP/1.1 " +:+ pretty s +:+ " " +:+ reason s) =
                "HTTP/1.1" :: pretty s :: ws.
Proof.
  intros Hs. exists (split_whitespace (reason s)).
  change ("HTTP/1.1 " +:+ pretty s +:+ " " +:+ reason s) with
    ("HTTP/1.1" +:+ String " " (pretty s +:+ String " " (reason s))).
  rewrite words_word by done. by rewrite words_word by (by auto using pretty_nonempty, pretty_no_space).
Qed.

Lemma read_response_headers fuel ct n body :
  header_value ct → 0 ≤ n →
  read_headers (4 + fuel)
    ("Content-Type: " +:+ ct +:+ crlf +:+ "Content-Length: " +:+ pretty n +:+ crlf +:+
     "Connection: close" +:+ crlf +:+ crlf +:+ body) =
  Some ([("Content-Type", ct); ("Content-Length", pretty n); ("Connection", "close")], body).
Proof.
  intros [Hcr Htrim] Hn.
  set (r3 := crlf +:+ body). set (r2 := "Connection: close" +:+ crlf +:+ r3).
  set (r1 := "Content-Length: " +:+ pretty n +:+ crlf +:+ r2).
  change ("Content-Type: " +:+ ct +:+ crlf +:+ r1) with
    ("Content-Type" +:+ ":" +:+ (" " +:+ ct) +:+ crlf +:+ r1).
  cbn [Nat.add]. rewrite read_header by done.
  subst r1. change ("Content-Length: " +:+ pretty n +:+ crlf +:+ r2) with
    ("Content-Length" +:+ ":" +:+ (" " +:+ pretty n) +:+ crlf +:+ r2).
  rewrite read_header by (try done; cbn [str_all]; by apply pretty_no_cr).
  subst r2. change ("Connection: close" +:+ crlf +:+ r3) with
    ("Connection" +:+ ":" +:+ " close" +:+ crlf +:+ r3).
  rewrite read_header by done. subst r3. cbn [read_headers].
  change (crlf +:+ body) with ("" +:+ crlf +:+ body). rewrite read_line_spec by done.
  cbn [mbind option_bind str_is_empty].
  assert (∀ s, trim_start s = s → trim_start (" " +:+ s) = s) as Hsp by done.
  by rewrite !Hsp by (done || by apply trim_start_nospace, pretty_no_space).
Qed.

(** What the server writes, a client reads back. *)
Lemma response_roundtrip (resp : Response) :
  0 ≤ status resp ≤ 999 → header_value (content_type resp) →
  read_response (response_bytes resp) = Some resp.
Proof.
  intros Hs Hct. unfold read_response, response_bytes.
  set (len := Z.of_nat (String.length (body resp))).
  set (after := "Content-Type: " +:+ _).
  assert ("HTTP/1.1 " +:+ pretty (status resp) +:+ " " +:+ reason (status resp) +:+ crlf +:+ after =
          ("HTTP/1.1 " +:+ pretty (status resp) +:+ " " +:+ reason (status resp)) +:+ crlf +:+ after)
    as Heq by (by rewrite !str_app_assoc).
  destruct (status_line_words (status resp)) as [ws Hws]; [lia|].
  rewrite Heq, read_line_spec.
  2: { destruct (reason_shape (status resp)) as (w & r & -> & Hr & _).
       rewrite !str_all_app, pretty_no_cr by lia. rewrite str_all_app in Hr. by rewrite Hr. }
  assert (∃ fuel, String.length (("HTTP/1.1 " +:+ pretty (status resp) +:+ " " +:+
            reason (status resp)) +:+ crlf +:+ after) = (4 + fuel)%nat) as [fuel ->]
    by (eexists; reflexivity).
  cbn [mbind option_bind]. unfold after. rewrite read_response_headers by (done || lia).
  rewrite Hws. cbn -[digits_nonempty parse_uint pretty]. rewrite parse_uint_pretty by lia.
  cbn [mbind option_bind].
  change (header_named "Content-Type" _) with (Some (content_type resp)).
  change (header_named "Content-Length" _) with (Some (pretty len)). cbn [mbind option_bind].
  rewrite digits_nonempty_pretty by lia. cbn [mbind option_bind].
  rewrite bool_decide_eq_true_2 by done. unfold len. rewrite Z.eqb_refl. by destruct resp.
Qed.

(** ** The probe *)

Section probe.
Context {W : Type} `{!Connection W, !Shared W, !Clock W}.

(** Every registered component was last heard of within its window. *)
Definition all_heard (evs : list Event) (now : Z) : Prop :=
  ∀ c t period beats, history evs c = Some (t, period, beats) →
    since now (default t (list.last beats)) ≤
      period + default 0 ((λ b, since b t) <$> head beats) + GRACE.

Lemma healthz_heard evs now :
  (healthz_response (foldl step ∅ evs) now = (200, "OK") ∧ all_heard evs now) ∨
  (healthz_response (foldl step ∅ evs) now = (500, "Unhealthy") ∧ ¬ all_heard evs now).
Proof.
  destruct (healthz_correct evs now) as [[Hr Ha]|[Hr (c & t & period & beats & Hh & Hl)]].
  - by left.
  - right. split; [done|]. intros Ha. specialize (Ha c t period beats Hh). lia.
Qed.

(** The health handler on a path. *)
Definition probe_answer (path : string) (evs : list Event) (now : Z) (resp : Response) : Prop :=
  content_type resp = "text/plain" ∧
  if starts_with "/healthz" path
  then (status resp = 200 ∧ body resp = "OK" ∧ all_heard evs now) ∨
       (status resp = 500 ∧ body resp = "Unhealthy" ∧ ¬ all_heard evs now)
  else status resp = 404.

Lemma health_handler_answer path evs w :
  health_lock w = foldl step ∅ evs →
  probe_answer path evs (clock_now w) (health_handler path w).
Proof.
  intros Hl. unfold probe_answer, health_handler. rewrite Hl.
  destruct (starts_with _ path); [|done].
  destruct (healthz_heard evs (clock_now w)) as [[-> ?]|[-> ?]]; cbn; tauto.
Qed.

(** C30: A client that asks for a path gets a well-formed HTTP response: on the paths of
    the probe, 200 exactly when every registered component was last heard of
    within its window and 500 otherwise; on every other path 404. *)
Theorem healthz_probe method path version rest evs w w1 :
  word method → word path → word version →
  stream_read 2048 w = (inr (http_request method path version rest), w1) →
  health_lock w1 = foldl step ∅ evs →
  ∃ out resp,
    handle_conn health_handler w = (stream_flush (stream_write_all out w1).2).2 ∧
    read_response out = Some resp ∧ probe_answer path evs (clock_now w1) resp.
Proof.
  intros Hm Hp Hv Hread Hl. set (resp := health_handler path w1).
  exists (response_bytes resp), resp.
  pose proof (health_handler_answer path evs w1 Hl) as Ha. fold resp in Ha. split_and!; [| |done].
  - unfold handle_conn. rewrite Hread. by rewrite request_path.
  - destruct Ha as [Hct Ha]. apply response_roundtrip; [|by rewrite Hct].
    destruct (starts_with _ path); lia.
Qed.
End probe.

(** A server whose peer sends one request and keeps what it is sent. *)
Record Peer := { sends : string; got : string; peer_health : gmap Component ComponentHealth; now : Z }.
#[local] Instance peer_connection : Connection Peer := {|
  stream_read n w := (inr (String.substring 0 n (sends w)), w);
  stream_write_all s w :=
    (inr tt, {| sends := sends w; got := got w +:+ s; peer_health := peer_health w; now := now w |});
  stream_flush w := (inr tt, w);
|}.
#[local] Instance peer_shared : Shared Peer :=
  {| health_lock := peer_health; metrics_gather _ := "" |}.
#[local] Instance peer_clock : Clock Peer := {| clock_now := now |}.

Lemma healthz_probe_witness :
  let evs := [Registered NetworkRoutes 1000 0; Beat NetworkRoutes 10] in
  let w := {| sends := http_request "GET" "/healthz" "HTTP/1.1" ("Host: x" +:+ crlf +:+ crlf); got := "";
              peer_health := foldl step ∅ evs; now := 2000 |} in
  ∃ out resp,
    handle_conn health_handler w = (stream_flush (stream_write_all out w).2).2 ∧
    read_response out = Some resp ∧ probe_answer "/healthz" evs (clock_now w) resp.
Proof.
  intros evs w. apply (healthz_probe "GET" "/healthz" "HTTP/1.1" ("Host: x" +:+ crlf +:+ crlf) evs w w);
    done.
Defined.
