(* ===== verification/MetricsTheorems.v ===== *)
(** * MetricsTheorems: what a pass of the service synchroniser publishes

    After [update_metrics] each gauge family holds exactly one series for every
    known service of the kernel's statistics, with the kernel's number, and none
    for anything else, so that a service that is gone has no series left. *)

From stdpp Require Import gmap sets list strings pretty.
From Stdlib Require Import Ascii ZArith Lia.
From S2P Require Import Prelude Text Net IpText Common Netlink Proxy ProxySync Agent Observability.
Import MetricsRegistry.

Local Open Scope Z_scope.

(** The gauges of the crate: a series is created by setting it and goes when its
    family is reset. *)
Class GaugeLaws (W : Type) `{!Gauges W} := {
  series : string → list string → W → option Z;
  int_gauge : string → W → option Z;
  series_reset f g l w :
    series g l (gauge_reset f w) = if decide (f = g) then None else series g l w;
  series_set f l v g l' w :
    series g l' (gauge_set f l v w) =
      if decide (f = g ∧ l = l') then Some v else series g l' w;
  series_int_set f v g l w : series g l (int_gauge_set f v w) = series g l w;
  int_gauge_set_same f v w : int_gauge f (int_gauge_set f v w) = Some v;
}.

Section metrics.
Context {W : Type} `{!Gauges W, !GaugeLaws W}.

Definition Family : Type := string * string * (ServiceStatSample → Z).
Definition family_name (f : Family) : string := full_name f.1.1.

Lemma family_names_distinct : NoDup (family_name <$> SERVICE_FAMILIES).
Proof. apply (bool_decide_unpack _). vm_compute. exact I. Qed.

Lemma series_resets (fs : list Family) f l w :
  f ∈ fs → series (family_name f) l (foldl (λ w f, gauge_reset (full_name f.1.1) w) w fs) = None.
Proof.
  induction fs as [|g fs IH] using rev_ind; [by intros ?%elem_of_nil|].
  rewrite foldl_app. cbn [foldl]. rewrite series_reset. case_decide as Hd; [done|].
  intros [Hf|Hf%list_elem_of_singleton]%elem_of_app; [by apply IH|by subst f].
Qed.

Lemma series_set_others (fs : list Family) f l l' s w :
  family_name f ∉ family_name <$> fs →
  series (family_name f) l' (foldl (λ w f, gauge_set (full_name f.1.1) l (f.2 s) w) w fs) =
  series (family_name f) l' w.
Proof.
  revert w. induction fs as [|g fs IH]; intros w Hf; [done|]. cbn [foldl].
  cbn [fmap list_fmap] in Hf. apply not_elem_of_cons in Hf as [Hg Hf].
  rewrite IH by done. rewrite series_set. case_decide as Hd; [|done].
  destruct Hg. symmetry. apply Hd.
Qed.

Lemma series_set_sample (fs : list Family) f l l' s w :
  f ∈ fs → NoDup (family_name <$> fs) →
  series (family_name f) l' (foldl (λ w f, gauge_set (full_name f.1.1) l (f.2 s) w) w fs) =
  if decide (l = l') then Some (f.2 s) else series (family_name f) l' w.
Proof.
  revert w. induction fs as [|g fs IH]; intros w; [by intros ?%elem_of_nil|].
  cbn [foldl fmap list_fmap]. intros Hf [Hg Hnd]%NoDup_cons.
  apply elem_of_cons in Hf as [->|Hf].
  - rewrite series_set_others, series_set by done. unfold family_name.
    repeat case_decide; naive_solver.
  - rewrite IH by done. case_decide; [done|]. rewrite series_set. case_decide; [tauto|done].
Qed.

(** The last sample with these labels decides a series. *)
Lemma update_series samples n f l w :
  f ∈ SERVICE_FAMILIES →
  series (family_name f) l (update samples n w) =
  f.2 <$> list.last (filter (λ s, sample_labels s = l) samples).
Proof.
  intros Hf. unfold update. rewrite series_int_set.
  set (w0 := foldl _ w SERVICE_FAMILIES).
  assert (series (family_name f) l w0 = None) as H0 by by apply series_resets.
  induction samples as [|s samples IH] using rev_ind; [done|].
  rewrite foldl_app, filter_app. cbn [foldl]. unfold set_sample at 1.
  rewrite series_set_sample by (done || apply family_names_distinct).
  destruct (decide (sample_labels s = l)).
  - rewrite filter_cons_True by done. by rewrite filter_nil, last_snoc.
  - rewrite filter_cons_False by done. by rewrite filter_nil, app_nil_r.
Qed.
End metrics.

(** Elements with the same key are the same when the keys are distinct. *)
Lemma NoDup_key_inj {A K} (key : A → K) (l : list A) x y :
  NoDup (key <$> l) → x ∈ l → y ∈ l → key x = key y → x = y.
Proof.
  intros Hnd (i & Hi)%list_elem_of_lookup (j & Hj)%list_elem_of_lookup Hk.
  assert (i = j) as ->; [|congruence].
  eapply NoDup_lookup; [exact Hnd| |]; rewrite list_lookup_fmap, ?Hi, ?Hj; [done|by rewrite Hk].
Qed.

(** ** A pass *)

Section pass.
Context `{IpNetLib} {W : Type}.
Context `{!IpvsOps W, !NetlinkOps W, !CommandRunner W, !NodePortHc.HttpServers W}.
Context `{!ServiceProvider W, !Clock W, !FileOps W, !Heartbeat W, !Gauges W, !GaugeLaws W}.

(** The labels of a virtual service of the Kubernetes service [who]. *)
Definition service_labels (who : string * string) (svc : IpvsService) : list string :=
  [who.1; who.2; ip_to_string (vs_addr svc); sync_proto_name (vs_protocol svc);
   pretty (vs_port svc)].

Lemma stat_sample_labels meta svc st s :
  stat_sample meta (svc, st) = Some s →
  ∃ who, meta !! svc_key svc = Some who ∧ sample_labels s = service_labels who svc.
Proof.
  unfold stat_sample. destruct (meta !! svc_key svc) as [[ns name]|]; [|done].
  cbn. intros [= <-]. by exists (ns, name).
Qed.

Lemma service_labels_inj who svc who' svc' :
  ip_wf (vs_addr svc) → ip_wf (vs_addr svc') →
  service_labels who svc = service_labels who' svc' → vs_key svc = vs_key svc' ∧ who = who'.
Proof.
  intros Ha Ha' [= H1 H2 H3 H4 H5]. unfold vs_key.
  rewrite (ip_to_string_inj _ _ Ha Ha' H3). apply (inj pretty) in H5. rewrite H5.
  destruct who, who'; cbn in *; subst. split; [|done].
  by destruct (vs_protocol svc), (vs_protocol svc').
Qed.

(** What is to be published: the name of a series, and the number of the kernel's
    statistics that it shows. *)
Definition published : list (string * (ServiceStats → Z)) :=
  [("kube_router_service_total_connections", st_connections);
   ("kube_router_service_packets_in", st_packets_in);
   ("kube_router_service_packets_out", st_packets_out);
   ("kube_router_service_bytes_in", st_bytes_in);
   ("kube_router_service_bytes_out", st_bytes_out);
   ("kube_router_service_cps", st_cps);
   ("kube_router_service_pps_in", st_pps_in);
   ("kube_router_service_pps_out", st_pps_out);
   ("kube_router_service_bps_in", st_bps_in);
   ("kube_router_service_bps_out", st_bps_out)].

(** Each is a family of the program, which takes this number from a sample. *)
Lemma published_family name number :
  (name, number) ∈ published →
  ∃ f, f ∈ SERVICE_FAMILIES ∧ family_name f = name ∧
    ∀ meta svc st sm, stat_sample meta (svc, st) = Some sm → f.2 sm = as_f64 (number st).
Proof.
  assert (Forall2 (λ (p : string * (ServiceStats → Z)) f, family_name f = p.1 ∧
    ∀ meta svc st sm, stat_sample meta (svc, st) = Some sm → f.2 sm = as_f64 (p.2 st)) published SERVICE_FAMILIES) as Hall.
  { unfold published, SERVICE_FAMILIES.
    repeat (apply Forall2_cons_2; [split; [vm_compute; reflexivity|]|]); [..|apply Forall2_nil_2];
      intros meta svc st sm; unfold stat_sample; destruct (meta !! svc_key svc) as [[ns name']|]; cbn; try done;
      by intros [= <-]. }
  intros Hin. apply list_elem_of_lookup in Hin as [i Hi].
  destruct (Forall2_lookup_l _ _ _ _ _ Hall Hi) as (f & Hf & Hname & Hnum).
  exists f. split_and!; [by eapply list_elem_of_lookup_2|done|done].
Qed.

(** The labels of a virtual service of a Kubernetes service. *)
Definition labels_for (who : string * string) (svc : IpvsService) : list string :=
  [who.1; who.2; ip_to_string (vs_addr svc);
   match vs_protocol svc with Tcp => "tcp" | Udp => "udp" | Sctp => "sctp" end; pretty (vs_port svc)].

(** C28: After the statistics were read and published, each of the ten series has
    exactly the virtual services of the kernel whose Kubernetes service is known,
    under the names and the address, protocol and port of the service, each with
    the number the kernel reported; and the count of services is that of the
    programmed ones.  This is for statistics that report a virtual service once,
    with a well-formed address. *)
Theorem metrics_published cfg s stats w1 :
  sc_metrics cfg = true →
  service_stats (sync_world s) = (inr stats, w1) →
  NoDup ((λ x : IpvsService * ServiceStats, vs_key x.1) <$> stats) →
  Forall (λ x : IpvsService * ServiceStats, ip_wf (vs_addr x.1)) stats →
  ∃ s', update_metrics cfg s = (inr tt, s') ∧
    int_gauge "kube_router_controller_ipvs_services" (sync_world s') = Some (as_i64 (size (applied s))) ∧
    ∀ name number labels v, (name, number) ∈ published →
      series name labels (sync_world s') = Some v ↔
      ∃ svc st who, (svc, st) ∈ stats ∧ meta s !! svc_key svc = Some who ∧
        labels = labels_for who svc ∧ v = as_f64 (number st).
Proof.
  intros Hm Hstats Hnd Hwf.
  assert (∀ svc st svc' st', (svc, st) ∈ stats → (svc', st') ∈ stats →
            vs_key svc = vs_key svc' → (svc, st) = (svc', st')) as Huniq.
  { intros svc st svc' st' Hin Hin' Hk.
    by apply (NoDup_key_inj (λ x : IpvsService * ServiceStats, vs_key x.1) stats). }
  unfold update_metrics, io. munfold. rewrite Hm. cbn [negb]. munfold. rewrite Hstats. cbn beta iota.
  eexists. split; [reflexivity|]. cbn [sync_world set_sync_world metrics_update service_metrics].
  split; [apply int_gauge_set_same|]. intros name number labels v Hpub.
  destruct (published_family name number Hpub) as (f & Hf & <- & Hnumber).
  rewrite update_series by done. split.
  - intros (sm & Hl & ->)%fmap_Some. apply last_Some_elem_of in Hl.
    apply list_elem_of_filter in Hl as [Hlab ([svc st] & Hin & Hs)%list_elem_of_omap].
    destruct (stat_sample_labels _ _ _ _ Hs) as (who & Hwho & Heq).
    exists svc, st, who. split_and!; [done..| |by eapply Hnumber]. by rewrite <- Hlab, Heq.
  - intros (svc & st & who & Hin & Hwho & -> & ->).
    assert (is_Some (stat_sample (meta s) (svc, st))) as [sm Hs]
      by (unfold stat_sample; rewrite Hwho; destruct who; by eexists).
    rewrite <-(Hnumber _ _ _ _ Hs). change (labels_for who svc) with (service_labels who svc).
    destruct (stat_sample_labels _ _ _ _ Hs) as (who' & Hwho' & Heq). simplify_eq.
    apply fmap_Some. exists sm. split; [|done].
    assert (sm ∈ filter (λ s0, sample_labels s0 = service_labels who svc)
                   (filter_map (stat_sample (meta s)) stats)) as Hsm.
    { apply list_elem_of_filter. split; [done|]. apply list_elem_of_omap. by exists (svc, st). }
    change (meta (set_sync_world w1 s)) with (meta s).
    destruct (list.last _) as [sm'|] eqn:Hl.
    2: { apply last_None in Hl. rewrite Hl in Hsm. by apply elem_of_nil in Hsm. }
    apply last_Some_elem_of, list_elem_of_filter in Hl as [Hlab ([svc' st'] & Hin' & Hs')%list_elem_of_omap].
    destruct (stat_sample_labels _ _ _ _ Hs') as (who2 & Hwho2 & Heq2).
    rewrite Hlab in Heq2. rewrite Forall_forall in Hwf.
    destruct (service_labels_inj who svc who2 svc') as [Hk _]; [by apply (Hwf _ Hin)|by apply (Hwf _ Hin')|done|].
    specialize (Huniq _ _ _ _ Hin Hin' Hk). injection Huniq as <- <-. congruence.
Qed.
End pass.

(** ** Gauges in memory *)

Definition Board : Type := gmap (string * list string) Z * gmap string Z.

#[local] Instance board_gauges : Gauges Board := {|
  register_gauge _ _ _ := mret tt;
  gauge_reset f w := (filter (λ x : (string * list string) * Z, x.1.1 ≠ f) w.1, w.2);
  gauge_set f l v w := (<[(f, l) := v]> w.1, w.2);
  int_gauge_set f v w := (w.1, <[f := v]> w.2);
|}.

#[local, program] Instance board_laws : GaugeLaws Board := {|
  series f l w := w.1 !! (f, l);
  int_gauge f w := w.2 !! f;
|}.
Next Obligation.
  intros f g l w. cbn. rewrite map_lookup_filter. destruct (w.1 !! (g, l)); cbn; [|by case_decide].
  case_guard; case_decide; naive_solver.
Qed.
Next Obligation.
  intros f l v g l' w. cbn. case_decide as Hd.
  - destruct Hd as [<- <-]. by rewrite lookup_insert_eq.
  - rewrite lookup_insert_ne; [done|]. intros [= -> ->]. by destruct Hd.
Qed.
Next Obligation. done. Qed.
Next Obligation. intros f v w. cbn. by rewrite lookup_insert_eq. Qed.

Definition web_vip : IpvsService :=
  {| vs_addr := V4 174063617; vs_protocol := Tcp; vs_port := 80; vs_scheduler := Rr;
     vs_sched_flags := no_flags; vs_persistent := None |}.

(** The kernel has one virtual service, and has seen 42 connections to it. *)
#[local] Instance board_ipvs : IpvsOps Board := {|
  add_service _ := mret tt; edit_service _ := mret tt; del_service _ := mret tt;
  add_destination _ _ := mret tt; del_destination _ _ := mret tt;
  update_destination _ _ := mret tt; dest_conn_stats _ _ := mret None;
  flush_conntrack_udp _ _ := mret tt;
  service_stats := mret [(web_vip,
    {| st_connections := 42; st_packets_in := 0; st_packets_out := 0; st_bytes_in := 0;
       st_bytes_out := 0; st_cps := 0; st_pps_in := 0; st_pps_out := 0; st_bps_in := 0;
       st_bps_out := 0 |})];
  add_fwmark_service _ _ _ := mret tt; add_fwmark_destination _ _ := mret tt |}.

Definition board_config : SyncConfig (W := Board) :=
  {| sc_ranges := {| vr_external := []; vr_loadbalancer := []; vr_cluster := []; vr_strict := false |};
     sc_node_ips := []; sc_graceful := false; sc_graceful_period := 30000; sc_metrics := true;
     sc_hairpin_global := false; sc_hairpin_nat := []; sc_node_port_range := None;
     sc_masquerade := None; sc_firewall_permit_all := false; sc_firewall_ipt := [];
     sc_firewall_ipset := None; sc_dsr_mangle := []; sc_dsr_mtu := 1500 |}.

Definition board_state : SyncState (W := Board) :=
  {| gqueue := []; nphc := None; firewall_setup_done := false; dsr_registry := ∅;
     applied := {[ svc_key web_vip := (web_vip, []) ]};
     meta := {[ svc_key web_vip := ("default", "web") ]};
     bound_vips := ∅; sloppy_tcp := false; sync_world := (∅, ∅) |}.

Lemma metrics_published_witness :
  ∃ s', update_metrics board_config board_state = (inr tt, s') ∧
    series "kube_router_service_total_connections" ["default"; "web"; "10.96.0.1"; "tcp"; "80"]
      (sync_world s') = Some 42.
Proof.
  set (stats := match (service_stats (W := Board) (∅, ∅)).1 with inr l => l | inl _ => [] end).
  destruct (metrics_published board_config board_state stats (∅, ∅)) as (s' & Hs' & _ & Hseries).
  - done.
  - done.
  - apply NoDup_singleton.
  - apply Forall_singleton. done.
  - exists s'. split; [exact Hs'|].
    apply (Hseries "kube_router_service_total_connections" st_connections); [by left|].
    exists web_vip. eexists. exists ("default", "web").
    split; [left|]. split; [by vm_compute|]. split; by vm_compute.
Defined.
