(* ===== verification/Cni.v ===== *)
(** * Cni: the CNI configuration ([crates/cni])

    Documents are trees: the parser and the printer of JSON are the crate
    [serde_json].  The members of an object are kept in the order of the text,
    duplicates included; a [serde_json::Map] is a [BTreeMap].  The conversions
    are those that [serde] derives from the attributes of the structures: a
    flattened field takes the members no other field names. *)

From stdpp Require Import gmap sets list strings pretty.
From Stdlib Require Import Ascii ZArith Lia.
From S2P Require Import Prelude Text Net Common ProxySync.

Local Open Scope Z_scope.

(** ** Documents *)

Inductive Json :=
| JNull
| JBool (b : bool)
| JNumber (text : string)
| JString (s : string)
| JArray (items : list Json)
| JObject (members : list (string * Json)).

(** [from_str] up to the tree, and [to_string_pretty]. *)
Class JsonText := {
  json_parse : string → option Json;
  json_print : Json → string;
}.

(** The tree as a [serde_json::Value]: the last of several members of one name
    counts, and members are in the order of their names. *)
Definition object_of (m : gmap string Json) : Json := JObject (btree_iter m).

Fixpoint to_value (j : Json) : Json :=
  match j with
  | JArray items => JArray (to_value <$> items)
  | JObject members =>
      object_of (foldl (λ m kv, <[kv.1 := kv.2]> m) ∅
                  ((fix go l := match l with
                                | [] => []
                                | kv :: l => (kv.1, to_value kv.2) :: go l
                                end) members))
  | _ => j
  end.

(** ** The structures *)

Module Cni.

Record Range := { subnet : string; range_extra : gmap string Json }.
Record Ipam := {
  ipam_type : option string;
  ipam_ranges : option (list (list Range));
  ipam_extra : gmap string Json;
}.
Record Plugin := {
  plugin_type : string;
  plugin_ipam : option Ipam;
  plugin_extra : gmap string Json;
}.
Record ConfList := { plugins : list Plugin; conf_extra : gmap string Json }.

(** ** Reading *)

Definition de_string (j : Json) : option string :=
  match j with JString s => Some s | _ => None end.
Definition de_list {A} (de : Json → option A) (j : Json) : option (list A) :=
  match j with JArray items => mapM de items | _ => None end.
(** A field of type [Option<A>]: [null] is [None]. *)
Definition de_option {A} (de : Json → option A) (j : Json) : option (option A) :=
  match j with JNull => Some None | _ => Some <$> de j end.

(** A named field among the members: twice is an error. *)
Definition members_named (name : string) (l : list (string * Json)) : list Json :=
  (filter (λ kv, kv.1 = name) l).*2.
Definition de_field {A} (name : string) (de : Json → option A) (l : list (string * Json))
    : option A :=
  match members_named name l with [j] => de j | _ => None end.
Definition de_field_option {A} (name : string) (de : Json → option A) (l : list (string * Json))
    : option (option A) :=
  match members_named name l with
  | [] => Some None
  | [j] => de_option de j
  | _ => None
  end.
(** The members that [known] does not name. *)
Definition de_flatten (known : list string) (l : list (string * Json)) : gmap string Json :=
  foldl (λ m kv, <[kv.1 := to_value kv.2]> m) ∅ (filter (λ kv, kv.1 ∉ known) l).

Definition de_range (j : Json) : option Range :=
  match j with
  | JObject l =>
      s ← de_field "subnet" de_string l;
      Some {| subnet := s; range_extra := de_flatten ["subnet"] l |}
  | _ => None
  end.

Definition de_ipam (j : Json) : option Ipam :=
  match j with
  | JObject l =>
      t ← de_field_option "type" de_string l;
      r ← de_field_option "ranges" (de_list (de_list de_range)) l;
      Some {| ipam_type := t; ipam_ranges := r; ipam_extra := de_flatten ["type"; "ranges"] l |}
  | _ => None
  end.

Definition de_plugin (j : Json) : option Plugin :=
  match j with
  | JObject l =>
      t ← de_field "type" de_string l;
      i ← de_field_option "ipam" de_ipam l;
      Some {| plugin_type := t; plugin_ipam := i; plugin_extra := de_flatten ["type"; "ipam"] l |}
  | _ => None
  end.

Definition de_conflist (j : Json) : option ConfList :=
  match j with
  | JObject l =>
      p ← de_field "plugins" (de_list de_plugin) l;
      Some {| plugins := p; conf_extra := de_flatten ["plugins"] l |}
  | _ => None
  end.

(** ** Writing: a field that is [None] is skipped, the flattened ones come last *)

Definition ser_option {A} (name : string) (ser : A → Json) (o : option A) : list (string * Json) :=
  match o with Some x => [(name, ser x)] | None => [] end.

Definition ser_range (r : Range) : Json :=
  JObject (("subnet", JString (subnet r)) :: btree_iter (range_extra r)).
Definition ser_ranges (l : list (list Range)) : Json :=
  JArray ((λ rs, JArray (ser_range <$> rs)) <$> l).
Definition ser_ipam (i : Ipam) : Json :=
  JObject (ser_option "type" JString (ipam_type i) ++
           ser_option "ranges" ser_ranges (ipam_ranges i) ++ btree_iter (ipam_extra i)).
Definition ser_plugin (p : Plugin) : Json :=
  JObject (("type", JString (plugin_type p)) ::
           ser_option "ipam" ser_ipam (plugin_ipam p) ++ btree_iter (plugin_extra p)).
Definition ser_conflist (c : ConfList) : Json :=
  JObject (("plugins", JArray (ser_plugin <$> plugins c)) :: btree_iter (conf_extra c)).

(** ** Operations *)

(** The message of the parser is left out. *)
Inductive CniError := ParseError | NoBridgePlugin.

Section text.
Context `{!JsonText}.

Definition conflist_parse (json : string) : CniError + ConfList :=
  match json_parse json ≫= de_conflist with Some c => inr c | None => inl ParseError end.
Definition to_json (self : ConfList) : string := json_print (ser_conflist self).
End text.

Section seed.
Context `{IpNetLib}.

Definition pod_range (c : IpNet) : list Range :=
  [{| subnet := net_to_string c; range_extra := ∅ |}].

Definition seed_ipam (pod_cidrs : list IpNet) (ipam : option Ipam) : Ipam :=
  let ipam := default {| ipam_type := Some "host-local"; ipam_ranges := None; ipam_extra := ∅ |}
                ipam in
  {| ipam_type := match ipam_type ipam with None => Some "host-local" | t => t end;
     ipam_ranges := Some (pod_range <$> pod_cidrs);
     ipam_extra := ipam_extra ipam |}.

Definition seed_plugin (pod_cidrs : list IpNet) (p : Plugin) : Plugin :=
  {| plugin_type := plugin_type p; plugin_ipam := Some (seed_ipam pod_cidrs (plugin_ipam p));
     plugin_extra := plugin_extra p |}.

(** The first plugin of type bridge. *)
Fixpoint seed_first (pod_cidrs : list IpNet) (l : list Plugin) : option (list Plugin) :=
  match l with
  | [] => None
  | p :: l =>
      if decide (plugin_type p = "bridge") then Some (seed_plugin pod_cidrs p :: l)
      else cons p <$> seed_first pod_cidrs l
  end.

Definition seed_pod_cidrs (self : ConfList) (pod_cidrs : list IpNet) : CniError + ConfList :=
  match seed_first pod_cidrs (plugins self) with
  | Some l => inr {| plugins := l; conf_extra := conf_extra self |}
  | None => inl NoBridgePlugin
  end.

Definition seed_conflist `{!JsonText} (json : string) (pod_cidrs : list IpNet)
    : CniError + string :=
  match conflist_parse json with
  | inl e => inl e
  | inr cl =>
      match seed_pod_cidrs cl pod_cidrs with
      | inl e => inl e
      | inr cl => inr (to_json cl)
      end
  end.

(** The document of [json!]: a [Value], whose members are in order. *)
Definition kuberouter_document (pod_cidrs : list IpNet) : Json :=
  to_value (JObject [
    ("cniVersion", JString "1.0.0");
    ("name", JString "kube-router-rs");
    ("plugins", JArray [
       JObject [
         ("type", JString "bridge");
         ("bridge", JString "kube-bridge");
         ("isDefaultGateway", JBool true);
         ("hairpinMode", JBool true);
         ("ipam", JObject [
            ("type", JString "host-local");
            ("ranges", JArray ((λ c, JArray [JObject [("subnet", JString (net_to_string c))]])
                                 <$> pod_cidrs))])];
       JObject [("type", JString "loopback")]])]).

Definition kuberouter_conflist `{!JsonText} (pod_cidrs : list IpNet) : string :=
  json_print (kuberouter_document pod_cidrs).
End seed.

(** ** Files *)

Definition DEFAULT_CONF_PATH : string := "/etc/cni/net.d/10-kuberouter.conflist".
Definition DEFAULT_BIN_DIR : string := "/opt/cni/bin".
Definition REQUIRED_PLUGINS : list string := ["bridge"; "host-local"; "loopback"].

(** The other calls on [std::fs] and [Path::exists]. *)
Class DirOps (W : Type) := {
  create_dir_all : string → M W string unit;
  path_exists : string → W → bool;
  fs_copy : string → string → M W string unit;
  set_permissions : string → Z → M W string unit;
}.

(** [Path::parent] of an absolute path without a trailing slash. *)
Definition path_parent (path : string) : option string :=
  '(dir, _) ← rsplit_once "/" path; Some (if str_is_empty dir then "/" else dir).

Section files.
Context `{IpNetLib} `{!JsonText} {W : Type} `{!FileOps W, !DirOps W}.

Definition write_conflist (path : string) (pod_cidrs : list IpNet) : M W string unit :=
  match path_parent path with Some parent => create_dir_all parent | None => mret tt end;;
  fs_write path (kuberouter_conflist pod_cidrs).

Fixpoint install_each (src_dir dst_dir : string) (names : list string) : M W string (list string) :=
  match names with
  | [] => mret []
  | name :: names => λ w,
      let dst := Sysctl.path_push dst_dir name in
      let src := Sysctl.path_push src_dir name in
      if path_exists dst w || negb (path_exists src w) then install_each src_dir dst_dir names w
      else
        (fs_copy src dst;; set_permissions dst 493;;
         installed ← install_each src_dir dst_dir names; mret (name :: installed)) w
  end.

Definition install_plugins (src_dir dst_dir : string) (names : list string)
    : M W string (list string) :=
  create_dir_all dst_dir;; install_each src_dir dst_dir names.
End files.

End Cni.
