(* ===== verification/CniTheorems.v ===== *)
(** * CniTheorems: seeding keeps what it does not understand

    Reading a configuration list and writing it are inverse, also for the members
    that no structure names, and seeding pod networks changes nothing else. *)

From stdpp Require Import gmap sets list strings pretty.
From Stdlib Require Import Ascii ZArith Lia.
From S2P Require Import Prelude Text Net Common ProxySync Cni.
Import Cni.

Local Open Scope Z_scope.

(** ** Values *)

Section Json_induction.
Context (P : Json → Prop).
Hypothesis (Hnull : P JNull) (Hbool : ∀ b, P (JBool b)) (Hnum : ∀ n, P (JNumber n)).
Hypothesis (Hstr : ∀ s, P (JString s)) (Harr : ∀ l, Forall P l → P (JArray l)).
Hypothesis (Hobj : ∀ l, Forall (λ kv, P kv.2) l → P (JObject l)).

Fixpoint json_induction (j : Json) : P j :=
  match j with
  | JNull => Hnull
  | JBool b => Hbool b
  | JNumber n => Hnum n
  | JString s => Hstr s
  | JArray l => Harr l ((fix go l : Forall P l :=
      match l with
      | [] => List.Forall_nil _
      | x :: l => List.Forall_cons _ _ _ (json_induction x) (go l)
      end) l)
  | JObject l => Hobj l ((fix go l : Forall (λ kv, P kv.2) l :=
      match l with
      | [] => List.Forall_nil _
      | x :: l => List.Forall_cons _ _ _ (json_induction x.2) (go l)
      end) l)
  end.
End Json_induction.

Definition values (l : list (string * Json)) : list (string * Json) :=
  (λ kv, (kv.1, to_value kv.2)) <$> l.

Lemma to_value_members l :
  to_value (JObject l) = object_of (insert_all fst snd ∅ (values l)).
Proof.
  cbn [to_value]. unfold insert_all. do 2 f_equal.
  all: try (induction l as [|kv l IH]; [done|]; cbn; by f_equal).
Qed.

(** A map of values. *)
Definition normal (m : gmap string Json) : Prop := map_Forall (λ _ v, to_value v = v) m.

Lemma insert_all_iter (m : gmap string Json) : insert_all fst snd ∅ (btree_iter m) = m.
Proof.
  apply map_eq. intros k. destruct (m !! k) as [v|] eqn:Hk.
  - apply elem_of_btree_iter in Hk.
    pose proof (insert_all_in fst snd ∅ (btree_iter m) (k, v) (btree_iter_NoDup_keys m) Hk) as H.
    exact H.
  - rewrite insert_all_notin; [apply lookup_empty|].
    intros ((k' & v) & -> & Hin)%list_elem_of_fmap. apply elem_of_btree_iter in Hin. cbn in Hk.
    congruence.
Qed.

Lemma values_normal m : normal m → values (btree_iter m) = btree_iter m.
Proof.
  intros Hm. unfold values. rewrite <- (list_fmap_id (btree_iter m)) at 2.
  apply list_fmap_ext. intros i [k v] Hi%list_elem_of_lookup_2. cbn.
  apply elem_of_btree_iter in Hi. f_equal. by apply (Hm k).
Qed.

Lemma insert_all_normal l :
  Forall (λ kv, to_value kv.2 = kv.2) l → normal (insert_all fst snd ∅ l).
Proof.
  intros Hl k v [([k' v'] & Hin & _ & <-)|[_ Hk]]%insert_all_inv.
  - rewrite Forall_forall in Hl. exact (Hl _ Hin).
  - by rewrite lookup_empty in Hk.
Qed.

Lemma to_value_idem j : to_value (to_value j) = to_value j.
Proof.
  induction j as [| | | |l IH|l IH] using json_induction; [done..| |].
  - cbn. f_equal. rewrite <- list_fmap_compose. by apply list_fmap_ext, Forall_lookup.
  - rewrite to_value_members. set (m := insert_all _ _ _ _).
    assert (normal m) as Hm.
    { apply insert_all_normal. unfold values. rewrite Forall_fmap. exact IH. }
    unfold object_of. rewrite to_value_members, values_normal, insert_all_iter by done. done.
Qed.

(** ** Members *)

Lemma members_named_app name l1 l2 :
  members_named name (l1 ++ l2) = members_named name l1 ++ members_named name l2.
Proof. unfold members_named. by rewrite filter_app, fmap_app. Qed.

Lemma members_named_iter name (m : gmap string Json) :
  m !! name = None → members_named name (btree_iter m) = [].
Proof.
  intros Hn. unfold members_named. rewrite (filter_none _ (btree_iter m)); [done|].
  intros [k v] Hin Hk. cbn in Hk. subst k. apply elem_of_btree_iter in Hin. congruence.
Qed.

(** What a structure writes: its own members, and the flattened ones. *)
Definition extra_ok (known : list string) (m : gmap string Json) : Prop :=
  normal m ∧ ∀ k, k ∈ known → m !! k = None.

Lemma de_flatten_ok known l : extra_ok known (de_flatten known l).
Proof.
  unfold de_flatten. set (l' := filter _ l).
  assert (foldl (λ m kv, <[kv.1 := to_value kv.2]> m) ∅ l' = insert_all fst snd ∅ (values l')) as ->.
  { unfold insert_all, values. generalize (∅ : gmap string Json).
    induction l' as [|kv l2 IH]; intros m; [done|]. cbn. apply IH. }
  split.
  - apply insert_all_normal. unfold values. rewrite Forall_fmap. apply Forall_true.
    intros kv. apply to_value_idem.
  - intros k Hk. rewrite insert_all_notin; [apply lookup_empty|].
    intros ((k' & v) & -> & Hin)%list_elem_of_fmap. cbn in Hk.
    apply list_elem_of_fmap in Hin as ((k2 & v2) & [= -> ->] & Hin).
    apply list_elem_of_filter in Hin as [Hn _]. done.
Qed.

Lemma de_flatten_written known own m :
  extra_ok known m → Forall (λ kv, kv.1 ∈ known) own → de_flatten known (own ++ btree_iter m) = m.
Proof.
  intros [Hm Hk] Hown. unfold de_flatten. rewrite filter_app.
  rewrite (filter_none _ own), app_nil_l; cycle 1.
  { intros kv Hin Hn. rewrite Forall_forall in Hown. by apply Hn, Hown. }
  rewrite (filter_all _ (btree_iter m)); cycle 1.
  { intros [k v] Hin Hn. apply elem_of_btree_iter in Hin. cbn in Hn.
    rewrite (Hk k Hn) in Hin. done. }
  rewrite <- (insert_all_iter m) at 2. unfold insert_all.
  rewrite <- (values_normal m) at 2 by done. unfold values. generalize (∅ : gmap string Json).
  induction (btree_iter m) as [|kv l IH]; intros m'; [done|]. cbn. apply IH.
Qed.

(** ** Reading back what was written *)

Definition range_ok (r : Range) : Prop := extra_ok ["subnet"] (range_extra r).
Definition ipam_ok (i : Ipam) : Prop :=
  extra_ok ["type"; "ranges"] (ipam_extra i) ∧
  ∀ l, ipam_ranges i = Some l → Forall (Forall range_ok) l.
Definition plugin_ok (p : Plugin) : Prop :=
  extra_ok ["type"; "ipam"] (plugin_extra p) ∧ ∀ i, plugin_ipam p = Some i → ipam_ok i.
Definition conf_ok (c : ConfList) : Prop :=
  extra_ok ["plugins"] (conf_extra c) ∧ Forall plugin_ok (plugins c).

(** Reading gives well-formed structures. *)
Lemma de_range_ok j r : de_range j = Some r → range_ok r.
Proof.
  destruct j as [| | | | |l]; try done. cbn. destruct (de_field _ _ l); [|done]. cbn.
  intros [= <-]. apply de_flatten_ok.
Qed.

Lemma de_list_Forall {A} (de : Json → option A) (P : A → Prop) j l :
  (∀ j x, de j = Some x → P x) → de_list de j = Some l → Forall P l.
Proof.
  intros Hde. destruct j as [| | | |items|]; try done. cbn. intros Hm%mapM_Some.
  induction Hm; constructor; eauto.
Qed.

Lemma de_field_option_some {A} name (de : Json → option A) l x :
  de_field_option name de l = Some (Some x) → ∃ j, de j = Some x.
Proof.
  unfold de_field_option. destruct (members_named name l) as [|j [|]]; try done.
  destruct j; cbn; try done; intros Hx; apply fmap_Some in Hx as (y & Hy & [= ->]); eauto.
Qed.

Lemma de_ipam_ok j i : de_ipam j = Some i → ipam_ok i.
Proof.
  destruct j as [| | | | |l]; try done. cbn.
  destruct (de_field_option "type" _ l); [|done]. cbn.
  destruct (de_field_option "ranges" _ l) as [r|] eqn:Hr; [|done]. cbn. intros [= <-].
  split; [apply de_flatten_ok|]. cbn. intros rs ->.
  apply de_field_option_some in Hr as (j' & Hj). revert Hj. apply de_list_Forall.
  intros j2 x. apply de_list_Forall, de_range_ok.
Qed.

Lemma de_plugin_ok j p : de_plugin j = Some p → plugin_ok p.
Proof.
  destruct j as [| | | | |l]; try done. cbn. destruct (de_field _ _ l); [|done]. cbn.
  destruct (de_field_option "ipam" _ l) as [i|] eqn:Hi; [|done]. cbn. intros [= <-].
  split; [apply de_flatten_ok|]. cbn. intros i' ->.
  apply de_field_option_some in Hi as (j' & Hj). by eapply de_ipam_ok.
Qed.

Lemma de_conflist_ok j c : de_conflist j = Some c → conf_ok c.
Proof.
  destruct j as [| | | | |l]; try done. cbn. unfold de_field.
  destruct (members_named _ l) as [|j' [|]]; try done. cbn.
  destruct (de_list de_plugin j') as [ps|] eqn:Hps; [|done]. cbn. intros [= <-].
  split; [apply de_flatten_ok|]. revert Hps. apply de_list_Forall, de_plugin_ok.
Qed.

(** Writing a well-formed structure and reading it gives it back. *)
Lemma de_list_written {A} (ser : A → Json) (de : Json → option A) (P : A → Prop) l :
  (∀ x, P x → de (ser x) = Some x) → Forall P l → de_list de (JArray (ser <$> l)) = Some l.
Proof.
  intros Hd Hl. cbn. apply mapM_Some. induction Hl as [|x l Hx Hl IH]; constructor; auto.
Qed.

Lemma members_named_written name own known m :
  extra_ok known m → name ∈ known →
  members_named name (own ++ btree_iter m) = members_named name own.
Proof.
  intros [_ Hk] Hn. rewrite members_named_app, members_named_iter by by apply Hk.
  apply app_nil_r.
Qed.

Lemma de_range_written r : range_ok r → de_range (ser_range r) = Some r.
Proof.
  intros Hr. unfold ser_range. set (own := [("subnet", JString (subnet r))]).
  change (de_range (JObject (own ++ btree_iter (range_extra r))) = Some r).
  cbn [de_range]. unfold de_field.
  rewrite (members_named_written _ _ ["subnet"]), (de_flatten_written ["subnet"] own)
    by (done || set_solver || (repeat constructor; set_solver)).
  by destruct r.
Qed.

Lemma de_ranges_written l :
  Forall (Forall range_ok) l → de_list (de_list de_range) (ser_ranges l) = Some l.
Proof.
  apply de_list_written. intros rs. apply de_list_written, de_range_written.
Qed.

Lemma de_ipam_written i : ipam_ok i → de_ipam (ser_ipam i) = Some i.
Proof.
  intros [He Hr]. unfold ser_ipam. rewrite app_assoc. set (own := ser_option _ _ _ ++ _).
  cbn [de_ipam]. unfold de_field_option.
  rewrite !(members_named_written _ _ ["type"; "ranges"]),
    (de_flatten_written ["type"; "ranges"] own) by
    (done || set_solver || (subst own; destruct (ipam_type i), (ipam_ranges i);
                            repeat constructor; set_solver)).
  subst own. destruct i as [t [r|] e]; cbn [ipam_type ipam_ranges ipam_extra] in *;
    [|by destruct t].
  assert (de_option (de_list (de_list de_range)) (ser_ranges r) = Some (Some r)) as Hw.
  { transitivity (Some <$> de_list (de_list de_range) (ser_ranges r)); [done|].
    by rewrite (de_ranges_written r (Hr r eq_refl)). }
  destruct t as [t|];
    change (members_named "ranges" _) with [ser_ranges r]; cbv beta iota;
    rewrite Hw; done.
Qed.

Lemma de_plugin_written p : plugin_ok p → de_plugin (ser_plugin p) = Some p.
Proof.
  intros [He Hi]. unfold ser_plugin.
  set (own := ("type", JString (plugin_type p)) :: ser_option "ipam" ser_ipam (plugin_ipam p)).
  change (de_plugin (JObject (own ++ btree_iter (plugin_extra p))) = Some p).
  cbn [de_plugin]. unfold de_field, de_field_option.
  rewrite !(members_named_written _ _ ["type"; "ipam"]),
    (de_flatten_written ["type"; "ipam"] own) by
    (done || set_solver || (subst own; destruct (plugin_ipam p); repeat constructor; set_solver)).
  subst own. destruct p as [t [i|] e]; cbn [plugin_type plugin_ipam plugin_extra] in *; [|done].
  assert (de_option de_ipam (ser_ipam i) = Some (Some i)) as Hw.
  { transitivity (Some <$> de_ipam (ser_ipam i)); [done|].
    by rewrite (de_ipam_written i (Hi i eq_refl)). }
  change (members_named "ipam" _) with [ser_ipam i]. cbv beta iota. rewrite Hw. done.
Qed.

Lemma de_conflist_written c : conf_ok c → de_conflist (ser_conflist c) = Some c.
Proof.
  intros [He Hp]. unfold ser_conflist. set (own := [("plugins", JArray (ser_plugin <$> plugins c))]).
  change (de_conflist (JObject (own ++ btree_iter (conf_extra c))) = Some c).
  cbn [de_conflist]. unfold de_field.
  rewrite (members_named_written _ _ ["plugins"]), (de_flatten_written ["plugins"] own)
    by (done || set_solver || (repeat constructor; set_solver)).
  change (members_named "plugins" own) with [JArray (ser_plugin <$> plugins c)]. cbv beta iota.
  assert (de_list de_plugin (JArray (ser_plugin <$> plugins c)) = Some (plugins c)) as Hw.
  { apply (de_list_written ser_plugin de_plugin plugin_ok); [apply de_plugin_written|done]. }
  rewrite Hw. by destruct c.
Qed.

(** ** Seeding *)

Section seed.
Context `{IpNetLib}.

Lemma pod_ranges_ok cidrs : Forall (Forall range_ok) (pod_range <$> cidrs).
Proof.
  rewrite Forall_fmap. apply Forall_true. intros c. constructor; [|constructor].
  split; [apply map_Forall_empty|]. intros k _. apply lookup_empty.
Qed.

Lemma seed_plugin_ok cidrs p : plugin_ok p → plugin_ok (seed_plugin cidrs p).
Proof.
  intros [He Hi]. split; [exact He|]. cbn. intros i [= <-]. split.
  - cbn. destruct (plugin_ipam p) as [i|]; [apply (Hi i eq_refl)|].
    split; [apply map_Forall_empty|]. intros k _. apply lookup_empty.
  - cbn. intros l [= <-]. apply pod_ranges_ok.
Qed.

Lemma seed_plugin_twice a b p : seed_plugin b (seed_plugin a p) = seed_plugin b p.
Proof.
  unfold seed_plugin, seed_ipam. destruct p as [t [[[ty|] r e]|] x]; done.
Qed.

Lemma seed_first_spec a l l' :
  seed_first a l = Some l' →
  ∃ before p after, l = before ++ p :: after ∧ plugin_type p = "bridge" ∧
    Forall (λ q, plugin_type q ≠ "bridge") before ∧ l' = before ++ seed_plugin a p :: after ∧
    ∀ b q, plugin_type q = "bridge" → seed_first b (before ++ q :: after) =
           Some (before ++ seed_plugin b q :: after).
Proof.
  revert l'. induction l as [|p l IH]; intros l'; [done|]. cbn.
  destruct (decide (plugin_type p = "bridge")) as [Hp|Hp].
  - intros [= <-]. exists [], p, l. split_and!; [done|done|constructor|done|]. intros b q Hq. cbn. by rewrite decide_True.
  - intros (l1 & Hl1 & ->)%fmap_Some.
    destruct (IH l1 Hl1) as (before & q & after & -> & Hq & Hno & -> & Hs).
    exists (p :: before), q, after. split_and!; [done|done|by constructor|done|]. intros b q' Hq'. cbn.
    rewrite decide_False by done. by rewrite Hs.
Qed.

(** ** What a document says *)

(** The member of a name; where there are several, the last. *)
Definition field (k : string) (j : Json) : option Json :=
  match j with JObject l => last (members_named k l) | _ => None end.

(** The members of a document that are not among the known ones. *)
Definition other_members (known : list string) (j : Json) (m : gmap string Json) : Prop :=
  ∀ k, k ∉ known → m !! k = to_value <$> field k j.

Lemma de_flatten_members known l : other_members known (JObject l) (de_flatten known l).
Proof.
  intros k Hk. cbn [field]. unfold de_flatten, members_named.
  induction l as [|[k' v] l IH] using rev_ind; [apply lookup_empty|].
  rewrite !filter_app, !filter_cons, !filter_nil, foldl_app, fmap_app. cbn [fst snd].
  destruct (decide (k' = k)) as [->|Hne].
  - rewrite decide_True by done. cbn. by rewrite lookup_insert_eq, last_snoc.
  - rewrite app_nil_r, <-IH. case_decide; [|done]. cbn. by rewrite lookup_insert_ne.
Qed.

Lemma field_single {A} k (de : Json → option A) l x :
  de_field k de l = Some x → ∃ j, field k (JObject l) = Some j ∧ de j = Some x.
Proof. unfold de_field. cbn [field]. destruct (members_named k l) as [|j [|]]; try done. by exists j. Qed.

Lemma de_plugin_says j p :
  de_plugin j = Some p →
  field "type" j = Some (JString (plugin_type p)) ∧ other_members ["type"; "ipam"] j (plugin_extra p) ∧
  match plugin_ipam p with
  | Some i => ∃ ji, field "ipam" j = Some ji ∧ de_ipam ji = Some i
  | None => ∀ k, field "ipam" j ≫= field k = None
  end.
Proof.
  destruct j as [| | | | |l]; try done. cbn [de_plugin].
  destruct (de_field "type" de_string l) as [t|] eqn:Ht; [|done]. cbn [mbind option_bind].
  destruct (de_field_option "ipam" de_ipam l) as [i|] eqn:Hi; [|done]. intros [= <-]. cbn [plugin_type plugin_ipam plugin_extra]. split_and!.
  - apply field_single in Ht as (j & Hj & Hs). rewrite Hj. destruct j; try done. cbn in Hs. congruence.
  - apply de_flatten_members.
  - change (field "ipam" (JObject l)) with (last (members_named "ipam" l)).
    unfold de_field_option in Hi. destruct (members_named "ipam" l) as [|j [|]]; [| |done].
    + by injection Hi as <-.
    + destruct j; cbn in Hi; try done; [by injection Hi as <-|].
      apply fmap_Some in Hi as (i' & Hi' & ->). eexists. split; [done|exact Hi'].
Qed.

Lemma de_conflist_says j c :
  de_conflist j = Some c →
  other_members ["plugins"] j (conf_extra c) ∧
  ∃ items, field "plugins" j = Some (JArray items) ∧ Forall2 (λ j q, de_plugin j = Some q) items (plugins c).
Proof.
  destruct j as [| | | | |l]; try done. cbn [de_conflist].
  destruct (de_field "plugins" (de_list de_plugin) l) as [ps|] eqn:Hps; [|done]. cbn [mbind option_bind].
  intros [= <-]. split; [apply de_flatten_members|]. apply field_single in Hps as (j & Hj & Hde).
  destruct j as [| | | |items|]; try done. exists items. split; [done|]. by apply mapM_Some.
Qed.

(** The address management of a seeded bridge: the given ranges, the type it had
    (else [host-local]) and what else it had. *)
Definition seeded_ipam (cidrs : list IpNet) (old : option Json) (i : Ipam) : Prop :=
  ipam_ranges i = Some ((λ c, [{| subnet := net_to_string c; range_extra := ∅ |}]) <$> cidrs) ∧
  ipam_type i = Some (match old ≫= field "type" with Some (JString t) => t | _ => "host-local" end) ∧
  ∀ k, k ≠ "type" → k ≠ "ranges" → ipam_extra i !! k = to_value <$> (old ≫= field k).

Lemma seed_ipam_says cidrs jp p :
  de_plugin jp = Some p → seeded_ipam cidrs (field "ipam" jp) (seed_ipam cidrs (plugin_ipam p)).
Proof.
  intros (_ & _ & Hi)%de_plugin_says. unfold seeded_ipam, seed_ipam. cbn [ipam_ranges ipam_type ipam_extra].
  destruct (plugin_ipam p) as [i|]; cbn [default from_option id].
  - destruct Hi as (ji & -> & Hji). destruct ji as [| | | | |l]; try done. cbn [de_ipam] in Hji.
    destruct (de_field_option "type" de_string l) as [t|] eqn:Ht; [|done]. cbn [mbind option_bind] in Hji |- *.
    destruct (de_field_option "ranges" _ l); [|done]. injection Hji as <-. cbn [ipam_type ipam_extra].
    split_and!; [done| |intros k Hty Hr; apply de_flatten_members; set_solver].
    change (field "type" (JObject l)) with (last (members_named "type" l)).
    unfold de_field_option in Ht. destruct (members_named "type" l) as [|j [|]]; [| |done].
    + by injection Ht as <-.
    + destruct j; cbn in Ht; try done; by injection Ht as <-.
  - split_and!; [done|by rewrite Hi|]. intros k _ _. rewrite Hi. apply lookup_empty.
Qed.

(** C18: A configuration that was read and seeded is read back as it was written.  The
    members that no structure names are those of the original document, in the
    list, in the seeded plugin and in its address management; the plugin is the
    first bridge of the document, the others are as they were read; its address
    management has the given ranges and its own type, or [host-local]; and to seed
    it again is to seed the original. *)
Theorem seed_keeps_the_rest j cl a cl' :
  de_conflist j = Some cl → seed_pod_cidrs cl a = inr cl' →
  de_conflist (ser_conflist cl') = Some cl' ∧
  other_members ["plugins"] j (conf_extra cl') ∧
  (∃ jbefore jp jafter before p after i,
     field "plugins" j = Some (JArray (jbefore ++ jp :: jafter)) ∧
     plugins cl' = before ++ p :: after ∧
     Forall2 (λ j q, de_plugin j = Some q ∧ field "type" j ≠ Some (JString "bridge")) jbefore before ∧
     Forall2 (λ j q, de_plugin j = Some q) jafter after ∧
     field "type" jp = Some (JString "bridge") ∧ plugin_type p = "bridge" ∧
     other_members ["type"; "ipam"] jp (plugin_extra p) ∧
     plugin_ipam p = Some i ∧ seeded_ipam a (field "ipam" jp) i) ∧
  ∀ b, seed_pod_cidrs cl' b = seed_pod_cidrs cl b.
Proof.
  intros Hread. pose proof (de_conflist_ok j cl Hread) as [He Hp].
  destruct (de_conflist_says j cl Hread) as (Hother & items & Hfield & Hitems).
  unfold seed_pod_cidrs. destruct (seed_first a (plugins cl)) as [l|] eqn:Hs; [|done]. intros [= <-].
  cbn [plugins conf_extra].
  destruct (seed_first_spec a _ _ Hs) as (before & p & after & Hl & Ht & Hno & -> & Hb).
  rewrite Hl in Hp, Hitems. apply Forall2_app_inv_r in Hitems as (jbefore & jrest & Hbef & Hrest & ->).
  apply Forall2_cons_inv_r in Hrest as (jp & jafter & Hjp & Haft & ->).
  destruct (de_plugin_says jp p Hjp) as (Htype & Hextra & _).
  split_and!; [|exact Hother| |].
  - apply de_conflist_written. split; [exact He|]. cbn.
    apply Forall_app in Hp as [Hp1 [Hp2 Hp3]%Forall_cons]. apply Forall_app. split; [done|].
    constructor; [by apply seed_plugin_ok|done].
  - exists jbefore, jp, jafter, before, (seed_plugin a p), after, (seed_ipam a (plugin_ipam p)).
    split_and!; try done; [|by rewrite Htype, Ht|by apply seed_ipam_says].
    clear -Hbef Hno. induction Hbef as [|jq q jqs qs Hq _ IH]; [constructor|].
    apply Forall_cons in Hno as [Hq' Hno]. constructor; [|by apply IH]. split; [done|].
    apply de_plugin_says in Hq as [-> _]. congruence.
  - intros b. rewrite Hl, !Hb by done. by rewrite seed_plugin_twice.
Qed.

(** A list without a bridge is refused, and no other. *)
Lemma seed_needs_bridge cl a :
  seed_pod_cidrs cl a = inl NoBridgePlugin ↔ Forall (λ p, plugin_type p ≠ "bridge") (plugins cl).
Proof.
  unfold seed_pod_cidrs. assert (seed_first a (plugins cl) = None ↔
    Forall (λ p, plugin_type p ≠ "bridge") (plugins cl)) as <-.
  { induction (plugins cl) as [|p l IH]; [done|]. cbn. rewrite Forall_cons, <- IH.
    destruct (decide _); [naive_solver|]. rewrite fmap_None. naive_solver. }
  destruct (seed_first a (plugins cl)); naive_solver.
Qed.
End seed.

(** ** A configuration of an operator *)

Module Sample.

Definition sample : Json := JObject [
  ("cniVersion", JString "0.3.0"); ("name", JString "mynet");
  ("plugins", JArray [
     JObject [("type", JString "bridge"); ("mtu", JNumber "1450");
              ("ipam", JObject [("type", JString "host-local"); ("dataDir", JString "/run/cni")])];
     JObject [("type", JString "portmap"); ("capabilities", JObject [("portMappings", JBool true)])]])].

Definition read : ConfList :=
  match de_conflist sample with Some c => c | None => {| plugins := []; conf_extra := ∅ |} end.
Definition seeded : ConfList :=
  match seed_pod_cidrs read [net_of "10.244.1.0/24"] with inr c => c | inl _ => read end.

Lemma seed_keeps_the_rest_witness :
  de_conflist (ser_conflist seeded) = Some seeded ∧
  conf_extra seeded !! "name" = Some (JString "mynet") ∧
  ∃ p i, p ∈ plugins seeded ∧ plugin_type p = "bridge" ∧ plugin_extra p !! "mtu" = Some (JNumber "1450") ∧
    plugin_ipam p = Some i ∧ ipam_extra i !! "dataDir" = Some (JString "/run/cni").
Proof.
  assert (de_conflist sample = Some read) as H1 by (vm_compute; reflexivity).
  assert (seed_pod_cidrs read [net_of "10.244.1.0/24"] = inr seeded) as H2
    by (vm_compute; reflexivity).
  destruct (seed_keeps_the_rest (H := ref_net_lib) sample read [net_of "10.244.1.0/24"] seeded H1 H2)
    as (Hback & Hconf & (jbefore & jp & jafter & before & p & after & i & Hf & Hl & Hb & _ & _ & Ht & Hp & Hi & Hs) & _).
  split; [exact Hback|]. split; [rewrite Hconf by (apply (bool_decide_unpack _); exact I); vm_compute; reflexivity|].
  destruct jbefore as [|jq jbefore]; vm_compute in Hf.
  2:{ injection Hf as <- _. apply Forall2_cons_inv_l in Hb as (q & qs & [_ Hne] & _). by destruct Hne. }
  injection Hf as <- _. exists p, i. split_and!.
  - rewrite Hl. apply elem_of_app. right. by left.
  - exact Ht.
  - rewrite Hp by (apply (bool_decide_unpack _); exact I). vm_compute. reflexivity.
  - exact Hi.
  - rewrite (proj2 (proj2 Hs)) by done. vm_compute. reflexivity.
Defined.

(** The document the program writes is one that it reads, with the bridge first. *)
Example written_document :
  (λ c, plugin_type <$> plugins c) <$> de_conflist (kuberouter_document [net_of "10.244.1.0/24"]) =
  Some ["bridge"; "loopback"].
Proof. vm_compute. reflexivity. Qed.
End Sample.
