(* ===== verification/Clients.v ===== *)
(** * Clients: the API server and the container runtime
    ([crates/kube-client/src] and [crates/cri/src/lib.rs])

    How the agent resolves its client, waits for its caches, and wakes a
    controller when a watch delivers; and the client of the container runtime.
    The crates [kube] and [tonic] are interfaces: a configuration, a client, a
    stream of watch events, one call. *)

From stdpp Require Import gmap sets list strings pretty.
From Stdlib Require Import Ascii ZArith Lia.
From S2P Require Import Prelude Text Cni.

Local Open Scope Z_scope.

(** ** The client ([client.rs]) *)

Module KubeClient.

Inductive ClientError := Infer (why : string) | Kubeconfig (why : string) | Master (why : string)
  | Kube (why : string).

(** The configurations and clients of the crate, and its parser of URLs. *)
Class KubeConfigs (W : Type) := {
  config : Type;
  client : Type;
  with_url : string → config → config;       (* [config.cluster_url = ..] *)
  parse_url : string → string + string;
  read_kubeconfig : string → M W string config;   (* [read_from], [from_custom_kubeconfig] *)
  infer_config : M W string config;
  make_client : config → M W string client;
}.

Section client.
Context {W : Type} `{!KubeConfigs W}.

Definition resolve_config (kubeconfig : option string) : M W ClientError config :=
  match kubeconfig with
  | Some path => if str_is_empty path then mmap_err Infer infer_config
                 else mmap_err Kubeconfig (read_kubeconfig path)
  | None => mmap_err Infer infer_config
  end.

Definition override_master (master : option string) (c : config) : M W ClientError config :=
  match master with
  | Some m =>
      if str_is_empty m then mret c
      else match parse_url m with
           | inl e => mfail (Master e)
           | inr url => mret (with_url url c)
           end
  | None => mret c
  end.

Definition build_client (kubeconfig master : option string) : M W ClientError client :=
  c ← resolve_config kubeconfig;
  c ← override_master master c;
  mmap_err Kube (make_client c).
End client.

(** ** The barrier ([cache.rs])

    A future that is ready after some milliseconds, or never; the timeout looks
    at the future first. *)

Definition wait_with_timeout (ready : option Z) (timeout : Z) : Z + unit :=
  match ready with
  | Some t => if t <=? timeout then inr tt else inl timeout
  | None => inl timeout
  end.

(** ** The reflectors ([informers.rs]) *)

(** [Notify]: whether a permit is stored; a waiter that finds none waits. *)
Definition notify_one (permit : bool) : bool := true.

(** The task of [spawn_reflector_inner] over the events of its stream, where an
    error is only logged. *)
Definition drive_reflector (notify : bool) (events : list (string + unit)) (permit : bool) : bool :=
  foldl (λ permit ev, match ev with
                      | inr _ => if notify then notify_one permit else permit
                      | inl _ => permit
                      end) permit events.
End KubeClient.

(** ** The container runtime *)

Module Cri.
Import Cni.

Inductive CriError := Endpoint (why : string) | Transport (why : string) | Rpc (why : string)
  | Info (why : string) | Timeout (after : Z).

Definition DEFAULT_CONNECTION_TIMEOUT : Z := 15000.

Definition endpoint_parser (endpoint : string) : CriError + (string * string) :=
  match split_once_str "://" endpoint with
  | Some (p, a) =>
      if negb (str_is_empty p) && negb (str_is_empty a) then inr (p, a)
      else inl (Endpoint "bad endpoint format, should be 'protocol://path'")
  | None => inl (Endpoint "bad endpoint format, should be 'protocol://path'")
  end.

(** A number that [serde_json] reads as an [i32]. *)
Definition de_i32 (j : Json) : option Z :=
  match j with
  | JNumber (String "-" digits) =>
      n ← digits_nonempty digits;
      if (0 <? n) && (n <=? 2 ^ 31) then Some (- n) else None
  | JNumber digits =>
      n ← digits_nonempty digits;
      if n <? 2 ^ 31 then Some n else None
  | _ => None
  end.

(** [ContainerInfo], as an object or as a sequence of its fields. *)
Definition de_container_info (j : Json) : option Z :=
  match j with
  | JObject members => de_field "pid" de_i32 members
  | JArray [pid] => de_i32 pid
  | _ => None
  end.

(** The text of the error when the information cannot be read. *)
Class JsonErrors := { pid_error : string → string }.

Definition parse_container_pid `{!JsonText, !JsonErrors} (info_json : string) : CriError + Z :=
  match json_parse info_json ≫= de_container_info with
  | Some pid => inr pid
  | None => inl (Info (pid_error info_json))
  end.

(** [ContainerStatus] of the generated client, with the timeout: [None] when it
    has not answered by then, or else an error or the verbose information. *)
Class RuntimeServiceClient (W : Type) := {
  lazy_channel : string → string + string;     (* the channel to a socket, by its path *)
  container_status :
    string → Z → string → bool → W → option (string + gmap string string) * W;
}.

Record RuntimeService := { channel : string; timeout : Z }.

Section runtime.
Context `{!JsonText, !JsonErrors} {W : Type} `{!RuntimeServiceClient W}.

Definition connect (endpoint : string) (timeout : Z) : CriError + RuntimeService :=
  match endpoint_parser endpoint with
  | inl e => inl e
  | inr (proto, path) =>
      if decide (proto = "unix") then
        match lazy_channel path with
        | inl e => inl (Transport e)
        | inr channel => inr {| channel := channel; timeout := timeout |}
        end
      else inl (Endpoint ("only unix socket is supported, got '" +:+ proto +:+ "'"))
  end.

Definition container_pid (self : RuntimeService) (container_id : string) : M W CriError Z := λ w,
  match container_status (channel self) (timeout self) container_id true w with
  | (None, w) => (inl (Timeout (timeout self)), w)
  | (Some (inl e), w) => (inl (Rpc e), w)
  | (Some (inr info), w) =>
      match info !! "info" with
      | None => (inl (Info "missing verbose 'info' field"), w)
      | Some blob => (parse_container_pid blob, w)
      end
  end.
End runtime.

(** *** Facts *)

Lemma endpoint_parser_unix path :
  path ≠ "" → endpoint_parser ("unix://" +:+ path) = inr ("unix", path).
Proof. by destruct path. Qed.

Lemma de_i32_range j pid : de_i32 j = Some pid → - 2 ^ 31 ≤ pid < 2 ^ 31.
Proof.
  unfold de_i32. destruct j as [| | text | | | ]; try done.
  assert (∀ digits, (n ← digits_nonempty digits; if n <? 2 ^ 31 then Some n else None) = Some pid →
            - 2 ^ 31 ≤ pid < 2 ^ 31) as Hpos.
  { intros digits. destruct (digits_nonempty digits) as [n|] eqn:Hn; [|done]. cbn [mbind option_bind].
    destruct (Z.ltb_spec n (2 ^ 31)); [|done]. intros [= <-].
    assert (0 ≤ n); [|lia]. unfold digits_nonempty in Hn.
    destruct (str_is_empty digits); [done|]. by apply (parse_digits_nonneg 0) in Hn. }
  destruct text as [|c s]; [apply Hpos|].
  assert ((c = "-"%char ∧ (n ← digits_nonempty s;
             if (0 <? n) && (n <=? 2 ^ 31) then Some (- n) else None) = Some pid →
           - 2 ^ 31 ≤ pid < 2 ^ 31)) as Hneg.
  { intros [_ Hs]. destruct (digits_nonempty s) as [n|]; [|done]. cbn [mbind option_bind] in Hs.
    destruct (Z.ltb_spec 0 n); [|done]. destruct (Z.leb_spec n (2 ^ 31)); [|done]. cbn in Hs.
    injection Hs as <-. lia. }
  destruct c as [[] [] [] [] [] [] [] []]; try apply Hpos. intros Hs. by apply Hneg.
Qed.
End Cri.
