(* ===== verification/K8s.v ===== *)
(** * K8s: the Kubernetes objects the agent reads

    Records with the fields of the API objects (crate [k8s_openapi]) that the
    wiring of [crates/kube-router-rs] reads; an [Option] field of the crate is an
    [option].  Label and annotation maps are [gmap]s. *)

From stdpp Require Import gmap list strings.
From Stdlib Require Import ZArith.

Local Open Scope Z_scope.

Record ObjectMeta := {
  m_namespace : option string;
  m_name : option string;
  m_labels : option (gmap string string);
  m_annotations : option (gmap string string);
}.

(** ** Services *)

Record ServicePort := {
  svp_name : option string;
  svp_protocol : option string;
  svp_port : Z;
  svp_node_port : option Z;
}.

Record ServiceSpec := {
  type_ : option string;
  cluster_ip : option string;
  cluster_ips : option (list string);
  external_ips : option (list string);
  service_ports : option (list ServicePort);
  session_affinity : option string;
  client_ip_timeout_seconds : option Z;   (* sessionAffinityConfig.clientIP.timeoutSeconds *)
  internal_traffic_policy : option string;
  external_traffic_policy : option string;
  health_check_node_port : option Z;
  ip_families : option (list string);
  ip_family_policy : option string;
  load_balancer_class : option string;
}.

Record K8sService := {
  svc_meta : ObjectMeta;
  svc_spec : option ServiceSpec;
  svc_ingress : option (list (option string));   (* status.loadBalancer.ingress, the ip of each *)
}.

(** ** Endpoint slices *)

Record Endpoint := {
  addresses : list string;
  node_name : option string;
  cond_ready : option bool;   (* conditions.ready *)
}.

Record EndpointPort := { epp_name : option string; epp_port : option Z }.

Record EndpointSlice := {
  slice_meta : ObjectMeta;
  slice_endpoints : option (list Endpoint);
  slice_ports : option (list EndpointPort);
}.

(** ** Nodes *)

Record K8sNodeAddress := { addr_type : string; addr_address : string }.

Record K8sNode := {
  node_meta : ObjectMeta;
  node_status_addresses : option (list K8sNodeAddress);
  node_spec : option (option (list string) * option string);   (* podCIDRs, podCIDR *)
}.

(** ** Network policies, pods and namespaces *)

Record K8sRequirement := { req_key : string; req_operator : string; req_values : option (list string) }.

Record K8sLabelSelector := {
  sel_match_labels : option (gmap string string);
  sel_match_expressions : option (list K8sRequirement);
}.

Record IPBlock := { block_cidr : string; block_except : option (list string) }.

Record NetworkPolicyPeer := {
  peer_ip_block : option IPBlock;
  peer_namespace_selector : option K8sLabelSelector;
  peer_pod_selector : option K8sLabelSelector;
}.

Inductive IntOrString := IntPort (n : Z) | StringPort (s : string).

Record NetworkPolicyPort := {
  npp_protocol : option string;
  npp_port : option IntOrString;
  npp_end_port : option Z;
}.

(** A rule of either direction: its [from] or [to], and its ports. *)
Record NetworkPolicyRule := {
  rule_peers : option (list NetworkPolicyPeer);
  rule_ports : option (list NetworkPolicyPort);
}.

Record NetworkPolicySpec := {
  pod_selector : option K8sLabelSelector;
  policy_types : option (list string);
  spec_ingress : option (list NetworkPolicyRule);
  spec_egress : option (list NetworkPolicyRule);
}.

Record K8sNetworkPolicy := { np_meta : ObjectMeta; np_spec : option NetworkPolicySpec }.

Record K8sContainerPort := {
  kcp_name : option string;
  kcp_protocol : option string;
  kcp_container_port : Z;
}.

Record PodSpec := {
  spec_node_name : option string;
  spec_host_network : option bool;
  container_ports : list (option (list K8sContainerPort));   (* of each container *)
}.

Record PodStatus := { status_pod_ips : option (list string); status_pod_ip : option string }.

Record K8sPod := { pod_meta : ObjectMeta; pod_spec : option PodSpec; pod_status : option PodStatus }.

Record K8sNamespace := { ns_meta : ObjectMeta }.
