(* ===== verification/Wires.v ===== *)
(** * Wires: from Kubernetes objects to the controllers ([crates/kube-router-rs])

    What the controllers are given: [NetpolWire] is [netpol_wire.rs],
    [ProxyWire] is [proxy_wire.rs], [SvcVipWire] is [svc_vip_wire.rs], [LbWire]
    the service projection of [lballoc_wire.rs] (its lease is [Lease]) and
    [RoutingWire] the node projections of [routing_wire.rs]. *)

From stdpp Require Import gmap sets list strings pretty.
From Stdlib Require Import Ascii ZArith Lia.
From S2P Require Import Prelude Text Net Common K8s LbAlloc Routing Proxy ProxySync Netpol Synth Agent.

Local Open Scope Z_scope.

(** [u16::try_from(n).ok()] and [u32::try_from(n).ok()] of an [i32] *)
Definition to_u16 (n : Z) : option Z := if (0 <=? n) && (n <=? 65535) then Some n else None.
Definition to_u32 (n : Z) : option Z := if 0 <=? n then Some n else None.

Definition parse_ips (v : list string) : list IpAddr := filter_map parse_ipaddr v.

Definition annotation (anns : option (gmap string string)) (key : string) : option string :=
  m ← anns; m !! key.

(** [clusterIPs] without the headless marker, or else [clusterIP]. *)
Definition real_ip (ip : string) : bool := negb (bool_decide (ip = "None")) && negb (str_is_empty ip).
Definition raw_cluster_ips (spec : ServiceSpec) : list string :=
  match filter (λ ip, real_ip ip = true) (default [] (cluster_ips spec)) with
  | [] => filter (λ ip, real_ip ip = true) (option_list (cluster_ip spec))
  | ips => ips
  end.

(** The load-balancer addresses of the status. *)
Definition ingress_ips (svc : K8sService) : list IpAddr :=
  parse_ips (filter_map id (default [] (svc_ingress svc))).

Definition SERVICE_NAME_LABEL : string := "kubernetes.io/service-name".

(** Whether a slice belongs to a service. *)
Definition slice_of (slice : EndpointSlice) (namespace name : string) : bool :=
  bool_decide (m_namespace (slice_meta slice) = Some namespace) &&
  bool_decide (annotation (m_labels (slice_meta slice)) SERVICE_NAME_LABEL = Some name).

Definition endpoint_ready (ep : Endpoint) : bool := default true (cond_ready ep).

(** ** Network policies *)

Module NetpolWire.

Definition selector_op (s : string) : option SelectorOp :=
  if decide (s = "In") then Some In
  else if decide (s = "NotIn") then Some NotIn
  else if decide (s = "Exists") then Some Exists
  else if decide (s = "DoesNotExist") then Some DoesNotExist
  else None.

Definition map_selector (sel : K8sLabelSelector) : LabelSelector := {|
  match_labels := default ∅ (sel_match_labels sel);
  match_expressions :=
    (λ r, {| sr_key := req_key r; sr_operator := selector_op (req_operator r);
             sr_values := default [] (req_values r) |})
      <$> default [] (sel_match_expressions sel);
|}.

Section netpol.
Context `{IpNetLib}.
Import PolicyController.

Definition map_peer (p : NetworkPolicyPeer) : option Peer :=
  match peer_ip_block p with
  | Some block =>
      cidr ← net_parse (block_cidr block);
      Some (PeerIpBlock cidr (filter_map net_parse (default [] (block_except block))))
  | None =>
      Some (PeerSelector (map_selector <$> peer_namespace_selector p)
                         (map_selector <$> peer_pod_selector p))
  end.

Definition map_port (p : NetworkPolicyPort) : PortSpec := {|
  ps_protocol := to_ascii_lowercase (default "TCP" (npp_protocol p));
  ps_port := match npp_port p with
             | None => PortAll
             | Some (IntPort n) =>
                 match to_u16 n with Some n => PortNumber n | None => PortAll end
             | Some (StringPort name) => PortName name
             end;
|}.

Definition map_ports (ports : option (list NetworkPolicyPort)) : list PortSpec :=
  map_port <$> default [] ports.

Definition map_rule (r : NetworkPolicyRule) : PolicyRule :=
  {| pr_peers := filter_map map_peer (default [] (rule_peers r)); pr_ports := map_ports (rule_ports r) |}.

Definition map_policy (np : K8sNetworkPolicy) : option NetworkPolicy :=
  namespace ← m_namespace (np_meta np);
  name ← m_name (np_meta np);
  spec ← np_spec np;
  let types := default [] (policy_types spec) in
  let has_egress_rules := negb (bool_decide (default [] (spec_egress spec) = [])) in
  let none := bool_decide (types = []) in
  Some {|
    np_namespace := namespace;
    np_name := name;
    np_pod_selector := default (from_labels ∅) (map_selector <$> pod_selector spec);
    np_policy_types :=
      {| pt_ingress := list_contains types "Ingress" || none;
         pt_egress := list_contains types "Egress" || (none && has_egress_rules) |};
    np_ingress := map_rule <$> default [] (spec_ingress spec);
    np_egress := map_rule <$> default [] (spec_egress spec);
  |}.

Definition map_container_port (p : K8sContainerPort) : option ContainerPort :=
  port ← to_u16 (kcp_container_port p);
  Some {| cp_name := kcp_name p;
          cp_protocol := to_ascii_lowercase (default "TCP" (kcp_protocol p)); cp_port := port |}.

(** [status.podIPs], or else [status.podIP]. *)
Definition pod_addresses (pod : K8sPod) : list IpAddr :=
  match pod_status pod with
  | None => []
  | Some s =>
      match status_pod_ips s with
      | Some ips => parse_ips ips
      | None => option_list (status_pod_ip s ≫= parse_ipaddr)
      end
  end.

Definition map_pod (pod : K8sPod) : option Pod :=
  namespace ← m_namespace (pod_meta pod);
  name ← m_name (pod_meta pod);
  Some {|
    pod_namespace := namespace;
    pod_name := name;
    pod_labels := default ∅ (m_labels (pod_meta pod));
    pod_ips := pod_addresses pod;
    pod_node_name := default "" (pod_spec pod ≫= spec_node_name);
    pod_host_network := default false (pod_spec pod ≫= spec_host_network);
    pod_container_ports :=
      filter_map map_container_port
        (default [] (container_ports <$> pod_spec pod) ≫= default []);
  |}.

Definition map_namespace (ns : K8sNamespace) : option Namespace :=
  name ← m_name (ns_meta ns);
  Some {| ns_name := name; ns_labels := default ∅ (m_labels (ns_meta ns)) |}.

(** [StorePolicySource::snapshot] on the contents of the three stores. *)
Definition policy_snapshot (policies : list K8sNetworkPolicy) (pods : list K8sPod)
    (namespaces : list K8sNamespace) : PolicyWorld :=
  {| w_policies := filter_map map_policy policies; w_pods := filter_map map_pod pods;
     w_namespaces := filter_map map_namespace namespaces |}.

(** [StorePolicySource]: the contents of the three stores. *)
Class PolicyStores (W : Type) := {
  policy_store : W → list K8sNetworkPolicy;
  pod_store : W → list K8sPod;
  namespace_store : W → list K8sNamespace;
}.
Definition store_policy_source {W} `{!PolicyStores W} : PolicySource W :=
  {| snapshot w := policy_snapshot (policy_store w) (pod_store w) (namespace_store w) |}.
End netpol.
End NetpolWire.

(** ** The service proxy *)

Module ProxyWire.

Definition SCHEDULER_ANNOTATION : string := "kube-router.io/service.scheduler".
Definition SCHEDFLAGS_ANNOTATION : string := "kube-router.io/service.schedflags".
Definition DSR_ANNOTATION : string := "kube-router.io/service.dsr".
Definition LOCAL_ANNOTATION : string := "kube-router.io/service.local".
Definition HAIRPIN_ANNOTATION : string := "kube-router.io/service.hairpin".
Definition HAIRPIN_EXTERNALIPS_ANNOTATION : string := "kube-router.io/service.hairpin.externalips".

(** The port of a slice for a service port: the first of that name. *)
Definition slice_port (slice : EndpointSlice) (port_name : string) : option Z :=
  p ← find (λ p, bool_decide (default "" (epp_name p) = port_name))
           (default [] (slice_ports slice));
  port ← epp_port p;
  to_u16 port.

Definition slice_endpoint_infos (slice : EndpointSlice) (port : Z) (local_node : string)
    : list EndpointInfo :=
  default [] (slice_endpoints slice) ≫= λ ep,
    (λ ip, {| ep_ip := ip; ep_port := port;
              ep_is_local := bool_decide (node_name ep = Some local_node);
              ep_ready := endpoint_ready ep |}) <$> parse_ips (addresses ep).

Definition endpoints_for (slices : list EndpointSlice)
    (namespace name port_name local_node : string) : list EndpointInfo :=
  slices ≫= λ slice,
    if slice_of slice namespace name then
      match slice_port slice port_name with
      | Some port => slice_endpoint_infos slice port local_node
      | None => []
      end
    else [].

Definition has_annotation (anns : option (gmap string string)) (key : string) : bool :=
  bool_decide (is_Some (annotation anns key)).

Definition affinity (spec : ServiceSpec) : bool * Z :=
  if decide (session_affinity spec = Some "ClientIP")
  then (true, default 10800 (client_ip_timeout_seconds spec ≫= to_u32))
  else (false, 0).

Definition service_info (svc : K8sService) (spec : ServiceSpec) (namespace name : string)
    (sp : ServicePort) (port : Z) : ServiceInfo :=
  let ann := m_annotations (svc_meta svc) in
  let scheduler := default Rr (scheduler_parse <$> annotation ann SCHEDULER_ANNOTATION) in
  let local_ann := bool_decide (annotation ann LOCAL_ANNOTATION = Some "true") in
  {| si_namespace := namespace;
     si_name := name;
     si_port_name := default "" (svp_name sp);
     si_protocol := protocol_parse (default "TCP" (svp_protocol sp));
     si_port := port;
     si_node_port := svp_node_port sp ≫= to_u16;
     si_cluster_ips := parse_ips (raw_cluster_ips spec);
     si_external_ips := parse_ips (default [] (external_ips spec));
     si_load_balancer_ips := ingress_ips svc;
     si_scheduler := scheduler;
     si_sched_flags :=
       if decide (scheduler = Mh)
       then default no_flags (sched_flags_parse <$> annotation ann SCHEDFLAGS_ANNOTATION)
       else no_flags;
     si_session_affinity := (affinity spec).1;
     si_affinity_timeout := (affinity spec).2;
     si_dsr := has_annotation ann DSR_ANNOTATION;
     si_internal_traffic_local :=
       local_ann || bool_decide (internal_traffic_policy spec = Some "Local");
     si_external_traffic_local :=
       local_ann || bool_decide (external_traffic_policy spec = Some "Local");
     si_hairpin := has_annotation ann HAIRPIN_ANNOTATION;
     si_hairpin_external_ips := has_annotation ann HAIRPIN_EXTERNALIPS_ANNOTATION;
     si_health_check_node_port := health_check_node_port spec ≫= to_u16 |}.

(** The entries of one service: one per port. *)
Definition map_service (slices : list EndpointSlice) (local_node : string) (svc : K8sService)
    : list (ServiceInfo * list EndpointInfo) :=
  match m_namespace (svc_meta svc), m_name (svc_meta svc), svc_spec svc with
  | Some namespace, Some name, Some spec =>
      if decide (type_ spec = Some "ExternalName") then []
      else if decide (parse_ips (raw_cluster_ips spec) = []) then []
      else
        default [] (service_ports spec) ≫= λ sp,
          match to_u16 (svp_port sp) with
          | Some port =>
              [(service_info svc spec namespace name sp port,
                endpoints_for slices namespace name (default "" (svp_name sp)) local_node)]
          | None => []
          end
  | _, _, _ => []
  end.

Definition map_services (services : list K8sService) (slices : list EndpointSlice)
    (local_node : string) : list (ServiceInfo * list EndpointInfo) :=
  services ≫= map_service slices local_node.

(** [StoreServiceProvider]: the contents of the stores, and the name of the node. *)
Class ServiceStores (W : Type) := {
  service_store : W → list K8sService;
  slice_store : W → list EndpointSlice;
}.
Definition store_services {W} `{!ServiceStores W} (local_node : string) (w : W)
    : list (ServiceInfo * list EndpointInfo) :=
  map_services (service_store w) (slice_store w) local_node.
Definition store_service_provider {W} `{!ServiceStores W} (local_node : string)
    : ServiceProvider W := {| provider_services := store_services local_node |}.
End ProxyWire.

(** ** Announced service addresses *)

Module SvcVipWire.
Import ServiceVips.

Definition ADV_CLUSTER_ANN : string := "kube-router.io/service.advertise.clusterip".
Definition ADV_EXTERNAL_ANN : string := "kube-router.io/service.advertise.externalip".
Definition ADV_LB_ANN : string := "kube-router.io/service.advertise.loadbalancer".
Definition SKIP_LB_ANN : string := "kube-router.io/service.skiplbips".
Definition LOCAL_ANN : string := "kube-router.io/service.local".

Definition ann_bool (anns : option (gmap string string)) (key : string) : option bool :=
  (λ v, bool_decide (v = "true")) <$> annotation anns key.

Definition has_local_endpoints (slices : list EndpointSlice) (namespace name local_node : string)
    : bool :=
  existsb (λ slice,
    slice_of slice namespace name &&
    existsb (λ ep, bool_decide (node_name ep = Some local_node) && endpoint_ready ep)
      (default [] (slice_endpoints slice))) slices.

Definition map_svc_vip (slices : list EndpointSlice) (local_node : string) (svc : K8sService)
    : option SvcVip :=
  namespace ← m_namespace (svc_meta svc);
  name ← m_name (svc_meta svc);
  spec ← svc_spec svc;
  let anns := m_annotations (svc_meta svc) in
  let local_ann := bool_decide (annotation anns LOCAL_ANN = Some "true") in
  if decide (type_ spec = Some "ExternalName") then None
  else Some {|
    sv_cluster_ips := parse_ips (raw_cluster_ips spec);
    sv_external_ips := parse_ips (default [] (external_ips spec));
    sv_lb_ips := ingress_ips svc;
    sv_internal_traffic_local := bool_decide (internal_traffic_policy spec = Some "Local");
    sv_external_traffic_local :=
      local_ann || bool_decide (external_traffic_policy spec = Some "Local");
    sv_has_local_endpoints := has_local_endpoints slices namespace name local_node;
    sv_adv_cluster := ann_bool anns ADV_CLUSTER_ANN;
    sv_adv_external := ann_bool anns ADV_EXTERNAL_ANN;
    sv_adv_lb := ann_bool anns ADV_LB_ANN;
    sv_skip_lb_ips := bool_decide (is_Some (annotation anns SKIP_LB_ANN));
  |}.

Definition map_svc_vips (services : list K8sService) (slices : list EndpointSlice)
    (local_node : string) : list SvcVip := filter_map (map_svc_vip slices local_node) services.

End SvcVipWire.

(** ** The load-balancer allocator *)

Module LbWire.

Definition map_lb_service (svc : K8sService) : option LbService :=
  namespace ← m_namespace (svc_meta svc);
  name ← m_name (svc_meta svc);
  spec ← svc_spec svc;
  let wants (f : string) := list_contains (default [] (ip_families spec)) f in
  Some {|
    lb_namespace := namespace;
    lb_name := name;
    is_loadbalancer := bool_decide (type_ spec = Some "LoadBalancer");
    loadbalancer_class := load_balancer_class spec;
    want_v4 := wants "IPv4";
    want_v6 := wants "IPv6";
    require_dual := bool_decide (ip_family_policy spec = Some "RequireDualStack");
    lb_external_ips := parse_ips (default [] (external_ips spec));
    lb_ingress_ips := ingress_ips svc;
  |}.

Definition lb_services (services : list K8sService) : list LbService :=
  filter_map map_lb_service services.

End LbWire.

(** ** Routing *)

Module RoutingWire.
Import NodeDiscovery Peers PodNet.

Definition address_kind (s : string) : NodeAddressType :=
  if decide (s = "InternalIP") then Internal
  else if decide (s = "ExternalIP") then External
  else Other.

Definition node_addresses (node : K8sNode) : list NodeAddress :=
  (λ a, {| kind := address_kind (addr_type a); address := addr_address a |})
    <$> default [] (node_status_addresses node).

(** [ips.v4.or(ips.v6)] *)
Definition node_ip (node : K8sNode) : option IpAddr :=
  let ips := select_node_ips (node_addresses node) in
  match node_v4 ips with Some ip => Some ip | None => node_v6 ips end.

Section routing.
Context `{IpNetLib} `{!Annotations.PeersYaml}.

Definition node_to_bgp (node : K8sNode) (cluster_asn : Z) : option NodeBgp :=
  name ← m_name (node_meta node);
  ip ← node_ip node;
  let bgp := Annotations.parse_node_bgp (default ∅ (m_annotations (node_meta node))) in
  Some {|
    nb_name := name;
    nb_ip := ip;
    nb_asn := default cluster_asn (Annotations.nc_asn bgp);
    nb_rr_server := Annotations.nc_rr_server bgp ≫= parse_u32;
    nb_rr_client := Annotations.nc_rr_client bgp ≫= parse_u32;
  |}.

(** [StoreNodeProvider::nodes] and [local_node] on the contents of the store. *)
Definition bgp_nodes (nodes : list K8sNode) (cluster_asn : Z) : list NodeBgp :=
  filter_map (λ n, node_to_bgp n cluster_asn) nodes.
Definition named_node (nodes : list K8sNode) (name : string) : option K8sNode :=
  find (λ n, bool_decide (m_name (node_meta n) = Some name)) nodes.
Definition local_node (nodes : list K8sNode) (cluster_asn : Z) (name : string) : option NodeBgp :=
  n ← named_node nodes name; node_to_bgp n cluster_asn.

(** The export policy of the local node; one that does not parse is empty. *)
Definition local_node_bgp_policy (nodes : list K8sNode) (name : string)
    : BgpPolicy.BgpPolicyConfig :=
  let anns := default ∅ (n ← named_node nodes name; m_annotations (node_meta n)) in
  match BgpPolicy.from_annotations (anns !! "kube-router.io/node.bgp.communities")
          (anns !! "kube-router.io/path-prepend.as")
          (anns !! "kube-router.io/path-prepend.repeat-n")
          (anns !! "kube-router.io/node.bgp.customimportreject") with
  | inr policy => policy
  | inl _ => {| BgpPolicy.bpc_communities := []; BgpPolicy.bpc_path_prepend := None;
                BgpPolicy.bpc_import_reject := [] |}
  end.

Definition node_pod_cidrs (node : K8sNode) : list IpNet :=
  match node_spec node with
  | None => []
  | Some (cidrs, cidr) =>
      filter_map net_parse
        match cidrs with
        | Some (c :: cs) => c :: cs
        | _ => option_list cidr
        end
  end.

Definition node_to_route (node : K8sNode) : option NodeRoute :=
  name ← m_name (node_meta node);
  ip ← node_ip node;
  Some {| nr_name := name; nr_ip := ip; nr_pod_cidrs := node_pod_cidrs node |}.

Definition node_routes (nodes : list K8sNode) : list NodeRoute := filter_map node_to_route nodes.
Definition local_pod_cidrs (nodes : list K8sNode) (name : string) : list IpNet :=
  default [] (node_pod_cidrs <$> named_node nodes name).
End routing.

End RoutingWire.
