(* ===== verification/ServiceTheorems.v ===== *)
(** * ServiceTheorems: from the services of the API server to the kernel

    What the loop of the proxy makes of the stores of services and endpoint slices: [ProxyWire.map_services], [make_plan], [program_ipvs] and the
    kernel's IPVS table. *)

From stdpp Require Import gmap sets list strings pretty.
From Stdlib Require Import Ascii ZArith Lia.
From S2P Require Import Prelude Text Net IpText Common Netlink Proxy ProxySync SyncFacts SyncTheorems.
From S2P Require Import PlanTheorems DrainFacts ProxyExamples SyncLoop K8s Wires.
Import ProxyWire Validation NodePortHc.

Local Open Scope Z_scope.
#[local] Arguments svc_key : simpl never.
#[local] Arguments rs_key : simpl never.

(** ** Specification *)

(** A socket of a ready endpoint of a service port, on the node when asked so. *)
Definition ready_socket (slices : list EndpointSlice) (node namespace name port_name : string)
    (local : bool) (ip : IpAddr) (port : Z) : Prop :=
  ∃ slice ep, slice ∈ slices ∧ slice_of slice namespace name = true ∧
    slice_port slice port_name = Some port ∧ ep ∈ default [] (slice_endpoints slice) ∧
    endpoint_ready ep = true ∧ (local = true → node_name ep = Some node) ∧
    ip ∈ parse_ips (addresses ep).

Section exposures.
Context `{IpNetLib} {W : Type}.
Implicit Types (cfg : SyncConfig (W := W)).

(** Exposures with one key are one exposure of one service port. *)
Definition exposures_distinct cfg (services : list (ServiceInfo * list EndpointInfo)) : Prop :=
  ∀ x y e f, x ∈ services → y ∈ services → e ∈ exposed cfg x.1 → f ∈ exposed cfg y.1 →
    exposure_key e = exposure_key f → x = y ∧ e = f.

Section planned.
Variables (cfg : SyncConfig (W := W)) (services : list (ServiceInfo * list EndpointInfo)).
Hypothesis Hdistinct : exposures_distinct cfg services.

(** The plan has exactly the entry of an exposure under its key. *)
Lemma planned_entry x e :
  x ∈ services → e ∈ exposed cfg x.1 →
  p_desired (make_plan cfg services) !! exposure_key e = entry_of x.1 x.2 e.
Proof.
  intros Hx He. destruct (entry_of x.1 x.2 e) as [[vs ds]|] eqn:Hentry.
  - destruct (entry_service _ _ _ _ _ Hentry) as [Hvs _].
    assert (is_Some (p_desired (make_plan cfg services) !! exposure_key e)) as [[vs' ds'] Hk].
    { rewrite (proj1 (make_plan_grows cfg services)). apply (insert_all_is_Some wanted_key). left.
      apply list_elem_of_fmap. exists (vs, ds). split; [unfold wanted_key; cbn; by subst vs|].
      apply list_elem_of_bind. exists x. split; [|done]. destruct x as [svc eps].
      rewrite wanted_exposed. apply list_elem_of_omap. by exists e. }
    rewrite Hk. destruct (planned_from _ _ _ _ _ Hk) as (y & f & Hy & Hf & Hf' & Heq).
    destruct (entry_service _ _ _ _ _ Hf') as [Hvs' _].
    destruct (Hdistinct x y e f Hx Hy He Hf) as [<- <-]; [unfold exposure_key at 2; congruence|]. congruence.
  - destruct (p_desired _ !! _) as [[vs' ds']|] eqn:Hk; [|done].
    destruct (planned_from _ _ _ _ _ Hk) as (y & f & Hy & Hf & Hf' & Heq).
    destruct (entry_service _ _ _ _ _ Hf') as [Hvs' _].
    destruct (Hdistinct x y e f Hx Hy He Hf) as [<- <-]; [unfold exposure_key at 2; congruence|]. congruence.
Qed.
End planned.
End exposures.

(** ** The stores *)

Lemma map_services_endpoints services slices node x :
  x ∈ map_services services slices node →
  x.2 = endpoints_for slices (si_namespace x.1) (si_name x.1) (si_port_name x.1) node.
Proof.
  intros (svc & Hx & _)%list_elem_of_bind. revert Hx. unfold map_service.
  destruct (m_namespace (svc_meta svc)) as [ns|], (m_name (svc_meta svc)) as [name|], (svc_spec svc) as [spec|];
    try (by intros ?%elem_of_nil).
  case_decide; [by intros ?%elem_of_nil|]. case_decide; [by intros ?%elem_of_nil|].
  intros (sp & Hx & _)%list_elem_of_bind. destruct (to_u16 _); [|by apply elem_of_nil in Hx].
  by apply list_elem_of_singleton in Hx as ->.
Qed.

(** The destinations of a plan are the ready sockets. *)
Lemma planned_dests svc slices node namespace name port_name local ip port :
  (∃ d, d ∈ plan_dests svc (endpoints_for slices namespace name port_name node) local ∧ rs_key d = (ip, port)) ↔
  ready_socket slices node namespace name port_name local ip port.
Proof.
  unfold plan_dests, ready_socket. setoid_rewrite list_elem_of_fmap. setoid_rewrite list_elem_of_filter.
  setoid_rewrite list_elem_of_bind. split.
  - intros (d & (e & -> & Hready & slice & Hin & Hslice) & Hkey). exists slice.
    destruct (slice_of slice namespace name); [|by apply elem_of_nil in Hin].
    destruct (slice_port slice port_name) as [p|]; [|by apply elem_of_nil in Hin].
    apply list_elem_of_bind in Hin as (ep & (a & -> & Ha)%list_elem_of_fmap & Hep).
    unfold rs_key in Hkey. cbn in Hready, Hkey. injection Hkey as -> ->.
    apply andb_true_iff in Hready as [Hr Hl]. exists ep. split_and!; try done. intros ->.
    by apply bool_decide_eq_true in Hl.
  - intros (slice & ep & Hslice & Hof & Hport & Hep & Hready & Hlocal & Ha).
    exists {| rs_addr := ip; rs_port := port; rs_weight := 1; rs_tunnel := si_dsr svc |}. split; [|reflexivity].
    exists {| ep_ip := ip; ep_port := port; ep_is_local := bool_decide (node_name ep = Some node);
              ep_ready := endpoint_ready ep |}.
    split; [done|]. split.
    + cbn. rewrite Hready. cbn [andb]. destruct local; [|done]. cbn. by apply bool_decide_eq_true, Hlocal.
    + exists slice. split; [|done]. rewrite Hof, Hport. apply list_elem_of_bind. exists ep. split; [|done].
      apply list_elem_of_fmap. by exists ip.
Qed.

Lemma dest_of_entry (m : Programmed) k vs ds b :
  m !! k = Some (vs, ds) → is_Some (dest_of m k b) ↔ ∃ d, d ∈ ds ∧ rs_key d = b.
Proof.
  intros Hk. unfold dest_of. rewrite Hk. cbn. split.
  - intros [d Hd%find_rs_key_some]. by exists d.
  - intros (d & Hd & Hb). destruct (List.find _ ds) as [d'|] eqn:Hf; [by eexists|].
    apply find_rs_key_none in Hf. destruct Hf. rewrite <-Hb. by apply list_elem_of_fmap_2.
Qed.

(** ** What the kernel gets *)

Section reach.
Context `{IpNetLib} {W : Type}.
Context `{!IpvsOps W, !NetlinkOps W, !CommandRunner W, !HttpServers W}.
Context `{!ServiceProvider W, !Clock W, !FileOps W, !MetricsOps W, !Heartbeat W}.
Implicit Types (s : SyncState (W := W * View)) (cfg : SyncConfig (W := W * View)).

(** The kernel serves the stores: the virtual services are those that the services
    expose on this node, and each has exactly the sockets of its ready endpoints,
    those of the node where its traffic is local; a node port of a service whose
    traffic is local and that has no endpoint here is left out. *)
Record serves cfg (services : list K8sService) (slices : list EndpointSlice) (node : string)
    (v : View) : Prop := {
  sv_exposed svc e :
    svc ∈ (map_services services slices node).*1 → e ∈ exposed cfg svc →
    let ready := ready_socket slices node (si_namespace svc) (si_name svc) (si_port_name svc) (ex_local e) in
    (∀ ip port, is_Some (v_dests v !! (exposure_key e, (ip, port))) ↔ ready ip port) ∧
    (∀ b d, v_dests v !! (exposure_key e, b) = Some d → rs_weight d = 1 ∧ rs_tunnel d = si_dsr svc) ∧
    (v_services v !! exposure_key e = Some (ex_service e) ∨
     ex_optional e = true ∧ ex_local e = true ∧ ∀ ip port, ¬ ready ip port);
  sv_only k vs :
    v_services v !! k = Some vs →
    ∃ svc e, svc ∈ (map_services services slices node).*1 ∧ e ∈ exposed cfg svc ∧
             k = exposure_key e ∧ vs = ex_service e;
}.

Lemma shows_serves cfg services slices node v :
  let entries := map_services services slices node in
  exposures_distinct cfg entries → shows (p_desired (make_plan cfg entries)) v →
  serves cfg services slices node v.
Proof.
  intros entries Hdistinct [Hservices Hdests]. set (desired := p_desired (make_plan cfg entries)) in *. split.
  - intros svc e ([svc' eps] & -> & Hx)%list_elem_of_fmap He ready. cbn [fst] in *.
    pose proof (map_services_endpoints _ _ _ _ Hx) as Heps. cbn [fst snd] in Heps. subst eps.
    pose proof (planned_entry cfg entries Hdistinct _ e Hx He) as Hentry. fold desired in Hentry. cbn [fst snd] in Hentry.
    unfold entry_of in Hentry.
    set (dests := plan_dests svc' _ (ex_local e)) in Hentry.
    assert (∀ ip port, ready ip port ↔ ∃ d, d ∈ dests ∧ rs_key d = (ip, port)) as Hready
      by (intros; symmetry; apply planned_dests).
    destruct (ex_optional e && ex_local e && bool_decide (dests = [])) eqn:Hskip.
    + apply andb_true_iff in Hskip as [[Ho Hl]%andb_true_iff Hnone%bool_decide_eq_true].
      assert (∀ ip port, ¬ ready ip port) as Hnot.
      { intros ip port (d & Hd & _)%Hready. rewrite Hnone in Hd. by apply elem_of_nil in Hd. }
      assert (∀ b, v_dests v !! (exposure_key e, b) = None) as Hempty
        by (intros b; rewrite Hdests; unfold dest_of; by rewrite Hentry).
      split_and!; [|intros b d; by rewrite Hempty|by right]. intros ip port. rewrite Hempty.
      split; [by intros [? ?]|]. intros Hr. by destruct (Hnot ip port).
    + split_and!.
      * intros ip port. rewrite Hdests, Hready. by eapply dest_of_entry.
      * intros b d. rewrite Hdests. intros Hd. pose proof Hd as Hd'. unfold dest_of in Hd'. rewrite Hentry in Hd'.
        cbn in Hd'. apply find_rs_key_some in Hd' as [Hin _].
        by apply list_elem_of_fmap in Hin as (ep & -> & _).
      * left. rewrite Hservices. unfold svc_of. by rewrite Hentry.
  - intros k vs Hk. rewrite Hservices in Hk. unfold svc_of in Hk.
    destruct (desired !! k) as [[vs' ds]|] eqn:Hd; [|done]. injection Hk as ->.
    destruct (planned_from cfg entries _ _ _ Hd) as (x & e & Hx & He & Hentry & ->).
    destruct (entry_service _ _ _ _ _ Hentry) as [-> _].
    exists x.1, e. split_and!; [by apply list_elem_of_fmap_2|done..].
Qed.

(** The whole loop: an agent that starts with nothing recorded, on an empty IPVS
    table and stores that keep their contents, serves them from its first
    successful pass on, through all later passes, failed ones included. *)
Lemma services_served cfg services slices node wakes s :
  let entries := map_services services slices node in
  quiet_handlers cfg → (∀ w : W, provider_services w = entries) →
  exposures_distinct cfg entries →
  gqueue s = [] → applied s = ∅ → shows ∅ (kernel s) →
  (∃ before wake after, wakes = before ++ wake :: after ∧ passes cfg (sync_run cfg before s) wake) →
  serves cfg services slices node (kernel (sync_run cfg wakes s)).
Proof.
  intros entries Hquiet Hstore Hdistinct Hq Ha Hshows Hpass.
  destruct (run_outcome cfg entries Hquiet Hstore ∅ wakes s) as (_ & Hdone & _).
  - exact Ha.
  - exact Hq.
  - by intros ???.
  - by apply shows_between.
  - intros wake _ _ k b o d. done.
  - apply shows_serves; [done|]. destruct (Hdone Hpass) as [_ Hs]. eapply settled_shows; [|exact Hs]. by right.
Qed.
End reach.
