(* ===== verification/Main.v ===== *)
(** * Main: the process ([crates/kube-router-rs/src/main.rs])

    What the process builds from its configuration and the contents of the
    informer stores: the pools of the allocator, the inputs of the firewall and of
    the service proxy, the peers of the routing controller
    ([routing_wire.rs]); the sysctls it sets; and the loops that [main.rs] itself
    runs, as functions of what wakes them.  Signals, tasks and the construction of
    clients are not modelled. *)

From stdpp Require Import gmap sets list strings pretty.
From Stdlib Require Import Ascii ZArith Lia.
From S2P Require Import Prelude Text Net Common K8s LbAlloc Netlink Bgp Routing Proxy ProxySync.
From S2P Require Import Netpol Synth Agent Genetlink Grpc Cni Wires.
Import Config.

Local Open Scope Z_scope.

(** ** From the flags *)

Section flags.
Context `{IpNetLib}.

(** [cidr.parse().ok()], without trimming *)
Definition parse_nets (v : list string) : list IpNet := filter_map net_parse v.

(** [run_loadbalancer]: the ranges split by family. *)
Definition lb_ranges (config : KubeRouterConfig) : list IpNet * list IpNet :=
  let nets := parse_nets (loadbalancer_ip_range config) in
  (filter (λ n, of_net n = FamV4) nets, filter (λ n, of_net n = FamV6) nets).

Definition validation_ranges (config : KubeRouterConfig) : ValidationRanges :=
  {| vr_external := parse_nets (service_external_ip_range config);
     vr_loadbalancer := parse_nets (loadbalancer_ip_range config);
     vr_cluster := parse_nets (service_cluster_ip_range config);
     vr_strict := strict_external_ip_validation config |}.

(** One handler for each enabled family. *)
Definition per_family {A} (config : KubeRouterConfig) (f : IpFamily → A) : list (IpFamily * A) :=
  (if enable_ipv4 config then [(FamV4, f FamV4)] else []) ++
  (if enable_ipv6 config then [(FamV6, f FamV6)] else []).
Definition by_v6 {A} (l : list (IpFamily * A)) : list (bool * A) := prod_map is_v6 id <$> l.

Definition masquerade_cfg (config : KubeRouterConfig) (primary_ip : option IpAddr)
    (pod_cidrs : list IpNet) : MasqueradeCfg :=
  {| mq_all := masquerade_all config; mq_random_fully := true;
     mq_primary := match primary_ip with Some ip => [(is_ipv6 ip, ip)] | None => [] end;
     mq_pod_cidrs := net_to_string <$> pod_cidrs |}.

(** [run_serviceproxy]: the synchroniser, with what its builders set, and its state. *)
Definition service_sync_config {W} `{!CommandRunner W} (config : KubeRouterConfig)
    (primary_ip : option IpAddr) (node_ips : list IpAddr) (pod_cidrs : list IpNet)
    : SyncConfig (W := W) :=
  let sync := config_new (validation_ranges config) in
  let sync := with_node_ips node_ips sync in
  let sync := with_graceful (ipvs_graceful_termination config) (ipvs_graceful_period config) sync in
  let sync := with_metrics sync in
  let sync := with_node_port_range (parse_port_range (service_node_port_range config)) sync in
  let sync := with_hairpin (hairpin_mode config) (by_v6 (per_family config Hairpin.system_nat)) sync in
  let sync := with_masquerade (masquerade_cfg config primary_ip pod_cidrs) sync in
  let sync := with_dsr (by_v6 (per_family config TcpMss.system_mangle)) 1500 sync in
  with_firewall (ipvs_permit_all config) (by_v6 (per_family config Firewall.system_fw_iptables))
    Firewall.system_fw_ipset sync.
Definition service_sync_state {W} (w : W) : SyncState (W := W) :=
  with_nodeport_healthchecks NodePortHc.nphc_new (state_new w).

(** [--nodeport-bindon-all-ip] *)
Definition proxy_node_ips {W} `{!CommandRunner W} (config : KubeRouterConfig)
    (primary_ip : option IpAddr) (w : W) : list IpAddr * W :=
  if nodeport_bindon_all_ip config then LocalIps.all_local_ips w
  else (option_list primary_ip, w).

(** [run_firewall] *)
Definition firewall_controller {W} `{!CommandRunner W} (config : KubeRouterConfig)
    (node : string) (pod_cidrs : list IpNet) : PolicyController.FirewallController (W := W) :=
  PolicyController.controller_new (per_family config Iptables.system_iptables) node
    (netpol_default_deny config) pod_cidrs (parse_nets (service_cluster_ip_range config))
    (Names.validate_node_port_range (service_node_port_range config)).
End flags.

(** ** The routing controller ([build_controller], [build_engine]) *)

Section routing.
Context `{IpNetLib} `{!Annotations.PeersYaml} `{!ExternalPeers.PeerEntriesYaml}.
Import Routes ExternalPeers.

Definition graceful_restart_of (config : KubeRouterConfig) : option GracefulRestart :=
  if bgp_graceful_restart config
  then Some {| restart_time_secs := (bgp_graceful_restart_time config `div` 1000) `mod` 2 ^ 32;
               deferral_time_secs :=
                 (bgp_graceful_restart_deferral_time config `div` 1000) `mod` 2 ^ 32 |}
  else None.

Definition controller_config (config : KubeRouterConfig) (local : Peers.NodeBgp)
    : RoutesControllerConfig :=
  {| rc_local := local; rc_full_mesh := nodes_full_mesh config;
     rc_enable_ibgp := enable_ibgp config;
     rc_graceful_restart := graceful_restart_of config |}.

(** The peers of the [--peer-router-*] flags, then those of the annotation; a
    source with an error contributes none. *)
Definition configured_external_peers (config : KubeRouterConfig) (local_ip : IpAddr)
    (peers_annotation : option string) : list PeerConfig :=
  let ttl := if 0 <? peer_router_multihop_ttl config
             then Some (peer_router_multihop_ttl config) else None in
  let gr := graceful_restart_of config in
  let ports := filter_map try_u16 (peer_router_ports config) in
  match zip_peers (peer_router_ips config) (peer_router_asns config) ports
          (peer_router_passwords config) ttl (Some local_ip) gr with
  | inr p => p
  | inl _ => []
  end ++
  match peers_annotation with
  | Some yaml => match parse_peers_annotation yaml ttl gr with inr p => p | inl _ => [] end
  | None => []
  end.

(** [build_controller] on the contents of the node store. *)
Definition build_controller (config : KubeRouterConfig) (nodes : list K8sNode) (local_name : string)
    : option (RoutesControllerConfig * list PeerConfig) :=
  local ← RoutingWire.local_node nodes (cluster_asn config) local_name;
  Some (controller_config config local,
        configured_external_peers config (Peers.nb_ip local)
          (n ← RoutingWire.named_node nodes local_name;
           annotation (m_annotations (node_meta n)) "kube-router.io/peers")).

(** What [build_engine] starts gobgp with. *)
Definition engine_global (config : KubeRouterConfig) (local_ip : option IpAddr) : GlobalConfig :=
  {| gc_asn := cluster_asn config;
     gc_router_id := ip ← local_ip; (if is_ipv4 ip then Some (ip_to_string ip) else None);
     gc_listen_port := bgp_port config;
     gc_listen_addresses := option_list local_ip |}.

Definition advertise_defaults (config : KubeRouterConfig) : ServiceVips.AdvertiseDefaults :=
  {| ServiceVips.ad_cluster := advertise_cluster_ip config;
     ServiceVips.ad_external := advertise_external_ip config;
     ServiceVips.ad_loadbalancer := advertise_loadbalancer_ip config |}.
End routing.

(** ** The BGP engine *)

(** In-image path to the bundled gobgpd binary. *)
Definition GOBGPD_PATH : string := "/usr/local/bin/gobgpd".

Inductive SelectedEngine := LoggingSelected | GobgpSelected.

Section engine.
Context `{IpNetLib} {W : Type}.
Context `{!Gobgp.GoBgpServiceClient W, !Gobgp.Endpoints, !Server.ProcessOps W, !Cni.DirOps W}.
Import Gobgp Server.

Definition selected_engine (e : SelectedEngine) : BgpEngine W :=
  match e with LoggingSelected => logging_engine W | GobgpSelected => grpc_engine end.

Definition admin_addr (config : KubeRouterConfig) : string :=
  if str_is_empty (gobgp_admin_address config) then "127.0.0.1" else gobgp_admin_address config.

(** Probes of the admin port within ten seconds, every 20 milliseconds. *)
Definition PORT_PROBES : nat := 502.

Definition logging_result (w : W) : option ((SelectedEngine * option GobgpSupervisor) * W) :=
  Some ((LoggingSelected, None), w).

Definition build_engine (config : KubeRouterConfig) (local_ip : option IpAddr) (w : W)
    : option ((SelectedEngine * option GobgpSupervisor) * W) :=
  if (gobgp_admin_port config =? 0) || negb (Cni.path_exists GOBGPD_PATH w) then logging_result w
  else
    let addr := admin_addr config in
    let port := gobgp_admin_port config in
    match spawn (supervisor_gobgpd GOBGPD_PATH addr port, w) with
    | (inl _, (_, w)) => logging_result w
    | (inr _, (supervisor, w)) =>
        match wait_port_ready PORT_PROBES (addr +:+ ":" +:+ pretty port) 10000 w with
        | None => None
        | Some (false, w) => logging_result w
        | Some (true, w) =>
            match connect_lazy addr port with
            | inl _ => logging_result w
            | inr _ =>
                match bgp_start (BgpEngine := grpc_engine) (engine_global config local_ip) w with
                | (inl _, w) => logging_result w
                | (inr _, w) => Some ((GobgpSelected, Some supervisor), w)
                end
            end
        end
    end.
End engine.

(** [--hostname-override], or else [$NODE_NAME], or else [$HOSTNAME] *)
Definition resolve_node_name (env : string → option string) (hostname_override : string)
    : option string :=
  if negb (str_is_empty hostname_override) then Some hostname_override
  else match env "NODE_NAME" with Some n => Some n | None => env "HOSTNAME" end.

(** ** Loops *)

Section inject.
Context `{IpNetLib} {W : Type} `{!NetlinkOps W}.
Import Inject.

(** What wakes [receive_side_inject]: a best-path event or the timer. *)
Inductive InjectWake := PathWake (ev : Gobgp.PathEvent) | InjectTick.

Definition best_path (ev : Gobgp.PathEvent) : BestPath :=
  {| bp_prefix := Gobgp.ev_prefix ev; bp_next_hop := Gobgp.ev_next_hop ev;
     bp_withdrawal := Gobgp.ev_withdrawal ev |}.

Definition injector_config (import_reject : list IpNet) : InjectorConfig :=
  {| ic_local_subnets := []; ic_overlay := Overlay.OverlaySubnet; ic_table := 254;
     ic_import_reject := import_reject |}.

(** One turn: the state of the injector, and whether the health is beaten. *)
Definition inject_wake (cfg : InjectorConfig) (local_ip : option IpAddr) (wake : InjectWake)
    (s : gmap IpNet InjectedRoute * W) : (gmap IpNet InjectedRoute * W) * bool :=
  match wake with
  | PathWake ev =>
      if decide (local_ip = Some (Gobgp.ev_next_hop ev)) then (s, false)
      else ((on_event cfg (best_path ev) s).2, true)
  | InjectTick => ((injector_sync s).2, true)
  end.

Definition receive_side_inject (import_reject : list IpNet) (local_ip : option IpAddr)
    (wakes : list InjectWake) (w : W) : gmap IpNet InjectedRoute * W :=
  foldl (λ s wake, (inject_wake (injector_config import_reject) local_ip wake s).1) (∅, w) wakes.
End inject.

(** [std::fs::read_to_string] *)
Class FileReader (W : Type) := { fs_read : string → M W string string }.

Section sysctls.
Context {W : Type} `{!FileOps W, !FileReader W, !CommandRunner W, !NetlinkSockets W, !Endian}.

(** [kr_common::sysctl::read] *)
Definition sysctl_read (key : string) : M W string string :=
  trim <$> fs_read (Sysctl.key_to_path key).

(** [if let Err(e) = sysctl::write(..) { warn }] *)
Definition try_sysctl (kv : string * string) (w : W) : W := (sysctl_write kv.1 kv.2 w).2.

Definition ensure_rp_filter_loose (iface : string) (w : W) : W :=
  let key := "net.ipv4.conf." +:+ iface +:+ ".rp_filter" in
  match sysctl_read key w with
  | (inr v, w) => if decide (v = "1") then try_sysctl (key, "2") w else w
  | (inl _, w) => w
  end.

Definition ipvs_sysctls : list (string * string) :=
  [("net.ipv4.vs.conntrack", "1"); ("net.ipv4.vs.expire_nodest_conn", "1");
   ("net.ipv4.vs.expire_quiescent_template", "1"); ("net.ipv4.vs.conn_reuse_mode", "0");
   ("net.ipv4.conf.all.arp_ignore", "1"); ("net.ipv4.conf.all.arp_announce", "2")].

(** Opening the socket loads the module; a socket that opens is dropped. *)
Definition setup_ipvs_sysctls (primary_ip : option IpAddr) (w : W) : W :=
  let w := match genl_open w with (inr g, w) => nl_close (fd g) w | (inl _, w) => w end in
  let w := foldl (λ w kv, try_sysctl kv w) w ipvs_sysctls in
  let w := (sysctl_read "net.ipv4.vs.conntrack" w).2 in
  let w := foldl (λ w iface, ensure_rp_filter_loose iface w) w ["all"; "kube-bridge"; DUMMY_IF] in
  match primary_ip with
  | Some ip =>
      if is_ipv4 ip then
        match LocalIps.iface_for_ip ip w with
        | (Some iface, w) => ensure_rp_filter_loose iface w
        | (None, w) => w
        end
      else w
  | None => w
  end.
End sysctls.

(** ** Start of the routing controller *)

Definition BUNDLED_CNI_DIR : string := "/opt/cni-bundled".

Section setup.
Context `{IpNetLib} `{!JsonText} {W : Type}.
Context `{!FileOps W, !Cni.DirOps W, !CommandRunner W}.

(** The sysctls are best effort; an error of the CNI files ends the setup. *)
Definition setup_cni (local_pod_cidrs : list IpNet) (cni ipv6 : bool) : M W string unit :=
  mwhen cni
    (Cni.install_plugins BUNDLED_CNI_DIR Cni.DEFAULT_BIN_DIR Cni.REQUIRED_PLUGINS;;
     Cni.write_conflist Cni.DEFAULT_CONF_PATH local_pod_cidrs);;
  mmodify (try_sysctl ("net.ipv4.ip_forward", "1"));;
  mwhen ipv6
    (mmodify (try_sysctl ("net.ipv6.conf.all.disable_ipv6", "0"));;
     mmodify (try_sysctl ("net.ipv6.conf.all.forwarding", "1")));;
  mmodify (λ w, (run_command "modprobe" ["br_netfilter"] None w).2);;
  mmodify (try_sysctl ("net.bridge.bridge-nf-call-iptables", "1"));;
  mwhen ipv6 (mmodify (try_sysctl ("net.bridge.bridge-nf-call-ip6tables", "1"))).

(** What [run_routing] runs after its start. *)
Record RoutingTasks := {
  rt_engine : SelectedEngine;
  rt_supervisor : option Server.GobgpSupervisor;
  rt_inject : option (list IpNet * option IpAddr);
  rt_vips : option (ServiceVips.AdvertiseDefaults * IpAddr * Advertise.Attributes);
  rt_podnet : bool;
  rt_controller : option (Routes.RoutesControllerConfig * list PeerConfig);
}.

Context `{!Annotations.PeersYaml} `{!ExternalPeers.PeerEntriesYaml}.
Context `{!Gobgp.GoBgpServiceClient W, !Gobgp.Endpoints, !Server.ProcessOps W}.

Definition advertises_vips (config : KubeRouterConfig) : bool :=
  advertise_cluster_ip config || advertise_external_ip config || advertise_loadbalancer_ip config.

(** [run_routing] on the contents of the node store, up to the tasks it spawns:
    the addresses of the pods are announced once. *)
Definition start_routing (config : KubeRouterConfig) (nodes : list K8sNode) (name : string) (w : W)
    : option (RoutingTasks * W) :=
  let policy := RoutingWire.local_node_bgp_policy nodes name in
  let local_cidrs := RoutingWire.local_pod_cidrs nodes name in
  let w := (setup_cni local_cidrs (enable_cni config) (enable_ipv6 config) w).2 in
  let local_ip := Peers.nb_ip <$> RoutingWire.local_node nodes (cluster_asn config) name in
  '((engine, supervisor), w) ← build_engine config local_ip w;
  let w := match local_ip with
           | Some nh =>
               (Advertise.advertiser_sync (BgpEngine0 := selected_engine engine)
                  {| Advertise.adv_communities := []; Advertise.adv_as_prepend := None |}
                  local_cidrs nh (advertise_pod_cidr config) (∅, w)).2.2
           | None => w
           end in
  let gobgp := match engine with GobgpSelected => true | LoggingSelected => false end in
  Some ({| rt_engine := engine;
           rt_supervisor := supervisor;
           rt_inject := if gobgp then Some (BgpPolicy.bpc_import_reject policy, local_ip) else None;
           rt_vips := match local_ip with
                      | Some nh =>
                          if gobgp && advertises_vips config then
                            Some (advertise_defaults config, nh,
                                  {| Advertise.adv_communities := BgpPolicy.bpc_communities policy;
                                     Advertise.adv_as_prepend := BgpPolicy.bpc_path_prepend policy |})
                          else None
                      | None => None
                      end;
           rt_podnet := negb gobgp;
           rt_controller := build_controller config nodes name |}, w).
End setup.

(** ** Announcing service addresses *)

Section vips.
Context `{IpNetLib} {W : Type} `{!BgpEngine W}.

(** One tick of [advertise_service_vips_task] on the contents of the stores; [None]
    is a panic. *)
Definition vip_tick (attrs : Advertise.Attributes) (defaults : ServiceVips.AdvertiseDefaults)
    (next_hop : IpAddr) (node_name : string) (stores : list K8sService * list EndpointSlice)
    (s : gset IpNet * W) : option (gset IpNet * W) :=
  vips ← ServiceVips.advertised_service_vips
           (SvcVipWire.map_svc_vips stores.1 stores.2 node_name) defaults;
  Some (Advertise.advertiser_sync attrs (bset_iter vips) next_hop true s).2.
End vips.

(** ** The allocator of load-balancer addresses *)

Section loadbalancer.
Context `{IpNetLib} {W : Type} `{!Controller.StatusUpdater W, !Election.LeaseBackend W}.
Import Pools Controller Election.

(** What wakes [run_loadbalancer]: the tick of the election, or the tick of the
    sync with the services of the store. *)
Inductive LbWake := ElectionTick | LbSyncTick (services : list LbService).

Record LbAgent := {
  lba_leader : bool;
  lba_v4 : IpRanges;
  lba_v6 : IpRanges;
  lba_world : W;
}.

Definition lb_start (config : KubeRouterConfig) (w : W) : LbAgent :=
  let '(v4, v6) := lb_ranges config in
  {| lba_leader := false; lba_v4 := new v4; lba_v6 := new v6; lba_world := w |}.

(** One turn of the loop; [None] when the task panics. *)
Definition lb_wake (config : KubeRouterConfig) (s : LbAgent) (wake : LbWake) : option LbAgent :=
  match wake with
  | ElectionTick =>
      let '(_, leader, w) := tick (lba_leader s) (lba_world s) in
      Some {| lba_leader := leader; lba_v4 := lba_v4 s; lba_v6 := lba_v6 s; lba_world := w |}
  | LbSyncTick services =>
      if lba_leader s then
        match reconcile (loadbalancer_default_class config) services (lba_v4 s) (lba_v6 s)
                (lba_world s) with
        | (inl Panic, _) => None
        | (_, pass) =>
            Some {| lba_leader := lba_leader s; lba_v4 := v4_ranges pass; lba_v6 := v6_ranges pass;
                    lba_world := world pass |}
        end
      else Some s
  end.

Definition run_loadbalancer_loop (config : KubeRouterConfig) (wakes : list LbWake) (w : W)
    : option LbAgent :=
  foldl (λ s wake, s ≫= λ s, lb_wake config s wake) (Some (lb_start config w)) wakes.
End loadbalancer.
#[global] Arguments LbAgent {_} _.
