(* ===== verification/ProxyProcess.v ===== *)
(** * ProxyProcess: the service proxy as the process builds it

    The synchroniser of [run_serviceproxy], with the handlers of the system and the
    provider that reads the stores: what the loop achieves from the flags and the
    stores on. *)

From stdpp Require Import gmap sets list strings pretty.
From Stdlib Require Import Ascii ZArith Lia.
From S2P Require Import Prelude Text Net IpText Common Netlink Proxy ProxySync SyncFacts SyncTheorems.
From S2P Require Import PlanTheorems DrainFacts ProxyExamples SyncLoop K8s Agent Wires ServiceTheorems Main.
Import Config Graceful Hairpin TcpMss Firewall NodePortHc ProxyWire.

Local Open Scope Z_scope.
#[local] Arguments svc_key : simpl never.

(** ** The handlers of the system *)

Section handlers.
Context `{IpNetLib} {W : Type} `{!CommandRunner W}.

Lemma leaves_run_base {E} (mk_err : string → E) base full :
  leaves (snd : W * View → View) (run_base mk_err base full).
Proof.
  intros w. unfold run_base. cbn. by destruct (run_command base full None w.1) as [[e|[[ok out] err]] w'].
Qed.

Lemma leaves_fmap {S G E A B} (part : S → G) (f : A → B) (m : M S E A) : leaves part m → leaves part (f <$> m).
Proof. intros Hm s. specialize (Hm s). unfold fmap, M_fmap. by destruct (m s) as [[e|a] s']. Qed.

Lemma leaves_check_or_add {S G E} (part : S → G) (run : list string → M S E bool) (fail : E) check add :
  (∀ args, leaves part (run args)) → leaves part (check_or_add run fail check add).
Proof.
  intros Hrun. unfold check_or_add. apply leaves_bind; [apply Hrun|]. intros [|]; [apply leaves_ret|].
  apply leaves_bind; [apply Hrun|]. intros [|]; [apply leaves_ret|apply leaves_fail].
Qed.

Lemma in_by_v6 {A} config (f : IpFamily → A) h :
  h ∈ by_v6 (per_family config f) → ∃ family, h.2 = f family.
Proof.
  unfold by_v6, per_family. intros ([family x] & -> & Hin)%list_elem_of_fmap. exists family.
  apply elem_of_app in Hin as [Hin|Hin].
  - destruct (enable_ipv4 config); [|by apply elem_of_nil in Hin].
    by apply list_elem_of_singleton in Hin as [= -> ->].
  - destruct (enable_ipv6 config); [|by apply elem_of_nil in Hin].
    by apply list_elem_of_singleton in Hin as [= -> ->].
Qed.

(** iptables and ipset, run as commands, do not touch the IPVS table. *)
Lemma system_handlers_quiet config primary_ip node_ips pod_cidrs :
  quiet_handlers (service_sync_config (W := W * View) config primary_ip node_ips pod_cidrs).
Proof.
  split.
  - intros h (family & ->)%in_by_v6. split_and!; intros; cbn;
      first [apply leaves_check_or_add; intros; apply leaves_run_base|apply leaves_fmap, leaves_run_base].
  - intros h (family & ->)%in_by_v6 c r. cbn. apply leaves_bind; [apply leaves_run_base|].
    intros [|]; [apply leaves_ret|]. apply leaves_bind; [apply leaves_run_base|].
    intros [|]; [apply leaves_ret|apply leaves_fail].
  - intros h (family & ->)%in_by_v6. split_and!; intros; cbn;
      first [apply leaves_check_or_add; intros; apply leaves_run_base|apply leaves_fmap, leaves_run_base|idtac].
    apply leaves_bind; [apply leaves_run_base|intros _]. apply leaves_bind; [apply leaves_run_base|].
    intros [|]; [apply leaves_ret|apply leaves_fail].
  - intros ops [= <-] payload w. cbn.
    by destruct (run_command "ipset" ["restore"; "-exist"] (Some payload) w.1) as [[e|[[[|] out] err]] w'].
Qed.
End handlers.

(** ** From the flags and the stores to the kernel *)

Section process.
Context `{IpNetLib} {W : Type}.
Context `{!IpvsOps W, !NetlinkOps W, !CommandRunner W, !HttpServers W}.
Context `{!Clock W, !FileOps W, !MetricsOps W, !Heartbeat W, !ServiceStores W}.

End process.

(** ** A concrete store *)

Module Store.
Local Existing Instance ref_net_lib.
Local Existing Instances ok_ipvs ok_netlink ok_commands ok_http ok_clock ok_files ok_metrics ok_heartbeat.

Definition meta_of (name : string) (labels : gmap string string) : ObjectMeta :=
  {| m_namespace := Some "default"; m_name := Some name; m_labels := Some labels; m_annotations := None |}.
Definition web_port : ServicePort :=
  {| svp_name := None; svp_protocol := None; svp_port := 80; svp_node_port := None |}.
Definition web_spec : ServiceSpec :=
  {| type_ := Some "ClusterIP"; cluster_ip := Some "10.96.0.10"; cluster_ips := None;
     external_ips := None; service_ports := Some [web_port]; session_affinity := None;
     client_ip_timeout_seconds := None; internal_traffic_policy := None;
     external_traffic_policy := None; health_check_node_port := None; ip_families := None;
     ip_family_policy := None; load_balancer_class := None |}.
Definition web_service : K8sService :=
  {| svc_meta := meta_of "web" ∅; svc_spec := Some web_spec; svc_ingress := None |}.
Definition endpoint (address : string) (ready : bool) : Endpoint :=
  {| addresses := [address]; node_name := Some "node2"; cond_ready := Some ready |}.
Definition slice (name : string) (endpoints : list Endpoint) : EndpointSlice :=
  {| slice_meta := meta_of name {[SERVICE_NAME_LABEL := "web"]}; slice_endpoints := Some endpoints;
     slice_ports := Some [{| epp_name := None; epp_port := Some 8080 |}] |}.

(** One endpoint is ready, the other is not. *)
Definition web_slice : EndpointSlice := slice "web-1" [endpoint "10.244.1.5" true; endpoint "10.244.1.6" false].
Definition entries : list (ServiceInfo * list EndpointInfo) := map_services [web_service] [web_slice] "node1".

(** The agent with its default flags. *)
Definition cfg : SyncConfig (W := unit * View) := service_sync_config default_config None [] [].
Definition web_info : ServiceInfo := service_info web_service web_spec "default" "web" web_port 80.
Definition web_exposure : Exposure := expose web_info false false 80 (V4 174063626).

Lemma entries_are : entries = [(web_info, [
  {| ep_ip := V4 183763205; ep_port := 8080; ep_is_local := false; ep_ready := true |};
  {| ep_ip := V4 183763206; ep_port := 8080; ep_is_local := false; ep_ready := false |}])].
Proof. vm_compute. reflexivity. Qed.
Lemma exposed_are : exposed cfg web_info = [web_exposure].
Proof. vm_compute. reflexivity. Qed.

Lemma entries_distinct : exposures_distinct cfg entries.
Proof.
  intros x y e f Hx Hy He Hf _. rewrite entries_are in Hx, Hy.
  apply list_elem_of_singleton in Hx as ->, Hy as ->. cbn [fst] in He, Hf.
  rewrite exposed_are in He, Hf. by apply list_elem_of_singleton in He as ->, Hf as ->.
Qed.

(** A kernel that serves this store has the service and the ready endpoint. *)
Definition web_served (v : View) : Prop :=
  v_services v !! exposure_key web_exposure = Some (ex_service web_exposure) ∧
  is_Some (v_dests v !! (exposure_key web_exposure, (V4 183763205, 8080))).

Lemma serves_web v : serves cfg [web_service] [web_slice] "node1" v → web_served v.
Proof.
  intros [Hexposed _]. destruct (Hexposed web_info web_exposure) as (Hdests & _ & Hservice).
  - change (web_info ∈ entries.*1). rewrite entries_are. by left.
  - rewrite exposed_are. by left.
  - split; [destruct Hservice as [Hs|[Ho _]]; [exact Hs|done]|].
    apply Hdests. exists web_slice, (endpoint "10.244.1.5" true).
    split_and!; [by left|reflexivity|reflexivity|by left|reflexivity|done|vm_compute; by left].
Qed.

#[local] Instance store : ServiceStores unit := {|
  service_store _ := [web_service]; slice_store _ := [web_slice] |}.


(** A service of both families: the IPv6 endpoint is a destination of the IPv4
    address. *)
Example mixed_families_planned :
  let entries := map_services [web_service] [web_slice; slice "web-2" [endpoint "fd00::5" true]] "node1" in
  (λ d, is_ipv6 (rs_addr d)) <$>
    (default [] (snd <$> p_desired (make_plan cfg entries) !! exposure_key web_exposure)) =
  [false; true].
Proof. vm_compute. reflexivity. Qed.
End Store.
