(* ===== verification/WireTheorems.v ===== *)
(** * WireTheorems: what reaches the controllers

    Properties of the projections of [Wires]: they meet what the theorems about
    the controllers assume, and where objects that the API accepts come out as
    something else. *)

From stdpp Require Import gmap sets list strings pretty.
From Stdlib Require Import Ascii ZArith Lia.
From S2P Require Import Prelude Text Net Common K8s LbAlloc Netlink Bgp Routing Proxy ProxySync.
From S2P Require Import PlanTheorems Netpol Synth Filter FilterFacts SynthFacts PolicySpec Agent Wires Main.

Local Open Scope Z_scope.

(** ** Parsed addresses are well-formed *)

Lemma be_value_range base l :
  0 < base → Forall (λ d, 0 ≤ d < base) l → 0 ≤ be_value base l < base ^ Z.of_nat (length l).
Proof.
  intros Hb Hl. unfold be_value. rewrite <- length_reverse. apply le_value_range; [done|].
  by apply Forall_reverse.
Qed.

Lemma radix_val_range radix c d : radix_val radix c = Some d → 0 ≤ d < radix.
Proof.
  unfold radix_val, hex_val. intros Hd.
  repeat (case_match; simplify_eq); lia.
Qed.

Lemma span_digits_range radix s : Forall (λ d, 0 ≤ d < radix) (span_digits radix s).1.
Proof.
  induction s as [|c s IH]; cbn; [constructor|].
  destruct (radix_val radix c) as [d|] eqn:Hd; [|constructor].
  destruct (span_digits radix s) as [ds rest]. cbn in *. constructor; [|done].
  by eapply radix_val_range.
Qed.

Lemma read_number_range radix max n z s v rest :
  0 < radix → read_number radix max n z s = Some (v, rest) → 0 ≤ v ≤ max.
Proof.
  intros Hr. unfold read_number. pose proof (span_digits_range radix s) as Hd.
  destruct (span_digits radix s) as [ds rest']. cbn in Hd.
  pose proof (be_value_range radix ds Hr Hd) as Hv.
  destruct ds as [|d ds]; [done|].
  destruct (Z.leb_spec (be_value radix (d :: ds)) max); [|by rewrite andb_false_r].
  case_match; [|done]. intros [= <- _]. lia.
Qed.

Lemma read_ipv4_range s v rest : read_ipv4 s = Some (v, rest) → 0 ≤ v < 2 ^ 32.
Proof.
  unfold read_ipv4, read_octet. intros Hr.
  repeat match type of Hr with
  | mbind _ ?m = Some _ =>
      let x := fresh "x" in destruct m as [x|] eqn:?; [|done]; cbn [mbind option_bind] in Hr
  | (let '(_, _) := ?x in _) = _ => destruct x
  | Some _ = Some _ => injection Hr as <- <-
  end.
  apply (be_value_range 256 [_; _; _; _]); [done|].
  pose proof (λ r s v t, read_number_range 10 255 3 r s v t ltac:(done)) as Hn.
  apply Forall_cons; split; [apply Hn in Heqo; lia|].
  apply Forall_cons; split; [apply Hn in Heqo1; lia|].
  apply Forall_cons; split; [apply Hn in Heqo3; lia|].
  apply Forall_singleton. apply Hn in Heqo5. lia.
Qed.

Lemma read_sep_some {A} i (inner : string → option (A * string)) s x :
  read_sep i inner s = Some x → ∃ s', inner s' = Some x.
Proof.
  destruct i; cbn; [by exists s|]. destruct (read_char ":" s) as [s'|]; [|done]. by exists s'.
Qed.

Lemma read_groups_range n i s :
  let '(gs, _, _) := read_groups n i s in
  Forall (λ g, 0 ≤ g < 65536) gs ∧ (length gs ≤ n)%nat.
Proof.
  revert i s. induction n as [|n IH]; intros i s; cbn [read_groups]; [split; [constructor|done]|].
  destruct (if (1 <? S n)%nat then read_sep i read_ipv4 s else None) as [[v4 s']|] eqn:H4.
  - destruct (Nat.ltb_spec 1 (S n)); [|done].
    apply read_sep_some in H4 as [s0 H4%read_ipv4_range]. split; [|cbn; lia].
    repeat constructor; [apply Z.div_pos; lia|apply Z.div_lt_upper_bound; lia
                        |apply Z.mod_pos_bound; lia|apply Z.mod_pos_bound; lia].
  - destruct (read_sep i (read_number 16 65535 4 true) s) as [[g s']|] eqn:Hg;
      [|split; [constructor|cbn; lia]].
    apply read_sep_some in Hg as [s0 Hg%read_number_range]; [|done].
    specialize (IH (S i) s'). destruct (read_groups n (S i) s') as [[gs b] s'']. destruct IH as [Hf Hl].
    split; [constructor; [lia|done]|cbn; lia].
Qed.

Lemma read_ipv6_range s v rest : read_ipv6 s = Some (v, rest) → 0 ≤ v < 2 ^ 128.
Proof.
  unfold read_ipv6. pose proof (read_groups_range 8 0 s) as H8.
  destruct (read_groups 8 0 s) as [[hd b] s1]. destruct H8 as [Hh Hl].
  destruct (Nat.eqb_spec (length hd) 8) as [He|He].
  { intros [= <- _]. pose proof (be_value_range 65536 hd ltac:(done) Hh) as Hv. by rewrite He in Hv. }
  destruct b; [done|].
  destruct (read_char ":" s1) as [s2|]; cbn [mbind option_bind]; [|done].
  destruct (read_char ":" s2) as [s3|]; cbn [mbind option_bind]; [|done].
  pose proof (read_groups_range (7 - length hd) 0 s3) as H7.
  destruct (read_groups (7 - length hd) 0 s3) as [[tl b'] s4]. destruct H7 as [Ht Hlt].
  intros [= <- _]. set (gs := hd ++ replicate (8 - length hd - length tl) 0 ++ tl).
  assert (length gs = 8%nat) as Hlen.
  { unfold gs. rewrite !length_app, length_replicate. lia. }
  pose proof (be_value_range 65536 gs ltac:(done)) as Hv. rewrite Hlen in Hv. apply Hv.
  unfold gs. rewrite !Forall_app. split_and!; [done| |done].
  apply Forall_replicate. lia.
Qed.

Lemma parse_ipaddr_wf s a : parse_ipaddr s = Some a → ip_wf a.
Proof.
  unfold parse_ipaddr. destruct (read_ipv4 s) as [[b r]|] eqn:H4.
  - destruct r; [|done]. intros [= <-]. exact (read_ipv4_range _ _ _ H4).
  - destruct (read_ipv6 s) as [[b r]|] eqn:H6; [|done]. destruct r; [|done]. intros [= <-].
    exact (read_ipv6_range _ _ _ H6).
Qed.

Lemma parse_ips_wf v : Forall ip_wf (parse_ips v).
Proof.
  apply Forall_forall. intros a Ha. unfold parse_ips, filter_map in Ha.
  apply list_elem_of_omap in Ha as (s & _ & Hs). by eapply parse_ipaddr_wf.
Qed.

Lemma to_u16_range n m : to_u16 n = Some m → 0 ≤ m ≤ 65535.
Proof. unfold to_u16. case_match; [|done]. intros [= <-]. lia. Qed.

(** ** What the network policy controller is given *)

Section netpol.
Context `{IpNetLib}.
Import NetpolWire PolicyController.

Lemma nonblank_lower c : nonblank (lower_ascii c) = nonblank c.
Proof. by destruct c as [[] [] [] [] [] [] [] []]. Qed.

Lemma word_lowercase s : word s = true → word (to_ascii_lowercase s) = true.
Proof.
  unfold word, to_ascii_lowercase. rewrite !andb_true_iff. intros [He Ha]. split.
  - by destruct s.
  - clear He. induction s as [|c s IH]; [done|]. cbn in *. rewrite nonblank_lower.
    apply andb_true_iff in Ha as [-> Ha]. by apply IH.
Qed.

(** The protocols of a policy are words (the API allows TCP, UDP and SCTP). *)
Definition protocols_ok (np : K8sNetworkPolicy) : Prop :=
  ∀ spec r p, np_spec np = Some spec →
    r ∈ default [] (spec_ingress spec) ++ default [] (spec_egress spec) →
    p ∈ default [] (rule_ports r) → word (default "TCP" (npp_protocol p)) = true.

Lemma map_port_ok p : word (default "TCP" (npp_protocol p)) = true → port_ok (map_port p).
Proof.
  intros Hw. split; [by apply word_lowercase|]. cbn.
  destruct (npp_port p) as [[n|name]|]; [|done|done].
  destruct (to_u16 n) as [m|] eqn:Hn; [|done]. by apply to_u16_range in Hn.
Qed.

Lemma map_pod_ok pod x : map_pod pod = Some x → pod_ok x.
Proof.
  unfold map_pod. destruct (m_namespace _); [|done]. destruct (m_name _); [|done].
  cbn [mbind option_bind]. intros [= <-]. split; cbn [pod_ips pod_container_ports].
  - unfold pod_addresses. destruct (pod_status pod) as [st|]; [|constructor].
    destruct (status_pod_ips st) as [ips|]; [apply parse_ips_wf|].
    destruct (status_pod_ip st) as [ip|]; [|constructor]. cbn.
    destruct (parse_ipaddr ip) as [a|] eqn:Ha; [|constructor].
    apply Forall_singleton. by eapply parse_ipaddr_wf.
  - apply Forall_forall. intros cp (p & _ & Hp)%list_elem_of_omap.
    unfold map_container_port in Hp.
    destruct (to_u16 (kcp_container_port p)) as [n|] eqn:Hn; [|done]. injection Hp as <-.
    by apply to_u16_range in Hn.
Qed.

Lemma map_policy_ok np pol : protocols_ok np → map_policy np = Some pol → policy_ok pol.
Proof.
  intros Hp. unfold map_policy. destruct (m_namespace _); [|done]. destruct (m_name _); [|done].
  destruct (np_spec np) as [spec|] eqn:Hs; [|done]. cbn [mbind option_bind]. intros [= <-].
  intros dir rule Hrule.
  assert (∃ r, r ∈ default [] (spec_ingress spec) ++ default [] (spec_egress spec) ∧
               rule = map_rule r) as (r & Hr & ->).
  { destruct dir; cbn in Hrule; apply list_elem_of_fmap in Hrule as (r & -> & Hr); exists r;
      (split; [apply elem_of_app; auto|done]). }
  cbn [pr_ports map_rule]. apply Forall_forall. intros port (p & -> & Hin)%list_elem_of_fmap.
  apply map_port_ok. by apply (Hp spec r p).
Qed.

(** Whatever the stores hold, the pods of a snapshot have well-formed addresses and
    port numbers in range, and its policies well-formed ports when their
    protocols are words: what the theorems about the firewall assume. *)
Theorem snapshot_well_formed policies pods namespaces :
  Forall pod_ok (w_pods (policy_snapshot policies pods namespaces)) ∧
  (Forall protocols_ok policies →
   Forall policy_ok (w_policies (policy_snapshot policies pods namespaces))).
Proof.
  split; [|intros Hp]; apply Forall_forall; intros x (y & Hy & Hx)%list_elem_of_omap.
  - by eapply map_pod_ok.
  - eapply map_policy_ok; [|exact Hx]. by rewrite Forall_forall in Hp; apply Hp.
Qed.

(** An ipBlock whose CIDR the parser does not take. *)
Definition unreadable_block (p : NetworkPolicyPeer) : Prop :=
  ∃ b, peer_ip_block p = Some b ∧ net_parse (block_cidr b) = None.

Lemma map_rule_unreadable r :
  Forall unreadable_block (default [] (rule_peers r)) → pr_peers (map_rule r) = [].
Proof.
  unfold map_rule, filter_map. cbn. induction 1 as [|p l (b & Hb & Hc) _ IH]; [done|]. cbn.
  unfold map_peer at 1. by rewrite Hb, Hc.
Qed.

(** A rule that should admit only some address blocks admits every peer when none
    of the blocks can be read: the peers are dropped, and a rule without peers
    matches all. *)
Theorem unreadable_blocks_open_policy `{!FilterLib} pods namespaces family p np spec pol r :
  map_policy np = Some pol → np_spec np = Some spec → policy_has Ingress pol = true →
  r ∈ default [] (spec_ingress spec) →
  Forall unreadable_block (default [] (rule_peers r)) → default [] (rule_ports r) = [] →
  selects_ip pods pol (pk_dst p) = true →
  policy_permits pods namespaces family p Ingress pol = true.
Proof.
  intros Hm Hs Hhas Hr Hb Hports Hsel. unfold policy_permits. rewrite Hhas. cbn [andb].
  apply existsb_exists. exists (map_rule r). split.
  - unfold map_policy in Hm. destruct (m_namespace _); [|done]. destruct (m_name _); [|done].
    rewrite Hs in Hm. cbn [mbind option_bind] in Hm. injection Hm as <-. cbn.
    apply list_elem_of_In, list_elem_of_fmap. by exists r.
  - unfold rule_permits. cbn [map_rule pr_ports]. unfold map_ports. rewrite Hports. cbn [fmap list_fmap].
    unfold peers_admit. fold (map_rule r). rewrite (map_rule_unreadable r Hb). by cbn.
Qed.
End netpol.

(** ** Local services *)

Section local.
Context {W : Type} `{IpNetLib}.
Import ProxyWire SvcVipWire ServiceVips.

Lemma endpoints_not_local slices ns name port_name node e :
  has_local_endpoints slices ns name node = false →
  e ∈ endpoints_for slices ns name port_name node → ep_is_local e && ep_ready e = false.
Proof.
  intros Hno He. unfold endpoints_for in He. apply list_elem_of_bind in He as (slice & He & Hsl).
  destruct (slice_of slice ns name) eqn:Hof; [|by apply elem_of_nil in He].
  destruct (slice_port slice port_name) as [port|]; [|by apply elem_of_nil in He].
  unfold slice_endpoint_infos in He. apply list_elem_of_bind in He as (ep & He & Hep).
  apply list_elem_of_fmap in He as (ip & -> & _). cbn [ep_is_local ep_ready].
  apply not_true_iff_false. intros Ht. apply not_true_iff_false in Hno. apply Hno.
  unfold has_local_endpoints. apply existsb_exists. exists slice.
  split; [by apply list_elem_of_In|]. rewrite Hof. cbn [andb]. apply existsb_exists.
  exists ep. split; [by apply list_elem_of_In|exact Ht].
Qed.

Lemma no_local_dests svc slices ns name port_name node :
  has_local_endpoints slices ns name node = false →
  plan_dests svc (endpoints_for slices ns name port_name node) true = [].
Proof.
  intros Hno. unfold plan_dests.
  match goal with |- _ <$> filter ?P ?l = [] => rewrite (filter_none P l) end; [done|].
  intros e He. pose proof (endpoints_not_local _ _ _ _ _ _ Hno He) as Hb.
  destruct (ep_is_local e), (ep_ready e); cbn in *; try done; naive_solver.
Qed.

(** The annotation that makes a service local is read by the proxy for all its
    addresses, but by the announcer only for external ones: a node without local
    endpoints announces the cluster address of such a service, and its proxy
    answers there with a virtual service that has no destination. *)
Theorem local_annotation_blackholes (cfg : SyncConfig (W := W)) d slices node svc ns name spec
    ip info eps :
  m_namespace (svc_meta svc) = Some ns → m_name (svc_meta svc) = Some name →
  svc_spec svc = Some spec → type_ spec ≠ Some "ExternalName" →
  annotation (m_annotations (svc_meta svc)) LOCAL_ANNOTATION = Some "true" →
  internal_traffic_policy spec ≠ Some "Local" →
  default (ad_cluster d) (ann_bool (m_annotations (svc_meta svc)) ADV_CLUSTER_ANN) = true →
  has_local_endpoints slices ns name node = false →
  ip ∈ parse_ips (raw_cluster_ips spec) →
  (info, eps) ∈ map_service slices node svc →
  (∃ v, map_svc_vip slices node svc = Some v ∧ ip ∈ service_vip_ips d v) ∧
  (virtual_service info ip (si_port info), []) ∈ wanted cfg (info, eps).
Proof.
  intros Hns Hn Hsp Hty Hloc Hpol Hadv Hno Hip Hin. split.
  - unfold map_svc_vip. rewrite Hns, Hn, Hsp. cbn [mbind option_bind].
    rewrite decide_False by done. eexists. split; [reflexivity|].
    unfold service_vip_ips, should_advertise. cbn [sv_adv_cluster sv_internal_traffic_local sv_cluster_ips].
    rewrite Hadv, (bool_decide_eq_false_2 _ Hpol). cbn [negb andb].
    apply elem_of_app. by left.
  - unfold map_service in Hin. rewrite Hns, Hn, Hsp, decide_False in Hin by done.
    destruct (decide (parse_ips (raw_cluster_ips spec) = [])); [by apply elem_of_nil in Hin|].
    apply list_elem_of_bind in Hin as (sp & Hin & _).
    destruct (to_u16 (svp_port sp)) as [port|]; [|by apply elem_of_nil in Hin].
    apply list_elem_of_singleton in Hin. injection Hin as -> ->.
    unfold wanted. apply elem_of_app. left. apply list_elem_of_fmap. exists ip. split; [|exact Hip].
    f_equal. cbn [si_internal_traffic_local service_info].
    rewrite (bool_decide_eq_true_2 _ Hloc). cbn [orb]. symmetry. by apply no_local_dests.
Qed.
End local.

(** ** Concrete objects *)

Module Objects.
Local Existing Instance ref_net_lib.
Import NetpolWire ProxyWire SvcVipWire ServiceVips PolicyController.

Definition named (ns name : string) (labels anns : gmap string string) : ObjectMeta :=
  {| m_namespace := Some ns; m_name := Some name; m_labels := Some labels;
     m_annotations := Some anns |}.

(** A policy whose only ingress rule admits one block, written with a leading
    zero. *)
Definition block_rule : NetworkPolicyRule :=
  {| rule_peers := Some [{| peer_ip_block := Some {| block_cidr := "010.0.0.0/8"; block_except := None |};
                            peer_namespace_selector := None; peer_pod_selector := None |}];
     rule_ports := None |}.
Definition block_spec : NetworkPolicySpec :=
  {| pod_selector := None; policy_types := Some ["Ingress"]; spec_ingress := Some [block_rule];
     spec_egress := None |}.
Definition block_policy : K8sNetworkPolicy :=
  {| np_meta := named "default" "from-block" ∅ ∅; np_spec := Some block_spec |}.

Definition web_pod : K8sPod :=
  {| pod_meta := named "default" "web" {["app" := "web"]} ∅;
     pod_spec := Some {| spec_node_name := Some "node1"; spec_host_network := None;
                         container_ports := [Some [{| kcp_name := Some "http"; kcp_protocol := None;
                                                      kcp_container_port := 80 |}]] |};
     pod_status := Some {| status_pod_ips := Some ["10.0.0.2"]; status_pod_ip := None |} |}.

Definition world : PolicyWorld := policy_snapshot [block_policy] [web_pod] [].

Definition syn : Packet :=
  {| pk_src := V4 3405803777; pk_dst := V4 167772162; pk_proto := "tcp"; pk_dport := 22; pk_icmp := "";
     pk_ct := CtNew; pk_src_local := false; pk_dst_local := false; pk_bridged := false |}.

Lemma snapshot_well_formed_witness :
  Forall pod_ok (w_pods world) ∧ Forall policy_ok (w_policies world).
Proof.
  destruct (snapshot_well_formed [block_policy] [web_pod] []) as [H1 H2].
  split; [exact H1|]. apply H2. apply Forall_singleton.
  intros spec r p [= <-] Hr Hp. cbn in Hr. apply list_elem_of_singleton in Hr as ->.
  by apply elem_of_nil in Hp.
Defined.

Lemma unreadable_blocks_open_policy_witness :
  ∃ pol, map_policy block_policy = Some pol ∧
         policy_permits (w_pods world) [] FamV4 syn Ingress pol = true.
Proof.
  eexists. split; [reflexivity|].
  apply (unreadable_blocks_open_policy (w_pods world) [] FamV4 syn block_policy block_spec _ block_rule);
    [reflexivity|reflexivity|vm_compute; reflexivity|by left| |reflexivity|vm_compute; reflexivity].
  apply Forall_singleton. eexists. split; [reflexivity|vm_compute; reflexivity].
Defined.

(** A local service by annotation, with its only endpoint on another node. *)
Definition local_spec : ServiceSpec :=
  {| type_ := Some "ClusterIP"; cluster_ip := Some "10.96.0.10"; cluster_ips := None;
     external_ips := None;
     service_ports := Some [{| svp_name := None; svp_protocol := None; svp_port := 80;
                               svp_node_port := None |}];
     session_affinity := None; client_ip_timeout_seconds := None; internal_traffic_policy := None;
     external_traffic_policy := None; health_check_node_port := None; ip_families := None;
     ip_family_policy := None; load_balancer_class := None |}.
Definition local_service : K8sService :=
  {| svc_meta := named "default" "web" ∅ {[LOCAL_ANNOTATION := "true"]}; svc_spec := Some local_spec;
     svc_ingress := None |}.
Definition remote_slice : EndpointSlice :=
  {| slice_meta := named "default" "web-1" {[SERVICE_NAME_LABEL := "web"]} ∅;
     slice_endpoints := Some [{| addresses := ["10.244.1.5"]; node_name := Some "node2";
                                 cond_ready := Some true |}];
     slice_ports := Some [{| epp_name := None; epp_port := Some 8080 |}] |}.
Definition announce_cluster : AdvertiseDefaults :=
  {| ad_cluster := true; ad_external := false; ad_loadbalancer := false |}.
Definition vip : IpAddr := V4 174063626.   (* 10.96.0.10 *)

Definition no_handlers : SyncConfig (W := unit) :=
  {| sc_ranges := {| vr_external := []; vr_loadbalancer := []; vr_cluster := []; vr_strict := true |};
     sc_node_ips := []; sc_graceful := false; sc_graceful_period := 0; sc_metrics := false;
     sc_hairpin_global := false; sc_hairpin_nat := []; sc_node_port_range := None;
     sc_masquerade := None; sc_firewall_permit_all := true; sc_firewall_ipt := [];
     sc_firewall_ipset := None; sc_dsr_mangle := []; sc_dsr_mtu := 1500 |}.

Lemma local_annotation_blackholes_witness :
  ∃ info eps,
    (∃ v, map_svc_vip [remote_slice] "node1" local_service = Some v ∧
          vip ∈ service_vip_ips announce_cluster v) ∧
    (virtual_service info vip (si_port info), []) ∈ wanted no_handlers (info, eps).
Proof.
  eexists _, _.
  apply (local_annotation_blackholes no_handlers announce_cluster [remote_slice] "node1"
           local_service "default" "web" local_spec vip);
    [reflexivity|reflexivity|reflexivity|by vm_compute|vm_compute; reflexivity|done
    |vm_compute; reflexivity|vm_compute; reflexivity|vm_compute; by left|].
  vm_compute. by left.
Defined.

End Objects.

(** ** Flags *)

(** A range that validation accepts, since it trims it first, and that the
    allocator drops; and peers without AS numbers, which give none. *)
Example range_with_blank :
  Config.check_cidr (H := ref_net_lib) "--loadbalancer-ip-range" " 10.0.0.0/8" = inr tt ∧
  parse_nets (H := ref_net_lib) [" 10.0.0.0/8"] = [].
Proof. split; vm_compute; reflexivity. Qed.

Lemma peers_without_asns `{IpNetLib} `{!ExternalPeers.PeerEntriesYaml} config ip :
  Config.peer_router_asns config = [] → configured_external_peers config ip None = [].
Proof.
  intros Hasns. unfold configured_external_peers, ExternalPeers.zip_peers. rewrite Hasns.
  destruct (Config.peer_router_ips config); [|done]. cbn [length Nat.eqb negb].
  by repeat case_match; simplify_eq.
Qed.

(** An interface name with a dot is split like the rest of the key. *)
Example vlan_sysctl_path :
  Sysctl.key_to_path ("net.ipv4.conf." +:+ "eth0.100" +:+ ".rp_filter") =
  "/proc/sys/net/ipv4/conf/eth0/100/rp_filter".
Proof. reflexivity. Qed.
