(* ===== verification/PolicyProcess.v ===== *)
(** * PolicyProcess: the policy controller as the process builds it

    The controller of [run_firewall], with the backends of the system and the
    source that reads the stores: from the flags and the objects of the API server
    to the packets. *)

From stdpp Require Import gmap sets list strings pretty sorting relations.
From Stdlib Require Import Ascii ZArith Lia.
From S2P Require Import Prelude Text Net IpText Common Netlink Netpol Synth Filter FilterFacts SynthFacts.
From S2P Require Import PlanChains PolicySpec NetpolFacts TailFacts NetpolTheorems KubeSpec Firewall.
From S2P Require Import Netfilter NetfilterFacts PassFacts PassTheorems PolicyLoop.
From S2P Require Import K8s Agent Wires Main WireTheorems.
Import Config Naming Names Translate Ipset Iptables PolicyController NetpolWire.

Local Open Scope Z_scope.

(** ** What the flags and the stores give *)

Lemma node_port_range_word range : ports_word (validate_node_port_range range).
Proof.
  intros ports. unfold validate_node_port_range.
  destruct (split_once_by _ range) as [[a b]|]; [|done]. cbn [mbind option_bind].
  destruct (parse_u16 (trim a)) as [lo|] eqn:Hlo; [|done]. cbn [mbind option_bind].
  destruct (parse_u16 (trim b)) as [hi|] eqn:Hhi; [|done]. cbn [mbind option_bind].
  apply parse_uint_range in Hlo as [Hlo _], Hhi as [Hhi _].
  destruct (hi <=? lo); [done|]. intros [= <-].
  pose proof (word_digits hi Hhi) as [_ Hw]%andb_true_iff.
  apply word_app; [by apply word_digits|]. exact Hw.
Qed.

(** The families that the flags enable. *)
Definition policy_families (config : KubeRouterConfig) : list IpFamily := (per_family config id).*1.

Lemma policy_families_distinct config : NoDup (policy_families config).
Proof.
  unfold policy_families, per_family. destruct (enable_ipv4 config), (enable_ipv6 config); cbn;
    apply (bool_decide_unpack _); vm_compute; exact I.
Qed.

Section process.
Context `{IpNetLib} `{HashLaws} `{FilterLaws} `{!FilterNetLaws} `{!IpsetEntries, !IpsetEntryLaws}.
Context {W : Type} `{!CommandRunner W, !NetfilterNode W, !NetfilterLaws W}.
Context `{!PolicyStores W, !PolicyHeartbeat W}.
#[local] Existing Instance system_ipset.
#[local] Existing Instance store_policy_source.
Variables (config : KubeRouterConfig) (node : string) (pod_cidrs : list IpNet).
Variable kind : string → SetType * IpFamily.
Let self : FirewallController (W := W) := firewall_controller config node pod_cidrs.
Let families : list IpFamily := policy_families config.

Lemma controller_families : fc_families self = (λ f, (f, system_iptables f)) <$> families.
Proof.
  unfold self, families, firewall_controller, policy_families, per_family. cbn.
  by destruct (enable_ipv4 config), (enable_ipv6 config).
Qed.

(** The heartbeat leaves the node alone, and the API server takes only policies
    whose protocols are words (TCP, UDP and SCTP). *)
Hypothesis Hbeat : ∀ w, sets_of (policy_heartbeat w) = sets_of w ∧ same_tables w (policy_heartbeat w).
Hypothesis Hprotocols : ∀ w, Forall protocols_ok (policy_store w).

(** A snapshot of the stores is well-formed. *)
Lemma store_well w : world_well self (snapshot w).
Proof.
  destruct (snapshot_well_formed (policy_store w) (pod_store w) (namespace_store w)) as [Hpods Hpols].
  split; [exact Hpods|by apply Hpols|apply node_port_range_word].
Qed.

(** The sets of a snapshot are of the type and family their names call for. *)
Definition named (world : PolicyWorld) : Prop :=
  ∀ f, f ∈ families → Forall (conforms kind) (fp_ipsets (family_plan self world f)).

Lemma store_history w0 w :
  rtc (policy_step self named) w0 w → rtc (policy_step self (world_fine self families kind)) w0 w.
Proof.
  induction 1 as [w|w0 w1 w Hstep _ IH]; [done|]. eapply rtc_l; [|exact IH].
  destruct Hstep as [w0 w1 Hs Ht|w0 Hn]; [by apply step_stores|]. apply step_tick.
  split; [apply store_well|exact Hn].
Qed.

End process.

(** ** A concrete node *)

Module AgentNode.
Import Cluster PassNode LoopNode.
Local Existing Instance ref_net_lib.
Local Existing Instance system_ipset.
Local Existing Instance store_policy_source.

Definition named (name : string) (labels : gmap string string) : ObjectMeta :=
  {| m_namespace := Some "default"; m_name := Some name; m_labels := Some labels; m_annotations := None |}.
Definition k8s_pod (name ip : string) (ports : option (list K8sContainerPort)) : K8sPod :=
  {| pod_meta := named name {["app" := name]};
     pod_spec := Some {| spec_node_name := Some "node1"; spec_host_network := None; container_ports := [ports] |};
     pod_status := Some {| status_pod_ips := Some [ip]; status_pod_ip := Some ip |} |}.
Definition k8s_port (name : string) (n : Z) : K8sContainerPort :=
  {| kcp_name := Some name; kcp_protocol := Some "TCP"; kcp_container_port := n |}.
Definition k8s_pods : list K8sPod :=
  [k8s_pod "a" "10.0.0.1" None; k8s_pod "b" "10.0.0.2" (Some [k8s_port "http" 80]);
   k8s_pod "c" "10.0.0.3" (Some [k8s_port "dns" 53])].

(** Only the pod [a] may reach [b], and only on port 80. *)
Definition k8s_app (value : string) : K8sLabelSelector :=
  {| sel_match_labels := Some {["app" := value]}; sel_match_expressions := None |}.
Definition k8s_policy : K8sNetworkPolicy :=
  {| np_meta := named "b-from-a" ∅;
     np_spec := Some {|
       pod_selector := Some (k8s_app "b"); policy_types := Some ["Ingress"];
       spec_ingress := Some [{|
         rule_peers := Some [{| peer_ip_block := None; peer_namespace_selector := None;
                                peer_pod_selector := Some (k8s_app "a") |}];
         rule_ports := Some [{| npp_protocol := Some "TCP"; npp_port := Some (IntPort 80); npp_end_port := None |}] |}];
       spec_egress := None |} |}.

Definition api_objects : PolicyStores Host :=
  {| policy_store _ := [k8s_policy]; pod_store _ := k8s_pods; namespace_store _ := [] |}.
Local Existing Instance api_objects.
Local Existing Instance silent.

Definition built : FirewallController (W := Host) := firewall_controller default_config "node1" [cidr].

(** The snapshot is the cluster of [Cluster]. *)
Lemma snapshot_is (w : Host) : snapshot w = world_of [b_from_a].
Proof.
  change (policy_snapshot [k8s_policy] k8s_pods [] = world_of [b_from_a]).
  unfold policy_snapshot, world_of. f_equal.
Qed.

Lemma objects_named (w : Host) : PolicyProcess.named default_config "node1" [cidr] v4_hash (snapshot w).
Proof.
  rewrite snapshot_is. intros f ->%list_elem_of_singleton. apply Forall_forall. intros x Hx.
  assert (forallb (λ x, bool_decide ((ipl_type x, ipl_family x) = (HashIp, FamV4)))
    (fp_ipsets (family_plan built (world_of [b_from_a]) FamV4)) = true) as Hall by (vm_compute; reflexivity).
  rewrite forallb_forall in Hall. apply list_elem_of_In, Hall, bool_decide_eq_true in Hx. by split.
Qed.

Lemma objects_protocols (w : Host) : Forall protocols_ok (policy_store w).
Proof.
  apply Forall_singleton. intros spec r p [= <-] Hr Hp. cbn in Hr.
  apply list_elem_of_singleton in Hr as ->. apply list_elem_of_singleton in Hp as ->. done.
Qed.

End AgentNode.
