(* ===== verification/GrpcTheorems.v ===== *)
(** * GrpcTheorems: what one node announces, another installs

    Paths survive the translation to gobgp's messages and back, and the whole
    way of a prefix: the advertiser of one node, its engine over gRPC, the best
    paths another node hears, and that node's kernel. *)

From stdpp Require Import gmap sets list strings pretty.
From Stdlib Require Import ZArith Lia.
From S2P Require Import Prelude Text Net IpText Netlink Bgp Grpc Routing RoutingFacts.
From S2P Require Import Filter Main.
Import Api Gobgp.

Local Open Scope Z_scope.

(** The documented text of an [IpNet]: [addr/prefix_len], which its parser
    reads back. *)
Class NetText `{IpNetLib} : Prop := {
  net_display n :
    net_to_string n = ip_to_string (net_addr n) +:+ "/" +:+ pretty (net_prefix_len n);
  net_from_str n : net_parse (net_to_string n) = Some n;
}.

#[export] Instance ref_net_text_laws : @NetText ref_net_lib.
Proof. split; [done|]. intros n. apply ref_parse_print. Qed.

(** ** Paths and messages *)

Section messages.
Context `{IpNetLib} `{!NetText}.

Lemma policy_attrs_keep_next_hop (l : list Attr) acc :
  foldl next_hop_step acc (l ≫= policy_attr) = acc.
Proof.
  induction l as [|a l IH]; [done|]. rewrite bind_cons, foldl_app.
  assert (foldl next_hop_step acc (policy_attr a) = acc) as ->; [|done].
  destruct a as [c|n|n p|[|c cs]|asn repeat]; [done..|]. cbn. by destruct (0 <? repeat).
Qed.

Lemma next_hop_of_path p :
  ip_wf (path_next_hop p) → foldl next_hop_step None (pattrs (build_path p)) = Some (path_next_hop p).
Proof.
  intros Hw. unfold build_path.
  destruct (path_afi p); cbn [pattrs]; rewrite foldl_app, policy_attrs_keep_next_hop;
    cbn; by apply parse_ip_to_string.
Qed.

Lemma parse_message q p w :
  ip_wf (path_next_hop p) →
  nlri q = nlri (build_path p) → pattrs q = pattrs (build_path p) → is_withdraw q = w →
  parse_path_event q =
    Some {| ev_prefix := path_prefix p; ev_next_hop := path_next_hop p; ev_withdrawal := w |}.
Proof.
  intros Hw Hn Ha Hi. unfold parse_path_event. rewrite Hn, Ha, next_hop_of_path, Hi by done.
  assert (nlri (build_path p) = Some (prefix_nlri p)) as ->
    by (unfold build_path; by destruct (path_afi p)).
  cbn. by rewrite <- net_display, net_from_str.
Qed.

(** A path that is sent as a message is heard with its prefix, its next hop and
    whether it is a withdrawal, whatever its other attributes are. *)
Theorem path_event_roundtrip p :
  ip_wf (path_next_hop p) →
  parse_path_event (build_path p) =
    Some {| ev_prefix := path_prefix p; ev_next_hop := path_next_hop p;
            ev_withdrawal := path_withdrawal p |}.
Proof. intros Hw. apply (parse_message _ p); [done..|]. unfold build_path. by destruct (path_afi p). Qed.
End messages.

(** ** From the advertiser to another node's kernel *)

(** The paths that gobgp accepted from the client, in order. *)
#[export] Instance logging_client W `{!GoBgpServiceClient W}
    : GoBgpServiceClient (W * list ApiPath) := {|
  start_bgp g := noting id (start_bgp g);
  stop_bgp g := noting id (stop_bgp g);
  rpc_add_peer p := noting id (rpc_add_peer p);
  rpc_delete_peer p := noting id (rpc_delete_peer p);
  rpc_add_path r := noting (λ log, log ++ option_list (ap_path r)) (rpc_add_path r);
  rpc_delete_path r := noting (λ log, log ++ option_list (dp_path r)) (rpc_delete_path r);
|}.

Section sender.
Context `{IpNetLib} {W : Type} `{!GoBgpServiceClient W} `{!NetText}.
Import Advertise AdvertiseTheorems.

Let sender_engine : BgpEngine (W * list ApiPath) := grpc_engine.
#[local] Existing Instance sender_engine.

Definition withdraw_message (p : Path) : ApiPath :=
  {| nlri := nlri (build_path p); pattrs := pattrs (build_path p); is_withdraw := true;
     path_family := path_family (build_path p) |}.

Lemma add_paths_log {A} (g : A → Path) l s s' :
  mfor l (λ x, add_path (g x)) s = (inr tt, s') →
  s'.2 = s.2 ++ ((λ x, build_path (g x)) <$> l).
Proof.
  revert s. induction l as [|x l IH]; intros s; cbn [mfor].
  { intros [= <-]. by rewrite app_nil_r. }
  unfold mbind, M_bind. unfold add_path at 1. cbn [sender_engine grpc_engine].
  unfold map_err, mmap_err, rpc_add_path at 1. cbn [logging_client]. unfold noting at 1.
  destruct (rpc_add_path _ s.1) as [[e|[]] w]; [done|]. intros ->%IH. cbn.
  by rewrite <- app_assoc.
Qed.

Lemma delete_paths_log {A} (g : A → Path) l s s' :
  mfor l (λ x, delete_path (g x)) s = (inr tt, s') →
  s'.2 = s.2 ++ ((λ x, withdraw_message (g x)) <$> l).
Proof.
  revert s. induction l as [|x l IH]; intros s; cbn [mfor].
  { intros [= <-]. by rewrite app_nil_r. }
  unfold mbind, M_bind. unfold delete_path at 1. cbn [sender_engine grpc_engine].
  unfold map_err, mmap_err, rpc_delete_path at 1. cbn [logging_client]. unfold noting at 1.
  destruct (rpc_delete_path _ s.1) as [[e|[]] w]; [done|]. intros ->%IH. cbn.
  by rewrite <- app_assoc.
Qed.

(** A sync that succeeds: what gobgp accepted. *)
Lemma sync_log attrs desired nh enabled adv w log n adv' w' log' :
  advertiser_sync attrs desired nh enabled (adv, (w, log)) = (inr n, (adv', (w', log'))) →
  let D := desired_set desired enabled in
  adv' = D ∧
  log' = log ++ ((λ p, build_path (announce_path attrs nh p)) <$> bset_iter (D ∖ adv)) ++
                ((λ p, withdraw_message (withdraw_path nh p)) <$> bset_iter (adv ∖ D)).
Proof.
  unfold advertiser_sync, adv_engine. fold (desired_set desired enabled).
  set (D := desired_set desired enabled). munfold. cbn [fst snd].
  destruct (mfor (bset_iter (D ∖ adv)) _ _) as [[e|[]] s1] eqn:H1; [done|].
  cbn [fst snd]. destruct (mfor (bset_iter (adv ∖ D)) _ _) as [[e|[]] s2] eqn:H2; [done|].
  apply add_paths_log in H1. apply delete_paths_log in H2. cbn [fst snd] in *.
  destruct s2 as [w2 log2]. cbn in *. intros [= _ <- <- <-]. split; [done|].
  by rewrite H2, H1, <- app_assoc.
Qed.
End sender.

Section receiver.
Context `{IpNetLib}.
Import Inject InjectTheorems.

(** The table a receiver should have: the prefixes of [D] that its configuration
    does not reject, through [nh]. *)
Definition event (nh : IpAddr) (withdrawal : bool) (p : IpNet) : PathEvent :=
  {| ev_prefix := p; ev_next_hop := nh; ev_withdrawal := withdrawal |}.
Definition installed (cfg : InjectorConfig) (nh : IpAddr) (D : gset IpNet) (p : IpNet)
    : option InjectedRoute :=
  if decide (p ∈ D) then
    if is_rejected cfg p then None else Some (injected cfg (best_path (event nh false p)))
  else None.

Definition hears (cfg : InjectorConfig) (m : gmap IpNet InjectedRoute) (evs : list PathEvent)
    : gmap IpNet InjectedRoute := foldl (rib_step cfg) m (best_path <$> evs).

Lemma hears_app cfg m l1 l2 : hears cfg m (l1 ++ l2) = hears cfg (hears cfg m l1) l2.
Proof. unfold hears. by rewrite fmap_app, foldl_app. Qed.

Lemma hears_announcements cfg nh l m p :
  hears cfg m (event nh false <$> l) !! p =
  if decide (p ∈ l) then installed cfg nh {[ p ]} p else m !! p.
Proof.
  induction l as [|q l IH] using rev_ind.
  { rewrite decide_False by (by intros Hp%elem_of_nil). done. }
  rewrite fmap_app, hears_app. unfold hears at 1. cbn [fmap list_fmap foldl].
  unfold rib_step. cbn [event best_path bp_withdrawal bp_prefix ev_prefix ev_withdrawal orb].
  unfold installed in *. rewrite (decide_True (P := p ∈ {[ p ]})) in * by set_solver.
  destruct (decide (p = q)) as [->|Hne].
  - rewrite (decide_True (P := q ∈ l ++ [q])) by (apply elem_of_app; right; by apply list_elem_of_singleton).
    destruct (is_rejected cfg q); [apply lookup_delete_eq|apply lookup_insert_eq].
  - assert ((if is_rejected cfg q then delete q (hears cfg m (event nh false <$> l))
             else <[q := injected cfg (best_path (event nh false q))]>
                    (hears cfg m (event nh false <$> l))) !! p =
            hears cfg m (event nh false <$> l) !! p) as ->.
    { destruct (is_rejected cfg q); [by rewrite lookup_delete_ne|by rewrite lookup_insert_ne]. }
    rewrite IH. apply decide_ext. rewrite elem_of_app, list_elem_of_singleton. naive_solver.
Qed.

Lemma hears_withdrawals cfg nh l m p :
  hears cfg m (event nh true <$> l) !! p = if decide (p ∈ l) then None else m !! p.
Proof.
  induction l as [|q l IH] using rev_ind.
  { rewrite decide_False by (by intros Hp%elem_of_nil). done. }
  rewrite fmap_app, hears_app. unfold hears at 1. cbn [fmap list_fmap foldl].
  unfold rib_step. cbn [event best_path bp_withdrawal bp_prefix ev_prefix ev_withdrawal orb].
  destruct (decide (p = q)) as [->|Hne].
  - rewrite decide_True by (apply elem_of_app; right; by apply list_elem_of_singleton).
    apply lookup_delete_eq.
  - rewrite lookup_delete_ne, IH by done. apply decide_ext.
    rewrite elem_of_app, list_elem_of_singleton. naive_solver.
Qed.

(** One pass of the sender moves the receiver's table from one set of prefixes
    to the next. *)
Lemma hears_pass cfg nh (adv D : gset IpNet) m :
  (∀ p, m !! p = installed cfg nh adv p) →
  ∀ p, hears cfg m ((event nh false <$> bset_iter (D ∖ adv)) ++
                    (event nh true <$> bset_iter (adv ∖ D))) !! p = installed cfg nh D p.
Proof.
  intros Hm p. rewrite hears_app, hears_withdrawals, hears_announcements, Hm.
  unfold installed. rewrite (decide_True (P := p ∈ {[ p ]})) by set_solver.
  destruct (decide (p ∈ bset_iter (adv ∖ D))) as [H1|H1],
    (decide (p ∈ bset_iter (D ∖ adv))) as [H2|H2]; rewrite elem_of_bset_iter in H1, H2;
    destruct (decide (p ∈ D)), (decide (p ∈ adv)); try done; set_solver.
Qed.

(** ** The kernel of the receiver *)

Context {W : Type} `{!NetlinkOps W}.

(** A route by a gateway of its own family. *)
Definition one_family (r : Route) : Prop :=
  match gateway r with Some gw => is_ipv6 gw = net_is_v6 (dst r) | None => True end.

(** A kernel that takes the routes by a gateway of their own family, and the
    deletion of the routes it has. *)
Class RoutingKernel := {
  kernel_table : W → Ktable;
  replace_accepted (r : Route) (w : W) : one_family r →
    ∃ w', route_replace r w = (inr tt, w') ∧ kernel_table w' = <[route_key r := r]> (kernel_table w);
  del_accepted (r : Route) (w : W) : kernel_table w !! route_key r = Some r →
    ∃ w', route_del r w = (inr tt, w') ∧ kernel_table w' = delete (route_key r) (kernel_table w);
}.

Context `{!RoutingKernel}.

(** The view of the table is the kernel's table. *)
Lemma kernel_replace (r : Route) (w : W) (kt : Ktable) :
  one_family r → kernel_table w = kt →
  ∃ w', route_replace r (w, kt) = (inr tt, (w', <[route_key r := r]> kt)) ∧
        kernel_table w' = <[route_key r := r]> kt.
Proof.
  intros Hr <-. destruct (replace_accepted r w Hr) as (w' & Hrun & Hw). exists w'.
  unfold route_replace at 1. cbn [kernel_netlink]. unfold noting. cbn [fst snd]. by rewrite Hrun.
Qed.

Lemma kernel_del (r : Route) (w : W) (kt : Ktable) :
  kt !! route_key r = Some r → kernel_table w = kt →
  ∃ w', route_del r (w, kt) = (inr tt, (w', delete (route_key r) kt)) ∧
        kernel_table w' = delete (route_key r) kt.
Proof.
  intros Hr <-. destruct (del_accepted r w Hr) as (w' & Hrun & Hw). exists w'.
  unfold route_del at 1. cbn [kernel_netlink]. unfold noting. cbn [fst snd]. by rewrite Hrun.
Qed.

(** The receiver between two wakes. *)
Record receiving (cfg : InjectorConfig) (m : gmap IpNet InjectedRoute) (w : W) (kt : Ktable) : Prop := {
  rv_inv : inject_inv cfg m kt;
  rv_table : kernel_table w = kt;
  rv_family p ir : m !! p = Some ir → one_family (ir_route ir);
}.

Lemma remove_route_kernel cfg p m w kt :
  receiving cfg m w kt → ∃ w' kt',
    remove_route p (m, (w, kt)) = (inr tt, (delete p m, (w', kt'))) ∧ receiving cfg (delete p m) w' kt'.
Proof.
  intros [Hinv Ht Hf]. pose proof (remove_route_run cfg p m w kt Hinv) as Hrun.
  assert (∃ w' kt', remove_route p (m, (w, kt)) = (inr tt, (delete p m, (w', kt'))) ∧ kernel_table w' = kt')
    as (w' & kt' & Heq & Ht').
  { unfold remove_route. munfold. cbn [fst snd]. destruct (m !! p) as [ir|] eqn:Hp.
    - destruct (proj1 Hinv p ir Hp) as [Hkey _].
      destruct (kernel_del (ir_route ir) w kt) as (w' & Hdel & Hw'); [|done|].
      { apply (proj2 Hinv). exists ir. by rewrite Hkey. }
      eexists w', _. unfold inject_nl. munfold. cbn [fst snd]. by rewrite Hdel.
    - exists w, kt. split; [|done]. by rewrite delete_id. }
  exists w', kt'. split; [done|]. rewrite Heq in Hrun. destruct (Hrun eq_refl) as [_ Hinv'].
  split; [done..|]. intros q ir [_ Hq]%lookup_delete_Some. by apply (Hf q).
Qed.

Lemma on_event_kernel cfg ev m w kt :
  receiving cfg m w kt → (bp_withdrawal ev = false → is_ipv6 (bp_next_hop ev) = net_is_v6 (bp_prefix ev)) →
  ∃ w' kt', on_event cfg ev (m, (w, kt)) = (inr tt, (rib_step cfg m ev, (w', kt'))) ∧
    receiving cfg (rib_step cfg m ev) w' kt'.
Proof.
  intros Hrv Hev. pose proof (on_event_run cfg ev m w kt (rv_inv _ _ _ _ Hrv)) as Hrun. revert Hrun.
  unfold on_event, rib_step. destruct (bp_withdrawal ev); cbn [orb]; [intros _; by apply remove_route_kernel|].
  destruct (is_rejected cfg (bp_prefix ev)); [intros _; by apply remove_route_kernel|].
  specialize (Hev eq_refl). destruct Hrv as [Hinv Ht Hf].
  set (r := {| dst := bp_prefix ev; gateway := Some (bp_next_hop ev); table := ic_table cfg |}).
  destruct (kernel_replace r w kt Hev Ht) as (w' & Hrep & Hw').
  unfold inject_nl. munfold. cbn [fst snd]. rewrite Hrep. cbn [fst snd]. intros [_ Hinv']; [done|].
  eexists w', _. split; [done|]. split; [exact Hinv'|exact Hw'|].
  intros q ir [[<- <-]|[_ Hq]]%lookup_insert_Some; [exact Hev|by apply (Hf q)].
Qed.

(** A resync of routes that are there changes nothing. *)
Lemma replace_present (l : list InjectedRoute) (w : W) (kt : Ktable) :
  kernel_table w = kt →
  (∀ ir, ir ∈ l → kt !! route_key (ir_route ir) = Some (ir_route ir) ∧ one_family (ir_route ir)) →
  ∃ w', mfor l (λ ir, route_replace (ir_route ir)) (w, kt) = (inr tt, (w', kt)) ∧ kernel_table w' = kt.
Proof.
  revert w. induction l as [|ir l IH]; intros w Ht Hl; [by exists w|]. cbn [mfor].
  destruct (Hl ir (list_elem_of_here _ _)) as [Hin Hf].
  unfold mbind, M_bind. destruct (kernel_replace (ir_route ir) w kt Hf Ht) as (w1 & -> & Hw1).
  rewrite insert_id in Hw1 |- * by done. apply IH; [done|]. intros x Hx. apply Hl. by right.
Qed.

Lemma injector_sync_same cfg m w kt :
  receiving cfg m w kt → ∃ w', (injector_sync (m, (w, kt))).2 = (m, (w', kt)) ∧ receiving cfg m w' kt.
Proof.
  intros [Hinv Ht Hf]. unfold injector_sync, inject_nl. munfold. cbn [fst snd].
  edestruct (replace_present (btree_values m) w kt Ht) as (w' & -> & Hw'); [|by exists w'].
  intros ir Hir. apply list_elem_of_fmap in Hir as ((p & x) & -> & Hp). cbn.
  apply elem_of_btree_iter in Hp. destruct Hinv as [Hm Hk]. destruct (Hm p x Hp) as [Hkey _].
  split; [|by apply (Hf p)]. apply Hk. exists x. by rewrite Hkey.
Qed.

(** The best paths among what wakes the receiver. *)
Definition wake_event (wk : InjectWake) : option PathEvent :=
  match wk with PathWake ev => Some ev | InjectTick => None end.

Lemma wakes_run (cfg : InjectorConfig) (local_ip : option IpAddr)
    (wakes : list InjectWake) (m : gmap IpNet InjectedRoute) (w : W) (kt : Ktable) :
  receiving cfg m w kt →
  (∀ ev, ev ∈ filter_map wake_event wakes → local_ip ≠ Some (ev_next_hop ev) ∧
     (ev_withdrawal ev = false → is_ipv6 (ev_next_hop ev) = net_is_v6 (ev_prefix ev))) →
  ∃ w' kt', foldl (λ s wake, (inject_wake cfg local_ip wake s).1) (m, (w, kt)) wakes =
              (hears cfg m (filter_map wake_event wakes), (w', kt')) ∧
            receiving cfg (hears cfg m (filter_map wake_event wakes)) w' kt'.
Proof.
  revert m w kt. induction wakes as [|[ev|] wakes IH]; intros m w kt Hrv Hl; [by exists w, kt|..].
  - cbn [foldl inject_wake filter_map omap list_omap wake_event].
    destruct (Hl ev) as [Hlocal Hfam]; [by left|]. rewrite decide_False by done.
    destruct (on_event_kernel cfg (best_path ev) m w kt Hrv Hfam) as (w1 & kt1 & -> & Hrv1). cbn [fst snd].
    change (hears cfg m (ev :: filter_map wake_event wakes))
      with (hears cfg (rib_step cfg m (best_path ev)) (filter_map wake_event wakes)).
    apply IH; [done|]. intros ev' Hev. apply Hl. by right.
  - cbn [foldl inject_wake filter_map omap list_omap wake_event].
    destruct (injector_sync_same cfg m w kt Hrv) as (w1 & -> & Hrv1). cbn [fst]. by apply IH.
Qed.
End receiver.

(** ** The whole way *)

Section journey.
Context `{IpNetLib} `{!NetText} {WA : Type} `{!GoBgpServiceClient WA}.
Import Advertise AdvertiseTheorems Inject InjectTheorems.

Lemma announce_path_fields attrs nh p :
  path_next_hop (announce_path attrs nh p) = nh ∧ path_withdrawal (announce_path attrs nh p) = false.
Proof.
  unfold announce_path, as_path_prepend, path_build.
  destruct (adv_as_prepend attrs) as [[asn rep]|]; [destruct (0 <? rep)|];
    cbn; by destruct (of_net p).
Qed.

Lemma withdraw_path_fields nh p : path_next_hop (withdraw_path nh p) = nh.
Proof. unfold withdraw_path, path_build. cbn. by destruct (of_net p). Qed.

Lemma announcements_heard attrs nh l :
  ip_wf nh →
  filter_map parse_path_event ((λ p, build_path (announce_path attrs nh p)) <$> l) =
  event nh false <$> l.
Proof.
  intros Hw. unfold filter_map. induction l as [|p l IH]; [done|].
  destruct (announce_path_fields attrs nh p) as [Hn Hd].
  cbn [fmap list_fmap omap list_omap]. rewrite (parse_message _ (announce_path attrs nh p) false);
    [|by rewrite Hn|done|done|unfold build_path; by destruct (path_afi _)].
  rewrite Hn, announce_prefix. by f_equal.
Qed.

Lemma withdrawals_heard nh l :
  ip_wf nh →
  filter_map parse_path_event ((λ p, withdraw_message (withdraw_path nh p)) <$> l) =
  event nh true <$> l.
Proof.
  intros Hw. unfold filter_map. induction l as [|p l IH]; [done|].
  cbn [fmap list_fmap omap list_omap]. rewrite (parse_message _ (withdraw_path nh p) true);
    [|by rewrite withdraw_path_fields|done..].
  rewrite withdraw_path_fields, withdraw_prefix. by f_equal.
Qed.

(** Passes of the advertiser over the gRPC engine, all successful. *)
Definition sender_passes (attrs : Attributes) (nh : IpAddr) (enabled : bool)
    (passes : list (list IpNet)) : M (gset IpNet * (WA * list ApiPath)) BgpError unit :=
  mfor passes (λ desired,
    advertiser_sync (BgpEngine0 := grpc_engine) attrs desired nh enabled;; mret tt).

Definition last_desired (passes : list (list IpNet)) (enabled : bool) (D : gset IpNet)
    : gset IpNet := default D ((λ d, desired_set d enabled) <$> list.last passes).

(** What is heard of a node: its own next hop, announced for networks of its family. *)
Definition from_node (nh : IpAddr) (ev : PathEvent) : Prop :=
  ev_next_hop ev = nh ∧ (ev_withdrawal ev = false → is_ipv6 nh = net_is_v6 (ev_prefix ev)).

Lemma sender_passes_heard attrs nh enabled passes cfg adv w log adv' w' log' :
  ip_wf nh →
  sender_passes attrs nh enabled passes (adv, (w, log)) = (inr tt, (adv', (w', log'))) →
  (∀ d p, d ∈ passes → p ∈ d → is_ipv6 nh = net_is_v6 p) →
  (∀ p, hears cfg ∅ (filter_map parse_path_event log) !! p = installed cfg nh adv p) →
  Forall (from_node nh) (filter_map parse_path_event log) →
  adv' = last_desired passes enabled adv ∧
  (∀ p, hears cfg ∅ (filter_map parse_path_event log') !! p = installed cfg nh adv' p) ∧
  Forall (from_node nh) (filter_map parse_path_event log').
Proof.
  intros Hw. revert adv w log. induction passes as [|d passes IH]; intros adv w log.
  { intros [= <- <- <-] _ Hh Hn. done. }
  unfold sender_passes. cbn [mfor]. munfold.
  destruct (advertiser_sync _ d nh enabled _) as [[e|n] [adv1 [w1 log1]]] eqn:Hs; [done|].
  apply sync_log in Hs as [-> Hlog]. intros Hrest Hfam Hh Hn.
  rewrite app_assoc in Hlog.
  assert (filter_map parse_path_event log1 = filter_map parse_path_event log ++
    ((event nh false <$> bset_iter (desired_set d enabled ∖ adv)) ++
     (event nh true <$> bset_iter (adv ∖ desired_set d enabled)))) as Hev.
  { rewrite Hlog. unfold filter_map. rewrite !omap_app, <- app_assoc.
    f_equal. f_equal; [by apply announcements_heard|by apply withdrawals_heard]. }
  assert (last_desired (d :: passes) enabled adv =
          last_desired passes enabled (desired_set d enabled)) as ->.
  { unfold last_desired. rewrite last_cons. by destruct (list.last passes). }
  apply (IH (desired_set d enabled) w1 log1 Hrest).
  - intros d' p Hd. apply Hfam. by right.
  - rewrite Hev, hears_app. by apply hears_pass.
  - rewrite Hev, !Forall_app. split; [done|]. rewrite !Forall_fmap. split; [|by apply Forall_true].
    apply Forall_forall. intros p [Hp _]%elem_of_bset_iter%elem_of_difference. split; [done|]. intros _.
    apply (Hfam d); [by left|]. unfold desired_set in Hp. destruct enabled; [by apply elem_of_list_to_set in Hp|done].
Qed.

Context `{!IpNetLaws} {WB : Type} `{!NetlinkOps WB} `{!RoutingKernel (W := WB)}.

(** C24: Whatever the passes of the advertiser of one node, once they have succeeded
    the routing table of a node that hears the accepted paths in order, and resyncs
    at any time, holds exactly a route in the main table through the announcing
    node for every prefix that is desired in the last pass and that no network to
    reject contains.  This is for a table that is empty at the start, prefixes of
    the family of the announcing node's address (the kernel takes no others by that
    gateway), and a kernel that takes these routes and deletes those it has. *)
Theorem announced_routes_installed attrs nh enabled passes w adv w' log import_reject local_ip
    wakes (wb : WB) :
  ip_wf nh → (∀ desired p, desired ∈ passes → p ∈ desired → is_ipv6 nh = net_is_v6 p) →
  sender_passes attrs nh enabled passes (∅, (w, [])) = (inr tt, (adv, (w', log))) →
  filter_map wake_event wakes = filter_map parse_path_event log →
  local_ip ≠ Some nh → kernel_table wb = ∅ →
  let '(_, (wb', kt)) := receive_side_inject import_reject local_ip wakes (wb, ∅) in
  kernel_table wb' = kt ∧
  ∀ k r, kernel_table wb' !! k = Some r ↔
    ∃ p, p ∈ last_desired passes enabled ∅ ∧ ¬ rejected import_reject p ∧
         k = (p, 254) ∧ r = {| dst := p; gateway := Some nh; table := 254 |}.
Proof.
  intros Hw Hfam Hrun Hwakes Hlocal Hempty. set (cfg := injector_config import_reject).
  destruct (sender_passes_heard attrs nh enabled passes cfg ∅ w [] adv w' log Hw Hrun Hfam)
    as (Hadv & Hh & Hn); [|done|].
  { intros p. unfold installed. by rewrite decide_False by set_solver. }
  unfold receive_side_inject. fold cfg.
  destruct (wakes_run cfg local_ip wakes ∅ wb ∅) as (wb' & kt & -> & [Hinv Ht _]).
  { split; [apply inject_inv_empty|done|]. intros p ir Hp. by rewrite lookup_empty in Hp. }
  { rewrite Hwakes. intros ev Hev. rewrite Forall_forall in Hn. by destruct (Hn ev Hev) as [-> ?]. }
  rewrite Hwakes in Hinv. destruct Hinv as [_ Hk]. rewrite <- Hadv. split; [done|]. intros k r.
  assert (∀ p, is_rejected cfg p = true ↔ rejected import_reject p) as Hrej by (intros p; apply is_rejected_spec).
  rewrite Ht, Hk, Hh. unfold installed. split.
  - intros (ir & Hir & <- & Htab). destruct (decide (k.1 ∈ adv)); [|done].
    destruct (is_rejected cfg k.1) eqn:Hr; [done|]. injection Hir as <-.
    exists k.1. split_and!; [done|by rewrite <-Hrej, Hr|destruct k; cbn in *; by subst|done].
  - intros (p & Hp & Hr & -> & ->). cbn [fst snd]. rewrite decide_True by done.
    rewrite <-Hrej in Hr. apply not_true_iff_false in Hr as ->. by eexists.
Qed.
End journey.

(** ** A pair of nodes *)

Module Pair.
Import Advertise AdvertiseTheorems Inject InjectTheorems.

#[export] Instance calm_client : GoBgpServiceClient unit := {|
  start_bgp _ := mret tt; stop_bgp _ := mret tt; rpc_add_peer _ := mret tt;
  rpc_delete_peer _ := mret tt; rpc_add_path _ := mret tt; rpc_delete_path _ := mret tt |}.

(** A kernel that is its table: it refuses a gateway of another family, and the
    deletion of a route it does not have. *)
Definition family_eqb (r : Route (H := ref_net_lib)) : bool :=
  match gateway r with Some gw => Bool.eqb (is_ipv6 gw) (net_is_v6 (dst r)) | None => true end.
Abbreviation RefTable := (gmap (@IpNet ref_net_lib * Z) (@Route ref_net_lib)) (only parsing).
#[export] Instance strict_netlink : NetlinkOps (H := ref_net_lib) RefTable := {|
  ensure_dummy_link _ := mret tt; addr_add _ _ _ := mret tt; addr_del _ _ _ := mret tt;
  route_replace r kt :=
    if family_eqb r then (inr tt, <[route_key r := r]> kt)
    else (inl (NetlinkOp "inet prefix is expected"), kt);
  route_del r kt :=
    if decide (kt !! route_key r = Some r) then (inr tt, delete (route_key r) kt)
    else (inl (NetlinkOp "No such process"), kt);
  route_list _ := mret [] |}.

#[export] Program Instance strict_kernel : @RoutingKernel ref_net_lib RefTable strict_netlink :=
  {| kernel_table := id |}.
Next Obligation.
  intros r w Hr. exists (<[route_key r := r]> w). split; [|done]. cbn. unfold family_eqb, one_family in *.
  destruct (gateway r); [|done]. by rewrite Hr, eqb_reflx.
Qed.
Next Obligation.
  intros r w Hr. exists (delete (route_key r) w). split; [|done]. cbn. by rewrite decide_True.
Qed.

Definition node_a : IpAddr := ip_of "192.168.0.10".
Definition passes : list (list (IpNet (IpNetLib := ref_net_lib))) :=
  [[net_of "10.244.1.0/24"; net_of "10.244.2.0/24"]; [net_of "10.244.1.0/24"; net_of "10.96.0.1/32"]].

Definition sent : (BgpError + unit) * (gset IpNet * (unit * list ApiPath)) :=
  sender_passes no_attrs node_a true passes (∅, (tt, [])).
Definition heard : list InjectWake :=
  InjectTick :: (PathWake <$> filter_map parse_path_event sent.2.2.2) ++ [InjectTick].

Example sent_four : length sent.2.2.2 = 4%nat.
Proof. vm_compute. reflexivity. Qed.

Lemma path_event_roundtrip_witness :
  let p := announce_path no_attrs node_a (net_of "fd00:1::/64") in
  ip_wf (path_next_hop p) ∧
  parse_path_event (build_path p) =
    Some {| ev_prefix := path_prefix p; ev_next_hop := path_next_hop p;
            ev_withdrawal := path_withdrawal p |}.
Proof.
  assert (ip_wf (path_next_hop (announce_path no_attrs node_a (net_of "fd00:1::/64")))) as Hw
    by (vm_compute; split; [discriminate|reflexivity]).
  split; [exact Hw|]. exact (path_event_roundtrip _ Hw).
Defined.

Lemma announced_routes_installed_witness :
  let '(_, (wb, kt)) := receive_side_inject (W := RefTable * RefTable) [net_of "10.96.0.0/12"]
    (Some (ip_of "192.168.0.11")) heard (∅, ∅) in
  kernel_table wb = kt ∧
  ∀ k r, kernel_table wb !! k = Some r ↔
    ∃ p, p ∈ last_desired passes true ∅ ∧ ¬ rejected [net_of "10.96.0.0/12"] p ∧
         k = (p, 254) ∧ r = {| dst := p; gateway := Some node_a; table := 254 |}.
Proof.
  assert (ip_wf node_a) as Hw by (vm_compute; split; [discriminate|reflexivity]).
  assert (Some (ip_of "192.168.0.11") ≠ Some node_a) as Hne by (vm_compute; discriminate).
  assert (sent.1 = inr tt) as Hok by (vm_compute; reflexivity).
  apply (announced_routes_installed no_attrs node_a true passes tt sent.2.1 sent.2.2.1 sent.2.2.2
           [net_of "10.96.0.0/12"] (Some (ip_of "192.168.0.11")) heard ∅ Hw).
  - intros d p Hd Hp. unfold passes in Hd. rewrite !elem_of_cons, elem_of_nil in Hd.
    destruct Hd as [->|[->|[]]]; rewrite !elem_of_cons, elem_of_nil in Hp;
      destruct Hp as [->|[->|[]]]; vm_compute; reflexivity.
  - fold sent. rewrite <- Hok. by destruct sent as [? [? [? ?]]].
  - unfold heard. generalize (filter_map parse_path_event sent.2.2.2). intros l.
    cbn [filter_map omap list_omap wake_event]. unfold filter_map.
    rewrite omap_app. cbn. rewrite app_nil_r. induction l as [|x l IH]; [done|]. cbn. by f_equal.
  - exact Hne.
  - reflexivity.
Defined.

Lemma wait_port_ready_ends_witness : ∃ W (P : Server.ProcessOps W) (w : W),
  Server.ClockLaws (W := W) ∧
  is_Some (Server.wait_port_ready (S (S (Z.to_nat (10000 / 20)))) "127.0.0.1:50051" 10000 w).
Proof.
  set (P := {| Server.proc_spawn := λ _ _, mret 1; Server.proc_start_kill := λ _, mret tt;
               Server.proc_wait := λ _, mret tt; Server.tcp_connect := λ _ w, (false, w);
               Server.instant_now := λ w, w; Server.sleep_ms := λ d w, w + d |}
           : Server.ProcessOps Z).
  exists Z, P, 0.
  assert (Server.ClockLaws (W := Z)) as Hlaws by (split; intros; cbn; lia).
  split; [exact Hlaws|].
  apply (Server.wait_port_ready_ends "127.0.0.1:50051" 10000 0). lia.
Defined.
End Pair.
