(* ===== verification/ProcessTheorems.v ===== *)
(** * ProcessTheorems: the controllers as the process runs them

    The tasks of [Main] from the flags and the stores to the kernel and the
    speaker: what the allocator does over its whole life, which BGP engine is
    chosen, and what the announcer of service addresses leaves in the speaker. *)

From stdpp Require Import gmap sets list strings pretty.
From Stdlib Require Import Ascii ZArith Lia.
From S2P Require Import Prelude Text Net IpText Common K8s LbAlloc Netlink Bgp Grpc Routing.
From S2P Require Import RoutingFacts Proxy ProxySync Agent Cni Wires Main WireTheorems.
Import Config.

Local Open Scope Z_scope.

(** ** The allocator *)

Section loadbalancer.
Context `{IpNetLaws} {W : Type} `{!Controller.StatusUpdater W, !Election.LeaseBackend W}.
Import Pools PoolsFacts Allocate AllocateFacts Controller ControllerFacts ControllerTheorems Election.

(** The lease beside the record of the addresses handed out. *)
#[export] Instance recording_lease : LeaseBackend (W * list IngressCall) :=
  {| acquire_or_renew := noting id acquire_or_renew |}.

Definition in_range (config : KubeRouterConfig) (ip : IpAddr) : Prop :=
  ∃ n, n ∈ parse_nets (loadbalancer_ip_range config) ∧ net_contains n ip = true.

(** What holds of the task between two turns. *)
Record lb_inv (config : KubeRouterConfig) (s : LbAgent (W * list IngressCall)) : Prop := {
  li_pool4 : pool_ok false (lba_v4 s);
  li_pool6 : pool_ok true (lba_v6 s);
  li_ranges4 : ranges (lba_v4 s) = (lb_ranges config).1;
  li_ranges6 : ranges (lba_v6 s) = (lb_ranges config).2;
  li_handed : Forall (in_range config) (concat ((lba_world s).2.*2));
}.

Lemma contains_in_range config (r : IpRanges) ip :
  ranges r = (lb_ranges config).1 ∨ ranges r = (lb_ranges config).2 →
  contains r ip = true → in_range config ip.
Proof.
  intros Hr Hc. unfold contains in Hc. apply existsb_exists in Hc as (n & Hn & Hc).
  exists n. split; [|done]. apply list_elem_of_In in Hn. unfold lb_ranges in Hr. cbn in Hr.
  destruct Hr as [Hr|Hr]; rewrite Hr in Hn; by apply list_elem_of_filter in Hn as [_ Hn].
Qed.

(** The loop of one pass keeps the pools valid and hands out what they contain. *)
Definition pass_ok (config : KubeRouterConfig) (s : Pass (W * list IngressCall)) : Prop :=
  lb_inv config {| lba_leader := true; lba_v4 := v4_ranges s; lba_v6 := v6_ranges s;
                   lba_world := world s |}.

Lemma handed_snoc config (log : list IngressCall) ns name ips :
  Forall (in_range config) (concat (log.*2)) → Forall (in_range config) ips →
  Forall (in_range config) (concat ((log ++ [(ns, name, ips)]).*2)).
Proof. intros. rewrite fmap_app, concat_app. cbn. rewrite app_nil_r. by apply Forall_app. Qed.

Lemma reconcile_one_ok config is_default svc :
  triple (pass_ok config) (reconcile_one (W := W * list IngressCall) is_default svc)
    (λ _, pass_ok config) (λ e s, e ≠ Panic ∧ pass_ok config s).
Proof.
  intros s Hs. pose proof Hs as [P4 P6 R4 R6 HF]. cbn in P4, P6, R4, R6, HF.
  destruct (reconcile_one_effect is_default svc s P4 P6)
    as (r & s' & -> & K4 & K6 & S4 & S6 & [(-> & _ & _ & Hw)|(ips & _ & _ & Hips & _ & _ & Hr)]).
  - split; cbn; rewrite ?Hw; congruence.
  - cbn in Hr. destruct (append_ingress _ _ ips _) as [res w]. destruct Hr as [Hw ->].
    assert (pass_ok config s'); [|by destruct res].
    split; cbn; try done; try congruence. rewrite Hw. apply handed_snoc; [done|].
    apply Forall_forall. intros ip Hip. destruct (Hips ip Hip) as [_ Hc].
    apply (contains_in_range config (if is_ipv6 ip then v6_ranges s else v4_ranges s)); [|done].
    destruct (is_ipv6 ip); [by right|by left].
Qed.

Lemma reconcile_ok config is_default services (s : LbAgent (W * list IngressCall)) :
  lb_inv config s →
  let '(res, pass) := reconcile is_default services (lba_v4 s) (lba_v6 s) (lba_world s) in
  res ≠ inl Panic ∧ pass_ok config pass.
Proof.
  intros HI. unfold reconcile. destruct (allocated_ips _ _ _) as [al4 al6].
  set (s0 := {| v4_ranges := lba_v4 s; v6_ranges := lba_v6 s; a4 := al4; a6 := al6;
                updated := 0; world := lba_world s |}).
  assert (pass_ok config s0) as Hinit by (destruct HI; split; done).
  apply (triple_for services (reconcile_one (W := W * list IngressCall) is_default)
    (λ _, pass_ok config) (λ e s, e ≠ Panic ∧ pass_ok config s)
    (λ done x rest _, reconcile_one_ok config is_default x)) in Hinit.
  destruct (mfor _ _ _) as [[e|[]] s']; [destruct Hinit; split; congruence|by split].
Qed.

Lemma lb_wake_ok config s wake :
  lb_inv config s → ∃ s', lb_wake config s wake = Some s' ∧ lb_inv config s'.
Proof.
  intros HI. destruct wake as [|services]; cbn [lb_wake].
  - unfold tick. cbn. unfold noting.
    destruct (acquire_or_renew (lba_world s).1) as [[e|b] w]; cbn;
      (destruct (negb _); eexists; split; [reflexivity| |reflexivity|]; destruct HI; by split).
  - destruct (lba_leader s); [|by exists s].
    pose proof (reconcile_ok config (loadbalancer_default_class config) services s HI) as Hr.
    destruct (reconcile _ _ _ _ _) as [[[]|[]] pass]; cbn in Hr; destruct Hr as [Hr Hp]; try done;
      (eexists; split; [reflexivity|]; destruct Hp; by split).
Qed.

Lemma new_pool_ok v6 (l : list IpNet) :
  Forall (λ n, 0 < net_prefix_len n ∧ net_is_v6 n = v6) l → pool_ok v6 (new l).
Proof.
  intros Hl. split; [split|].
  - eapply Forall_impl; [exact Hl|]. by intros n [? _].
  - unfold cursor_ok. destruct l as [|n l]; [done|]. cbn. split; [apply net_network_wf|].
    exists n. split; [done|]. apply net_contains_network.
  - eapply Forall_impl; [exact Hl|]. by intros n [_ ?].
Qed.

(** The pools of the flags, when no range is a default route. *)
Lemma lb_pools_ok config :
  (∀ n, n ∈ parse_nets (loadbalancer_ip_range config) → 0 < net_prefix_len n) →
  pool_ok false (new (lb_ranges config).1) ∧ pool_ok true (new (lb_ranges config).2).
Proof.
  intros Hproper. split; apply new_pool_ok, Forall_forall;
    intros n [Hf Hn]%list_elem_of_filter; (split; [by apply Hproper|]);
    unfold of_net in Hf; by destruct (net_is_v6 n).
Qed.

End loadbalancer.

(** ** Announcing service addresses *)

Section vips.
Context `{IpNetLaws} {W : Type} `{!BgpEngine W}.
Import Advertise AdvertiseTheorems ServiceVips ServiceVipsTheorems.

(** The speaker takes every path and every withdrawal. *)
Class SpeakerAccepts : Prop := {
  add_accepted (p : Path) (w : W) : (add_path p w).1 = inr tt;
  delete_accepted (p : Path) (w : W) : (delete_path p w).1 = inr tt;
}.

Lemma calls_accepted {S A} (op : A → M S BgpError unit) (l : list A) s :
  (∀ x s, (op x s).1 = inr tt) → (mfor l op s).1 = inr tt.
Proof.
  intros Hop. revert s. induction l as [|x l IH]; intros s; [done|]. cbn [mfor].
  unfold mbind, M_bind. pose proof (Hop x s) as Hx.
  destruct (op x s) as [r s']. cbn in Hx. subst r. apply IH.
Qed.

Lemma sync_accepted `{!SpeakerAccepts} attrs desired nh enabled (adv : gset IpNet)
    (s : W * Speaker) :
  ∃ n, (advertiser_sync attrs desired nh enabled (adv, s)).1 = inr n.
Proof.
  assert (∀ p (s : W * Speaker), (add_path p s).1 = inr tt) as Hadd.
  { intros p [w sp]. pose proof (add_accepted p w) as Ha. cbn. unfold noting. cbn.
    by destruct (add_path p w) as [r w']; cbn in Ha; subst r. }
  assert (∀ p (s : W * Speaker), (delete_path p s).1 = inr tt) as Hdel.
  { intros p [w sp]. pose proof (delete_accepted p w) as Ha. cbn. unfold noting. cbn.
    by destruct (delete_path p w) as [r w']; cbn in Ha; subst r. }
  unfold advertiser_sync, adv_engine. munfold. cbn [fst snd].
  set (to_add := bset_iter _). set (to_del := bset_iter (adv ∖ _)).
  pose proof (calls_accepted (λ p, add_path (announce_path attrs nh p)) to_add s
                ltac:(intros; apply Hadd)) as Ha1.
  destruct (mfor to_add _ s) as [r1 s1]. cbn in Ha1. subst r1. cbn [fst snd].
  pose proof (calls_accepted (λ p, delete_path (withdraw_path nh p)) to_del s1
                ltac:(intros; apply Hdel)) as Ha2.
  destruct (mfor to_del _ s1) as [r2 s2]. cbn in Ha2. subst r2. by eexists.
Qed.

Lemma map_svc_vips_wf services slices node v :
  v ∈ SvcVipWire.map_svc_vips services slices node →
  Forall ip_wf (sv_cluster_ips v ++ sv_external_ips v ++ sv_lb_ips v).
Proof.
  intros (svc & _ & Hm)%list_elem_of_omap. revert Hm. unfold SvcVipWire.map_svc_vip.
  destruct (m_namespace _); [|done]. destruct (m_name _); [|done].
  destruct (svc_spec svc); [|done]. cbn [mbind option_bind]. destruct (decide _); [done|].
  intros [= <-]. cbn. rewrite !Forall_app. split_and!; apply parse_ips_wf.
Qed.

(** An address that the services of the stores ask the node to announce. *)
Definition wants_announced (d : AdvertiseDefaults) (node : string)
    (stores : list K8sService * list EndpointSlice) (ip : IpAddr) : Prop :=
  ∃ v, v ∈ SvcVipWire.map_svc_vips stores.1 stores.2 node ∧
    ((ip ∈ sv_cluster_ips v ∧
        announces (ad_cluster d) (sv_adv_cluster v) (sv_internal_traffic_local v) v) ∨
     (ip ∈ sv_external_ips v ∧
        announces (ad_external d) (sv_adv_external v) (sv_external_traffic_local v) v) ∨
     (ip ∈ sv_lb_ips v ∧ sv_skip_lb_ips v = false ∧
        announces (ad_loadbalancer d) (sv_adv_lb v) (sv_external_traffic_local v) v)).

Definition host_of (n : IpNet) (ip : IpAddr) : Prop :=
  net_addr n = ip ∧ net_prefix_len n = host_len ip.

Lemma vip_tick_run `{!SpeakerAccepts} attrs d nh node stores (adv : gset IpNet) (w : W) (sp : Speaker) :
  dom (sp_rib sp) = adv →
  ∃ adv' w' sp', vip_tick attrs d nh node stores (adv, (w, sp)) = Some (adv', (w', sp')) ∧
    dom (sp_rib sp') = adv' ∧
    ∀ n, n ∈ adv' ↔ ∃ ip, host_of n ip ∧ wants_announced d node stores ip.
Proof.
  intros Hadv. unfold vip_tick.
  destruct (advertised_service_vips_spec (SvcVipWire.map_svc_vips stores.1 stores.2 node) d)
    as (vips & -> & Hvips); [intros v Hv; by eapply map_svc_vips_wf|].
  cbn [mbind option_bind]. set (D := desired_set (bset_iter vips) true).
  assert (adv_between (sp_rib sp) adv D) as Hb.
  { intros p. rewrite <- elem_of_dom, Hadv. tauto. }
  pose proof (sync_converges attrs (bset_iter vips) nh true adv w sp Hb) as Hs.
  destruct (sync_accepted attrs (bset_iter vips) nh true adv (w, sp)) as [k Hk].
  destruct (advertiser_sync _ _ _ _ _) as [r [adv' [w' sp']]]. cbn in Hk. subst r.
  destruct Hs as [Ha Hdom]. exists adv', w', sp'. split; [done|]. split; [congruence|].
  intros n. rewrite Ha. unfold D, desired_set. rewrite elem_of_list_to_set, elem_of_bset_iter, Hvips.
  unfold wants_announced, host_of. naive_solver.
Qed.

End vips.

(** ** The choice of the BGP engine *)

Section engine.
Context `{IpNetLib} {W : Type}.
Context `{!Gobgp.GoBgpServiceClient W, !Gobgp.Endpoints, !Server.ProcessOps W, !Cni.DirOps W}.
Context `{!Server.ClockLaws (W := W)}.
Import Server.

(** The engine of gobgp comes with its running process, the other without. *)
Definition engine_process (e : SelectedEngine) (supervisor : option GobgpSupervisor) : Prop :=
  match e with
  | GobgpSelected => ∃ s, supervisor = Some s ∧ is_running s = true
  | LoggingSelected => supervisor = None
  end.

(** The choice of the engine ends, within ten seconds of probes. *)
Theorem build_engine_returns config local_ip (w : W) :
  ∃ e supervisor w', build_engine config local_ip w = Some ((e, supervisor), w') ∧
    engine_process e supervisor.
Proof.
  assert (∀ w : W, ∃ e supervisor w', logging_result w = Some ((e, supervisor), w') ∧
    engine_process e supervisor) as Hlog.
  { intros w0. by exists LoggingSelected, None, w0. }
  unfold build_engine. destruct (_ || _); [apply Hlog|].
  set (sup := supervisor_gobgpd _ _ _).
  assert (∀ r s, spawn (sup, w) = (inr r, s) → is_running s.1 = true) as Hrun.
  { unfold spawn. munfold. cbn [fst snd]. intros r s.
    destruct (proc_spawn _ _ w) as [[e|pid] w1]; [done|]. by intros [= _ <-]. }
  destruct (spawn (sup, w)) as [[e|u] [s w1]]; [apply Hlog|].
  pose proof (Hrun u _ eq_refl) as Hs. cbn in Hs.
  destruct (wait_port_ready_ends (admin_addr config +:+ ":" +:+ pretty (gobgp_admin_port config))
              10000 w1) as [[ready w2] Hw]; [lia|].
  change (S (S (Z.to_nat (10000 / 20)))) with PORT_PROBES in Hw. rewrite Hw.
  destruct ready; [|apply Hlog]. destruct (Gobgp.connect_lazy _ _) as [e|]; [apply Hlog|].
  destruct (bgp_start _ w2) as [[e|] w3]; [apply Hlog|].
  exists GobgpSelected, (Some s), w3. split; [done|]. by exists s.
Qed.
End engine.

(** ** A node *)

Module Node.
Import Controller Election AdvertiseTheorems Server.

Definition two_ranges : KubeRouterConfig :=
  {| advertise_cluster_ip := true; advertise_external_ip := true;
     advertise_loadbalancer_ip := true; advertise_pod_cidr := true; auto_mtu := true;
     bgp_graceful_restart := false; bgp_graceful_restart_deferral_time := 360000;
     bgp_graceful_restart_time := 90000; bgp_holdtime := 90000; bgp_port := 179;
     cache_sync_timeout := 60000; cleanup_config := false; cluster_asn := 64512;
     disable_source_dest_check := true; enable_cni := true; enable_ibgp := true;
     enable_ipv4 := true; enable_ipv6 := true; enable_overlay := true;
     enable_pod_egress := true; enable_pprof := false; excluded_cidrs := [];
     hairpin_mode := false; gobgp_admin_address := ""; gobgp_admin_port := 50051;
     health_addr := ""; health_port := 20244; hostname_override := "";
     injected_routes_sync_period := 60000; iptables_sync_period := 300000;
     ipvs_graceful_period := 30000; ipvs_graceful_termination := false; ipvs_permit_all := true;
     ipvs_sync_period := 300000; kubeconfig := ""; loadbalancer_default_class := true;
     loadbalancer_ip_range := ["10.0.0.0/30"; "fd00::/126"]; loadbalancer_sync_period := 60000;
     masquerade_all := false; master := ""; metrics_path := "/metrics"; metrics_port := 0;
     metrics_addr := ""; netpol_default_deny := false; nodeport_bindon_all_ip := false;
     nodes_full_mesh := true; overlay_encap := "ipip"; overlay_encap_port := 5555;
     overlay_type := "subnet"; override_nexthop := false; peer_router_asns := [];
     peer_router_ips := []; peer_router_multihop_ttl := 0; peer_router_passwords := [];
     peer_router_passwords_file := ""; peer_router_ports := []; router_id := "";
     routes_sync_period := 300000; run_firewall := true; run_loadbalancer := true;
     run_router := true; run_service_proxy := true; runtime_endpoint := "";
     service_cluster_ip_range := ["10.96.0.0/12"]; strict_external_ip_validation := true;
     service_external_ip_range := []; service_node_port_range := "30000-32767";
     service_tcp_timeout := 0; service_tcpfin_timeout := 0; service_udp_timeout := 0;
     v_level := "0" |}.

#[export] Instance calm_updater : StatusUpdater unit := {| append_ingress _ _ _ := mret tt |}.
#[export] Instance calm_lease : LeaseBackend unit := {| acquire_or_renew := mret true |}.

Definition service : LbService :=
  {| lb_namespace := "ns"; lb_name := "web"; is_loadbalancer := true;
     loadbalancer_class := Some "kube-router"; want_v4 := true; want_v6 := true;
     require_dual := true; lb_external_ips := []; lb_ingress_ips := [] |}.
Definition wakes : list LbWake := [LbSyncTick [service]; ElectionTick; LbSyncTick [service]].

Lemma two_ranges_proper n :
  n ∈ parse_nets (H := ref_net_lib) (loadbalancer_ip_range two_ranges) → 0 < net_prefix_len n.
Proof.
  assert (Forall (λ n, 0 < net_prefix_len n)
            (parse_nets (H := ref_net_lib) (loadbalancer_ip_range two_ranges))) as Hall.
  { apply Forall_forall. intros x Hx%list_elem_of_In. revert x Hx.
    apply List.Forall_forall. vm_compute. repeat constructor. }
  intros Hn. rewrite Forall_forall in Hall. by apply Hall.
Qed.


(** The service gets an address of each family once the agent leads. *)
Example addresses_given :
  (λ s, (lba_world s).2) <$>
    run_loadbalancer_loop (W := unit * list IngressCall) (H := ref_net_lib)
      two_ranges wakes (tt, []) =
  Some [("ns", "web", [ip_of "10.0.0.0"; ip_of "fd00::"])].
Proof. vm_compute. reflexivity. Qed.

(** A node whose gobgpd starts but never listens. *)
Record Deaf := { now : Z; spawned : list string; killed : list Z }.

#[export] Instance deaf_process : ProcessOps Deaf := {|
  proc_spawn p _ := λ w, (inr 4711, {| now := now w; spawned := spawned w ++ [p]; killed := killed w |});
  proc_start_kill pid := mmodify (λ w, {| now := now w; spawned := spawned w;
                                          killed := killed w ++ [pid] |});
  proc_wait _ := mret tt;
  tcp_connect _ w := (false, w);
  instant_now := now;
  sleep_ms d w := {| now := now w + d; spawned := spawned w; killed := killed w |} |}.
#[export] Instance deaf_files : Cni.DirOps Deaf := {|
  Cni.create_dir_all _ := mret tt; Cni.path_exists _ _ := true;
  Cni.fs_copy _ _ := mret tt; Cni.set_permissions _ _ := mret tt |}.
#[export] Instance deaf_client : Gobgp.GoBgpServiceClient Deaf := {|
  Gobgp.start_bgp _ := mret tt; Gobgp.stop_bgp _ := mret tt; Gobgp.rpc_add_peer _ := mret tt;
  Gobgp.rpc_delete_peer _ := mret tt; Gobgp.rpc_add_path _ := mret tt;
  Gobgp.rpc_delete_path _ := mret tt |}.
#[export] Instance any_endpoint : Gobgp.Endpoints := {| Gobgp.from_shared _ := None |}.
#[export] Instance deaf_clock : ClockLaws (W := Deaf).
Proof. split; intros; cbn; lia. Qed.

Definition boot : Deaf := {| now := 0; spawned := []; killed := [] |}.

Lemma build_engine_returns_witness :
  ∃ e supervisor w', build_engine (H := ref_net_lib) two_ranges (Some (ip_of "192.168.0.10")) boot =
    Some ((e, supervisor), w') ∧ engine_process e supervisor.
Proof. apply (build_engine_returns (H := ref_net_lib) two_ranges (Some (ip_of "192.168.0.10")) boot). Defined.

(** The engine falls back to logging, with no supervisor, and the process that
    was spawned keeps running. *)
Example gobgpd_left_running :
  build_engine (H := ref_net_lib) two_ranges (Some (ip_of "192.168.0.10")) boot =
  Some ((LoggingSelected, None), {| now := 10000; spawned := [GOBGPD_PATH]; killed := [] |}).
Proof. vm_compute. reflexivity. Qed.

#[export] Instance mock_accepts : SpeakerAccepts (H := ref_net_lib) (W := MockBgpEngine).
Proof. by split. Qed.

(** A service whose endpoint comes to the node. *)
Definition here_slice : EndpointSlice :=
  {| slice_meta := slice_meta Objects.remote_slice;
     slice_endpoints := Some [{| addresses := ["10.244.0.7"]; node_name := Some "node1";
                                 cond_ready := Some true |}];
     slice_ports := slice_ports Objects.remote_slice |}.

End Node.
