(* ===== verification/LbCluster.v ===== *)
(** * LbCluster: allocation across the agents of a cluster
    ([KubeStatusUpdater] of [lballoc_wire.rs] over the API server)

    The status update as a read, an append and a write against the resource
    version that was read; the API server; and the cluster as a step relation in
    which users edit services while agents run their passes one call at a time.
    Addresses stay unique over the whole cluster as long as passes do not overlap
    (what the lease is for, see [Lease]) and begin from a store that has caught up
    with the server; a pass from an older store hands out addresses twice. *)

From stdpp Require Import gmap sets list strings pretty functions relations.
From Stdlib Require Import Ascii ZArith Lia.
From S2P Require Import Prelude Text Net IpText Common K8s LbAlloc Netlink Routing Proxy ProxySync.
From S2P Require Import Agent Cni Wires Main WireTheorems ProcessTheorems.
Import Config Pools PoolsFacts Allocate AllocateFacts Controller ControllerFacts LbWire.

Local Open Scope Z_scope.

(** ** The status update *)

(** An object with its resource version. *)
Record Stored := { rv : Z; object : K8sService }.

(** [Api::get_status] and [replace_status] on a service of a namespace. *)
Class StatusApi (W : Type) := {
  get_status : string → string → M W string Stored;
  replace_status : string → string → Stored → M W string unit;
}.

(** [ingress.push(..)] for each address. *)
Definition push_ingress (ips : list IpAddr) (svc : K8sService) : K8sService :=
  {| svc_meta := svc_meta svc; svc_spec := svc_spec svc;
     svc_ingress := Some (default [] (svc_ingress svc) ++ (Some ∘ ip_to_string <$> ips)) |}.

Definition kube_append_ingress {W} `{!StatusApi W} (namespace name : string) (ips : list IpAddr)
    : M W string unit :=
  svc ← get_status namespace name;
  replace_status namespace name {| rv := rv svc; object := push_ingress ips (object svc) |}.

Definition kube_updater {W} `{!StatusApi W} : StatusUpdater W :=
  {| append_ingress := kube_append_ingress |}.

(** ** The API server *)

#[local] Abbreviation Key := (string * string)%type.
#[local] Abbreviation Objects := (gmap Key Stored).

(** A write against another version than the stored one is a conflict. *)
#[export] Instance api_server : StatusApi Objects := {|
  get_status ns name objs :=
    match objs !! (ns, name) with Some st => (inr st, objs) | None => (inl "not found", objs) end;
  replace_status ns name new objs :=
    match objs !! (ns, name) with
    | Some st =>
        if decide (rv new = rv st)
        then (inr tt, <[(ns, name) := {| rv := rv st + 1; object := object new |}]> objs)
        else (inl "conflict", objs)
    | None => (inl "not found", objs)
    end;
|}.

#[export] Instance server_updater : StatusUpdater Objects := kube_updater.

(** What an undisturbed update does. *)
Lemma append_ingress_run (ns name : string) (ips : list IpAddr) (objs : Objects) :
  append_ingress ns name ips objs =
  match objs !! (ns, name) with
  | Some st => (inr tt, <[(ns, name) := {| rv := rv st + 1; object := push_ingress ips (object st) |}]> objs)
  | None => (inl "not found", objs)
  end.
Proof.
  cbn. unfold kube_append_ingress, mbind, M_bind. cbn. destruct (objs !! (ns, name)) as [st|] eqn:Hst; [|done].
  cbn. rewrite Hst. by rewrite decide_True.
Qed.

Section cluster.
Context `{IpNetLaws}.

(** ** The cluster *)

Variable config : KubeRouterConfig.

(** The pools an agent starts with. *)
Definition start_pools : IpRanges * IpRanges :=
  let '(v4, v6) := lb_ranges config in (new v4, new v6).

Definition proper_pools : Prop :=
  pool_ok false start_pools.1 ∧ pool_ok true start_pools.2.

(** An address of a configured range. *)
Definition in_pool (ip : IpAddr) : Prop :=
  contains (if is_ipv6 ip then start_pools.2 else start_pools.1) ip = true.

#[local] Instance in_pool_dec ip : Decision (in_pool ip).
Proof. unfold in_pool. apply _. Defined.

(** The pool addresses a service holds, as the allocator sees it. *)
Definition held (svc : K8sService) : list IpAddr :=
  match map_lb_service svc with
  | Some s => filter in_pool (lb_external_ips s ++ lb_ingress_ips s)
  | None => []
  end.

(** A stored object: the server keeps it under its name, and with a spec. *)
Definition named_as (k : Key) (svc : K8sService) : Prop :=
  m_namespace (svc_meta svc) = Some k.1 ∧ m_name (svc_meta svc) = Some k.2 ∧ is_Some (svc_spec svc).

(** What users write: any service whose external IPs they do not take from the
    pools.  The status in it does not count, the server keeps its own. *)
Definition user_object (k : Key) (svc : K8sService) : Prop :=
  named_as k svc ∧
  ∀ spec ip, svc_spec svc = Some spec → ip ∈ parse_ips (default [] (external_ips spec)) → ¬ in_pool ip.
Definition with_status (ingress : option (list (option string))) (svc : K8sService) : K8sService :=
  {| svc_meta := svc_meta svc; svc_spec := svc_spec svc; svc_ingress := ingress |}.

(** A pass under way: its agent, the services still to come, and the addresses it
    takes for allocated. *)
Record Running := {
  agent : string;
  todo : list LbService;
  taken4 : list IpAddr;
  taken6 : list IpAddr;
  count : nat;
}.

Record Cluster := {
  objects : Objects;
  pools : string → IpRanges * IpRanges;
  running : option Running;
}.

Definition with_objects (s : Cluster) (objs : Objects) : Cluster :=
  {| objects := objs; pools := pools s; running := running s |}.
Definition with_running (s : Cluster) (r : option Running) : Cluster :=
  {| objects := objects s; pools := pools s; running := r |}.

(** The store of an agent that has caught up, in any order. *)
Definition caught_up (objs : Objects) (services : list LbService) : Prop :=
  services ≡ₚ lb_services (object <$> (map_to_list objs).*2).

(** The locals of [reconcile] when it looks at its next service. *)
Definition turn_of (s : Cluster) (r : Running) : Pass Objects :=
  {| v4_ranges := (pools s (agent r)).1; v6_ranges := (pools s (agent r)).2;
     a4 := taken4 r; a6 := taken6 r; updated := count r; world := objects s |}.

(** After a turn that the agent goes on from. *)
Definition after_turn (s : Cluster) (r : Running) (rest : list LbService) (p : Pass Objects) : Cluster :=
  {| objects := world p;
     pools := <[agent r := (v4_ranges p, v6_ranges p)]> (pools s);
     running := Some {| agent := agent r; todo := rest; taken4 := a4 p; taken6 := a6 p;
                      count := updated p |} |}.

(** After a turn whose call failed, or seemed to: the pass ends. *)
Definition after_failure (s : Cluster) (r : Running) (p : Pass Objects) (objs : Objects) : Cluster :=
  {| objects := objs;
     pools := <[agent r := (v4_ranges p, v6_ranges p)]> (pools s);
     running := None |}.

(** What can happen.  Users create, edit and delete services, also while a pass
    runs: the server gives a new service an empty status, and an edited one the
    status it had, or an empty one when it no longer is a load balancer.  An
    agent begins a pass when no pass runs (it holds the lease), over a store that
    has caught up, and takes its turns one by one; a turn may fail with its write
    lost or applied, a pass may stop at any point, and an agent may restart with
    fresh pools. *)
Inductive step : Cluster → Cluster → Prop :=
  | step_create s k v svc : objects s !! k = None → user_object k svc →
      step s (with_objects s (<[k := {| rv := v; object := with_status None svc |}]> (objects s)))
  | step_edit s k st v svc ingress : objects s !! k = Some st → user_object k svc →
      ingress = svc_ingress (object st) ∨ ingress = None →
      step s (with_objects s (<[k := {| rv := v; object := with_status ingress svc |}]> (objects s)))
  | step_delete s k : step s (with_objects s (delete k (objects s)))
  | step_begin s a services : running s = None → caught_up (objects s) services →
      step s (with_running s (Some
        {| agent := a; todo := services;
           taken4 := (allocated_ips services (pools s a).1 (pools s a).2).1;
           taken6 := (allocated_ips services (pools s a).1 (pools s a).2).2; count := 0 |}))
  | step_turn s r svc rest p : running s = Some r → todo r = svc :: rest →
      reconcile_one (loadbalancer_default_class config) svc (turn_of s r) = (inr tt, p) →
      step s (after_turn s r rest p)
  | step_failed s r svc rest res p objs : running s = Some r → todo r = svc :: rest →
      reconcile_one (loadbalancer_default_class config) svc (turn_of s r) = (res, p) →
      objs = world p ∨ objs = objects s →
      step s (after_failure s r p objs)
  | step_end s : step s (with_running s None)
  | step_restart s a :
      step s {| objects := objects s; pools := <[a := start_pools]> (pools s);
                running := match running s with
                           | Some r => if decide (agent r = a) then None else Some r
                           | None => None
                           end |}.

Definition initial : Cluster :=
  {| objects := ∅; pools := λ _, start_pools; running := None |}.

(** No address of a pool is held by two services. *)
Definition unique (objs : Objects) : Prop :=
  ∀ k1 k2 st1 st2 ip, objs !! k1 = Some st1 → objs !! k2 = Some st2 →
    ip ∈ held (object st1) → ip ∈ held (object st2) → k1 = k2.

(** ** The invariant *)

Definition tracked (r : Running) (ip : IpAddr) : Prop :=
  ip ∈ (if is_ipv6 ip then taken6 r else taken4 r).

Record inv (s : Cluster) : Prop := {
  inv_unique : unique (objects s);
  inv_named k st : objects s !! k = Some st → named_as k (object st);
  inv_pools a : pool_ok false (pools s a).1 ∧ pool_ok true (pools s a).2 ∧
    ranges (pools s a).1 = ranges start_pools.1 ∧ ranges (pools s a).2 = ranges start_pools.2;
  inv_running r : running s = Some r → ∀ k st ip, objects s !! k = Some st →
    ip ∈ held (object st) → tracked r ip;
}.

(** A change of one object that gives it no address others hold or that the pass
    does not track keeps the invariant. *)
Lemma inv_insert s k st' (fresh : list IpAddr) (ps : string → IpRanges * IpRanges) (run : option Running) :
  inv s → named_as k (object st') →
  (∀ ip, ip ∈ held (object st') → ip ∈ fresh ∨ ∃ st, objects s !! k = Some st ∧ ip ∈ held (object st)) →
  (∀ k' st ip, objects s !! k' = Some st → ip ∈ held (object st) → ip ∉ fresh) →
  (∀ a, pool_ok false (ps a).1 ∧ pool_ok true (ps a).2 ∧
     ranges (ps a).1 = ranges start_pools.1 ∧ ranges (ps a).2 = ranges start_pools.2) →
  (∀ r, run = Some r → (∀ ip, ip ∈ fresh → in_pool ip → tracked r ip) ∧
     ∀ k st ip, objects s !! k = Some st → ip ∈ held (object st) → tracked r ip) →
  inv {| objects := <[k := st']> (objects s); pools := ps; running := run |}.
Proof.
  intros [U N _ _] Hn Hheld Hfresh Hp Hr. split; cbn; [| |done|].
  - assert (∀ k1 k2 st2 ip, (<[k := st']> (objects s)) !! k1 = Some st' → k1 = k → k2 ≠ k →
      objects s !! k2 = Some st2 → ip ∈ held (object st') → ip ∈ held (object st2) → k1 = k2) as Hone.
    { intros k1 k2 st2 ip _ -> Hne Hk2 H1 H2. destruct (Hheld ip H1) as [Hf|(st & Hst & Hin)].
      - by destruct (Hfresh k2 st2 ip Hk2 H2).
      - by apply (U k k2 st st2 ip). }
    intros k1 k2 st1 st2 ip H1 H2 Hi1 Hi2.
    destruct (decide (k1 = k)) as [->|Hk1], (decide (k2 = k)) as [->|Hk2]; try done.
    + apply lookup_insert_Some in H1 as [[_ <-]|[? _]]; [|done]. rewrite lookup_insert_ne in H2 by done.
      apply (Hone k k2 st2 ip); try done. by rewrite lookup_insert_eq.
    + apply lookup_insert_Some in H2 as [[_ <-]|[? _]]; [|done]. rewrite lookup_insert_ne in H1 by done.
      symmetry. apply (Hone k k1 st1 ip); try done. by rewrite lookup_insert_eq.
    + rewrite lookup_insert_ne in H1, H2 by done. by apply (U k1 k2 st1 st2 ip).
  - intros k1 st1 Hl. apply lookup_insert_Some in Hl as [[<- <-]|[_ Hl]]; [done|by apply N].
  - intros r Hrun k1 st1 ip Hl Hin. destruct (Hr r Hrun) as [Hf Ho].
    apply lookup_insert_Some in Hl as [[<- <-]|[_ Hl]]; [|by eapply Ho].
    destruct (Hheld ip Hin) as [Hfr|(st & Hst & Hin')]; [|by eapply Ho].
    apply Hf; [done|]. unfold held in Hin. destruct (map_lb_service (object st')); [|by apply elem_of_nil in Hin].
    by apply list_elem_of_filter in Hin as [? _].
Qed.

(** ** The steps *)

Lemma ingress_push ips svc :
  Forall ip_wf ips → ingress_ips (push_ingress ips svc) = ingress_ips svc ++ ips.
Proof.
  intros Hwf. unfold ingress_ips, parse_ips, filter_map. cbn. rewrite !omap_app. f_equal.
  induction Hwf as [|ip ips Hip _ IH]; [done|]. cbn. by rewrite parse_ip_to_string, IH.
Qed.

Lemma held_push ips svc ip :
  Forall ip_wf ips → ip ∈ held (push_ingress ips svc) → ip ∈ ips ∨ ip ∈ held svc.
Proof.
  intros Hwf. unfold held, map_lb_service. cbn [svc_meta svc_spec push_ingress].
  destruct (m_namespace _); [|by intros ?%elem_of_nil]. destruct (m_name _); [|by intros ?%elem_of_nil].
  destruct (svc_spec svc); [|by intros ?%elem_of_nil].
  cbn [mbind option_bind lb_external_ips lb_ingress_ips]. rewrite ingress_push by done.
  rewrite !list_elem_of_filter, !elem_of_app. tauto.
Qed.

Lemma held_in_pool svc ip : ip ∈ held svc → in_pool ip.
Proof.
  unfold held. destruct (map_lb_service svc); [|by intros ?%elem_of_nil].
  by intros [? _]%list_elem_of_filter.
Qed.

(** A pass that begins from a store that has caught up tracks everything held. *)
Lemma begin_tracks s services (r4 r6 : IpRanges) k st ip :
  caught_up (objects s) services →
  ranges r4 = ranges start_pools.1 → ranges r6 = ranges start_pools.2 →
  objects s !! k = Some st → ip ∈ held (object st) →
  ip ∈ (if is_ipv6 ip then (allocated_ips services r4 r6).2 else (allocated_ips services r4 r6).1).
Proof.
  intros Hc R4 R6 Hk Hip. pose proof (held_in_pool _ _ Hip) as Hin. unfold held in Hip.
  destruct (map_lb_service (object st)) as [svc|] eqn:Hsvc; [|by apply elem_of_nil in Hip].
  apply list_elem_of_filter in Hip as [_ Hip].
  assert (svc ∈ services) as Hs.
  { rewrite Hc. apply list_elem_of_omap. exists (object st). split; [|done].
    apply list_elem_of_fmap. exists st. split; [done|]. apply list_elem_of_fmap.
    exists (k, st). split; [done|]. by apply elem_of_map_to_list. }
  unfold in_pool in Hin.
  destruct (is_ipv6 ip) eqn:Hf; cbn; apply list_elem_of_bind; exists svc; (split; [|done]);
    unfold allocated_of; apply list_elem_of_filter; (split; [|done]); (split; [done|]).
  - by rewrite (contains_ranges _ _ ip R6).
  - by rewrite (contains_ranges _ _ ip R4).
Qed.

(** What the call of a turn leaves of the store. *)
Lemma turn_world (s : Cluster) (svc : LbService) (ips : list IpAddr) (w : Objects) (res : string + unit) :
  append_ingress (lb_namespace svc) (lb_name svc) ips (objects s) = (res, w) →
  w = objects s ∨ ∃ st, objects s !! (lb_namespace svc, lb_name svc) = Some st ∧
    w = <[(lb_namespace svc, lb_name svc) := {| rv := rv st + 1; object := push_ingress ips (object st) |}]> (objects s).
Proof.
  rewrite append_ingress_run. destruct (objects s !! _) as [st|]; intros [= _ <-]; [right; by exists st|by left].
Qed.

(** What a turn leaves of the cluster, whether the agent goes on from it or not. *)
Lemma turn_inv (s : Cluster) (r : Running) (svc : LbService) (res : LbErr + unit) (p : Pass Objects) (objs : Objects) (run : option Running) :
  inv s → running s = Some r →
  reconcile_one (loadbalancer_default_class config) svc (turn_of s r) = (res, p) →
  objs = world p ∨ objs = objects s →
  (∀ r', run = Some r' → taken4 r' = a4 p ∧ taken6 r' = a6 p) →
  inv {| objects := objs; pools := <[agent r := (v4_ranges p, v6_ranges p)]> (pools s);
         running := run |}.
Proof.
  intros I Hr Hrec Hobjs Hrun. pose proof I as [U N P T].
  destruct (P (agent r)) as (P4 & P6 & R4 & R6).
  destruct (reconcile_one_effect (loadbalancer_default_class config) svc (turn_of s r) P4 P6)
    as (res' & p' & Heq & K4 & K6 & S4 & S6 & Hcase). rewrite Hrec in Heq. injection Heq as <- <-.
  assert (∀ a, pool_ok false (<[agent r := (v4_ranges p, v6_ranges p)]> (pools s) a).1 ∧
    pool_ok true (<[agent r := (v4_ranges p, v6_ranges p)]> (pools s) a).2 ∧
    ranges (<[agent r := (v4_ranges p, v6_ranges p)]> (pools s) a).1 = ranges start_pools.1 ∧
    ranges (<[agent r := (v4_ranges p, v6_ranges p)]> (pools s) a).2 = ranges start_pools.2) as Hpools.
  { intros a. destruct (decide (a = agent r)) as [->|Hne].
    - rewrite fn_lookup_insert. cbn. split_and!; try done; etrans; eauto.
    - rewrite fn_lookup_insert_ne by done. apply P. }
  assert (∀ ip, tracked r ip → ∀ r', run = Some r' → tracked r' ip) as Hkeep.
  { intros ip Ht r' Hr'. destruct (Hrun r' Hr') as [T4 T6]. unfold tracked in *. rewrite T4, T6.
    destruct Hcase as [(_ & -> & -> & _)|(ips & _ & _ & _ & -> & -> & _)]; cbn; [done|].
    destruct (is_ipv6 ip); apply elem_of_app; by left. }
  assert (objs = objects s → inv {| objects := objs;
    pools := <[agent r := (v4_ranges p, v6_ranges p)]> (pools s); running := run |}) as Hsame.
  { intros ->. split; cbn; try done. intros r' Hr' k st ip Hk Hip. by eapply Hkeep; [eapply T|]. }
  destruct Hobjs as [->| ->]; [|by apply Hsame].
  destruct Hcase as [(_ & _ & _ & Hw)|(ips & _ & Hwf & Hips & Ha4 & Ha6 & Hcall)]; [by apply Hsame|].
  destruct (append_ingress _ _ ips _) as [x w] eqn:Ha. destruct Hcall as [Hw _].
  destruct (turn_world s svc ips w x Ha) as [->|(st & Hst & ->)]; [by apply Hsame|].
  rewrite Hw. apply (inv_insert s _ _ ips); try done.
  - cbn. apply (N _ _ Hst).
  - cbn. intros ip Hip. destruct (held_push ips _ ip Hwf Hip) as [?|?]; [by left|right; by exists st].
  - intros k' st' ip Hk' Hip Hin. destruct (Hips ip Hin) as [Hn _]. apply Hn.
    exact (T r Hr k' st' ip Hk' Hip).
  - intros r' Hr'. split; [|intros k' st' ip Hk' Hip; by eapply Hkeep; [eapply T|]].
    intros ip Hin _. destruct (Hrun r' Hr') as [T4 T6]. unfold tracked. rewrite T4, T6, Ha4, Ha6.
    unfold v4_of, v6_of.
    destruct (is_ipv6 ip) eqn:Hf; apply elem_of_app; right; apply list_elem_of_filter; split; try done;
      unfold is_ipv4; by rewrite Hf.
Qed.

(** What a service that a user wrote holds comes from its status. *)
Lemma held_user k svc ingress ip :
  user_object k svc → ip ∈ held (with_status ingress svc) →
  in_pool ip ∧ ip ∈ parse_ips (filter_map id (default [] ingress)).
Proof.
  intros [(Hns & Hname & [spec Hspec]) Hext]. unfold held, map_lb_service. cbn [with_status svc_meta svc_spec].
  rewrite Hns, Hname, Hspec. cbn [mbind option_bind lb_external_ips lb_ingress_ips].
  intros [Hin [He|Hi]%elem_of_app]%list_elem_of_filter; [by destruct (Hext spec ip Hspec He)|by split].
Qed.

Lemma held_status k st ip :
  named_as k (object st) → in_pool ip → ip ∈ ingress_ips (object st) → ip ∈ held (object st).
Proof.
  intros (Hns & Hname & [spec Hspec]) Hin Hi. unfold held, map_lb_service. rewrite Hns, Hname, Hspec.
  cbn [mbind option_bind lb_external_ips lb_ingress_ips]. apply list_elem_of_filter.
  split; [done|]. apply elem_of_app. by right.
Qed.

(** Every step keeps the invariant. *)
Lemma cluster_step_inv s s' : proper_pools → inv s → step s s' → inv s'.
Proof.
  intros [O4 O6] I Hstep. pose proof I as [U N P T].
  destruct Hstep as [s k v svc Hk Hu|s k st v svc ingress Hk Hu Hi|s k|s a services Hrun Hc
    |s r svc rest p Hr Htd Hrec|s r svc rest res p objs Hr Htd Hrec Hobjs|s|s a].
  - apply (inv_insert s k _ []); try done; [apply Hu|..].
    + intros ip [_ Hip]%(held_user k); [|done]. by apply elem_of_nil in Hip.
    + intros k' st' ip _ _. apply not_elem_of_nil.
    + intros r Hr. split; [by intros ip ?%elem_of_nil|]. by apply T.
  - apply (inv_insert s k _ []); try done; [apply Hu|..].
    + intros ip [Hin Hip]%(held_user k); [|done]. right. exists st. split; [done|].
      destruct Hi as [->| ->]; [|by apply elem_of_nil in Hip]. apply (held_status k); [by apply N|done|exact Hip].
    + intros k' st1 ip _ _. apply not_elem_of_nil.
    + intros r Hr. split; [by intros ip ?%elem_of_nil|]. by apply T.
  - split; cbn; try done.
    + intros k1 k2 st1 st2 ip [_ H1]%lookup_delete_Some [_ H2]%lookup_delete_Some. by apply U.
    + intros k' st [_ Hk]%lookup_delete_Some. by apply N.
    + intros r Hr k' st ip [_ Hk]%lookup_delete_Some. by apply (T r Hr k' st).
  - split; cbn; try done. intros r [= <-] k st ip Hk Hip. unfold tracked. cbn -[allocated_ips].
    destruct (P a) as (_ & _ & R4 & R6). by apply (begin_tracks s services _ _ k st).
  - apply (turn_inv s r svc (inr tt) p); try done; [by left|]. by intros r' [= <-].
  - by apply (turn_inv s r svc res p).
  - by split.
  - split; cbn; try done.
    + intros b. destruct (decide (b = a)) as [->|Hne].
      * rewrite fn_lookup_insert. by split_and!.
      * rewrite fn_lookup_insert_ne by done. apply P.
    + intros r Hr. destruct (running s) as [r0|]; [|done]. destruct (decide _); [done|].
      injection Hr as <-. by apply T.
Qed.

Lemma cluster_initial_inv : proper_pools → inv initial.
Proof. intros [O4 O6]. by split; cbn. Qed.

Lemma cluster_reachable_inv s : proper_pools → rtc step initial s → inv s.
Proof.
  intros Hp. apply (rtc_ind_r (R := step) (λ s, inv s) initial); [by apply cluster_initial_inv|].
  intros y z _ Hstep Hy. by eapply cluster_step_inv.
Qed.

(** ** The code's pass is a sequence of steps *)

(** The cluster after a pass of an agent that nothing disturbed. *)
Definition after_pass (s : Cluster) (a : string) (p : Pass Objects) : Cluster :=
  {| objects := world p; pools := <[a := (v4_ranges p, v6_ranges p)]> (pools s); running := None |}.

Lemma turns_steps (s : Cluster) (r : Running) (res : LbErr + unit) (p : Pass Objects) :
  running s = Some r →
  mfor (todo r) (reconcile_one (loadbalancer_default_class config)) (turn_of s r) = (res, p) →
  ∃ s', rtc step s s' ∧ objects s' = world p ∧ running s' = None ∧
    (∀ b, pools s' b = pools (after_pass s (agent r) p) b).
Proof.
  destruct r as [a td t4 t6 n]. cbn [todo agent].
  revert s t4 t6 n. induction td as [|svc td IH]; intros s t4 t6 n Hr Hfor.
  - cbn in Hfor. injection Hfor as <- <-. exists (with_running s None).
    split; [apply rtc_once, step_end|]. cbn. split_and!; try done. intros b.
    destruct (decide (b = a)) as [->|Hne]; [|by rewrite fn_lookup_insert_ne].
    rewrite fn_lookup_insert. by destruct (pools s a).
  - cbn [mfor] in Hfor. unfold mbind, M_bind in Hfor.
    destruct (reconcile_one _ svc _) as [[e|[]] p'] eqn:Hone.
    + injection Hfor as <- <-. eexists. split.
      { eapply rtc_once, step_failed; [exact Hr|reflexivity|exact Hone|by left]. }
      done.
    + pose proof (step_turn s _ svc td p' Hr eq_refl Hone) as Hstep.
      destruct (IH (after_turn s {| agent := a; todo := svc :: td; taken4 := t4; taken6 := t6; count := n |}
        td p') (a4 p') (a6 p') (updated p') eq_refl) as (s' & Hs' & Ho & Hrun & Hp).
      { unfold turn_of. cbn. rewrite fn_lookup_insert. destruct p'. exact Hfor. }
      exists s'. split; [by eapply rtc_l|]. split_and!; try done. intros b. rewrite Hp. cbn.
      destruct (decide (b = a)) as [->|Hne]; [by rewrite !fn_lookup_insert|].
      by rewrite !fn_lookup_insert_ne.
Qed.

(** A pass of [reconcile] from a store that has caught up, as the agent runs it
    against the server, is a run of the cluster. *)
Lemma reconcile_steps (s : Cluster) (a : string) (services : list LbService) (res : LbErr + unit) (p : Pass Objects) :
  running s = None → caught_up (objects s) services →
  reconcile (loadbalancer_default_class config) services (pools s a).1 (pools s a).2 (objects s) = (res, p) →
  ∃ s', rtc step s s' ∧ objects s' = world p ∧ running s' = None ∧
    (∀ b, pools s' b = pools (after_pass s a p) b).
Proof.
  intros Hr Hc Hrec. pose proof (step_begin s a services Hr Hc) as Hstep.
  unfold reconcile in Hrec. destruct (allocated_ips services _ _) as [al4 al6] eqn:Hal.
  cbn [fst snd] in Hstep.
  destruct (turns_steps _ _ res p (eq_refl : running (with_running s (Some _)) = Some
    {| agent := a; todo := services; taken4 := al4; taken6 := al6; count := 0 |}) Hrec)
    as (s' & Hs' & Hrest).
  exists s'. split; [by eapply rtc_l|done].
Qed.

End cluster.

(** ** A cluster with two agents *)

Module TwoAgents.
Import Node.

Definition wanted : ServiceSpec :=
  {| type_ := Some "LoadBalancer"; cluster_ip := None; cluster_ips := None; external_ips := None;
     service_ports := None; session_affinity := None; client_ip_timeout_seconds := None;
     internal_traffic_policy := None; external_traffic_policy := None;
     health_check_node_port := None; ip_families := Some ["IPv4"]; ip_family_policy := None;
     load_balancer_class := None |}.

(** A fresh service that wants an IPv4 address. *)
Definition fresh (name : string) : Stored :=
  {| rv := 7;
     object := {| svc_meta := {| m_namespace := Some "ns"; m_name := Some name; m_labels := None;
                                 m_annotations := None |};
                  svc_spec := Some wanted; svc_ingress := None |} |}.

Definition store (objs : Objects) : list LbService :=
  lb_services (object <$> (map_to_list objs).*2).

Definition pass (services : list LbService) (objs : Objects) : (LbErr + unit) * Pass Objects :=
  reconcile (H := ref_net_lib) (loadbalancer_default_class two_ranges) services
    (start_pools (H := ref_net_lib) two_ranges).1 (start_pools (H := ref_net_lib) two_ranges).2 objs.

Definition objs1 : Objects := {[("ns", "a") := fresh "a"]}.
Definition objs2 : Objects := world (pass (store objs1) objs1).2.
Definition objs3 : Objects := <[("ns", "b") := fresh "b"]> objs2.
Definition objs4 : Objects := world (pass (store objs3) objs3).2.

Definition addresses (objs : Objects) : list (option (list (option string))) :=
  (λ st, svc_ingress (object st)) <$> (map_to_list objs).*2.

(** One agent serves the first service; another, with a cursor of its own, then
    serves the second. *)
Example served :
  addresses objs4 = [Some [Some "10.0.0.0"]; Some [Some "10.0.0.1"]].
Proof. vm_compute. reflexivity. Qed.

Lemma fresh_user name : user_object (H := ref_net_lib) two_ranges ("ns", name) (object (fresh name)).
Proof.
  split; [split_and!; [reflexivity..|by eexists]|]. intros spec ip [= <-] Hip. by apply elem_of_nil in Hip.
Qed.

Lemma served_run :
  ∃ s, rtc (step (H := ref_net_lib) two_ranges) (initial (H := ref_net_lib) two_ranges) s ∧
    objects s = objs4.
Proof.
  set (cfg := two_ranges). set (s0 := initial (H := ref_net_lib) cfg).
  pose proof (step_create (H := ref_net_lib) cfg s0 ("ns", "a") 7 (object (fresh "a")) eq_refl
    (fresh_user "a")) as Ha.
  destruct (reconcile_steps (H := ref_net_lib) cfg (with_objects s0 objs1) "n1" (store objs1) _ _ eq_refl
    (Permutation_refl _) (surjective_pairing (pass (store objs1) objs1))) as (s2 & H2 & O2 & R2 & P2).
  change (world _) with objs2 in O2.
  assert (step (H := ref_net_lib) cfg s2 (with_objects s2 objs3)) as Hb.
  { unfold objs3. rewrite <- O2.
    apply (step_create (H := ref_net_lib) cfg s2 ("ns", "b") 7 (object (fresh "b"))); [by rewrite O2|apply fresh_user]. }
  assert (pools s2 "n2" = start_pools (H := ref_net_lib) cfg) as Hp.
  { rewrite P2. unfold after_pass. cbn [pools]. by rewrite fn_lookup_insert_ne. }
  destruct (reconcile_steps (H := ref_net_lib) cfg (with_objects s2 objs3) "n2" (store objs3)
    (pass (store objs3) objs3).1 (pass (store objs3) objs3).2) as (s4 & H4 & O4 & _).
  { exact R2. }
  { apply Permutation_refl. }
  { cbn [pools with_objects objects]. rewrite Hp. apply surjective_pairing. }
  exists s4. split; [|exact O4].
  eapply rtc_l; [exact Ha|]. etrans; [exact H2|]. eapply rtc_l; [exact Hb|exact H4].
Qed.


(** The hypothesis on the store matters: with a pool of one address and two passes
    of one agent over the same snapshot, in two orders, both services hold the
    address. *)
Definition one_address : IpRanges := new (parse_nets (H := ref_net_lib) ["10.0.0.0/32"]).

Definition stale : Pass Objects :=
  let objs := <[("ns", "b") := fresh "b"]> objs1 in
  let p := (reconcile (H := ref_net_lib) true (store objs) one_address (new []) objs).2 in
  (reconcile (H := ref_net_lib) true (rev (store objs)) (v4_ranges p) (v6_ranges p) (world p)).2.

Example address_twice :
  addresses (world stale) = [Some [Some "10.0.0.0"]; Some [Some "10.0.0.0"]].
Proof. vm_compute. reflexivity. Qed.
End TwoAgents.
