(* ===== verification/Start.v ===== *)
(** * Start: from the command line to the running controllers
    ([crates/kube-router-rs/src/main.rs])

    [main] up to the controllers it spawns, how each controller gets from the
    API server to its first pass, the loops that run until the shutdown, and what
    the routing controller does at the shutdown.  What waits is cut at the wait:
    a loop is a function of the wakes it sees. *)

From stdpp Require Import gmap sets list strings pretty.
From Stdlib Require Import Ascii ZArith Lia.
From S2P Require Import Prelude Text Net Common K8s LbAlloc Netlink Bgp Grpc Routing Proxy ProxySync.
From S2P Require Import Netpol Synth Agent Genetlink Cni Wires Main Observability Clients.
Import Config Health Orchestrate KubeClient.

Local Open Scope Z_scope.

(** ** [main] *)

Inductive Controller := RoutingController | PolicyFirewall | ServiceProxyController | LbController.

(** The surface a listener serves. *)
Inductive Surface := HealthSurface | MetricsSurface (path : string).

(** [TcpListener::bind] *)
Class TcpListeners (W : Type) := { tcp_bind : string → M W string unit }.

Inductive MainError := ConfigurationError (e : ConfigError) | NotRoot (euid : Z) | BindFailed (e : string).

Record Running := {
  health : gmap Component ComponentHealth;
  servers : list (string * Surface);
  controllers : list Controller;
}.

Inductive Outcome := CleanedUp | Started (r : Running).

(** The controllers spawned, in order. *)
Definition spawned (config : KubeRouterConfig) : list Controller :=
  (if run_router config then [RoutingController] else []) ++
  (if run_firewall config then [PolicyFirewall] else []) ++
  (if run_service_proxy config then [ServiceProxyController] else []) ++
  (if run_loadbalancer config then [LbController] else []).

Definition register_all (components : list (Component * Z)) (now : Z)
    : gmap Component ComponentHealth :=
  foldl (λ h c, register c.1 c.2 now h) ∅ components.

Section main.
Context `{IpNetLib} {W : Type} `{!TcpListeners W, !CommandRunner W, !Clock W}.

(** One listener; none for port 0. *)
Definition start_server (addr : string) (port : Z) (surface : Surface)
    : M W MainError (list (string * Surface)) :=
  if port =? 0 then mret []
  else
    let addr := bind_addr addr port in
    mmap_err BindFailed (tcp_bind addr);;
    mret [(addr, surface)].

Definition main_start (config : KubeRouterConfig) (euid : Z) : M W MainError Outcome :=
  match validate config with
  | inl e => mfail (ConfigurationError e)
  | inr _ =>
      if cleanup_config config then
        mmodify (Cleanup.cleanup_run config);; mret CleanedUp
      else
        match require_root euid with
        | inl e => mfail (NotRoot e)
        | inr _ =>
            w ← mget;
            let health := register_all (components_for config) (clock_now w) in
            s1 ← start_server (health_addr config) (health_port config) HealthSurface;
            s2 ← start_server (metrics_addr config) (metrics_port config)
                   (MetricsSurface (metrics_path config));
            mret (Started {| health := health; servers := s1 ++ s2;
                             controllers := spawned config |})
        end
  end.
End main.

(** ** From the API server to a controller *)

Inductive Resource := Nodes | Services | EndpointSlices | Policies | Pods | Namespaces.

(** The stores of the reflectors: their contents, and after how long all of some
    have been filled for the first time (never, if [None]). *)
Class Informers (W : Type) := {
  node_store : W → list K8sNode;
  stores_ready : list Resource → W → option Z * W;
}.

Inductive StartError := ClientFailed (e : ClientError) | CacheSyncTimeout (after : Z) | NoNodeName
  | MetricsPanic (why : string).

Section start.
Context `{IpNetLib} {W : Type} `{!KubeConfigs W, !Informers W}.
Context (env : string → option string).

Definition kube_client (config : KubeRouterConfig) : M W StartError client :=
  mmap_err ClientFailed (build_client (Some (kubeconfig config)) (Some (master config))).

Definition await_caches (config : KubeRouterConfig) (resources : list Resource)
    : M W StartError unit := λ w,
  let '(ready, w) := stores_ready resources w in
  match wait_with_timeout ready (cache_sync_timeout config) with
  | inl after => (inl (CacheSyncTimeout after), w)
  | inr _ => (inr tt, w)
  end.

Definition this_node (config : KubeRouterConfig) : M W StartError string :=
  match resolve_node_name env (hostname_override config) with
  | Some name => mret name
  | None => mfail NoNodeName
  end.

(** [run_firewall] up to the loop. *)
Definition start_firewall `{!CommandRunner W} (config : KubeRouterConfig)
    : M W StartError (PolicyController.FirewallController (W := W)) :=
  kube_client config;;
  await_caches config [Policies; Pods; Namespaces];;
  name ← this_node config;
  kube_client config;;
  await_caches config [Nodes];;
  w ← mget;
  mret (firewall_controller config name (RoutingWire.local_pod_cidrs (node_store w) name)).

(** [run_serviceproxy] up to the loop: the name of the node and the synchroniser. *)
Definition start_serviceproxy `{!CommandRunner W, !FileOps W, !FileReader W, !NetlinkSockets W,
    !Endian, !Annotations.PeersYaml, !MetricsRegistry.Gauges W} (config : KubeRouterConfig)
    : M W StartError (string * SyncConfig (W := W)) :=
  kube_client config;;
  await_caches config [Services; EndpointSlices; Nodes];;
  name ← this_node config;
  w ← mget;
  let pod_cidrs := RoutingWire.local_pod_cidrs (node_store w) name in
  let primary_ip := Peers.nb_ip <$>
                    RoutingWire.local_node (node_store w) (cluster_asn config) name in
  mmodify (setup_ipvs_sysctls primary_ip);;
  node_ips ← (λ w, let '(ips, w) := proxy_node_ips config primary_ip w in (inr ips, w));
  mmap_err MetricsPanic MetricsRegistry.register_services;;
  mret (name, service_sync_config config primary_ip node_ips pod_cidrs).

(** [run_loadbalancer] up to the loop: the namespace of the lease and the identity. *)
Definition lease_namespace : string := default "kube-system" (env "POD_NAMESPACE").
Definition lease_identity : string :=
  match env "POD_NAME" with Some n => n | None => default "kube-router-rs" (env "HOSTNAME") end.

Definition start_loadbalancer (config : KubeRouterConfig) : M W StartError (LbAgent W) :=
  kube_client config;;
  await_caches config [Services];;
  w ← mget;
  mret (lb_start config w).

Context `{!Annotations.PeersYaml, !ExternalPeers.PeerEntriesYaml, !JsonText}.
Context `{!FileOps W, !Cni.DirOps W, !CommandRunner W}.
Context `{!Gobgp.GoBgpServiceClient W, !Gobgp.Endpoints, !Server.ProcessOps W}.

(** [start_routing] on the nodes of the store. *)
Definition routing_tasks (config : KubeRouterConfig) (name : string)
    : M W StartError (option RoutingTasks) := λ w,
  match start_routing config (node_store w) name w with
  | Some (tasks, w) => (inr (Some tasks), w)
  | None => (inr None, w)
  end.

(** [run_routing] up to the loops; [None] inside when the probes of the engine's
    port do not end. *)
Definition run_routing_start (config : KubeRouterConfig)
    : M W StartError (option RoutingTasks) :=
  kube_client config;;
  await_caches config [Nodes];;
  name ← this_node config;
  routing_tasks config name.

(** After the loops: the speaker is stopped, then its process. *)
Definition run_routing_end (tasks : RoutingTasks) (w : W) : W :=
  let w := match rt_engine tasks with
           | GobgpSelected => (bgp_stop (BgpEngine := Gobgp.grpc_engine) w).2
           | LoggingSelected => w
           end in
  match rt_supervisor tasks with
  | Some supervisor => (Server.terminate (supervisor, w)).2.2
  | None => w
  end.
End start.
