(* ===== verification/Loops.v ===== *)
(** * Loops: the sync loops of the controllers and their heartbeats

    [NetworkRoutesController::run] and [PodNetController::run] as functions of the
    stores their ticks find; which loops the process runs, which component each
    beats and how often it ticks; and when the turns of a loop end.  A timer is
    [tokio::time::interval]: its ticks are due every period from its creation, and
    one that was missed is delivered at once. *)

From stdpp Require Import gmap sets list strings pretty.
From Stdlib Require Import Ascii ZArith Lia.
From S2P Require Import Prelude Text Net Common K8s LbAlloc Netlink Bgp Grpc Routing Proxy ProxySync.
From S2P Require Import Netpol Synth Agent Genetlink Cni Wires Main Start.
Import Config Health Orchestrate.

Local Open Scope Z_scope.

(** ** The loops of the routing controllers *)

Section routes.
Context `{IpNetLib} {W : Type} `{!BgpEngine W}.
Import Routes.

(** One tick, with the nodes the store holds: a failure is logged, and the
    component is beaten. *)
Definition routes_tick (cfg : RoutesControllerConfig) (s : NrcState W) (nodes : list Peers.NodeBgp)
    : NrcState W :=
  (reconcile_and_apply cfg nodes s).2.

(** [NetworkRoutesController::run]: the external peers are applied once. *)
Definition routes_run (cfg : RoutesControllerConfig) (s : NrcState W)
    (ticks : list (list Peers.NodeBgp)) : NrcState W :=
  foldl (routes_tick cfg) (apply_external_peers s).2 ticks.

Definition controller_new (peers : list PeerConfig) (w : W) : NrcState W :=
  {| current_peers := []; external_peers := peers; external_applied := false; nrc_engine := w |}.
End routes.

Section podnet.
Context `{IpNetLib} {W : Type} `{!NetlinkOps W}.
Import PodNet.

Definition podnet_tick (local_name : string) (s : list Route * W) (nodes : list NodeRoute)
    : list Route * W :=
  (podnet_reconcile local_name nodes s).2.

(** [PodNetController::run] *)
Definition podnet_run (local_name : string) (w : W) (ticks : list (list NodeRoute))
    : list Route * W :=
  foldl (podnet_tick local_name) ([], w) ticks.
End podnet.

(** ** The loops of the process *)

Inductive Loop := RoutesLoop | PodNetLoop | InjectLoop | PolicyLoop | ServicesLoop | AllocatorLoop.
#[export] Instance Loop_eq_dec : EqDecision Loop.
Proof. solve_decision. Defined.

(** The component a loop beats at the end of each of its turns. *)
Definition beaten (l : Loop) : Component :=
  match l with
  | RoutesLoop => NetworkRoutes
  | PodNetLoop | InjectLoop => RouteSync
  | PolicyLoop => NetworkPolicy
  | ServicesLoop => NetworkServices
  | AllocatorLoop => LoadBalancer
  end.

(** The period of its timer. *)
Definition tick_period (config : KubeRouterConfig) (l : Loop) : Z :=
  match l with
  | RoutesLoop | PodNetLoop => routes_sync_period config
  | InjectLoop => injected_routes_sync_period config
  | PolicyLoop => iptables_sync_period config
  | ServicesLoop => ipvs_sync_period config
  | AllocatorLoop => loadbalancer_sync_period config
  end.

Section process_loops.
Context `{IpNetLib}.

(** The loops of the routing controller. *)
Definition routing_loops (tasks : RoutingTasks) : list Loop :=
  (match rt_controller tasks with Some _ => [RoutesLoop] | None => [] end) ++
  (match rt_inject tasks with Some _ => [InjectLoop] | None => [] end) ++
  (if rt_podnet tasks then [PodNetLoop] else []).

(** The loops of a process whose controllers have all started. *)
Definition process_loops (config : KubeRouterConfig) (tasks : RoutingTasks) : list Loop :=
  (if run_router config then routing_loops tasks else []) ++
  (if run_firewall config then [PolicyLoop] else []) ++
  (if run_service_proxy config then [ServicesLoop] else []) ++
  (if run_loadbalancer config then [AllocatorLoop] else []).
End process_loops.

(** ** The turns of a loop in time *)

(** What a turn answers: the tick that is due next, or an event at some time. *)
Inductive Woken := ByTick | ByEvent (at_ : Z).

(** A turn, with how long it took up to its heartbeat. *)
Record Turn := { woken : Woken; took : Z }.

(** A loop between two turns: when its next tick is due, and since when it waits. *)
Record LoopTime := { due : Z; idle : Z }.

(** A turn starts when its cause has come and the turn before it has ended. *)
Definition turn_start (s : LoopTime) (t : Turn) : Z :=
  match woken t with ByTick => Z.max (due s) (idle s) | ByEvent e => Z.max e (idle s) end.

(** Its heartbeat. *)
Definition turn_beat (s : LoopTime) (t : Turn) : Z := turn_start s t + took t.

Definition turn_next (period : Z) (s : LoopTime) (t : Turn) : LoopTime :=
  {| due := match woken t with ByTick => due s + period | ByEvent _ => due s end;
     idle := turn_beat s t |}.

Fixpoint beats (period : Z) (s : LoopTime) (turns : list Turn) : list Z :=
  match turns with
  | [] => []
  | t :: turns => turn_beat s t :: beats period (turn_next period s t) turns
  end.
Fixpoint after_turns (period : Z) (s : LoopTime) (turns : list Turn) : LoopTime :=
  match turns with
  | [] => s
  | t :: turns => after_turns period (turn_next period s t) turns
  end.

(** A loop that waits takes the tick when it is due. *)
Definition prompt (s : LoopTime) (t : Turn) : Prop := turn_start s t ≤ Z.max (due s) (idle s).
Fixpoint all_prompt (period : Z) (s : LoopTime) (turns : list Turn) : Prop :=
  match turns with
  | [] => True
  | t :: turns => prompt s t ∧ all_prompt period (turn_next period s t) turns
  end.
