(* ===== verification/HealthTheorems.v ===== *)
(** * HealthTheorems: when the process answers its probe with 200

    From the turns of the loops to [/healthz]: a process whose controllers run
    stays healthy as long as no turn takes much longer than its start did; and a
    process that does not find its own node never is. *)

From stdpp Require Import gmap sets list strings pretty.
From Stdlib Require Import Ascii ZArith Lia.
From S2P Require Import Prelude Text Net Common K8s LbAlloc Netlink Bgp Grpc Routing Proxy ProxySync.
From S2P Require Import Netpol Synth Agent Genetlink Cni Wires Main WireTheorems ProcessTheorems.
From S2P Require Import Start Loops.
Import Config Health Orchestrate.

Local Open Scope Z_scope.

(** ** One loop *)

(** A loop from its creation: the turns that have ended, and the one in progress or
    to come. *)
Record LoopRun := { created : Z; ended : list Turn; current : Turn }.

Definition run_start (r : LoopRun) : LoopTime := {| due := created r; idle := created r |}.
Definition run_turns (r : LoopRun) : list Turn := ended r ++ [current r].
Definition run_beats (period : Z) (r : LoopRun) : list Z := beats period (run_start r) (ended r).

(** The time from the registration to the first heartbeat. *)
Definition startup (registered : Z) (r : LoopRun) : Z :=
  match run_turns r with [] => 0 | t :: _ => turn_beat (run_start r) t - registered end.

(** A run up to [now]: the turn in progress ends later.  The start takes no longer
    than the period and the grace, and no turn longer than the start and the
    grace. *)
Record timely (registered period now : Z) (r : LoopRun) : Prop := {
  tm_created : registered ≤ created r;
  tm_prompt : all_prompt period (run_start r) (run_turns r);
  tm_startup : startup registered r ≤ period + GRACE;
  tm_took t : t ∈ run_turns r → 0 ≤ took t ≤ startup registered r + GRACE;
  tm_now : now < turn_beat (after_turns period (run_start r) (ended r)) (current r);
}.

Lemma beats_last period s turns :
  idle (after_turns period s turns) = default (idle s) (list.last (beats period s turns)).
Proof.
  revert s. induction turns as [|t turns IH]; intros s; [done|]. cbn [after_turns beats].
  rewrite IH. cbn [turn_next idle]. rewrite last_cons. by destruct (list.last _).
Qed.

Lemma all_prompt_app period s l t :
  all_prompt period s (l ++ [t]) → prompt (after_turns period s l) t.
Proof.
  revert s. induction l as [|u l IH]; intros s; cbn; [by intros [? _]|]. intros [_ ?]. by apply IH.
Qed.

(** The next tick is never due more than a period after the loop became idle. *)
Lemma due_soon period s turns :
  0 ≤ period → due s ≤ idle s + period → (∀ t, t ∈ turns → 0 ≤ took t) →
  due (after_turns period s turns) ≤ idle (after_turns period s turns) + period.
Proof.
  intros Hp. revert s. induction turns as [|t turns IH]; intros s Hs Ht; [done|].
  cbn [after_turns]. apply IH; [|set_solver]. pose proof (Ht t ltac:(set_solver)).
  unfold turn_next, turn_beat, turn_start. cbn. destruct (woken t); lia.
Qed.

(** A timely loop was heard of within the window of its component. *)
Lemma timely_heard registered period now r :
  0 ≤ period → timely registered period now r →
  since now (default registered (list.last (run_beats period r))) ≤
    period + default 0 ((λ b, since b registered) <$> head (run_beats period r)) + GRACE.
Proof.
  intros Hp [Hc Hprompt Hstart Htook Hnow]. unfold run_beats.
  apply all_prompt_app in Hprompt. unfold prompt in Hprompt. unfold turn_beat in Hnow.
  assert (0 ≤ took (current r) ≤ startup registered r + GRACE) as Hcur.
  { apply Htook. unfold run_turns. set_solver. }
  assert (due (after_turns period (run_start r) (ended r)) ≤
          idle (after_turns period (run_start r) (ended r)) + period) as Hdue.
  { apply due_soon; [done|cbn; lia|]. intros t Ht. apply Htook. unfold run_turns. set_solver. }
  rewrite beats_last in Hdue, Hprompt.
  unfold startup, run_turns in Hstart, Hcur. unfold GRACE, since in *.
  destruct (ended r) as [|t ts].
  - cbn in *. unfold turn_beat in *. lia.
  - cbn [app beats head fmap option_fmap option_map default from_option] in *.
    rewrite last_cons in *.
    destruct (list.last (beats _ _ ts)) as [b|]; cbn in *; lia.
Qed.

(** ** The registrations and heartbeats of a process *)

(** The heartbeats of a component, in order. *)
Definition beats_of (bs : list (Component * Z)) (c : Component) : list Z :=
  (filter (λ b, b.1 = c) bs).*2.

Lemma no_beats bs c : (∀ b, b ∈ bs → b.1 ≠ c) → beats_of bs c = [].
Proof.
  intros Hb. unfold beats_of. induction bs as [|b bs IH]; [done|].
  rewrite filter_cons_False by (apply Hb; by left). apply IH. intros x Hx. apply Hb. by right.
Qed.

Definition beat_event (b : Component * Z) : Event := Beat b.1 b.2.

Lemma register_all_steps components now evs :
  foldl step (register_all components now) evs =
  foldl step ∅ (((λ c : Component * Z, Registered c.1 c.2 now) <$> components) ++ evs).
Proof.
  rewrite foldl_app. f_equal. unfold register_all.
  generalize (∅ : gmap Component ComponentHealth) as h.
  induction components as [|c cs IH]; intros h; [done|]. cbn. by rewrite IH.
Qed.

Lemma history_of_beats (bs : list (Component * Z)) c h :
  foldl (history_step c) h (beat_event <$> bs) =
  (λ x, (x.1, x.2 ++ beats_of bs c)) <$> h.
Proof.
  revert h. induction bs as [|[c' t] bs IH]; intros h.
  - destruct h as [[? ?]|]; [|done]. cbn. by rewrite app_nil_r.
  - cbn [fmap list_fmap foldl]. rewrite IH. unfold beats_of. cbn [beat_event history_step fst snd].
    destruct (decide (c' = c)) as [->|].
    + rewrite filter_cons_True by done. destruct h as [[? ?]|]; [|done]. cbn. by rewrite <- app_assoc.
    + by rewrite filter_cons_False.
Qed.

Lemma history_of_registrations (components : list (Component * Z)) now c h :
  NoDup components.*1 →
  foldl (history_step c) h ((λ c : Component * Z, Registered c.1 c.2 now) <$> components) =
  match list_find (λ x, x.1 = c) components with
  | Some (_, x) => Some (now, x.2, [])
  | None => h
  end.
Proof.
  revert h. induction components as [|[c' p] cs IH]; intros h Hnd; [done|].
  cbn [fmap list_fmap] in Hnd. apply NoDup_cons in Hnd as [Hn Hnd].
  cbn [fmap list_fmap foldl]. rewrite IH by done. cbn [history_step fst snd list_find].
  destruct (decide (c' = c)) as [->|Hne].
  - destruct (list_find _ cs) as [[i [c2 p2]]|] eqn:Hf; [|done].
    apply list_find_Some in Hf as (Hi & Hc & _). cbn in Hc. subst c2.
    destruct Hn. apply list_elem_of_fmap. exists (c, p2). split; [done|].
    by eapply list_elem_of_lookup_2.
  - by destruct (list_find _ cs) as [[]|].
Qed.

Lemma history_of_process components now bs c t period hist :
  NoDup components.*1 →
  history (((λ c : Component * Z, Registered c.1 c.2 now) <$> components) ++ (beat_event <$> bs)) c
    = Some (t, period, hist) ↔
  (c, period) ∈ components ∧ t = now ∧ hist = beats_of bs c.
Proof.
  intros Hnd. unfold history. rewrite foldl_app, history_of_registrations, history_of_beats by done.
  destruct (list_find _ components) as [[i [c' p]]|] eqn:Hf.
  - apply list_find_Some in Hf as (Hi & Hc & _). cbn in Hc. subst c'. cbn. split.
    + intros [= <- <- <-]. split_and!; try done. by eapply list_elem_of_lookup_2.
    + intros (Hin & -> & ->). do 3 f_equal. apply list_elem_of_lookup in Hin as [j Hj].
      assert (i = j) as ->; [|congruence].
      eapply NoDup_lookup; [exact Hnd| |]; rewrite list_lookup_fmap, ?Hi, ?Hj; done.
  - split; [done|]. intros (Hin & _). apply list_find_None in Hf.
    rewrite Forall_forall in Hf. by destruct (Hf _ Hin).
Qed.

Lemma components_distinct config : NoDup (components_for config).*1.
Proof.
  unfold components_for. apply (bool_decide_unpack _).
  by destruct (run_router config), (run_firewall config), (run_service_proxy config),
    (run_loadbalancer config).
Qed.

(** ** The process *)

Section process.
Context `{IpNetLib} `{!JsonText, !Annotations.PeersYaml, !ExternalPeers.PeerEntriesYaml} {W : Type}.
Context `{!FileOps W, !Cni.DirOps W, !CommandRunner W}.
Context `{!Gobgp.GoBgpServiceClient W, !Gobgp.Endpoints, !Server.ProcessOps W}.

(** What the choice of the engine decides about the loops. *)
Lemma start_routing_tasks config nodes name (w w' : W) (tasks : RoutingTasks (H := H)) :
  start_routing config nodes name w = Some (tasks, w') →
  rt_controller tasks = build_controller config nodes name ∧
  match rt_engine tasks with
  | GobgpSelected => is_Some (rt_inject tasks) ∧ rt_podnet tasks = false
  | LoggingSelected => rt_inject tasks = None ∧ rt_podnet tasks = true
  end.
Proof.
  unfold start_routing. destruct (build_engine _ _ _) as [[[e sup] w1]|]; [|done].
  cbn [mbind option_bind]. intros [= <- _]. cbn. split; [done|]. by destruct e.
Qed.

Lemma build_controller_known config nodes name :
  is_Some (build_controller config nodes name) ↔
  is_Some (RoutingWire.local_node nodes (cluster_asn config) name).
Proof.
  unfold build_controller. destruct (RoutingWire.local_node _ _ _); cbn; naive_solver.
Qed.

Lemma inject_loop_absent config (tasks : RoutingTasks (H := H)) :
  rt_inject tasks = None → InjectLoop ∉ process_loops config tasks.
Proof.
  unfold process_loops, routing_loops. intros ->. rewrite !elem_of_app.
  destruct (run_router config), (rt_controller tasks), (rt_podnet tasks), (run_firewall config),
    (run_service_proxy config), (run_loadbalancer config); set_solver.
Qed.

Lemma podnet_loop_present config (tasks : RoutingTasks (H := H)) :
  run_router config = true → rt_podnet tasks = true → PodNetLoop ∈ process_loops config tasks.
Proof. unfold process_loops, routing_loops. intros -> ->. set_solver. Qed.

Lemma policy_loop_present config (tasks : RoutingTasks (H := H)) :
  run_firewall config = true → PolicyLoop ∈ process_loops config tasks.
Proof. unfold process_loops. intros ->. set_solver. Qed.

Lemma routes_loop_absent config (tasks : RoutingTasks (H := H)) :
  rt_controller tasks = None → RoutesLoop ∉ process_loops config tasks.
Proof.
  unfold process_loops, routing_loops. intros ->. rewrite !elem_of_app.
  destruct (run_router config), (rt_inject tasks), (rt_podnet tasks), (run_firewall config),
    (run_service_proxy config), (run_loadbalancer config); set_solver.
Qed.

(** Every registered component is beaten by a loop whose timer is no slower than
    its window. *)
Lemma components_covered config nodes name (w w' : W) (tasks : RoutingTasks (H := H)) c period :
  (run_router config = true →
     start_routing config nodes name w = Some (tasks, w') ∧
     is_Some (RoutingWire.local_node nodes (cluster_asn config) name) ∧
     (rt_engine tasks = GobgpSelected →
        injected_routes_sync_period config ≤ routes_sync_period config)) →
  (c, period) ∈ components_for config →
  ∃ l, l ∈ process_loops config tasks ∧ beaten l = c ∧ tick_period config l ≤ period.
Proof.
  intros Hr Hc. unfold components_for in Hc. unfold process_loops.
  rewrite !elem_of_app in Hc. setoid_rewrite elem_of_app. setoid_rewrite elem_of_app.
  setoid_rewrite elem_of_app.
  destruct Hc as [Hc|[Hc|[Hc|Hc]]].
  - destruct (run_router config); [|by apply elem_of_nil in Hc].
    destruct (Hr eq_refl) as (Hs & Hn & Hp).
    destruct (start_routing_tasks _ _ _ _ _ _ Hs) as [Hct He].
    apply (build_controller_known config nodes name) in Hn. rewrite <- Hct in Hn. unfold routing_loops.
    setoid_rewrite elem_of_app. setoid_rewrite elem_of_app.
    apply elem_of_cons in Hc as [[= -> ->]|[= -> ->]%list_elem_of_singleton].
    + exists RoutesLoop. destruct Hn as [x ->]. split; [left; left; left|]. by split; cbn.
    + destruct (rt_engine tasks).
      * exists PodNetLoop. destruct He as [_ ->]. split; [left; right; right; left|]. by split; cbn.
      * exists InjectLoop. destruct He as [[i ->] _]. split; [left; right; left; left|].
        split; [done|]. cbn. by apply Hp.
  - destruct (run_firewall config); [|by apply elem_of_nil in Hc].
    apply list_elem_of_singleton in Hc as [= -> ->]. exists PolicyLoop.
    split; [right; left; left|]. by split; cbn.
  - destruct (run_service_proxy config); [|by apply elem_of_nil in Hc].
    apply list_elem_of_singleton in Hc as [= -> ->]. exists ServicesLoop.
    split; [right; right; left; left|]. by split; cbn.
  - destruct (run_loadbalancer config); [|by apply elem_of_nil in Hc].
    apply list_elem_of_singleton in Hc as [= -> ->]. exists AllocatorLoop.
    split; [right; right; right; left|]. by split; cbn.
Qed.

(** C14: A process whose controllers have started, on a node that its store knows, and
    with gobgp whose routes are resynchronised no less often than the peers,
    answers its probe with 200 at every moment: as long as each loop gets to its
    first heartbeat within its period and the grace, and no turn takes longer than
    that start and the grace.  Failed passes and events in between do not matter. *)
Theorem process_healthy config nodes name (w w' : W) (tasks : RoutingTasks (H := H))
    registered now runs (bs : list (Component * Z)) :
  (run_router config = true →
     start_routing config nodes name w = Some (tasks, w') ∧
     is_Some (RoutingWire.local_node nodes (cluster_asn config) name) ∧
     (rt_engine tasks = GobgpSelected →
        injected_routes_sync_period config ≤ routes_sync_period config)) →
  (∀ l, 0 ≤ tick_period config l) →
  (∀ l, l ∈ process_loops config tasks →
     timely registered (tick_period config l) now (runs l) ∧
     beats_of bs (beaten l) = run_beats (tick_period config l) (runs l)) →
  healthz_response (foldl step (register_all (components_for config) registered)
                      (beat_event <$> bs)) now = (200, "OK").
Proof.
  intros Hr Hpos Hruns. rewrite register_all_steps.
  destruct (healthz_correct (((λ c : Component * Z, Registered c.1 c.2 registered) <$>
              components_for config) ++ (beat_event <$> bs)) now)
    as [[Hok _]|[_ (c & t & period & hist & Hh & Hlate)]]; [done|]. exfalso.
  apply history_of_process in Hh as (Hin & -> & ->); [|apply components_distinct].
  destruct (components_covered config nodes name w w' tasks c period Hr Hin) as (l & Hl & <- & Hle).
  destruct (Hruns l Hl) as [Ht Hb]. rewrite Hb in Hlate.
  pose proof (timely_heard _ _ _ _ (Hpos l) Ht). lia.
Qed.

(** C38: A process that does not find its own node in the store still registers the
    route controller, which it then does not run: once the window has passed, the
    probe answers 500 whatever the other loops do. *)
Theorem unknown_node_unhealthy config nodes name (w w' : W) (tasks : RoutingTasks (H := H))
    registered now (bs : list (Component * Z)) :
  run_router config = true →
  start_routing config nodes name w = Some (tasks, w') →
  RoutingWire.local_node nodes (cluster_asn config) name = None →
  (∀ b, b ∈ bs → ∃ l, l ∈ process_loops config tasks ∧ beaten l = b.1) →
  registered + routes_sync_period config + GRACE < now → 0 ≤ routes_sync_period config →
  healthz_response (foldl step (register_all (components_for config) registered)
                      (beat_event <$> bs)) now = (500, "Unhealthy").
Proof.
  intros Hr Hs Hn Hbs Hlate Hpos. rewrite register_all_steps.
  destruct (healthz_correct (((λ c : Component * Z, Registered c.1 c.2 registered) <$>
              components_for config) ++ (beat_event <$> bs)) now)
    as [[_ Hall]|[Hbad _]]; [|done]. exfalso.
  assert (beats_of bs NetworkRoutes = []) as Hnone.
  { apply no_beats. intros b Hb Heq.
    destruct (Hbs b Hb) as (l & Hl & Hbeat). rewrite Heq in Hbeat.
    destruct l; try done. destruct (start_routing_tasks _ _ _ _ _ _ Hs) as [Hct _].
    assert (rt_controller tasks = None) as Hc.
    { apply eq_None_not_Some. intros [x Hx]. rewrite Hct in Hx.
      assert (is_Some (build_controller config nodes name)) as Hk%build_controller_known by eauto.
      rewrite Hn in Hk. by destruct Hk. }
    by apply (routes_loop_absent config tasks Hc). }
  assert (history (((λ c : Component * Z, Registered c.1 c.2 registered) <$> components_for config)
            ++ (beat_event <$> bs)) NetworkRoutes =
          Some (registered, routes_sync_period config, [])) as Hh.
  { apply history_of_process; [apply components_distinct|]. rewrite Hnone. split_and!; try done.
    unfold components_for. rewrite Hr. left. }
  specialize (Hall _ _ _ _ Hh). cbn in Hall. unfold since, GRACE in *. lia.
Qed.
End process.

(** *** A resynchronisation slower than the peers *)

Section slow.
(** With gobgp, only [--injected-routes-sync-period] and route events beat
    [RouteSync], whose window is [--routes-sync-period]: without events, a slower
    timer misses every window. *)
Lemma slow_resync_unhealthy (routes injected : Z) :
  0 ≤ routes → routes + GRACE < injected - 1 →
  let r := {| created := 0; ended := [{| woken := ByTick; took := 0 |}];
              current := {| woken := ByTick; took := 0 |} |} in
  timely 0 injected (injected - 1) r ∧
  healthz_response (foldl step (register_all [(RouteSync, routes)] 0)
    (beat_event ∘ pair RouteSync <$> run_beats injected r)) (injected - 1) = (500, "Unhealthy").
Proof.
  intros Hr Hi r. split.
  - unfold GRACE in Hi.
    assert (∀ t, t ∈ run_turns r → took t = 0) as Ht by (intros t; unfold run_turns; set_solver).
    split; cbn; unfold prompt, turn_beat, turn_start, GRACE; cbn; try lia.
    intros t Htk. rewrite (Ht t Htk). lia.
  - rewrite register_all_steps.
    destruct (healthz_correct (((λ c : Component * Z, Registered c.1 c.2 0) <$> [(RouteSync, routes)])
               ++ (beat_event ∘ pair RouteSync <$> run_beats injected r)) (injected - 1))
      as [[_ Hall]|[Hbad _]]; [|exact Hbad]. exfalso.
    specialize (Hall RouteSync 0 routes [0] eq_refl). cbn in Hall. unfold since, GRACE in *. lia.
Qed.
End slow.

(** ** A node whose gobgpd does not answer *)

Module Probe.
Import Node.
Local Existing Instance ref_net_lib.

#[local] Instance no_json : JsonText := {| json_parse _ := None; json_print _ := "" |}.
#[local] Instance no_peers : Annotations.PeersYaml := {| Annotations.yaml_external_peers _ := None |}.
#[local] Instance no_entries : ExternalPeers.PeerEntriesYaml :=
  {| ExternalPeers.yaml_peer_entries _ := inr [] |}.
#[local] Instance deaf_writes : FileOps Deaf := {| fs_write _ _ := mret tt |}.
#[local] Instance deaf_commands : CommandRunner Deaf :=
  {| run_command _ _ _ w := (inr (true, "", ""), w) |}.

Definition this_node : K8sNode :=
  {| node_meta := {| m_namespace := None; m_name := Some "node1"; m_labels := None;
                     m_annotations := None |};
     node_status_addresses := Some [{| addr_type := "InternalIP"; addr_address := "192.168.0.10" |}];
     node_spec := Some (Some ["10.244.0.0/24"], None) |}.

Local Notation outcome nodes := (start_routing two_ranges nodes "node1" boot).

(** Loops whose turns take a tenth of a second, except a start of two. *)
Definition steady (period : Z) : LoopRun :=
  {| created := 1000; ended := [{| woken := ByTick; took := 2000 |};
                                {| woken := ByEvent 5000; took := 100 |};
                                {| woken := ByTick; took := 100 |}];
     current := {| woken := ByTick; took := 100 |} |}.
Definition steady_run (l : Loop) : LoopRun := steady (tick_period two_ranges l).
Definition steady_beats : list (Component * Z) :=
  [RoutesLoop; PodNetLoop; PolicyLoop; ServicesLoop; AllocatorLoop] ≫= λ l,
    pair (beaten l) <$> run_beats (tick_period two_ranges l) (steady_run l).

Lemma steady_timely l : timely 0 (tick_period two_ranges l) 61050 (steady_run l).
Proof.
  split.
  - done.
  - destruct l; vm_compute; by repeat split.
  - destruct l; by vm_compute.
  - intros t Ht. unfold run_turns in Ht. cbn in Ht. unfold startup, steady_run, GRACE. cbn.
    repeat (apply elem_of_cons in Ht as [->|Ht]; [cbn; unfold turn_beat; cbn; lia|]).
    by apply elem_of_nil in Ht.
  - destruct l; by vm_compute.
Qed.

Lemma steady_beats_of l :
  l ≠ InjectLoop → beats_of steady_beats (beaten l) = run_beats (tick_period two_ranges l) (steady_run l).
Proof. by destruct l. Qed.

(** The probes of the port take ten seconds, and the engine is the logging one. *)
Definition engine_of (o : option (RoutingTasks * Deaf)) : SelectedEngine :=
  match o with Some (tasks, _) => rt_engine tasks | None => GobgpSelected end.

Lemma logging_outcome nodes :
  engine_of (outcome nodes) = LoggingSelected →
  ∃ tasks w', outcome nodes = Some (tasks, w') ∧ rt_engine tasks = LoggingSelected.
Proof. destruct (outcome nodes) as [[tasks w']|]; [|done]. intros He. by exists tasks, w'. Qed.

Lemma process_healthy_witness :
  ∃ tasks w', outcome [this_node] = Some (tasks, w') ∧
    healthz_response (foldl step (register_all (components_for two_ranges) 0)
                        (beat_event <$> steady_beats)) 61050 = (200, "OK").
Proof.
  destruct (logging_outcome [this_node]) as (tasks & w' & Ho & He); [by vm_compute|].
  exists tasks, w'. split; [done|].
  apply (process_healthy two_ranges [this_node] "node1" boot w' tasks 0 61050 steady_run).
  - intros _. split; [exact Ho|]. split; [eexists; reflexivity|]. rewrite He. discriminate.
  - intros []; done.
  - intros l Hl. split; [apply steady_timely|]. apply steady_beats_of. intros ->.
    destruct (start_routing_tasks _ _ _ _ _ _ Ho) as [_ Ht]. rewrite He in Ht.
    by apply (inject_loop_absent two_ranges tasks (proj1 Ht)).
Defined.

Lemma unknown_node_unhealthy_witness :
  ∃ tasks w', outcome [] = Some (tasks, w') ∧
    healthz_response (foldl step (register_all (components_for two_ranges) 0)
                        (beat_event <$> [(RouteSync, 301000); (NetworkPolicy, 301000)])) 302000 =
      (500, "Unhealthy").
Proof.
  destruct (logging_outcome []) as (tasks & w' & Ho & He); [by vm_compute|].
  exists tasks, w'. split; [done|].
  apply (unknown_node_unhealthy two_ranges [] "node1" boot w' tasks 0 302000 _ eq_refl Ho);
    [reflexivity| |reflexivity|discriminate].
  destruct (start_routing_tasks _ _ _ _ _ _ Ho) as [_ Hp]. rewrite He in Hp. destruct Hp as [_ Hp].
  clear Ho He. intros b [->|[->|[]%elem_of_nil]%elem_of_cons]%elem_of_cons.
  - exists PodNetLoop. split; [|reflexivity]. by apply podnet_loop_present.
  - exists PolicyLoop. split; [|reflexivity]. by apply policy_loop_present.
Defined.
End Probe.
